(** * ITCH 5.0 feed handler: decoder, order index, order book, book manager

    A shallow embedding of the C++ sources (common.hpp, message_types.hpp,
    itch_parser.hpp, order_book.hpp, feed_handler.hpp) and the properties
    proved about them.

    Modelling conventions.
    - Fixed-width values are integers in [Z].  [Quantity] (uint32) and the
      64-bit statistics counters wrap; the wrap is written out with
      [wrap32] / [wrap64].  [std::size_t] values that count or index objects
      resident in memory (table capacity and load, order counts, slot
      indices) stay far below 2^64 and are kept exact; their decrements
      are applied to positive values on the states considered (see
      [om_ok], [level_ok] and [order_count_pos]).
    - [Order*] is [option ptr]: [None] is [nullptr], [Some p] is the address
      of pool slot [p].  The records behind the pointers live in one store
      owned by the pool, so that every holder of a pointer sees the same
      record.
    - The [while] loops of the open-addressing table are fixpoints over an
      iteration budget; [None] stands for a loop that never meets an empty
      slot, and for an index outside a vector where the code indexes
      without a check.
    - Part I is the program, Part II the vocabulary of its properties
      (invariants, reachable states, concrete inputs), Part III the
      theory; the numbered statements C1 to C10 are in Part III. *)

(** The statements X1 onwards, which follow C1 to C10 in Part III, cover the
    functions around those: byte order and symbols, the parse loops and
    MoldUDP64 packets, the order index and the pool, the operations of a
    book, the books of a manager over their shared pool, the callbacks and
    the buffer entry points of the orchestrator, the symbol directory and
    the latency histogram. *)

From stdpp Require Import base numbers option list strings gmap.
From Stdlib Require Import ZArith Lia Bool.

Local Open Scope Z_scope.

(* ===================================================================== *)
(** * Part I: the program *)
(* ===================================================================== *)

(** ** common.hpp: fixed-size types *)

Definition wrap32 (x : Z) : Z := x mod 2 ^ 32.
Definition wrap64 (x : Z) : Z := x mod 2 ^ 64.

(** [Order*]: the address of a pool slot. *)
Definition ptr : Type := Z.

(** ** order_book.hpp: OrderMap, the linear-probing index *)

Module OrderMap.

Record Entry : Type := mkEntry {
  id : Z;                (* OrderId, 0 marks an empty slot *)
  order : option ptr     (* Order* *)
}.

Record t : Type := mk {
  entries_ : list Entry;
  capacity_ : Z;
  mask_ : Z;
  load_ : Z
}.

Definition empty_entry : Entry := mkEntry 0 None.

(** [entries_[i]] and [entries_[i] = e]. *)
Definition at_ (es : list Entry) (i : Z) : Entry :=
  default empty_entry (es !! Z.to_nat i).
Definition set_ (es : list Entry) (i : Z) (e : Entry) : list Entry :=
  <[Z.to_nat i := e]> es.

(** [static_cast<std::size_t>(id)] *)
Definition hash (i : Z) : Z := i.

(** Iteration budget of the probing loops: one more than the number of
    slots. *)
Definition budget (es : list Entry) : nat := S (length es).

Fixpoint find_loop (fuel : nat) (es : list Entry) (mask i idx : Z)
  : option (option ptr) :=
  match fuel with
  | O => None
  | S fuel' =>
      if id (at_ es idx) =? 0 then Some None
      else if id (at_ es idx) =? i then Some (order (at_ es idx))
      else find_loop fuel' es mask i (Z.land (idx + 1) mask)
  end.

Definition find (m : t) (i : Z) : option (option ptr) :=
  find_loop (budget (entries_ m)) (entries_ m) (mask_ m) i
            (Z.land (hash i) (mask_ m)).

(** [while (entries_[idx].id != 0) idx = (idx + 1) & mask_;] *)
Fixpoint probe_loop (fuel : nat) (es : list Entry) (mask idx : Z) : option Z :=
  match fuel with
  | O => None
  | S fuel' =>
      if id (at_ es idx) =? 0 then Some idx
      else probe_loop fuel' es mask (Z.land (idx + 1) mask)
  end.

(** [cap = 1; while (cap < new_cap) cap <<= 1;] *)
Fixpoint pow2_loop (fuel : nat) (cap new_cap : Z) : Z :=
  match fuel with
  | O => cap
  | S fuel' => if cap <? new_cap then pow2_loop fuel' (cap * 2) new_cap else cap
  end.

(** The re-insertion loop of [resize] over the old entries. *)
Fixpoint reinsert (old : list Entry) (es : list Entry) (mask ld : Z)
  : option (list Entry * Z) :=
  match old with
  | [] => Some (es, ld)
  | e :: old' =>
      if id e =? 0 then reinsert old' es mask ld
      else
        match probe_loop (budget es) es mask (Z.land (hash (id e)) mask) with
        | None => None
        | Some idx => reinsert old' (set_ es idx e) mask (ld + 1)
        end
  end.

Definition resize (m : t) (new_cap : Z) : option t :=
  let cap := pow2_loop (S (Z.to_nat (Z.log2_up new_cap))) 1 new_cap in
  match reinsert (entries_ m) (replicate (Z.to_nat cap) empty_entry) (cap - 1) 0 with
  | None => None
  | Some (es, ld) => Some (mk es cap (cap - 1) ld)
  end.

(** [explicit OrderMap(std::size_t initial_capacity = 100000)] *)
Definition DEFAULT_INITIAL_CAPACITY : Z := 100000.

Definition new_with (initial_capacity : Z) : option t :=
  resize (mk [] 0 0 0) initial_capacity.

Definition put (m : t) (i : Z) (o : option ptr) : option t :=
  match (if capacity_ m <=? load_ m * 2 then resize m (capacity_ m * 2) else Some m) with
  | None => None
  | Some m1 =>
      match probe_loop (budget (entries_ m1)) (entries_ m1) (mask_ m1)
                       (Z.land (hash i) (mask_ m1)) with
      | None => None
      | Some idx =>
          Some (mk (set_ (entries_ m1) idx (mkEntry i o))
                   (capacity_ m1) (mask_ m1) (load_ m1 + 1))
      end
  end.

(** The inner loop of [remove]: backward shift of the probe cluster that
    follows the cleared slot [curr]. *)
Definition moves_back (curr next desired : Z) : bool :=
  ((curr <? next) && ((desired <=? curr) || (next <? desired)))
  || ((next <? curr) && ((desired <=? curr) && (next <? desired))).

Fixpoint backshift (fuel : nat) (es : list Entry) (mask curr next : Z)
  : option (list Entry) :=
  match fuel with
  | O => None
  | S fuel' =>
      if id (at_ es next) =? 0 then Some es
      else
        let desired := Z.land (hash (id (at_ es next))) mask in
        if negb (moves_back curr next desired) then
          backshift fuel' es mask curr (Z.land (next + 1) mask)
        else
          let es1 := set_ es curr (at_ es next) in
          let es2 := set_ es1 next (mkEntry 0 (order (at_ es1 next))) in
          backshift fuel' es2 mask next (Z.land (next + 1) mask)
  end.

Fixpoint remove_loop (fuel : nat) (es : list Entry) (mask ld i idx : Z)
  : option (list Entry * Z) :=
  match fuel with
  | O => None
  | S fuel' =>
      if id (at_ es idx) =? 0 then Some (es, ld)
      else if id (at_ es idx) =? i then
        let es1 := set_ es idx (mkEntry 0 (order (at_ es idx))) in
        match backshift (budget es) es1 mask idx (Z.land (idx + 1) mask) with
        | None => None
        | Some es2 => Some (es2, ld - 1)
        end
      else remove_loop fuel' es mask ld i (Z.land (idx + 1) mask)
  end.

Definition remove (m : t) (i : Z) : option t :=
  match remove_loop (budget (entries_ m)) (entries_ m) (mask_ m) (load_ m) i
                    (Z.land (hash i) (mask_ m)) with
  | None => None
  | Some (es, ld) => Some (mk es (capacity_ m) (mask_ m) ld)
  end.

Definition clear (m : t) : t :=
  mk (replicate (length (entries_ m)) empty_entry) (capacity_ m) (mask_ m) 0.

End OrderMap.

(** ** common.hpp: byte order and sides *)

Module endian.

(** [__builtin_bswap16 / 32 / 64] (the portable forms of the header). *)
Definition be16_to_host (value : Z) : Z :=
  Z.land (Z.lor (Z.shiftr value 8) (Z.shiftl value 8)) 65535.

Definition be32_to_host (value : Z) : Z :=
  Z.lor (Z.lor (Z.lor
    (Z.land (Z.shiftr value 24) 255)
    (Z.land (Z.shiftr value 8) 65280))
    (Z.land (Z.shiftl value 8) 16711680))
    (Z.land (Z.shiftl value 24) 4278190080).

Definition be64_to_host (value : Z) : Z :=
  Z.lor (Z.lor (Z.lor (Z.lor (Z.lor (Z.lor (Z.lor
    (Z.land (Z.shiftr value 56) 255)
    (Z.land (Z.shiftr value 40) 65280))
    (Z.land (Z.shiftr value 24) 16711680))
    (Z.land (Z.shiftr value 8) 4278190080))
    (Z.land (Z.shiftl value 8) 1095216660480))
    (Z.land (Z.shiftl value 24) 280375465082880))
    (Z.land (Z.shiftl value 40) 71776119061217280))
    (Z.land (Z.shiftl value 56) 18374686479671623680).

(** [data[i]] of a byte buffer (bytes are 0..255). *)
Definition byte_at (data : list Z) (i : Z) : Z := default 0 (data !! Z.to_nat i).

(** [be48_to_host(data + off)] *)
Definition be48_to_host (data : list Z) (off : Z) : Z :=
  Z.lor (Z.lor (Z.lor (Z.lor (Z.lor
    (Z.shiftl (byte_at data off) 40)
    (Z.shiftl (byte_at data (off + 1)) 32))
    (Z.shiftl (byte_at data (off + 2)) 24))
    (Z.shiftl (byte_at data (off + 3)) 16))
    (Z.shiftl (byte_at data (off + 4)) 8))
    (byte_at data (off + 5)).

(** Reading a packed struct field of 2, 4 or 8 bytes at offset [off]: the
    host is little-endian (x86), so the field holds the wire bytes in
    reversed significance until [beNN_to_host] is applied. *)
Definition load16 (data : list Z) (off : Z) : Z :=
  byte_at data off + Z.shiftl (byte_at data (off + 1)) 8.
Definition load32 (data : list Z) (off : Z) : Z :=
  load16 data off + Z.shiftl (load16 data (off + 2)) 16.
Definition load64 (data : list Z) (off : Z) : Z :=
  load32 data off + Z.shiftl (load32 data (off + 4)) 32.

End endian.

(** [enum class Side : char { Buy = 'B', Sell = 'S' }]; [char_to_side] is a
    cast, so a side is the byte it was read from. *)
Definition Side : Type := Z.
Definition Side_Buy : Side := 66.
Definition Side_Sell : Side := 83.
Definition char_to_side (c : Z) : Side := c.
Definition is_buy (s : Side) : bool := s =? Side_Buy.

(** ** common.hpp: Symbol and SymbolHash *)

Module Symbol.
(** [char data[8]], as the 8 byte values. *)
Definition t : Type := list Z.

(** [std::memcmp]: the sign of the first difference of the bytes, compared
    as unsigned values. *)
Fixpoint memcmp (a b : list Z) : Z :=
  match a, b with
  | x :: a', y :: b' =>
      if x <? y then -1 else if y <? x then 1 else memcmp a' b'
  | _, _ => 0
  end.

Definition eq (a b : t) : bool := memcmp a b =? 0.        (* operator== *)
Definition ne (a b : t) : bool := negb (eq a b).          (* operator!= *)
Definition lt (a b : t) : bool := memcmp a b <? 0.        (* operator<  *)

(** [std::memcpy(sym.data, src + off, 8)] *)
Definition of_bytes (data : list Z) (off : Z) : t :=
  (fun i => endian.byte_at data (off + i)) <$> seqZ 0 8.
End Symbol.

(** [SymbolHash::operator()]: a 64-bit load of the bytes, then the mixing
    steps on [std::uint64_t]. *)
Definition SymbolHash (s : Symbol.t) : Z :=
  let val := endian.load64 s 0 in
  let val := Z.lxor val (Z.shiftr val 33) in
  let val := wrap64 (val * 18397679294719823053) in    (* 0xff51afd7ed558ccd *)
  let val := Z.lxor val (Z.shiftr val 33) in
  let val := wrap64 (val * 14181476777654086739) in    (* 0xc4ceb9fe1a85ec53 *)
  Z.lxor val (Z.shiftr val 33).

(** ** message_types.hpp *)

Inductive MessageType : Type :=
  | SystemEvent | StockDirectory | StockTradingAction | RegSHORestriction
  | MarketParticipantPos | MWCBDeclineLevel | MWCBStatus | IPOQuotingPeriod
  | LULDAuctionCollar | OperationalHalt
  | AddOrder | AddOrderMPID | OrderExecuted | OrderExecutedPrice | OrderCancel
  | OrderDelete | OrderReplace
  | Trade | CrossTrade | BrokenTrade
  | NOII | RPII.

(** The [switch] shared by [get_message_size] and the dispatchers: the
    variant of a type tag, [None] for the [default] branch. *)
Definition message_type_of (type : Z) : option MessageType :=
  if type =? 83 then Some SystemEvent               (* 'S' *)
  else if type =? 82 then Some StockDirectory       (* 'R' *)
  else if type =? 72 then Some StockTradingAction   (* 'H' *)
  else if type =? 89 then Some RegSHORestriction    (* 'Y' *)
  else if type =? 76 then Some MarketParticipantPos (* 'L' *)
  else if type =? 86 then Some MWCBDeclineLevel     (* 'V' *)
  else if type =? 87 then Some MWCBStatus           (* 'W' *)
  else if type =? 75 then Some IPOQuotingPeriod     (* 'K' *)
  else if type =? 74 then Some LULDAuctionCollar    (* 'J' *)
  else if type =? 104 then Some OperationalHalt     (* 'h' *)
  else if type =? 65 then Some AddOrder             (* 'A' *)
  else if type =? 70 then Some AddOrderMPID         (* 'F' *)
  else if type =? 69 then Some OrderExecuted        (* 'E' *)
  else if type =? 67 then Some OrderExecutedPrice   (* 'C' *)
  else if type =? 88 then Some OrderCancel          (* 'X' *)
  else if type =? 68 then Some OrderDelete          (* 'D' *)
  else if type =? 85 then Some OrderReplace         (* 'U' *)
  else if type =? 80 then Some Trade                (* 'P' *)
  else if type =? 81 then Some CrossTrade           (* 'Q' *)
  else if type =? 66 then Some BrokenTrade          (* 'B' *)
  else if type =? 73 then Some NOII                 (* 'I' *)
  else if type =? 78 then Some RPII                 (* 'N' *)
  else None.

(** [sizeof] of the packed message structs. *)
Definition sizeof_message (t : MessageType) : Z :=
  match t with
  | SystemEvent => 12 | StockDirectory => 39 | StockTradingAction => 25
  | RegSHORestriction => 20 | MarketParticipantPos => 26 | MWCBDeclineLevel => 35
  | MWCBStatus => 12 | IPOQuotingPeriod => 28 | LULDAuctionCollar => 35
  | OperationalHalt => 21
  | AddOrder => 36 | AddOrderMPID => 40 | OrderExecuted => 31
  | OrderExecutedPrice => 36 | OrderCancel => 23 | OrderDelete => 19
  | OrderReplace => 35
  | Trade => 44 | CrossTrade => 40 | BrokenTrade => 19
  | NOII => 50 | RPII => 20
  end.

Definition get_message_size (type : Z) : Z :=
  match message_type_of type with
  | Some t => sizeof_message t
  | None => 0
  end.

(** [is_valid_message_type]: its own [switch], with the case labels in the
    order of the source. *)
Definition is_valid_message_type (c : Z) : bool :=
  (c =? 83) || (c =? 82) || (c =? 72) || (c =? 89) || (c =? 76)      (* S R H Y L *)
  || (c =? 86) || (c =? 87) || (c =? 75) || (c =? 74) || (c =? 104)  (* V W K J h *)
  || (c =? 65) || (c =? 70) || (c =? 69) || (c =? 67) || (c =? 88)   (* A F E C X *)
  || (c =? 68) || (c =? 85) || (c =? 80) || (c =? 81) || (c =? 66)   (* D U P Q B *)
  || (c =? 73) || (c =? 78).                                        (* I N *)

(** The packed structs of the order messages, as views of a byte buffer
    ([reinterpret_cast]); fields keep their wire byte order. *)
Module AddOrderMessage.
Record t : Type := mk {
  stock_locate : Z; order_ref_number : Z; buy_sell_indicator : Z;
  shares : Z; price : Z
}.
Definition view (data : list Z) : t :=
  mk (endian.load16 data 1) (endian.load64 data 11) (endian.byte_at data 19)
     (endian.load32 data 20) (endian.load32 data 32).
End AddOrderMessage.

(** [AddOrderMPIDMessage]: the fields of [AddOrderMessage] at the same
    offsets, followed by the 4-byte attribution. *)
Module AddOrderMPIDMessage.
Record t : Type := mk {
  stock_locate : Z; order_ref_number : Z; buy_sell_indicator : Z;
  shares : Z; price : Z
}.
Definition view (data : list Z) : t :=
  mk (endian.load16 data 1) (endian.load64 data 11) (endian.byte_at data 19)
     (endian.load32 data 20) (endian.load32 data 32).
End AddOrderMPIDMessage.

Module OrderExecutedMessage.
Record t : Type := mk {
  stock_locate : Z; order_ref_number : Z; executed_shares : Z; match_number : Z
}.
Definition view (data : list Z) : t :=
  mk (endian.load16 data 1) (endian.load64 data 11) (endian.load32 data 19)
     (endian.load64 data 23).
End OrderExecutedMessage.

Module OrderExecutedPriceMessage.
Record t : Type := mk {
  stock_locate : Z; order_ref_number : Z; executed_shares : Z; match_number : Z;
  printable : Z; execution_price : Z
}.
Definition view (data : list Z) : t :=
  mk (endian.load16 data 1) (endian.load64 data 11) (endian.load32 data 19)
     (endian.load64 data 23) (endian.byte_at data 31) (endian.load32 data 32).
End OrderExecutedPriceMessage.

Module OrderCancelMessage.
Record t : Type := mk {
  stock_locate : Z; order_ref_number : Z; cancelled_shares : Z
}.
Definition view (data : list Z) : t :=
  mk (endian.load16 data 1) (endian.load64 data 11) (endian.load32 data 19).
End OrderCancelMessage.

Module OrderDeleteMessage.
Record t : Type := mk { stock_locate : Z; order_ref_number : Z }.
Definition view (data : list Z) : t :=
  mk (endian.load16 data 1) (endian.load64 data 11).
End OrderDeleteMessage.

Module OrderReplaceMessage.
Record t : Type := mk {
  stock_locate : Z; original_order_ref_number : Z; new_order_ref_number : Z;
  shares : Z; price : Z
}.
Definition view (data : list Z) : t :=
  mk (endian.load16 data 1) (endian.load64 data 11) (endian.load64 data 19)
     (endian.load32 data 27) (endian.load32 data 31).
End OrderReplaceMessage.

Module TradeMessage.
Record t : Type := mk {
  stock_locate : Z; order_ref_number : Z; buy_sell_indicator : Z;
  shares : Z; price : Z; match_number : Z
}.
Definition view (data : list Z) : t :=
  mk (endian.load16 data 1) (endian.load64 data 11) (endian.byte_at data 19)
     (endian.load32 data 20) (endian.load32 data 32) (endian.load64 data 36).
End TradeMessage.

Module CrossTradeMessage.
Record t : Type := mk {
  stock_locate : Z; shares : Z; cross_price : Z; match_number : Z; cross_type : Z
}.
Definition view (data : list Z) : t :=
  mk (endian.load16 data 1) (endian.load64 data 11) (endian.load32 data 27)
     (endian.load64 data 31) (endian.byte_at data 39).
End CrossTradeMessage.

(** [StockDirectoryMessage]: the fields read by the feed handler. *)
Module StockDirectoryMessage.
Record t : Type := mk {
  stock_locate : Z; stock : Symbol.t; market_category : Z; financial_status : Z
}.
Definition view (data : list Z) : t :=
  mk (endian.load16 data 1) (Symbol.of_bytes data 11) (endian.byte_at data 19)
     (endian.byte_at data 20).
End StockDirectoryMessage.

(** ** itch_parser.hpp *)

(** [MessageHandler]: the 22 typed callbacks [on_system_event] ...
    [on_rpii], indexed by the variant they receive, and [on_parse_error].
    A callback takes the message bytes, the extracted timestamp and the
    handler object, and returns the handler object after the call. *)
Class MessageHandler (H : Type) : Type := {
  on_message : MessageType -> list Z -> Z -> H -> H;
  on_parse_error : list Z -> Z -> string -> H -> H
}.

Module ParserStats.
Record t : Type := mk {
  messages_parsed : Z;
  bytes_processed : Z;
  parse_errors : Z;
  message_type_counts : list Z     (* std::array<uint64_t, 256> *)
}.
Definition init : t := mk 0 0 0 (replicate 256 0).
Definition count_of (s : t) (type : Z) : Z :=
  default 0 (message_type_counts s !! Z.to_nat type).
End ParserStats.

Module ITCHParser.
Section WithHandler.
Context {H : Type} `{MessageHandler H}.

Record t : Type := mk {
  handler_ : option H;       (* MessageHandler*, None is nullptr *)
  stats_ : ParserStats.t
}.

Definition extract_timestamp (data : list Z) : Z := endian.be48_to_host data 5.

Definition dispatch_message (msg_type : Z) (data : list Z) (ts : Z)
           (h : option H) : option H :=
  match h with
  | None => None
  | Some h =>
      Some (match message_type_of msg_type with
            | Some v => on_message v data ts h
            | None => on_parse_error data (get_message_size msg_type)
                                     "Unhandled message type" h
            end)
  end.

Definition parse_message (p : t) (data : list Z) (max_len : Z) : Z * t :=
  if max_len =? 0 then (0, p)
  else
    let msg_type := endian.byte_at data 0 in
    let msg_size := get_message_size msg_type in
    if msg_size =? 0 then
      let st := stats_ p in
      (1, mk (match handler_ p with
              | Some h => Some (on_parse_error data max_len "Unknown message type" h)
              | None => None
              end)
             (ParserStats.mk (ParserStats.messages_parsed st)
                (ParserStats.bytes_processed st)
                (wrap64 (ParserStats.parse_errors st + 1))
                (ParserStats.message_type_counts st)))
    else if max_len <? msg_size then (0, p)
    else
      let ts := extract_timestamp data in
      let h' := dispatch_message msg_type data ts (handler_ p) in
      let st := stats_ p in
      (msg_size,
       mk h' (ParserStats.mk (wrap64 (ParserStats.messages_parsed st + 1))
                (wrap64 (ParserStats.bytes_processed st + msg_size))
                (ParserStats.parse_errors st)
                (<[Z.to_nat msg_type := wrap64 (ParserStats.count_of st msg_type + 1)]>
                   (ParserStats.message_type_counts st)))).

(** [parse]: [while (offset < len) { consumed = parse_message(data + offset,
    len - offset); if (consumed == 0) break; offset += consumed; }
    return offset;] over an iteration budget. *)
Fixpoint parse_loop (fuel : nat) (p : t) (data : list Z) (len offset : Z)
  : option (Z * t) :=
  match fuel with
  | O => None
  | S fuel' =>
      if offset <? len then
        let '(consumed, p') :=
          parse_message p (drop (Z.to_nat offset) data) (len - offset) in
        if consumed =? 0 then Some (offset, p')
        else parse_loop fuel' p' data len (offset + consumed)
      else Some (offset, p)
  end.

Definition parse (p : t) (data : list Z) (len : Z) : option (Z * t) :=
  parse_loop (S (Z.to_nat len)) p data len 0.

(** The [for] loop of [parse_moldudp64]; [remaining] is [msg_count - i]. *)
Fixpoint moldudp64_loop (remaining : nat) (p : t) (data : list Z)
         (len offset messages_parsed : Z) : Z * t :=
  match remaining with
  | O => (messages_parsed, p)
  | S remaining' =>
      if offset + 2 <=? len then
        let msg_len := endian.be16_to_host (endian.load16 data offset) in
        let offset1 := offset + 2 in
        if len <? offset1 + msg_len then (messages_parsed, p)
        else
          let '(consumed, p') :=
            parse_message p (drop (Z.to_nat offset1) data) msg_len in
          moldudp64_loop remaining' p' data len (offset1 + msg_len)
            (if 0 <? consumed then messages_parsed + 1 else messages_parsed)
      else (messages_parsed, p)
  end.

Definition MOLDUDP64_HEADER_SIZE : Z := 20.

Definition parse_moldudp64 (p : t) (data : list Z) (len : Z) : Z * t :=
  if len <? MOLDUDP64_HEADER_SIZE then (0, p)
  else
    let msg_count := endian.be16_to_host (endian.load16 data 18) in
    moldudp64_loop (Z.to_nat msg_count) p data len MOLDUDP64_HEADER_SIZE 0.

Definition reset_stats (p : t) : t := mk (handler_ p) ParserStats.init.
Definition set_handler (p : t) (handler : option H) : t := mk handler (stats_ p).
End WithHandler.
End ITCHParser.

Module TemplateParser.
Section WithHandler.
Context {H : Type} `{MessageHandler H}.

Record t : Type := mk {
  handler_ : H;              (* Handler*, never tested for null *)
  stats_ : ParserStats.t
}.

Definition dispatch (msg_type : Z) (data : list Z) (ts : Z) (h : H) : H :=
  match message_type_of msg_type with
  | Some v => on_message v data ts h
  | None => h
  end.

Definition parse_message (p : t) (data : list Z) (max_len : Z) : Z * t :=
  if max_len =? 0 then (0, p)
  else
    let msg_type := endian.byte_at data 0 in
    let msg_size := get_message_size msg_type in
    if (msg_size =? 0) || (max_len <? msg_size) then (0, p)
    else
      let ts := endian.be48_to_host data 5 in
      (msg_size, mk (dispatch msg_type data ts (handler_ p)) (stats_ p)).

(** [parse] and [parse_moldudp64]: the same loops as in [ITCHParser],
    around this parser's [parse_message]. *)
Fixpoint parse_loop (fuel : nat) (p : t) (data : list Z) (len offset : Z)
  : option (Z * t) :=
  match fuel with
  | O => None
  | S fuel' =>
      if offset <? len then
        let '(consumed, p') :=
          parse_message p (drop (Z.to_nat offset) data) (len - offset) in
        if consumed =? 0 then Some (offset, p')
        else parse_loop fuel' p' data len (offset + consumed)
      else Some (offset, p)
  end.

Definition parse (p : t) (data : list Z) (len : Z) : option (Z * t) :=
  parse_loop (S (Z.to_nat len)) p data len 0.

Fixpoint moldudp64_loop (remaining : nat) (p : t) (data : list Z)
         (len offset messages_parsed : Z) : Z * t :=
  match remaining with
  | O => (messages_parsed, p)
  | S remaining' =>
      if offset + 2 <=? len then
        let msg_len := endian.be16_to_host (endian.load16 data offset) in
        let offset1 := offset + 2 in
        if len <? offset1 + msg_len then (messages_parsed, p)
        else
          let '(consumed, p') :=
            parse_message p (drop (Z.to_nat offset1) data) msg_len in
          moldudp64_loop remaining' p' data len (offset1 + msg_len)
            (if 0 <? consumed then messages_parsed + 1 else messages_parsed)
      else (messages_parsed, p)
  end.

Definition MOLDUDP64_HEADER_SIZE : Z := 20.

Definition parse_moldudp64 (p : t) (data : list Z) (len : Z) : Z * t :=
  if len <? MOLDUDP64_HEADER_SIZE then (0, p)
  else
    let msg_count := endian.be16_to_host (endian.load16 data 18) in
    moldudp64_loop (Z.to_nat msg_count) p data len MOLDUDP64_HEADER_SIZE 0.

Definition reset_stats (p : t) : t := mk (handler_ p) ParserStats.init.
End WithHandler.
End TemplateParser.

(** ** order_book.hpp: Order and ObjectPool *)

Module Order.
(** The record behind an [Order*].  The intrusive links [next] / [prev]
    are represented by the order of the references in their price level
    (see [PriceLevel]). *)
Record t : Type := mk {
  order_id : Z;
  price : Z;
  quantity : Z;
  original_qty : Z;
  stock_locate : Z;
  side : Side;
  timestamp : Z
}.
Definition zero : t := mk 0 0 0 0 0 Side_Buy 0.
Definition with_quantity (o : t) (q : Z) : t :=
  mk (order_id o) (price o) q (original_qty o) (stock_locate o) (side o) (timestamp o).
End Order.

Module ObjectPool.
Definition BlockSize : Z := 4096.

(** [blocks_] is the number of allocated blocks; slot [i] of block [b] has
    address [b * BlockSize + i].  [free_list_] is the vector used as a
    stack, its [back()] first.  [slots] is the storage of all blocks. *)
Record t : Type := mk {
  blocks_ : Z;
  free_list_ : list ptr;
  slots : gmap ptr Order.t
}.

Definition allocate_block (pool : t) : t :=
  mk (blocks_ pool + 1)
     (reverse (seqZ (blocks_ pool * BlockSize) BlockSize) ++ free_list_ pool)
     (slots pool).

Definition new : t := allocate_block (mk 0 [] ∅).

Definition acquire (pool : t) : ptr * t :=
  let pool1 := match free_list_ pool with [] => allocate_block pool | _ => pool end in
  match free_list_ pool1 with
  | obj :: rest => (obj, mk (blocks_ pool1) rest (slots pool1))
  | [] => (0, pool1)
  end.

Definition release (pool : t) (obj : ptr) : t :=
  mk (blocks_ pool) (obj :: free_list_ pool) (slots pool).

(** [*obj] and [*obj = o]. *)
Definition deref (pool : t) (obj : ptr) : Order.t :=
  default Order.zero (slots pool !! obj).
Definition store (pool : t) (obj : ptr) (o : Order.t) : t :=
  mk (blocks_ pool) (free_list_ pool) (<[obj:=o]> (slots pool)).

Definition capacity (pool : t) : Z := blocks_ pool * BlockSize.
Definition available (pool : t) : Z := Z.of_nat (length (free_list_ pool)).
End ObjectPool.

(** ** order_book.hpp: PriceLevel *)

Module PriceLevel.
(** [chain] is the doubly-linked list from [head_] to [tail_]. *)
Record t : Type := mk {
  price_ : Z;
  chain : list ptr;
  total_quantity_ : Z;
  order_count_ : Z
}.

Definition new (price : Z) : t := mk price [] 0 0.

Definition add_order (l : t) (pool : ObjectPool.t) (order : ptr) : t :=
  mk (price_ l) (chain l ++ [order])
     (wrap32 (total_quantity_ l + Order.quantity (ObjectPool.deref pool order)))
     (order_count_ l + 1).

Definition remove_order (l : t) (pool : ObjectPool.t) (order : ptr) : t :=
  mk (price_ l) (filter (fun q => q <> order) (chain l))
     (wrap32 (total_quantity_ l - Order.quantity (ObjectPool.deref pool order)))
     (order_count_ l - 1).

(** [assert(order->quantity >= delta)] is compiled out in release builds. *)
Definition reduce_quantity (l : t) (pool : ObjectPool.t) (order : ptr) (delta : Z)
  : t * ObjectPool.t :=
  let o := ObjectPool.deref pool order in
  let pool1 := ObjectPool.store pool order
                 (Order.with_quantity o (wrap32 (Order.quantity o - delta))) in
  let l1 := mk (price_ l) (chain l) (wrap32 (total_quantity_ l - delta)) (order_count_ l) in
  if Order.quantity (ObjectPool.deref pool1 order) =? 0
  then (remove_order l1 pool1 order, pool1)
  else (l1, pool1).

Definition price (l : t) : Z := price_ l.
Definition total_quantity (l : t) : Z := total_quantity_ l.
Definition order_count (l : t) : Z := order_count_ l.
Definition empty (l : t) : bool := order_count_ l =? 0.
Definition front (l : t) : option ptr := head (chain l).
Definition back (l : t) : option ptr := last (chain l).
End PriceLevel.

(** [std::map<Price, PriceLevel, Compare>]: the pairs in iteration order,
    that is sorted by [Compare]. *)
Module PriceMap.
Definition t : Type := list (Z * PriceLevel.t).

Definition greater (a b : Z) : bool := b <? a.
Definition less (a b : Z) : bool := a <? b.

Fixpoint find (k : Z) (m : t) : option PriceLevel.t :=
  match m with
  | [] => None
  | (k', v) :: m' => if k' =? k then Some v else find k m'
  end.

(** [emplace]: inserts at the position given by [comp]; an existing key
    keeps its value. *)
Fixpoint emplace (comp : Z -> Z -> bool) (k : Z) (v : PriceLevel.t) (m : t) : t :=
  match m with
  | [] => [(k, v)]
  | (k', v') :: m' =>
      if comp k k' then (k, v) :: m
      else if comp k' k then (k', v') :: emplace comp k v m'
      else m
  end.

(** [it->second = v] for the iterator of key [k]. *)
Fixpoint assign (k : Z) (v : PriceLevel.t) (m : t) : t :=
  match m with
  | [] => []
  | (k', v') :: m' => if k' =? k then (k', v) :: m' else (k', v') :: assign k v m'
  end.

Fixpoint erase (k : Z) (m : t) : t :=
  match m with
  | [] => []
  | (k', v') :: m' => if k' =? k then m' else (k', v') :: erase k m'
  end.

Definition empty (m : t) : bool := match m with [] => true | _ => false end.
End PriceMap.

(** ** order_book.hpp: BBO *)

Definition PRICE_MAX : Z := 9223372036854775807.   (* numeric_limits<Price>::max() *)
Definition PRICE_MIN : Z := -9223372036854775808.  (* numeric_limits<Price>::min() *)

(** Arithmetic on [Price], a [std::int64_t]: a sum or difference outside
    the range of the type is reduced to 64-bit two's complement, which is
    what the machine addition and subtraction of the compiled code leave. *)
Definition wrap_int64 (x : Z) : Z := (x + 2 ^ 63) mod 2 ^ 64 - 2 ^ 63.

Module BBO.
Record t : Type := mk {
  bid_price : Z;
  ask_price : Z;
  bid_quantity : Z;
  ask_quantity : Z
}.
Definition init : t := mk 0 PRICE_MAX 0 0.
Definition has_bid (b : t) : bool := 0 <? bid_quantity b.
Definition has_ask (b : t) : bool := 0 <? ask_quantity b.

(** [Price] is [std::int64_t]: the difference and the sum are taken in
    64 bits, and the division of [midpoint] truncates. *)
Definition spread (b : t) : Z :=
  if negb (has_bid b) || negb (has_ask b) then 0
  else wrap_int64 (ask_price b - bid_price b).
Definition midpoint (b : t) : Z :=
  if negb (has_bid b) || negb (has_ask b) then 0
  else Z.quot (wrap_int64 (bid_price b + ask_price b)) 2.
End BBO.

(** ** order_book.hpp: OrderBook *)

Module OrderBook.
Record t : Type := mk {
  stock_locate_ : Z;
  bids_ : PriceMap.t;      (* std::greater: highest bid first *)
  asks_ : PriceMap.t;      (* std::less: lowest ask first *)
  orders_ : OrderMap.t;
  bbo_ : BBO.t;
  order_count_ : Z
}.

(** [OrderBook(stock_locate)]; the default constructor is [new 0]. *)
Definition new (stock_locate : Z) : option t :=
  m ← OrderMap.new_with OrderMap.DEFAULT_INITIAL_CAPACITY;
  Some (mk stock_locate [] [] m BBO.init 0).

Definition update_best_bid (b : t) : t :=
  match bids_ b with
  | [] => mk (stock_locate_ b) (bids_ b) (asks_ b) (orders_ b)
             (BBO.mk 0 (BBO.ask_price (bbo_ b)) 0 (BBO.ask_quantity (bbo_ b)))
             (order_count_ b)
  | (_, best) :: _ =>
      mk (stock_locate_ b) (bids_ b) (asks_ b) (orders_ b)
         (BBO.mk (PriceLevel.price best) (BBO.ask_price (bbo_ b))
                 (PriceLevel.total_quantity best) (BBO.ask_quantity (bbo_ b)))
         (order_count_ b)
  end.

Definition update_best_ask (b : t) : t :=
  match asks_ b with
  | [] => mk (stock_locate_ b) (bids_ b) (asks_ b) (orders_ b)
             (BBO.mk (BBO.bid_price (bbo_ b)) PRICE_MAX (BBO.bid_quantity (bbo_ b)) 0)
             (order_count_ b)
  | (_, best) :: _ =>
      mk (stock_locate_ b) (bids_ b) (asks_ b) (orders_ b)
         (BBO.mk (BBO.bid_price (bbo_ b)) (PriceLevel.price best)
                 (BBO.bid_quantity (bbo_ b)) (PriceLevel.total_quantity best))
         (order_count_ b)
  end.

(** The level code that [add_order], [execute_order] and [delete_order]
    repeat for [bids_] and for [asks_]. *)
Definition level_add (comp : Z -> Z -> bool) (levels : PriceMap.t) (price : Z)
           (pool : ObjectPool.t) (order : ptr) : PriceMap.t :=
  let levels1 :=
    match PriceMap.find price levels with
    | Some _ => levels
    | None => PriceMap.emplace comp price (PriceLevel.new price) levels
    end in
  match PriceMap.find price levels1 with
  | Some l => PriceMap.assign price (PriceLevel.add_order l pool order) levels1
  | None => levels1
  end.

Definition level_reduce (levels : PriceMap.t) (price : Z) (pool : ObjectPool.t)
           (order : ptr) (exec_qty : Z) : PriceMap.t * ObjectPool.t :=
  match PriceMap.find price levels with
  | Some l =>
      let '(l', pool') := PriceLevel.reduce_quantity l pool order exec_qty in
      (if PriceLevel.empty l' then PriceMap.erase price levels
       else PriceMap.assign price l' levels, pool')
  | None => (levels, pool)
  end.

Definition level_remove (levels : PriceMap.t) (price : Z) (pool : ObjectPool.t)
           (order : ptr) : PriceMap.t :=
  match PriceMap.find price levels with
  | Some l =>
      let l' := PriceLevel.remove_order l pool order in
      if PriceLevel.empty l' then PriceMap.erase price levels
      else PriceMap.assign price l' levels
  | None => levels
  end.

Definition add_order (b : t) (pool : ObjectPool.t)
           (order_id : Z) (side : Side) (price quantity timestamp : Z)
  : option (option ptr * t * ObjectPool.t) :=
  found ← OrderMap.find (orders_ b) order_id;
  match found with
  | Some _ => Some (None, b, pool)
  | None =>
      let '(order, pool1) := ObjectPool.acquire pool in
      let pool2 := ObjectPool.store pool1 order
                     (Order.mk order_id price quantity quantity (stock_locate_ b)
                               side timestamp) in
      orders' ← OrderMap.put (orders_ b) order_id (Some order);
      let b1 :=
        if is_buy side then
          update_best_bid
            (mk (stock_locate_ b)
                (level_add PriceMap.greater (bids_ b) price pool2 order)
                (asks_ b) orders' (bbo_ b) (order_count_ b))
        else
          update_best_ask
            (mk (stock_locate_ b) (bids_ b)
                (level_add PriceMap.less (asks_ b) price pool2 order)
                orders' (bbo_ b) (order_count_ b)) in
      Some (Some order,
            mk (stock_locate_ b1) (bids_ b1) (asks_ b1) (orders_ b1) (bbo_ b1)
               (order_count_ b1 + 1),
            pool2)
  end.

Definition execute_order (b : t) (pool : ObjectPool.t) (order_id quantity : Z)
  : option (Z * t * ObjectPool.t) :=
  found ← OrderMap.find (orders_ b) order_id;
  match found with
  | None => Some (0, b, pool)
  | Some order =>
      let o := ObjectPool.deref pool order in
      let exec_qty := Z.min quantity (Order.quantity o) in
      let side := Order.side o in
      let price := Order.price o in
      let '(b1, pool1) :=
        if is_buy side then
          let '(bids', pool') := level_reduce (bids_ b) price pool order exec_qty in
          (update_best_bid
             (mk (stock_locate_ b) bids' (asks_ b) (orders_ b) (bbo_ b) (order_count_ b)),
           pool')
        else
          let '(asks', pool') := level_reduce (asks_ b) price pool order exec_qty in
          (update_best_ask
             (mk (stock_locate_ b) (bids_ b) asks' (orders_ b) (bbo_ b) (order_count_ b)),
           pool') in
      if Order.quantity (ObjectPool.deref pool1 order) =? 0 then
        orders' ← OrderMap.remove (orders_ b1) order_id;
        Some (exec_qty,
              mk (stock_locate_ b1) (bids_ b1) (asks_ b1) orders' (bbo_ b1)
                 (order_count_ b1 - 1),
              ObjectPool.release pool1 order)
      else Some (exec_qty, b1, pool1)
  end.

Definition cancel_order (b : t) (pool : ObjectPool.t) (order_id quantity : Z)
  : option (Z * t * ObjectPool.t) :=
  execute_order b pool order_id quantity.

Definition delete_order (b : t) (pool : ObjectPool.t) (order_id : Z)
  : option (bool * t * ObjectPool.t) :=
  found ← OrderMap.find (orders_ b) order_id;
  match found with
  | None => Some (false, b, pool)
  | Some order =>
      let o := ObjectPool.deref pool order in
      let side := Order.side o in
      let price := Order.price o in
      let b1 :=
        if is_buy side then
          update_best_bid
            (mk (stock_locate_ b) (level_remove (bids_ b) price pool order)
                (asks_ b) (orders_ b) (bbo_ b) (order_count_ b))
        else
          update_best_ask
            (mk (stock_locate_ b) (bids_ b) (level_remove (asks_ b) price pool order)
                (orders_ b) (bbo_ b) (order_count_ b)) in
      orders' ← OrderMap.remove (orders_ b1) order_id;
      Some (true,
            mk (stock_locate_ b1) (bids_ b1) (asks_ b1) orders' (bbo_ b1)
               (order_count_ b1 - 1),
            ObjectPool.release pool order)
  end.

Definition replace_order (b : t) (pool : ObjectPool.t)
           (old_order_id new_order_id new_quantity new_price timestamp : Z)
  : option (option ptr * t * ObjectPool.t) :=
  found ← OrderMap.find (orders_ b) old_order_id;
  match found with
  | None => Some (None, b, pool)
  | Some old_order =>
      let side := Order.side (ObjectPool.deref pool old_order) in
      '(_, b1, pool1) ← delete_order b pool old_order_id;
      add_order b1 pool1 new_order_id side new_price new_quantity timestamp
  end.

Definition get_order (b : t) (order_id : Z) : option (option ptr) :=
  OrderMap.find (orders_ b) order_id.

Definition bbo (b : t) : BBO.t := bbo_ b.
Definition order_count (b : t) : Z := order_count_ b.
Definition bid_level_count (b : t) : Z := Z.of_nat (length (bids_ b)).
Definition ask_level_count (b : t) : Z := Z.of_nat (length (asks_ b)).
Definition stock_locate (b : t) : Z := stock_locate_ b.

(** [bid_depth] / [ask_depth]: (price, total_quantity, order_count) of the
    first [max_levels] levels. *)
Definition depth (levels : PriceMap.t) (max_levels : nat) : list (Z * Z * Z) :=
  map (fun kv => (PriceLevel.price (snd kv), PriceLevel.total_quantity (snd kv),
                  PriceLevel.order_count (snd kv)))
      (take max_levels levels).
Definition bid_depth (b : t) (max_levels : nat) := depth (bids_ b) max_levels.
Definition ask_depth (b : t) (max_levels : nat) := depth (asks_ b) max_levels.

(** [clear(pool)]: the orders of every level go back to the pool, from
    the front of each chain to its back, the bids before the asks. *)
Definition release_levels (pool : ObjectPool.t) (levels : PriceMap.t) : ObjectPool.t :=
  foldl (fun pool kv => foldl ObjectPool.release pool (PriceLevel.chain (snd kv)))
        pool levels.

Definition clear (b : t) (pool : ObjectPool.t) : t * ObjectPool.t :=
  (mk (stock_locate_ b) [] [] (OrderMap.clear (orders_ b)) BBO.init 0,
   release_levels (release_levels pool (bids_ b)) (asks_ b)).
End OrderBook.

(** ** order_book.hpp: OrderBookManager *)

Module OrderBookManager.
Definition MAX_SYMBOLS : Z := 8192.

Record t : Type := mk {
  books_ : list OrderBook.t;
  order_pool_ : ObjectPool.t
}.

(** [books_.resize(MAX_SYMBOLS)]: default-constructed books. *)
Definition new : option t :=
  b ← OrderBook.new 0;
  Some (mk (replicate (Z.to_nat MAX_SYMBOLS) b) ObjectPool.new).

(** [get_book]: the vector is indexed without a range check; [None] is an
    access outside the vector.  The returned reference is the index
    [stock_locate] into [books_] of the returned manager. *)
Definition get_book (m : t) (stock_locate : Z) : option t :=
  b ← books_ m !! Z.to_nat stock_locate;
  if OrderBook.stock_locate b =? 0 then
    nb ← OrderBook.new stock_locate;
    Some (mk (<[Z.to_nat stock_locate := nb]> (books_ m)) (order_pool_ m))
  else Some m.

(** [has_book]: [&&] evaluates the indexing only when the range test
    holds; [None] would be an access outside the vector. *)
Definition has_book (m : t) (stock_locate : Z) : option bool :=
  if stock_locate <? Z.of_nat (length (books_ m)) then
    b ← books_ m !! Z.to_nat stock_locate;
    Some (negb (OrderBook.stock_locate b =? 0))
  else Some false.

Definition order_pool (m : t) : ObjectPool.t := order_pool_ m.


(** [clear]: every book is cleared into the pool of the manager. *)
Definition clear (m : t) : t :=
  let '(books, pool) :=
    foldl (fun '(done, pool) book =>
             let '(book', pool') := OrderBook.clear book pool in
             (done ++ [book'], pool'))
          ([], order_pool_ m) (books_ m) in
  mk books pool.
End OrderBookManager.

(** ** order_book.hpp: SymbolDirectory *)

Module SymbolDirectory.
Record SymbolInfo : Type := mkInfo {
  symbol : Symbol.t;
  market_category : Z;
  financial_status : Z;
  is_active : bool
}.

(** A value-initialised [SymbolInfo], as [resize] creates it. *)
Definition blank : SymbolInfo := mkInfo (replicate 8 0) 0 0 false.

Record t : Type := mk {
  symbols_ : list SymbolInfo;
  symbol_to_locate_ : gmap Symbol.t Z
}.

Definition empty : t := mk [] ∅.

(** [symbol_str] is the address [data + off] of the 8 bytes of the name. *)
Definition add_symbol (d : t) (locate : Z) (symbol_str : Symbol.t)
           (market_category financial_status : Z) : t :=
  let info := mkInfo symbol_str market_category financial_status true in
  let symbols1 :=
    if Z.of_nat (length (symbols_ d)) <=? locate
    then symbols_ d ++ replicate (Z.to_nat (locate + 1) - length (symbols_ d)) blank
    else symbols_ d in
  mk (<[Z.to_nat locate := info]> symbols1)
     (<[symbol info := locate]> (symbol_to_locate_ d)).

(** [get_info]: [None] is [nullptr]. *)
Definition get_info (d : t) (locate : Z) : option SymbolInfo :=
  if Z.of_nat (length (symbols_ d)) <=? locate then None
  else
    match symbols_ d !! Z.to_nat locate with
    | Some info => if is_active info then Some info else None
    | None => None
    end.

Definition get_locate (d : t) (symbol : Symbol.t) : option Z :=
  symbol_to_locate_ d !! symbol.

Definition symbol_count (d : t) : Z :=
  foldl (fun count info => if is_active info then count + 1 else count) 0 (symbols_ d).
End SymbolDirectory.

(** ** feed_handler.hpp *)

(** [LatencyHistogram]: the recording side; [mean] and [percentile]
    compute in [double] and are left out. *)
Module LatencyHistogram.
Definition NUM_BUCKETS : Z := 100.
Definition BUCKET_SIZE_NS : Z := 100.
Definition UINT64_MAX : Z := 18446744073709551615.

Record t : Type := mk {
  buckets_ : list Z;     (* std::array<uint64_t, NUM_BUCKETS> *)
  count_ : Z;
  total_ : Z;
  min_ : Z;
  max_ : Z
}.

Definition init : t := mk (replicate (Z.to_nat NUM_BUCKETS) 0) 0 0 UINT64_MAX 0.

Definition record (h : t) (latency_ns : Z) : t :=
  let bucket := Z.min (latency_ns / BUCKET_SIZE_NS) (NUM_BUCKETS - 1) in
  mk (<[Z.to_nat bucket := wrap64 (default 0 (buckets_ h !! Z.to_nat bucket) + 1)]>
        (buckets_ h))
     (wrap64 (count_ h + 1))
     (wrap64 (total_ h + latency_ns))
     (Z.min (min_ h) latency_ns)
     (Z.max (max_ h) latency_ns).

Definition reset (h : t) : t := init.

Definition count (h : t) : Z := count_ h.
Definition min (h : t) : Z := min_ h.
Definition max (h : t) : Z := max_ h.
End LatencyHistogram.

(** The counters of [FeedMetrics]; the latency histograms and clock fields
    depend on TSC reads and are left out. *)
Module FeedMetrics.
Record t : Type := mk {
  messages_processed : Z;
  orders_added : Z;
  orders_executed : Z;
  orders_cancelled : Z;
  orders_deleted : Z;
  orders_replaced : Z;
  trades : Z;
  bbo_updates : Z
}.
Definition init : t := mk 0 0 0 0 0 0 0 0.
End FeedMetrics.

Module TradeEvent.
Record t : Type := mk {
  stock_locate : Z; price : Z; quantity : Z; order_ref : Z;
  match_number : Z; side : Side; timestamp : Z
}.
End TradeEvent.

Module BBOEvent.
Record t : Type := mk {
  stock_locate : Z; old_bbo : BBO.t; new_bbo : BBO.t; timestamp : Z
}.
End BBOEvent.

(** A call received by the attached [FeedEventHandler]. *)
Inductive FeedEvent : Type :=
  | on_trade_event (e : TradeEvent.t)
  | on_bbo_update_event (e : BBOEvent.t).

Module FeedHandler.
(** [event_handler_] is [None] for [nullptr]; an attached handler is the
    sequence of the calls it has received, oldest first. *)
Record t : Type := mk {
  book_manager_ : OrderBookManager.t;
  metrics_ : FeedMetrics.t;
  event_handler_ : option (list FeedEvent);
  symbol_filter_ : gset Z;
  use_filter_ : bool;
  collect_metrics_ : bool
}.

Definition new : option t :=
  m ← OrderBookManager.new;
  Some (mk m FeedMetrics.init None ∅ false false).

Definition set_event_handler (fh : t) (handler : option (list FeedEvent)) : t :=
  mk (book_manager_ fh) (metrics_ fh) handler (symbol_filter_ fh) (use_filter_ fh)
     (collect_metrics_ fh).

(** [use_filter_ && symbol_filter_.count(locate) == 0] *)
Definition filtered_out (fh : t) (locate : Z) : bool :=
  use_filter_ fh && negb (bool_decide (locate ∈ symbol_filter_ fh)).

(** [BBO old_bbo; if (event_handler_) old_bbo = book.bbo();] *)
Definition snapshot (fh : t) (book : OrderBook.t) : BBO.t :=
  match event_handler_ fh with
  | Some _ => OrderBook.bbo book
  | None => BBO.init
  end.

(** Writing through the [OrderBook&] returned by [get_book], and the pool
    of the manager. *)
Definition commit (m : OrderBookManager.t) (locate : Z) (book : OrderBook.t)
           (pool : ObjectPool.t) : OrderBookManager.t :=
  OrderBookManager.mk (<[Z.to_nat locate := book]> (OrderBookManager.books_ m)) pool.

Definition with_state (fh : t) (m : OrderBookManager.t) (mt : FeedMetrics.t)
           (h : option (list FeedEvent)) : t :=
  mk m mt h (symbol_filter_ fh) (use_filter_ fh) (collect_metrics_ fh).

Definition bbo_changed (old_bbo new_bbo : BBO.t) : bool :=
  negb (BBO.bid_price old_bbo =? BBO.bid_price new_bbo)
  || negb (BBO.ask_price old_bbo =? BBO.ask_price new_bbo).

(** The closing block of every order handler:
    [if (event_handler_) { if (old != new) { on_bbo_update(...); ++bbo_updates; } }] *)
Definition notify_bbo (fh : t) (locate : Z) (old_bbo new_bbo : BBO.t) (ts : Z) : t :=
  match event_handler_ fh with
  | None => fh
  | Some calls =>
      if bbo_changed old_bbo new_bbo then
        let mt := metrics_ fh in
        with_state fh (book_manager_ fh)
          (FeedMetrics.mk (FeedMetrics.messages_processed mt) (FeedMetrics.orders_added mt)
             (FeedMetrics.orders_executed mt) (FeedMetrics.orders_cancelled mt)
             (FeedMetrics.orders_deleted mt) (FeedMetrics.orders_replaced mt)
             (FeedMetrics.trades mt) (wrap64 (FeedMetrics.bbo_updates mt + 1)))
          (Some (calls ++ [on_bbo_update_event (BBOEvent.mk locate old_bbo new_bbo ts)]))
      else fh
  end.

(** Counter updates of the handlers. *)
Definition count_added (mt : FeedMetrics.t) : FeedMetrics.t :=
  FeedMetrics.mk (wrap64 (FeedMetrics.messages_processed mt + 1))
    (wrap64 (FeedMetrics.orders_added mt + 1))
    (FeedMetrics.orders_executed mt) (FeedMetrics.orders_cancelled mt)
    (FeedMetrics.orders_deleted mt) (FeedMetrics.orders_replaced mt)
    (FeedMetrics.trades mt) (FeedMetrics.bbo_updates mt).
Definition count_executed (mt : FeedMetrics.t) : FeedMetrics.t :=
  FeedMetrics.mk (wrap64 (FeedMetrics.messages_processed mt + 1))
    (FeedMetrics.orders_added mt)
    (wrap64 (FeedMetrics.orders_executed mt + 1)) (FeedMetrics.orders_cancelled mt)
    (FeedMetrics.orders_deleted mt) (FeedMetrics.orders_replaced mt)
    (wrap64 (FeedMetrics.trades mt + 1)) (FeedMetrics.bbo_updates mt).
Definition count_cancelled (mt : FeedMetrics.t) : FeedMetrics.t :=
  FeedMetrics.mk (wrap64 (FeedMetrics.messages_processed mt + 1))
    (FeedMetrics.orders_added mt)
    (FeedMetrics.orders_executed mt) (wrap64 (FeedMetrics.orders_cancelled mt + 1))
    (FeedMetrics.orders_deleted mt) (FeedMetrics.orders_replaced mt)
    (FeedMetrics.trades mt) (FeedMetrics.bbo_updates mt).
Definition count_deleted (mt : FeedMetrics.t) : FeedMetrics.t :=
  FeedMetrics.mk (wrap64 (FeedMetrics.messages_processed mt + 1))
    (FeedMetrics.orders_added mt)
    (FeedMetrics.orders_executed mt) (FeedMetrics.orders_cancelled mt)
    (wrap64 (FeedMetrics.orders_deleted mt + 1)) (FeedMetrics.orders_replaced mt)
    (FeedMetrics.trades mt) (FeedMetrics.bbo_updates mt).
Definition count_replaced (mt : FeedMetrics.t) : FeedMetrics.t :=
  FeedMetrics.mk (wrap64 (FeedMetrics.messages_processed mt + 1))
    (FeedMetrics.orders_added mt)
    (FeedMetrics.orders_executed mt) (FeedMetrics.orders_cancelled mt)
    (FeedMetrics.orders_deleted mt) (wrap64 (FeedMetrics.orders_replaced mt + 1))
    (FeedMetrics.trades mt) (FeedMetrics.bbo_updates mt).

Definition on_add_order (fh : t) (msg : AddOrderMessage.t) (ts : Z) : option t :=
  let locate := endian.be16_to_host (AddOrderMessage.stock_locate msg) in
  if filtered_out fh locate then Some fh
  else
    m ← OrderBookManager.get_book (book_manager_ fh) locate;
    book ← OrderBookManager.books_ m !! Z.to_nat locate;
    let old_bbo := snapshot fh book in
    let order_id := endian.be64_to_host (AddOrderMessage.order_ref_number msg) in
    let price := endian.be32_to_host (AddOrderMessage.price msg) in
    let quantity := endian.be32_to_host (AddOrderMessage.shares msg) in
    let side := char_to_side (AddOrderMessage.buy_sell_indicator msg) in
    '(_, book', pool') ← OrderBook.add_order book (OrderBookManager.order_pool m)
                           order_id side price quantity ts;
    let mt := if collect_metrics_ fh then count_added (metrics_ fh) else metrics_ fh in
    Some (notify_bbo (with_state fh (commit m locate book' pool') mt (event_handler_ fh))
                     locate old_bbo (OrderBook.bbo book') ts).

Definition on_add_order_mpid (fh : t) (msg : AddOrderMPIDMessage.t) (ts : Z) : option t :=
  let locate := endian.be16_to_host (AddOrderMPIDMessage.stock_locate msg) in
  if filtered_out fh locate then Some fh
  else
    m ← OrderBookManager.get_book (book_manager_ fh) locate;
    book ← OrderBookManager.books_ m !! Z.to_nat locate;
    let old_bbo := snapshot fh book in
    let order_id := endian.be64_to_host (AddOrderMPIDMessage.order_ref_number msg) in
    let price := endian.be32_to_host (AddOrderMPIDMessage.price msg) in
    let quantity := endian.be32_to_host (AddOrderMPIDMessage.shares msg) in
    let side := char_to_side (AddOrderMPIDMessage.buy_sell_indicator msg) in
    '(_, book', pool') ← OrderBook.add_order book (OrderBookManager.order_pool m)
                           order_id side price quantity ts;
    Some (notify_bbo (with_state fh (commit m locate book' pool')
                        (count_added (metrics_ fh)) (event_handler_ fh))
                     locate old_bbo (OrderBook.bbo book') ts).

(** The body shared by [on_order_executed] and [on_order_executed_price],
    which differ in the price of the trade event. *)
Definition executed (fh : t) (locate order_id exec_shares match_number : Z)
           (trade_price : Order.t -> Z) (ts : Z) : option t :=
  if filtered_out fh locate then Some fh
  else
    m ← OrderBookManager.get_book (book_manager_ fh) locate;
    book ← OrderBookManager.books_ m !! Z.to_nat locate;
    let old_bbo := snapshot fh book in
    found ← OrderBook.get_order book order_id;
    '(h, book', pool') ←
      match found with
      | Some order =>
          let o := ObjectPool.deref (OrderBookManager.order_pool m) order in
          let h := match event_handler_ fh with
                   | Some calls =>
                       Some (calls ++ [on_trade_event
                               (TradeEvent.mk locate (trade_price o) exec_shares order_id
                                  match_number (Order.side o) ts)])
                   | None => None
                   end in
          '(_, book', pool') ← OrderBook.execute_order book (OrderBookManager.order_pool m)
                                 order_id exec_shares;
          Some (h, book', pool')
      | None => Some (event_handler_ fh, book, OrderBookManager.order_pool m)
      end;
    Some (notify_bbo (with_state fh (commit m locate book' pool')
                        (count_executed (metrics_ fh)) h)
                     locate old_bbo (OrderBook.bbo book') ts).

Definition on_order_executed (fh : t) (msg : OrderExecutedMessage.t) (ts : Z) : option t :=
  executed fh (endian.be16_to_host (OrderExecutedMessage.stock_locate msg))
    (endian.be64_to_host (OrderExecutedMessage.order_ref_number msg))
    (endian.be32_to_host (OrderExecutedMessage.executed_shares msg))
    (endian.be64_to_host (OrderExecutedMessage.match_number msg))
    Order.price ts.

Definition on_order_executed_price (fh : t) (msg : OrderExecutedPriceMessage.t) (ts : Z)
  : option t :=
  executed fh (endian.be16_to_host (OrderExecutedPriceMessage.stock_locate msg))
    (endian.be64_to_host (OrderExecutedPriceMessage.order_ref_number msg))
    (endian.be32_to_host (OrderExecutedPriceMessage.executed_shares msg))
    (endian.be64_to_host (OrderExecutedPriceMessage.match_number msg))
    (fun _ => endian.be32_to_host (OrderExecutedPriceMessage.execution_price msg)) ts.

Definition on_order_cancel (fh : t) (msg : OrderCancelMessage.t) (ts : Z) : option t :=
  let locate := endian.be16_to_host (OrderCancelMessage.stock_locate msg) in
  if filtered_out fh locate then Some fh
  else
    m ← OrderBookManager.get_book (book_manager_ fh) locate;
    book ← OrderBookManager.books_ m !! Z.to_nat locate;
    let old_bbo := snapshot fh book in
    let order_id := endian.be64_to_host (OrderCancelMessage.order_ref_number msg) in
    let cancel_shares := endian.be32_to_host (OrderCancelMessage.cancelled_shares msg) in
    '(_, book', pool') ← OrderBook.cancel_order book (OrderBookManager.order_pool m)
                           order_id cancel_shares;
    Some (notify_bbo (with_state fh (commit m locate book' pool')
                        (count_cancelled (metrics_ fh)) (event_handler_ fh))
                     locate old_bbo (OrderBook.bbo book') ts).

Definition on_order_delete (fh : t) (msg : OrderDeleteMessage.t) (ts : Z) : option t :=
  let locate := endian.be16_to_host (OrderDeleteMessage.stock_locate msg) in
  if filtered_out fh locate then Some fh
  else
    m ← OrderBookManager.get_book (book_manager_ fh) locate;
    book ← OrderBookManager.books_ m !! Z.to_nat locate;
    let old_bbo := snapshot fh book in
    let order_id := endian.be64_to_host (OrderDeleteMessage.order_ref_number msg) in
    '(_, book', pool') ← OrderBook.delete_order book (OrderBookManager.order_pool m) order_id;
    Some (notify_bbo (with_state fh (commit m locate book' pool')
                        (count_deleted (metrics_ fh)) (event_handler_ fh))
                     locate old_bbo (OrderBook.bbo book') ts).

Definition on_order_replace (fh : t) (msg : OrderReplaceMessage.t) (ts : Z) : option t :=
  let locate := endian.be16_to_host (OrderReplaceMessage.stock_locate msg) in
  if filtered_out fh locate then Some fh
  else
    m ← OrderBookManager.get_book (book_manager_ fh) locate;
    book ← OrderBookManager.books_ m !! Z.to_nat locate;
    let old_bbo := snapshot fh book in
    let old_order_id :=
      endian.be64_to_host (OrderReplaceMessage.original_order_ref_number msg) in
    let new_order_id := endian.be64_to_host (OrderReplaceMessage.new_order_ref_number msg) in
    let new_shares := endian.be32_to_host (OrderReplaceMessage.shares msg) in
    let new_price := endian.be32_to_host (OrderReplaceMessage.price msg) in
    '(_, book', pool') ← OrderBook.replace_order book (OrderBookManager.order_pool m)
                           old_order_id new_order_id new_shares new_price ts;
    Some (notify_bbo (with_state fh (commit m locate book' pool')
                        (count_replaced (metrics_ fh)) (event_handler_ fh))
                     locate old_bbo (OrderBook.bbo book') ts).

(** [set_symbol_filter] and [clear_symbol_filter]. *)
Definition set_symbol_filter (fh : t) (locates : gset Z) : t :=
  mk (book_manager_ fh) (metrics_ fh) (event_handler_ fh) locates
     (negb (bool_decide (locates = ∅))) (collect_metrics_ fh).

Definition clear_symbol_filter (fh : t) : t :=
  mk (book_manager_ fh) (metrics_ fh) (event_handler_ fh) ∅ false (collect_metrics_ fh).

(** [++metrics_.trades; ++metrics_.messages_processed;] *)
Definition count_trade (mt : FeedMetrics.t) : FeedMetrics.t :=
  FeedMetrics.mk (wrap64 (FeedMetrics.messages_processed mt + 1))
    (FeedMetrics.orders_added mt)
    (FeedMetrics.orders_executed mt) (FeedMetrics.orders_cancelled mt)
    (FeedMetrics.orders_deleted mt) (FeedMetrics.orders_replaced mt)
    (wrap64 (FeedMetrics.trades mt + 1)) (FeedMetrics.bbo_updates mt).

Definition on_trade (fh : t) (msg : TradeMessage.t) (ts : Z) : t :=
  let locate := endian.be16_to_host (TradeMessage.stock_locate msg) in
  if filtered_out fh locate then fh
  else
    let h := match event_handler_ fh with
             | Some calls =>
                 Some (calls ++ [on_trade_event
                         (TradeEvent.mk locate
                            (endian.be32_to_host (TradeMessage.price msg))
                            (endian.be32_to_host (TradeMessage.shares msg))
                            (endian.be64_to_host (TradeMessage.order_ref_number msg))
                            (endian.be64_to_host (TradeMessage.match_number msg))
                            (char_to_side (TradeMessage.buy_sell_indicator msg)) ts)])
             | None => None
             end in
    with_state fh (book_manager_ fh) (count_trade (metrics_ fh)) h.

(** [static_cast<Quantity>] of the 64-bit share count keeps its low 32
    bits. *)
Definition on_cross_trade (fh : t) (msg : CrossTradeMessage.t) (ts : Z) : t :=
  let locate := endian.be16_to_host (CrossTradeMessage.stock_locate msg) in
  if filtered_out fh locate then fh
  else
    let h := match event_handler_ fh with
             | Some calls =>
                 Some (calls ++ [on_trade_event
                         (TradeEvent.mk locate
                            (endian.be32_to_host (CrossTradeMessage.cross_price msg))
                            (wrap32 (endian.be64_to_host (CrossTradeMessage.shares msg)))
                            0
                            (endian.be64_to_host (CrossTradeMessage.match_number msg))
                            Side_Buy ts)])
             | None => None
             end in
    with_state fh (book_manager_ fh) (count_trade (metrics_ fh)) h.

(** The handlers of the message types that only count:
    [++metrics_.messages_processed;]. *)
Definition on_counted (fh : t) : t :=
  let mt := metrics_ fh in
  with_state fh (book_manager_ fh)
    (FeedMetrics.mk (wrap64 (FeedMetrics.messages_processed mt + 1))
       (FeedMetrics.orders_added mt) (FeedMetrics.orders_executed mt)
       (FeedMetrics.orders_cancelled mt) (FeedMetrics.orders_deleted mt)
       (FeedMetrics.orders_replaced mt) (FeedMetrics.trades mt)
       (FeedMetrics.bbo_updates mt))
    (event_handler_ fh).

(** [warmup]: 10000 orders are acquired, written to and released in the
    order of their acquisition, then book 1 is initialised. *)
Fixpoint acquire_n (n : nat) (pool : ObjectPool.t) (temp_orders : list ptr)
  : list ptr * ObjectPool.t :=
  match n with
  | O => (temp_orders, pool)
  | S n' =>
      let '(o, pool') := ObjectPool.acquire pool in
      acquire_n n' pool' (temp_orders ++ [o])
  end.

Definition touch_and_release (pool : ObjectPool.t) (o : ptr) : ObjectPool.t :=
  let r := ObjectPool.deref pool o in
  ObjectPool.release
    (ObjectPool.store pool o
       (Order.mk (Order.order_id r) 1 (Order.quantity r) (Order.original_qty r)
                 (Order.stock_locate r) (Order.side r) (Order.timestamp r)))
    o.

Definition warmup (fh : t) : option t :=
  let m := book_manager_ fh in
  let '(temp_orders, pool1) := acquire_n (Z.to_nat 10000) (OrderBookManager.order_pool m) [] in
  let pool2 := foldl touch_and_release pool1 temp_orders in
  m' ← OrderBookManager.get_book
         (OrderBookManager.mk (OrderBookManager.books_ m) pool2) 1;
  Some (with_state fh m' (metrics_ fh) (event_handler_ fh)).

(** [reset]: the books and the metrics; the statistics of [parser_] are
    those of [TemplateParser.reset_stats]. *)
Definition reset (fh : t) : t :=
  with_state fh (OrderBookManager.clear (book_manager_ fh)) FeedMetrics.init
             (event_handler_ fh).

(** The orchestrator as the handler of its own parser.  The object is
    [t] with [symbol_directory_] and the [on_symbol_added] calls that the
    attached handler has received, each with the number of trade and BBO
    calls received before it.  [parser_] holds the address of the
    orchestrator and statistics that [TemplateParser] never updates. *)
Record full : Type := mkFull {
  state_ : t;
  symbol_directory_ : SymbolDirectory.t;
  symbols_added_ : list (nat * Z * Symbol.t)
}.

Definition new_full : option full :=
  fh ← new;
  Some (mkFull fh SymbolDirectory.empty []).

(** [on_stock_directory] tests no filter. *)
Definition on_stock_directory (f : full) (msg : StockDirectoryMessage.t) (ts : Z) : full :=
  let locate := endian.be16_to_host (StockDirectoryMessage.stock_locate msg) in
  let directory :=
    SymbolDirectory.add_symbol (symbol_directory_ f) locate
      (StockDirectoryMessage.stock msg) (StockDirectoryMessage.market_category msg)
      (StockDirectoryMessage.financial_status msg) in
  let added :=
    match event_handler_ (state_ f) with
    | Some calls =>
        symbols_added_ f ++ [(length calls, locate, StockDirectoryMessage.stock msg)]
    | None => symbols_added_ f
    end in
  mkFull (on_counted (state_ f)) directory added.

(** The member function that [TemplateParser::dispatch] calls for a
    message of variant [v] at [data]; [None] is an access outside
    [books_]. *)
Definition on_variant (v : MessageType) (data : list Z) (ts : Z) (f : full)
  : option full :=
  let keep := fun fh : t => mkFull fh (symbol_directory_ f) (symbols_added_ f) in
  match v with
  | SystemEvent | StockTradingAction | RegSHORestriction | MarketParticipantPos
  | MWCBDeclineLevel | MWCBStatus | IPOQuotingPeriod | LULDAuctionCollar
  | OperationalHalt | BrokenTrade | NOII | RPII =>
      Some (keep (on_counted (state_ f)))
  | StockDirectory => Some (on_stock_directory f (StockDirectoryMessage.view data) ts)
  | AddOrder => keep <$> on_add_order (state_ f) (AddOrderMessage.view data) ts
  | AddOrderMPID => keep <$> on_add_order_mpid (state_ f) (AddOrderMPIDMessage.view data) ts
  | OrderExecuted =>
      keep <$> on_order_executed (state_ f) (OrderExecutedMessage.view data) ts
  | OrderExecutedPrice =>
      keep <$> on_order_executed_price (state_ f) (OrderExecutedPriceMessage.view data) ts
  | OrderCancel => keep <$> on_order_cancel (state_ f) (OrderCancelMessage.view data) ts
  | OrderDelete => keep <$> on_order_delete (state_ f) (OrderDeleteMessage.view data) ts
  | OrderReplace => keep <$> on_order_replace (state_ f) (OrderReplaceMessage.view data) ts
  | Trade => Some (keep (on_trade (state_ f) (TradeMessage.view data) ts))
  | CrossTrade => Some (keep (on_cross_trade (state_ f) (CrossTradeMessage.view data) ts))
  end.

(** [on_parse_error] records in [parse_latency], a histogram outside
    [FeedMetrics.t]; [TemplateParser] never calls it. *)
Definition handler : MessageHandler (option full) := {|
  on_message := fun v data ts h => f ← h; on_variant v data ts f;
  on_parse_error := fun _ _ _ h => h
|}.

(** [process] and [process_moldudp64]: the result of the parser and the
    orchestrator after its calls. *)
Definition process (f : full) (data : list Z) (len : Z) : option (Z * option full) :=
  '(r, p) ← @TemplateParser.parse _ handler
              (TemplateParser.mk (Some f) ParserStats.init) data len;
  Some (r, TemplateParser.handler_ p).

Definition process_moldudp64 (f : full) (data : list Z) (len : Z) : Z * option full :=
  let '(n, p) := @TemplateParser.parse_moldudp64 _ handler
                   (TemplateParser.mk (Some f) ParserStats.init) data len in
  (n, TemplateParser.handler_ p).
End FeedHandler.

(* ===================================================================== *)
(** * Part II: specification vocabulary *)
(* ===================================================================== *)

(** ** The open-addressing table *)

Section IndexVocabulary.
Import OrderMap.

(** Cyclic index arithmetic on a table of [cap] slots. *)
Definition nxt (cap i : Z) : Z := if i + 1 =? cap then 0 else i + 1.
Definition cdist (cap a b : Z) : Z := if a <=? b then b - a else b - a + cap.
Definition home (cap i : Z) : Z := i mod cap.

(** The probe invariant of the table: every occupied slot is reached from
    its home slot without crossing an empty slot, and ids are unique. *)
Record table_ok (cap : Z) (es : list Entry) : Prop := {
  t_len : Z.of_nat (length es) = cap;
  t_probe : forall p j, 0 <= p < cap -> 0 <= j < cap -> id (at_ es p) <> 0 ->
      cdist cap (home cap (id (at_ es p))) j < cdist cap (home cap (id (at_ es p))) p ->
      id (at_ es j) <> 0;
  t_distinct : forall p q, 0 <= p < cap -> 0 <= q < cap -> id (at_ es p) <> 0 ->
      id (at_ es p) = id (at_ es q) -> p = q
}.

Definition has_empty (cap : Z) (es : list Entry) : Prop :=
  exists e, 0 <= e < cap /\ id (at_ es e) = 0.

(** [holds cap es i o]: the table stores the pair (i, o). *)
Definition holds (cap : Z) (es : list Entry) (i : Z) (o : option ptr) : Prop :=
  i <> 0 /\ exists p, 0 <= p < cap /\ at_ es p = mkEntry i o.

(** Number of occupied slots. *)
Definition occ_bit (e : Entry) : Z := if id e =? 0 then 0 else 1.
Definition occ_count (es : list Entry) : Z := foldr (fun e n => occ_bit e + n) 0 es.

(** Invariant of the backward-shift loop of [remove]: [curr] is the hole,
    the slots strictly between [curr] and [next] are occupied and validly
    placed, [e] is an empty slot ahead of [next], and a probe path may cross
    an empty slot only at the hole, and only for slots not yet passed. *)
Record shift_inv (cap : Z) (es : list Entry) (curr next e : Z) : Prop := {
  s_len : Z.of_nat (length es) = cap;
  s_curr : 0 <= curr < cap;
  s_next : 0 <= next < cap;
  s_ne : curr <> next;
  s_hole : id (at_ es curr) = 0;
  s_between : forall j, 0 <= j < cap ->
      0 < cdist cap curr j < cdist cap curr next -> id (at_ es j) <> 0;
  s_probe : forall p j, 0 <= p < cap -> 0 <= j < cap -> id (at_ es p) <> 0 ->
      cdist cap (home cap (id (at_ es p))) j < cdist cap (home cap (id (at_ es p))) p ->
      id (at_ es j) <> 0 \/
      (j = curr /\ ~ (0 < cdist cap curr p < cdist cap curr next));
  s_distinct : forall p q, 0 <= p < cap -> 0 <= q < cap -> id (at_ es p) <> 0 ->
      id (at_ es p) = id (at_ es q) -> p = q;
  s_e : 0 <= e < cap;
  s_e_ne : e <> curr;
  s_e_empty : id (at_ es e) = 0
}.

Definition ids_distinct (old : list Entry) : Prop :=
  forall n1 n2 e1 e2, old !! n1 = Some e1 -> old !! n2 = Some e2 ->
    id e1 <> 0 -> id e1 = id e2 -> n1 = n2.

(** Well-formed index: capacity a power of two (at least 2), probe
    invariant, and the load factor bound that keeps a slot empty. *)
Definition om_ok (m : OrderMap.t) : Prop :=
  exists k, 1 <= k /\ capacity_ m = 2 ^ k /\ mask_ m = capacity_ m - 1 /\
    table_ok (capacity_ m) (entries_ m) /\
    occ_count (entries_ m) <= load_ m /\ 2 * load_ m <= capacity_ m.

(** [om_repr m abs]: the table [m] stores exactly the pairs of [abs]. *)
Definition om_repr (m : OrderMap.t) (abs : gmap Z (option ptr)) : Prop :=
  om_ok m /\ forall i o, holds (capacity_ m) (entries_ m) i o <-> abs !! i = Some o.

End IndexVocabulary.

(** ** Ordered price maps *)

(** The comparator of a [std::map]: a strict total order. *)
Record comp_ok (comp : Z -> Z -> bool) : Prop := {
  comp_irrefl : forall a, comp a a = false;
  comp_trans : forall a b c, comp a b = true -> comp b c = true -> comp a c = true;
  comp_total : forall a b, comp a b = false -> comp b a = false -> a = b
}.

(** [sorted comp m]: the keys of [m] are strictly increasing for [comp]. *)
Fixpoint sorted (comp : Z -> Z -> bool) (m : PriceMap.t) : Prop :=
  match m with
  | [] => True
  | kv :: m' => Forall (fun kv' => comp kv.1 kv'.1 = true) m' /\ sorted comp m'
  end.

(** ** The pool and the quantities of a chain *)

Record pool_ok (pool : ObjectPool.t) : Prop := {
  po_blocks : 0 <= ObjectPool.blocks_ pool;
  po_nodup : NoDup (ObjectPool.free_list_ pool);
  po_range : forall q, q ∈ ObjectPool.free_list_ pool ->
      0 <= q < ObjectPool.blocks_ pool * ObjectPool.BlockSize
}.

Definition sum_qty (pool : ObjectPool.t) (c : list ptr) : Z :=
  foldr (fun p acc => Order.quantity (ObjectPool.deref pool p) + acc) 0 c.

(** ** Well-formed books *)

Definition levels (b : OrderBook.t) (sd : bool) : PriceMap.t :=
  if sd then OrderBook.bids_ b else OrderBook.asks_ b.

Definition comp_of (sd : bool) : Z -> Z -> bool :=
  if sd then PriceMap.greater else PriceMap.less.

(** An order referenced from the level of price [k] on side [sd]. *)
Record order_ok (pool : ObjectPool.t) (sd : bool) (k : Z) (p : ptr) : Prop := {
  oo_price : Order.price (ObjectPool.deref pool p) = k;
  oo_side : is_buy (Order.side (ObjectPool.deref pool p)) = sd;
  oo_qty : 0 <= Order.quantity (ObjectPool.deref pool p) < 2 ^ 32;
  oo_live : p ∉ ObjectPool.free_list_ pool;
  oo_range : 0 <= p < ObjectPool.blocks_ pool * ObjectPool.BlockSize
}.

Record level_ok (pool : ObjectPool.t) (sd : bool) (k : Z) (l : PriceLevel.t) : Prop := {
  lv_price : PriceLevel.price_ l = k;
  lv_nonempty : PriceLevel.chain l <> [];
  lv_count : PriceLevel.order_count_ l = Z.of_nat (length (PriceLevel.chain l));
  lv_total : PriceLevel.total_quantity_ l = wrap32 (sum_qty pool (PriceLevel.chain l));
  lv_nodup : NoDup (PriceLevel.chain l);
  lv_orders : forall p, p ∈ PriceLevel.chain l -> order_ok pool sd k p
}.

Definition in_book (b : OrderBook.t) (p : ptr) : Prop :=
  exists sd k l, PriceMap.find k (levels b sd) = Some l /\ p ∈ PriceLevel.chain l.

Definition bbo_side (bb : BBO.t) (sd : bool) : Z * Z :=
  if sd then (BBO.bid_price bb, BBO.bid_quantity bb)
  else (BBO.ask_price bb, BBO.ask_quantity bb).

Definition no_price (sd : bool) : Z := if sd then 0 else PRICE_MAX.

(** The cached side of the BBO is the first level of the side. *)
Definition bbo_side_ok (b : OrderBook.t) (sd : bool) : Prop :=
  bbo_side (OrderBook.bbo_ b) sd =
  match levels b sd with
  | [] => (no_price sd, 0)
  | (_, best) :: _ => (PriceLevel.price_ best, PriceLevel.total_quantity_ best)
  end.

Record index_ok (b : OrderBook.t) (pool : ObjectPool.t) (abs : gmap Z (option ptr)) : Prop := {
  ix_repr : om_repr (OrderBook.orders_ b) abs;
  ix_sound : forall i op, abs !! i = Some op ->
      exists p, op = Some p /\ in_book b p /\ Order.order_id (ObjectPool.deref pool p) = i;
  ix_complete : forall p, in_book b p -> Order.order_id (ObjectPool.deref pool p) <> 0 ->
      abs !! Order.order_id (ObjectPool.deref pool p) = Some (Some p)
}.

Record book_ok (b : OrderBook.t) (pool : ObjectPool.t) : Prop := {
  bk_sorted : forall sd, sorted (comp_of sd) (levels b sd);
  bk_levels : forall sd k l, PriceMap.find k (levels b sd) = Some l -> level_ok pool sd k l;
  bk_pool : pool_ok pool;
  bk_index : exists abs, index_ok b pool abs;
  bk_bbo : forall sd, bbo_side_ok b sd
}.

(** The record written by [update_best_bid] / [update_best_ask] after the
    level map of side [sd] became [m'] and the index [orders']. *)
Definition side_update (b : OrderBook.t) (sd : bool) (m' : PriceMap.t)
           (orders' : OrderMap.t) : OrderBook.t :=
  if sd then
    OrderBook.update_best_bid
      (OrderBook.mk (OrderBook.stock_locate_ b) m' (OrderBook.asks_ b) orders'
                    (OrderBook.bbo_ b) (OrderBook.order_count_ b))
  else
    OrderBook.update_best_ask
      (OrderBook.mk (OrderBook.stock_locate_ b) (OrderBook.bids_ b) m' orders'
                    (OrderBook.bbo_ b) (OrderBook.order_count_ b)).

Definition with_count (b : OrderBook.t) (c : Z) : OrderBook.t :=
  OrderBook.mk (OrderBook.stock_locate_ b) (OrderBook.bids_ b) (OrderBook.asks_ b)
               (OrderBook.orders_ b) (OrderBook.bbo_ b) c.

Definition with_orders (b : OrderBook.t) (orders' : OrderMap.t) (c : Z) : OrderBook.t :=
  OrderBook.mk (OrderBook.stock_locate_ b) (OrderBook.bids_ b) (OrderBook.asks_ b)
               orders' (OrderBook.bbo_ b) c.

(** ** Operations on books *)

(** The record that [add_order] writes through the acquired pointer. *)
Definition new_order (b : OrderBook.t) (order_id : Z) (side : Side)
           (price quantity timestamp : Z) : Order.t :=
  Order.mk order_id price quantity quantity (OrderBook.stock_locate_ b) side timestamp.

(** ** Sequences of operations on one book *)

Inductive book_op : Type :=
  | op_add (order_id : Z) (side : Side) (price quantity timestamp : Z)
  | op_execute (order_id quantity : Z)
  | op_cancel (order_id quantity : Z)
  | op_delete (order_id : Z)
  | op_replace (old_order_id new_order_id new_quantity new_price timestamp : Z).

Definition run_op (op : book_op) (st : OrderBook.t * ObjectPool.t)
  : option (OrderBook.t * ObjectPool.t) :=
  match op with
  | op_add i s p q t =>
      match OrderBook.add_order st.1 st.2 i s p q t with
      | Some (_, b', pool') => Some (b', pool') | None => None end
  | op_execute i q =>
      match OrderBook.execute_order st.1 st.2 i q with
      | Some (_, b', pool') => Some (b', pool') | None => None end
  | op_cancel i q =>
      match OrderBook.cancel_order st.1 st.2 i q with
      | Some (_, b', pool') => Some (b', pool') | None => None end
  | op_delete i =>
      match OrderBook.delete_order st.1 st.2 i with
      | Some (_, b', pool') => Some (b', pool') | None => None end
  | op_replace i j q p t =>
      match OrderBook.replace_order st.1 st.2 i j q p t with
      | Some (_, b', pool') => Some (b', pool') | None => None end
  end.

Fixpoint run_ops (ops : list book_op) (st : OrderBook.t * ObjectPool.t)
  : option (OrderBook.t * ObjectPool.t) :=
  match ops with
  | [] => Some st
  | op :: ops' =>
      match run_op op st with
      | Some st' => run_ops ops' st'
      | None => None
      end
  end.

(** Quantities are [Quantity] values (uint32). *)
Definition op_typed (op : book_op) : Prop :=
  match op with
  | op_add _ _ _ q _ => 0 <= q < 2 ^ 32
  | op_execute _ q => 0 <= q < 2 ^ 32
  | op_cancel _ q => 0 <= q < 2 ^ 32
  | op_delete _ => True
  | op_replace _ _ q _ _ => 0 <= q < 2 ^ 32
  end.

(** The book [OrderBook(stock_locate)] with a fresh pool. *)
Definition initial_state (stock_locate : Z) : option (OrderBook.t * ObjectPool.t) :=
  match OrderBook.new stock_locate with
  | Some b => Some (b, ObjectPool.new)
  | None => None
  end.

(** ** Reachable index states *)

(** States of an [OrderMap] constructed with an initial capacity of at least
    2 (the book uses the default, 100000) and driven by [put] of fresh
    nonzero ids and by [remove]; the map records the reference each present
    id was stored with. *)
Inductive om_reachable : OrderMap.t -> gmap Z (option ptr) -> Prop :=
  | reach_new (c : Z) (m : OrderMap.t) :
      2 <= c -> OrderMap.new_with c = Some m -> om_reachable m ∅
  | reach_put (m m' : OrderMap.t) (abs : gmap Z (option ptr)) (i : Z) (o : option ptr) :
      om_reachable m abs -> i <> 0 -> abs !! i = None ->
      OrderMap.put m i o = Some m' -> om_reachable m' (<[i:=o]> abs)
  | reach_remove (m m' : OrderMap.t) (abs : gmap Z (option ptr)) (i : Z) :
      om_reachable m abs -> OrderMap.remove m i = Some m' ->
      om_reachable m' (delete i abs).

(** A table of four slots in which ids 1 and 5 share the home slot 1. *)
Definition om_two : OrderMap.t :=
  default (OrderMap.mk [] 0 0 0)
    (m0 ← OrderMap.new_with 4; m1 ← OrderMap.put m0 1 (Some 10); OrderMap.put m1 5 (Some 11)).

(** ** States reached from a new book *)

(** The book and pool after [ops] on [OrderBook(stock_locate)]. *)
Definition state_after (stock_locate : Z) (ops : list book_op) : OrderBook.t * ObjectPool.t :=
  default (OrderBook.mk 0 [] [] (OrderMap.mk [] 0 0 0) BBO.init 0, ObjectPool.new)
          (st ← initial_state stock_locate; run_ops ops st).

(** [x] is the extreme key of the non-empty map [m]: a key of [m], and no
    key of [m] is strictly beyond it ([above] is [Z.le] for a maximum and
    [Z.ge] for a minimum). *)
Definition extreme_price (above : Z -> Z -> Prop) (m : PriceMap.t) (x : Z) : Prop :=
  (exists l, PriceMap.find x m = Some l) /\
  forall k l, PriceMap.find k m = Some l -> above k x.

(** Two resting buy orders of 2^31 shares each at one price. *)
Definition ops_overflow : list book_op :=
  [op_add 1 Side_Buy 100 2147483648 0; op_add 2 Side_Buy 100 2147483648 0].


(** ** Concrete books *)

(** One resting buy order: id 1001, 500 shares at 1500000, on the book of
    locate 1. *)
Definition ops_one : list book_op := [op_add 1001 Side_Buy 1500000 500 0].
Definition book_one : OrderBook.t := (state_after 1 ops_one).1.
Definition pool_one : ObjectPool.t := (state_after 1 ops_one).2.

(** The new book of locate 1 and the new pool. *)
Definition book_new : OrderBook.t := (state_after 1 []).1.
Definition pool_new : ObjectPool.t := (state_after 1 []).2.

(** What a caller can see of the order behind a reference. *)
Definition fields_of (pool : ObjectPool.t) (o : option ptr) : option (Z * Z * Z * Side) :=
  match o with
  | Some p => let r := ObjectPool.deref pool p in
              Some (Order.order_id r, Order.price r, Order.quantity r, Order.side r)
  | None => None
  end.

(** ** The book manager *)

(** States of the manager: the constructor, [get_book], and an operation
    on a book of the array with the manager's pool, written back through
    the reference. *)
Inductive mgr_reachable : OrderBookManager.t -> Prop :=
  | mr_new (m : OrderBookManager.t) :
      OrderBookManager.new = Some m -> mgr_reachable m
  | mr_get_book (m m' : OrderBookManager.t) (L : Z) :
      mgr_reachable m -> 0 <= L ->
      OrderBookManager.get_book m L = Some m' -> mgr_reachable m'
  | mr_op (m : OrderBookManager.t) (L : Z) (b b' : OrderBook.t) (pool' : ObjectPool.t)
          (op : book_op) :
      mgr_reachable m -> 0 <= L ->
      OrderBookManager.books_ m !! Z.to_nat L = Some b ->
      run_op op (b, OrderBookManager.order_pool m) = Some (b', pool') ->
      mgr_reachable (FeedHandler.commit m L b' pool').

(** The array has [MAX_SYMBOLS] books, and the book at index [L] carries
    locate 0 (not initialised) or [L]. *)
Definition mgr_ok (m : OrderBookManager.t) : Prop :=
  length (OrderBookManager.books_ m) = Z.to_nat OrderBookManager.MAX_SYMBOLS /\
  forall (L : nat) (b : OrderBook.t), OrderBookManager.books_ m !! L = Some b ->
    OrderBook.stock_locate_ b = 0 \/ OrderBook.stock_locate_ b = Z.of_nat L.

(** The manager right after construction. *)
Definition mgr_new : OrderBookManager.t :=
  default (OrderBookManager.mk [] ObjectPool.new) OrderBookManager.new.

(** ** The decoders *)

(** The 22 type tags of [get_message_size], in the order of its [switch]:
    S R H Y L V W K J h A F E C X D U P Q B I N. *)
Definition known_tags : list Z :=
  [83; 82; 72; 89; 76; 86; 87; 75; 74; 104; 65; 70; 69; 67; 88; 68; 85; 80; 81; 66; 73; 78].

(** A subscriber that records the calls it receives, oldest first. *)
Inductive HandlerCall : Type :=
  | call_message (t : MessageType) (data : list Z) (ts : Z)
  | call_parse_error (data : list Z) (len : Z) (reason : string).

#[export] Instance recorder : MessageHandler (list HandlerCall) := {
  on_message t data ts h := h ++ [call_message t data ts];
  on_parse_error data len reason h := h ++ [call_parse_error data len reason]
}.

(** [ParserStats] after one parsed message of type [tag] and [size] bytes. *)
Definition counted (st : ParserStats.t) (tag size : Z) : ParserStats.t :=
  ParserStats.mk (wrap64 (ParserStats.messages_parsed st + 1))
    (wrap64 (ParserStats.bytes_processed st + size))
    (ParserStats.parse_errors st)
    (<[Z.to_nat tag := wrap64 (ParserStats.count_of st tag + 1)]>
       (ParserStats.message_type_counts st)).

(** [ParserStats] after one parse error. *)
Definition errored (st : ParserStats.t) : ParserStats.t :=
  ParserStats.mk (ParserStats.messages_parsed st) (ParserStats.bytes_processed st)
    (wrap64 (ParserStats.parse_errors st + 1)) (ParserStats.message_type_counts st).

(** An Add Order message of 36 bytes: locate 1, timestamp 7, reference
    1001, buy, 500 shares, price 1500000. *)
Definition add_order_bytes : list Z :=
  [65; 0; 1; 0; 0; 0; 0; 0; 0; 0; 7; 0; 0; 0; 0; 0; 0; 3; 233; 66; 0; 0; 1; 244;
   65; 65; 80; 76; 32; 32; 32; 32; 0; 22; 227; 96].

(** ** The orchestrator *)

(** The order index of a book is a table in probe order that stores no
    null reference, and [order_count_] is at least the number of indexed
    orders (orders added under id 0 are counted and not indexed). *)
Definition index_wf (b : OrderBook.t) : Prop :=
  exists abs, om_repr (OrderBook.orders_ b) abs /\ (forall i, abs !! i <> Some None) /\
              Z.of_nat (size abs) <= OrderBook.order_count_ b.

(** The order messages, as the parser hands them to the orchestrator. *)
Inductive OrderMessage : Type :=
  | msg_add (m : AddOrderMessage.t)
  | msg_add_mpid (m : AddOrderMPIDMessage.t)
  | msg_executed (m : OrderExecutedMessage.t)
  | msg_executed_price (m : OrderExecutedPriceMessage.t)
  | msg_cancel (m : OrderCancelMessage.t)
  | msg_delete (m : OrderDeleteMessage.t)
  | msg_replace (m : OrderReplaceMessage.t).

Definition msg_locate (msg : OrderMessage) : Z :=
  endian.be16_to_host
    match msg with
    | msg_add m => AddOrderMessage.stock_locate m
    | msg_add_mpid m => AddOrderMPIDMessage.stock_locate m
    | msg_executed m => OrderExecutedMessage.stock_locate m
    | msg_executed_price m => OrderExecutedPriceMessage.stock_locate m
    | msg_cancel m => OrderCancelMessage.stock_locate m
    | msg_delete m => OrderDeleteMessage.stock_locate m
    | msg_replace m => OrderReplaceMessage.stock_locate m
    end.

(** The virtual call made by the parser for an order message. *)
Definition handle (fh : FeedHandler.t) (msg : OrderMessage) (ts : Z) : option FeedHandler.t :=
  match msg with
  | msg_add m => FeedHandler.on_add_order fh m ts
  | msg_add_mpid m => FeedHandler.on_add_order_mpid fh m ts
  | msg_executed m => FeedHandler.on_order_executed fh m ts
  | msg_executed_price m => FeedHandler.on_order_executed_price fh m ts
  | msg_cancel m => FeedHandler.on_order_cancel fh m ts
  | msg_delete m => FeedHandler.on_order_delete fh m ts
  | msg_replace m => FeedHandler.on_order_replace fh m ts
  end.

(** The calls received by the subscriber, and the BBO events among the
    calls made between two states. *)
Definition calls_of (fh : FeedHandler.t) : list FeedEvent :=
  default [] (FeedHandler.event_handler_ fh).

Definition bbo_events (calls : list FeedEvent) : list BBOEvent.t :=
  omap (fun c => match c with on_bbo_update_event e => Some e | on_trade_event _ => None end)
       calls.

Definition new_bbo_events (fh fh' : FeedHandler.t) : list BBOEvent.t :=
  bbo_events (drop (length (calls_of fh)) (calls_of fh')).

Definition is_trade (c : FeedEvent) : Prop :=
  match c with on_trade_event _ => True | on_bbo_update_event _ => False end.

(** The fields of an Add Order message (with or without attribution):
    locate, id, side, price, quantity. *)
Definition add_fields (msg : OrderMessage) : option (Z * Z * Side * Z * Z) :=
  match msg with
  | msg_add m =>
      Some (endian.be16_to_host (AddOrderMessage.stock_locate m),
            endian.be64_to_host (AddOrderMessage.order_ref_number m),
            char_to_side (AddOrderMessage.buy_sell_indicator m),
            endian.be32_to_host (AddOrderMessage.price m),
            endian.be32_to_host (AddOrderMessage.shares m))
  | msg_add_mpid m =>
      Some (endian.be16_to_host (AddOrderMPIDMessage.stock_locate m),
            endian.be64_to_host (AddOrderMPIDMessage.order_ref_number m),
            char_to_side (AddOrderMPIDMessage.buy_sell_indicator m),
            endian.be32_to_host (AddOrderMPIDMessage.price m),
            endian.be32_to_host (AddOrderMPIDMessage.shares m))
  | _ => None
  end.

(** Every handler that passes the filter ends in the closing block, on the
    book written back through the reference of [get_book], with the
    snapshot taken before the operation; the only calls made before it are
    trade calls. *)
Definition handled (fh : FeedHandler.t) (L ts : Z) (m : OrderBookManager.t)
           (book : OrderBook.t) (r : option FeedHandler.t) : Prop :=
  exists book' pool' mt trades,
    Forall is_trade trades /\ index_wf book' /\
    FeedMetrics.bbo_updates mt = FeedMetrics.bbo_updates (FeedHandler.metrics_ fh) /\
    r = Some (FeedHandler.notify_bbo
                (FeedHandler.with_state fh (FeedHandler.commit m L book' pool') mt
                   ((fun calls => calls ++ trades) <$> FeedHandler.event_handler_ fh))
                L (FeedHandler.snapshot fh book) (OrderBook.bbo book') ts).

(** The array has [MAX_SYMBOLS] books and every book has a well-formed
    index. *)
Definition fh_ok (fh : FeedHandler.t) : Prop :=
  length (OrderBookManager.books_ (FeedHandler.book_manager_ fh)) =
    Z.to_nat OrderBookManager.MAX_SYMBOLS /\
  Forall index_wf (OrderBookManager.books_ (FeedHandler.book_manager_ fh)).

(** Handling a sequence of order messages with their timestamps. *)
Fixpoint run_feed (msgs : list (OrderMessage * Z)) (fh : FeedHandler.t)
  : option FeedHandler.t :=
  match msgs with
  | [] => Some fh
  | (msg, ts) :: msgs' =>
      match handle fh msg ts with
      | Some fh' => run_feed msgs' fh'
      | None => None
      end
  end.

(** The orchestrator right after construction, and with a subscriber
    attached that has received no call yet. *)
Definition fh_new : FeedHandler.t :=
  default (FeedHandler.mk mgr_new FeedMetrics.init None ∅ false false) FeedHandler.new.

Definition fh_attached : FeedHandler.t := FeedHandler.set_event_handler fh_new (Some []).

(** The [n] bytes of [v], most significant first. *)
Fixpoint be_bytes (n : nat) (v : Z) : list Z :=
  match n with
  | O => []
  | S n' => Z.shiftr v (8 * Z.of_nat n') mod 256 :: be_bytes n' v
  end.

(** Type, locate, tracking number 0, timestamp, order reference. *)
Definition wire_header (type locate ts order_ref : Z) : list Z :=
  [type] ++ be_bytes 2 locate ++ be_bytes 2 0 ++ be_bytes 6 ts ++ be_bytes 8 order_ref.

Definition wire_add (type locate ts order_ref : Z) (side : Side) (shares price : Z)
  : list Z :=
  wire_header type locate ts order_ref ++ [side] ++ be_bytes 4 shares ++ replicate 8 32
    ++ be_bytes 4 price ++ (if type =? 70 then replicate 4 32 else []).

Definition wire_cancel (locate ts order_ref shares : Z) : list Z :=
  wire_header 88 locate ts order_ref ++ be_bytes 4 shares.

Definition add_msg (locate ts order_ref : Z) (side : Side) (shares price : Z) : OrderMessage :=
  msg_add (AddOrderMessage.view (wire_add 65 locate ts order_ref side shares price)).

Definition add_mpid_msg (locate ts order_ref : Z) (side : Side) (shares price : Z)
  : OrderMessage :=
  msg_add_mpid (AddOrderMPIDMessage.view (wire_add 70 locate ts order_ref side shares price)).

Definition cancel_msg (locate ts order_ref shares : Z) : OrderMessage :=
  msg_cancel (OrderCancelMessage.view (wire_cancel locate ts order_ref shares)).

(** What a BBO call shows: old and new bid and ask prices. *)
Definition bbo_prices (e : BBOEvent.t) : Z * Z * Z * Z :=
  (BBO.bid_price (BBOEvent.old_bbo e), BBO.ask_price (BBOEvent.old_bbo e),
   BBO.bid_price (BBOEvent.new_bbo e), BBO.ask_price (BBOEvent.new_bbo e)).

(** The orchestrator after one 'F' message for id 1001 on locate 1, the
    manager that [get_book(1)] then returns and the book it designates. *)
Definition fh_dup : FeedHandler.t :=
  default fh_attached (handle fh_attached (add_mpid_msg 1 7 1001 Side_Buy 500 1500000) 7).
Definition m_dup : OrderBookManager.t :=
  default mgr_new (OrderBookManager.get_book (FeedHandler.book_manager_ fh_dup) 1).
Definition book_dup : OrderBook.t :=
  default book_new (OrderBookManager.books_ m_dup !! Z.to_nat 1).

(** ** Symbols *)

(** The contents of a [Symbol]: 8 bytes. *)
Definition is_symbol (s : Symbol.t) : Prop :=
  length s = 8%nat /\ Forall (fun b => 0 <= b < 256) s.

(** The mixing steps of [SymbolHash] and [SymbolHash] backwards: the
    multipliers are odd, and 5725274745694666757 and 11291846944257947611
    are their inverses modulo 2^64. *)
Definition xor_shift (val : Z) : Z := Z.lxor val (Z.shiftr val 33).

Definition unmix (hash : Z) : Z :=
  xor_shift (wrap64 (xor_shift (wrap64 (xor_shift hash * 11291846944257947611))
                     * 5725274745694666757)).

(** The symbols AAPL and MSFT, padded with spaces. *)
Definition symbol_aapl : Symbol.t := [65; 65; 80; 76; 32; 32; 32; 32].
Definition symbol_msft : Symbol.t := [77; 83; 70; 84; 32; 32; 32; 32].

(** ** Streams and packets of messages *)

(** A complete message: the bytes of a struct whose type tag is known. *)
Definition is_frame (f : list Z) : bool :=
  negb (get_message_size (endian.byte_at f 0) =? 0)
  && (Z.of_nat (length f) =? get_message_size (endian.byte_at f 0)).

(** The buffers passed to the callbacks of a stream of messages that is
    followed in memory by [rest]: a callback receives the address of the
    first byte of its message. *)
Fixpoint stream_views (frames : list (list Z)) (rest : list Z) : list (list Z) :=
  match frames with
  | [] => []
  | f :: fs => (f ++ concat fs ++ rest) :: stream_views fs rest
  end.

(** The handler after the callbacks for the messages at [views], as
    [TemplateParser] and as [ITCHParser] dispatch them. *)
Definition template_calls {H : Type} `{!MessageHandler H} (views : list (list Z)) (h : H)
  : H :=
  foldl (fun h d => TemplateParser.dispatch (endian.byte_at d 0) d
                      (endian.be48_to_host d 5) h) h views.

Definition itch_calls {H : Type} `{!MessageHandler H} (views : list (list Z))
           (h : option H) : option H :=
  foldl (fun h d => ITCHParser.dispatch_message (endian.byte_at d 0) d
                      (ITCHParser.extract_timestamp d) h) h views.

(** [ParserStats] after the messages [frames]. *)
Definition counted_all (frames : list (list Z)) (st : ParserStats.t) : ParserStats.t :=
  foldl (fun st f => counted st (endian.byte_at f 0) (Z.of_nat (length f))) st frames.

(** The message blocks of a packet: each message behind its 2-byte
    big-endian length. *)
Fixpoint mold_blocks (frames : list (list Z)) : list Z :=
  match frames with
  | [] => []
  | f :: fs => be_bytes 2 (Z.of_nat (length f)) ++ f ++ mold_blocks fs
  end.

(** A packet: 18 bytes of session and sequence number, the 2-byte message
    count, the message blocks. *)
Definition mold_packet (session_and_sequence : list Z) (frames : list (list Z)) : list Z :=
  session_and_sequence ++ be_bytes 2 (Z.of_nat (length frames)) ++ mold_blocks frames.

(** The buffers passed to the callbacks of the messages of a packet that is
    followed in memory by [rest]. *)
Fixpoint mold_views (frames : list (list Z)) (rest : list Z) : list (list Z) :=
  match frames with
  | [] => []
  | f :: fs => (f ++ mold_blocks fs ++ rest) :: mold_views fs rest
  end.

(** The two parsers with the recording subscriber and fresh statistics. *)
Definition itch_recorder : @ITCHParser.t (list HandlerCall) :=
  ITCHParser.mk (Some []) ParserStats.init.

Definition template_recorder : @TemplateParser.t (list HandlerCall) :=
  TemplateParser.mk [] ParserStats.init.

(** ** The index and the pool *)

(** The ids and references stored in [om_two]. *)
Definition abs_two : gmap Z (option ptr) := <[5:=Some 11]> (<[1:=Some 10]> ∅).

(** A new pool after its first [acquire]. *)
Definition pool_acquired : ObjectPool.t := (ObjectPool.acquire ObjectPool.new).2.

(** ** Books *)

(** The orders linked in the levels of a book, bids first. *)
Definition chains (m : PriceMap.t) : list ptr :=
  concat ((fun kv => PriceLevel.chain kv.2) <$> m).

Definition resting_orders (b : OrderBook.t) : list ptr :=
  chains (OrderBook.bids_ b) ++ chains (OrderBook.asks_ b).

(** The sum of the [order_count_] fields of the levels. *)
Definition level_counts (m : PriceMap.t) : Z :=
  foldr (fun kv n => PriceLevel.order_count_ kv.2 + n) 0 m.

Definition count_of (o : option PriceLevel.t) : Z :=
  match o with Some l => PriceLevel.order_count_ l | None => 0 end.

(** The order count is the sum of the level counts, and the pool has handed
    out one slot per counted order. *)
Definition conserved (b : OrderBook.t) (pool : ObjectPool.t) : Prop :=
  OrderBook.order_count_ b =
    level_counts (OrderBook.bids_ b) + level_counts (OrderBook.asks_ b) /\
  ObjectPool.capacity pool - ObjectPool.available pool = OrderBook.order_count_ b.

(** A bid and an ask resting in the book of locate 1. *)
Definition ops_both : list book_op :=
  [op_add 1001 Side_Buy 1500000 500 0; op_add 1002 Side_Sell 1500100 300 0].
Definition book_both : OrderBook.t := (state_after 1 ops_both).1.
Definition pool_both : ObjectPool.t := (state_after 1 ops_both).2.

(** ** Books sharing the pool *)

(** A slot of the pool's blocks that is handed out. *)
Definition live (pool : ObjectPool.t) (q : ptr) : Prop :=
  0 <= q < ObjectPool.blocks_ pool * ObjectPool.BlockSize /\
  q ∉ ObjectPool.free_list_ pool.

(** The step from [(b, pool)] to [(b', pool')] leaves alone the handed-out
    slots that [b] does not link: they stay handed out, keep their record
    and are not linked by [b']. *)
Definition keeps_others (b : OrderBook.t) (pool : ObjectPool.t)
           (b' : OrderBook.t) (pool' : ObjectPool.t) : Prop :=
  forall q, live pool q -> ~ in_book b q ->
    live pool' q /\ ObjectPool.deref pool' q = ObjectPool.deref pool q /\ ~ in_book b' q.

(** [order_count_] is the sum of the [order_count_] fields of the levels. *)
Definition count_ok (b : OrderBook.t) : Prop :=
  OrderBook.order_count_ b =
  level_counts (OrderBook.bids_ b) + level_counts (OrderBook.asks_ b).

(** The outcome of an operation on a book of the manager. *)
Definition step_ok (b : OrderBook.t) (pool : ObjectPool.t)
           (b' : OrderBook.t) (pool' : ObjectPool.t) : Prop :=
  book_ok b' pool' /\ keeps_others b pool b' pool' /\
  OrderBook.stock_locate_ b' = OrderBook.stock_locate_ b /\
  (count_ok b -> count_ok b').

(** The books of the manager are well-formed over its pool, and no order
    is linked by two of them. *)
Record mgr_wf (m : OrderBookManager.t) : Prop := {
  mw_ok : mgr_ok m;
  mw_pool : pool_ok (OrderBookManager.order_pool_ m);
  mw_books : forall (L : nat) (b : OrderBook.t),
      OrderBookManager.books_ m !! L = Some b -> book_ok b (OrderBookManager.order_pool_ m);
  mw_apart : forall (L1 L2 : nat) (b1 b2 : OrderBook.t) (p : ptr),
      L1 <> L2 -> OrderBookManager.books_ m !! L1 = Some b1 ->
      OrderBookManager.books_ m !! L2 = Some b2 -> in_book b1 p -> ~ in_book b2 p;
  mw_counts : forall (L : nat) (b : OrderBook.t),
      OrderBookManager.books_ m !! L = Some b -> count_ok b
}.

(** [book_manager.get_book(L).op(.., book_manager.order_pool())]: the way
    the callers of the manager run an operation on the book of a locate. *)
Definition mgr_step (m : OrderBookManager.t) (L : Z) (op : book_op)
  : option OrderBookManager.t :=
  m1 ← OrderBookManager.get_book m L;
  b ← OrderBookManager.books_ m1 !! Z.to_nat L;
  '(b', pool') ← run_op op (b, OrderBookManager.order_pool m1);
  Some (FeedHandler.commit m1 L b' pool').

Fixpoint mgr_run (steps : list (Z * book_op)) (m : OrderBookManager.t)
  : option OrderBookManager.t :=
  match steps with
  | [] => Some m
  | (L, op) :: steps' =>
      match mgr_step m L op with
      | Some m' => mgr_run steps' m'
      | None => None
      end
  end.



(** A bid in the book of locate 1 and an ask in the book of locate 2. *)
Definition steps_two : list (Z * book_op) :=
  [(1, op_add 1001 Side_Buy 1500000 500 0); (2, op_add 1002 Side_Sell 1500100 300 0)].

(** ** Order messages on the books *)

(** The operation that the handler of an order message runs on the book of
    its locate, with the decoded fields of the message. *)
Definition msg_op (msg : OrderMessage) (ts : Z) : book_op :=
  match msg with
  | msg_add m =>
      op_add (endian.be64_to_host (AddOrderMessage.order_ref_number m))
             (char_to_side (AddOrderMessage.buy_sell_indicator m))
             (endian.be32_to_host (AddOrderMessage.price m))
             (endian.be32_to_host (AddOrderMessage.shares m)) ts
  | msg_add_mpid m =>
      op_add (endian.be64_to_host (AddOrderMPIDMessage.order_ref_number m))
             (char_to_side (AddOrderMPIDMessage.buy_sell_indicator m))
             (endian.be32_to_host (AddOrderMPIDMessage.price m))
             (endian.be32_to_host (AddOrderMPIDMessage.shares m)) ts
  | msg_executed m =>
      op_execute (endian.be64_to_host (OrderExecutedMessage.order_ref_number m))
                 (endian.be32_to_host (OrderExecutedMessage.executed_shares m))
  | msg_executed_price m =>
      op_execute (endian.be64_to_host (OrderExecutedPriceMessage.order_ref_number m))
                 (endian.be32_to_host (OrderExecutedPriceMessage.executed_shares m))
  | msg_cancel m =>
      op_cancel (endian.be64_to_host (OrderCancelMessage.order_ref_number m))
                (endian.be32_to_host (OrderCancelMessage.cancelled_shares m))
  | msg_delete m =>
      op_delete (endian.be64_to_host (OrderDeleteMessage.order_ref_number m))
  | msg_replace m =>
      op_replace (endian.be64_to_host (OrderReplaceMessage.original_order_ref_number m))
                 (endian.be64_to_host (OrderReplaceMessage.new_order_ref_number m))
                 (endian.be32_to_host (OrderReplaceMessage.shares m))
                 (endian.be32_to_host (OrderReplaceMessage.price m)) ts
  end.

(** The counters after the increments of the handler of an order message;
    [bbo_updates] is incremented by the closing block. *)
Definition msg_count (fh : FeedHandler.t) (msg : OrderMessage) : FeedMetrics.t :=
  let mt := FeedHandler.metrics_ fh in
  match msg with
  | msg_add _ => if FeedHandler.collect_metrics_ fh then FeedHandler.count_added mt else mt
  | msg_add_mpid _ => FeedHandler.count_added mt
  | msg_executed _ | msg_executed_price _ => FeedHandler.count_executed mt
  | msg_cancel _ => FeedHandler.count_cancelled mt
  | msg_delete _ => FeedHandler.count_deleted mt
  | msg_replace _ => FeedHandler.count_replaced mt
  end.

(** The trade reported by the handler of an execution message that finds
    its order [p]: the price is that of the resting order, or the execution
    price of the message. *)
Definition execution_of (msg : OrderMessage) (ts : Z) (o : Order.t) : list TradeEvent.t :=
  match msg with
  | msg_executed m =>
      [TradeEvent.mk (endian.be16_to_host (OrderExecutedMessage.stock_locate m))
         (Order.price o)
         (endian.be32_to_host (OrderExecutedMessage.executed_shares m))
         (endian.be64_to_host (OrderExecutedMessage.order_ref_number m))
         (endian.be64_to_host (OrderExecutedMessage.match_number m))
         (Order.side o) ts]
  | msg_executed_price m =>
      [TradeEvent.mk (endian.be16_to_host (OrderExecutedPriceMessage.stock_locate m))
         (endian.be32_to_host (OrderExecutedPriceMessage.execution_price m))
         (endian.be32_to_host (OrderExecutedPriceMessage.executed_shares m))
         (endian.be64_to_host (OrderExecutedPriceMessage.order_ref_number m))
         (endian.be64_to_host (OrderExecutedPriceMessage.match_number m))
         (Order.side o) ts]
  | _ => []
  end.

(** The order id that an execution message refers to. *)
Definition executed_id (msg : OrderMessage) : option Z :=
  match msg with
  | msg_executed m => Some (endian.be64_to_host (OrderExecutedMessage.order_ref_number m))
  | msg_executed_price m =>
      Some (endian.be64_to_host (OrderExecutedPriceMessage.order_ref_number m))
  | _ => None
  end.

(** The trades reported for [msg] on the book [book] over [pool]. *)
Definition msg_trades (msg : OrderMessage) (ts : Z) (book : OrderBook.t)
           (pool : ObjectPool.t) : list TradeEvent.t :=
  match executed_id msg with
  | Some id =>
      match OrderBook.get_order book id with
      | Some (Some p) => execution_of msg ts (ObjectPool.deref pool p)
      | _ => []
      end
  | None => []
  end.

(** The operations of the messages that pass the filter of [fh]. *)
Definition feed_steps (fh : FeedHandler.t) (msgs : list (OrderMessage * Z))
  : list (Z * book_op) :=
  omap (fun mt : OrderMessage * Z =>
          if FeedHandler.filtered_out fh (msg_locate mt.1) then None
          else Some (msg_locate mt.1, msg_op mt.1 mt.2)) msgs.

(** The trade calls among the calls of a subscriber. *)
Definition trade_events (calls : list FeedEvent) : list TradeEvent.t :=
  omap (fun c => match c with on_trade_event e => Some e | on_bbo_update_event _ => None end)
       calls.

(** [fh] with another filter. *)
Definition with_filter (fh : FeedHandler.t) (locates : gset Z) (use : bool)
  : FeedHandler.t :=
  FeedHandler.mk (FeedHandler.book_manager_ fh) (FeedHandler.metrics_ fh)
    (FeedHandler.event_handler_ fh) locates use (FeedHandler.collect_metrics_ fh).

Definition wire_executed (locate ts order_ref shares match_number : Z) : list Z :=
  wire_header 69 locate ts order_ref ++ be_bytes 4 shares ++ be_bytes 8 match_number.

Definition executed_msg (locate ts order_ref shares match_number : Z) : OrderMessage :=
  msg_executed (OrderExecutedMessage.view
                  (wire_executed locate ts order_ref shares match_number)).

(** The attached orchestrator after a first Add Order message: a bid of
    500 shares rests in the book of locate 1. *)
Definition fh_resting : FeedHandler.t :=
  default fh_attached (handle fh_attached (add_msg 1 7 1001 Side_Buy 500 1500000) 7).

(** The feed of [bbo_event_scenario]. *)
Definition feed_four : list (OrderMessage * Z) :=
  [(add_msg 1 1 1001 Side_Buy 500 1500000, 1); (add_msg 1 2 1002 Side_Buy 100 1500000, 2);
   (cancel_msg 1 3 1002 100, 3); (add_msg 1 4 1003 Side_Sell 10 1600000, 4)].

(** ** Buffers through the orchestrator *)

(** The books are well-formed and share no order, and the filter is the
    one of [fh]. *)
Definition feed_inv (fh : FeedHandler.t) (f : FeedHandler.full) : Prop :=
  mgr_wf (FeedHandler.book_manager_ (FeedHandler.state_ f)) /\
  FeedHandler.symbol_filter_ (FeedHandler.state_ f) = FeedHandler.symbol_filter_ fh /\
  FeedHandler.use_filter_ (FeedHandler.state_ f) = FeedHandler.use_filter_ fh.

(** The filter lets pass no locate outside the array of books. *)
Definition filter_in_range (fh : FeedHandler.t) : Prop :=
  forall L, 0 <= L < 65536 -> FeedHandler.filtered_out fh L = false ->
            L < OrderBookManager.MAX_SYMBOLS.

(** The handler object of the parser is an orchestrator that keeps the
    invariant: no callback has left the array of books. *)
Definition safe (fh : FeedHandler.t) (h : option FeedHandler.full) : Prop :=
  exists f, h = Some f /\ feed_inv fh f.

(** The attached orchestrator with the filter [{1}], and without filter. *)
Definition feed_filtered : FeedHandler.full :=
  FeedHandler.mkFull (FeedHandler.set_symbol_filter fh_attached {[1]})
                     SymbolDirectory.empty [].

Definition feed_open : FeedHandler.full :=
  FeedHandler.mkFull fh_attached SymbolDirectory.empty [].

(** An Add Order message for locate 1, one for locate 9000, and a byte that
    is no type tag. *)
Definition buffer_two : list Z :=
  wire_add 65 1 7 1001 Side_Buy 500 1500000 ++ wire_add 65 9000 8 1002 Side_Buy 100 1500000
  ++ [90].

(** ** The directory and the histogram *)

(** The loop of [symbol_count] from a count [a]. *)
Definition count_active (a : Z) (l : list SymbolDirectory.SymbolInfo) : Z :=
  foldl (fun count info => if SymbolDirectory.is_active info then count + 1 else count) a l.

(** The vector after the [resize] of [add_symbol]. *)
Definition resized (d : SymbolDirectory.t) (locate : Z) : list SymbolDirectory.SymbolInfo :=
  if Z.of_nat (length (SymbolDirectory.symbols_ d)) <=? locate
  then SymbolDirectory.symbols_ d ++
       replicate (Z.to_nat (locate + 1) - length (SymbolDirectory.symbols_ d))
                 SymbolDirectory.blank
  else SymbolDirectory.symbols_ d.

(** The bucket of a latency. *)
Definition bucket_of (latency_ns : Z) : Z :=
  Z.min (latency_ns / LatencyHistogram.BUCKET_SIZE_NS) (LatencyHistogram.NUM_BUCKETS - 1).

(** The samples of [ls] that fall into bucket [i]. *)
Definition in_bucket (i : nat) (ls : list Z) : list Z :=
  filter (fun l => bucket_of l = Z.of_nat i) ls.

(** The histogram holds the samples [ls]. *)
Record summarises (h : LatencyHistogram.t) (ls : list Z) : Prop := {
  hd_count : LatencyHistogram.count_ h = Z.of_nat (length ls);
  hd_length : length (LatencyHistogram.buckets_ h) = 100%nat;
  hd_buckets : forall i : nat, (i < 100)%nat ->
      LatencyHistogram.buckets_ h !! i = Some (Z.of_nat (length (in_bucket i ls)));
  hd_total : LatencyHistogram.total_ h = wrap64 (foldr Z.add 0 ls);
  hd_min : LatencyHistogram.min_ h = foldr Z.min LatencyHistogram.UINT64_MAX ls;
  hd_max : LatencyHistogram.max_ h = foldr Z.max 0 ls
}.

Definition samples_three : list Z := [50; 150; 12000].

(* ===================================================================== *)
(** * Part III: the theory *)
(* ===================================================================== *)

Arguments OrderMap.budget : simpl never.

Ltac zbool :=
  repeat match goal with
  | |- context [?a <=? ?b] => destruct (Z.leb_spec a b)
  | |- context [?a <? ?b] => destruct (Z.ltb_spec a b)
  | |- context [?a =? ?b] => destruct (Z.eqb_spec a b)
  | H : context [?a <=? ?b] |- _ => destruct (Z.leb_spec a b)
  | H : context [?a <? ?b] |- _ => destruct (Z.ltb_spec a b)
  | H : context [?a =? ?b] |- _ => destruct (Z.eqb_spec a b)
  end.

Ltac cyc := solve [unfold cdist, nxt in *; zbool; simpl in *; first [lia | congruence]].

Section IndexTheory.
Import OrderMap.

Lemma land_mask (k x : Z) : 0 <= k -> Z.land x (2 ^ k - 1) = x mod 2 ^ k.
Proof.
  intros Hk. rewrite <- Z.land_ones by lia. f_equal.
  rewrite Z.ones_equiv. lia.
Qed.

Lemma land_home (cap k x : Z) :
  0 <= k -> cap = 2 ^ k -> Z.land (hash x) (cap - 1) = home cap x.
Proof. intros ? ->. unfold hash, home. by apply land_mask. Qed.

Lemma land_next (cap k i : Z) :
  0 <= k -> cap = 2 ^ k -> 0 <= i < cap -> Z.land (i + 1) (cap - 1) = nxt cap i.
Proof.
  intros Hk -> Hi. rewrite land_mask by lia. unfold nxt.
  destruct (Z.eqb_spec (i + 1) (2 ^ k)) as [->|Hne].
  - apply Z.mod_same. lia.
  - apply Z.mod_small. lia.
Qed.

Lemma home_range (cap x : Z) : 0 < cap -> 0 <= home cap x < cap.
Proof. intros. unfold home. apply Z.mod_pos_bound. lia. Qed.

Lemma moves_back_spec (cap curr next desired : Z) :
  0 <= curr < cap -> 0 <= next < cap -> 0 <= desired < cap -> curr <> next ->
  moves_back curr next desired = true <-> cdist cap curr next <= cdist cap desired next.
Proof.
  intros. unfold moves_back.
  rewrite orb_true_iff, !andb_true_iff, orb_true_iff.
  rewrite !Z.ltb_lt, !Z.leb_le. cyc.
Qed.

Lemma at_set_eq (es : list Entry) (i : Z) (e : Entry) :
  0 <= i < Z.of_nat (length es) -> at_ (set_ es i e) i = e.
Proof.
  intros Hi. unfold at_, set_. rewrite list_lookup_insert_eq; [done | lia].
Qed.

Lemma at_set_ne (es : list Entry) (i j : Z) (e : Entry) :
  0 <= i -> 0 <= j -> i <> j -> at_ (set_ es i e) j = at_ es j.
Proof.
  intros Hi Hj Hne. unfold at_, set_. rewrite list_lookup_insert_ne; [done | lia].
Qed.

Lemma length_set (es : list Entry) (i : Z) (e : Entry) :
  length (set_ es i e) = length es.
Proof. unfold set_. apply length_insert. Qed.

Lemma at_replicate (n : nat) (i : Z) : at_ (replicate n empty_entry) i = empty_entry.
Proof.
  unfold at_. destruct (replicate n empty_entry !! Z.to_nat i) eqn:E; [|done].
  apply lookup_replicate in E as [-> _]. done.
Qed.

Section Table.
Variables (cap k : Z) (es : list Entry).
Hypothesis Hk : 0 <= k.
Hypothesis Hcap : cap = 2 ^ k.
Hypothesis Hok : table_ok cap es.

Lemma cap_pos : 0 < cap.
Proof. rewrite Hcap. apply Z.pow_pos_nonneg; lia. Qed.

(** [find]: the loop started at the home slot returns the stored reference,
    or null when the id is not stored. *)
Lemma find_loop_spec (i : Z) :
  has_empty cap es ->
  forall (fuel : nat) (idx : Z),
    0 <= idx < cap ->
    (forall j, 0 <= j < cap -> cdist cap (home cap i) j < cdist cap (home cap i) idx ->
               id (at_ es j) <> 0 /\ id (at_ es j) <> i) ->
    cap - cdist cap (home cap i) idx < Z.of_nat fuel ->
    exists r, find_loop fuel es (cap - 1) i idx = Some r /\
      (forall o, holds cap es i o -> r = o) /\
      ((forall o, ~ holds cap es i o) -> r = None).
Proof.
  intros [e [He He0]]. pose proof cap_pos as Hc.
  pose proof (home_range cap i Hc) as Hh.
  induction fuel as [|fuel IH]; intros idx Hidx Hinv Hfuel.
  { cyc. }
  simpl. destruct (Z.eqb_spec (id (at_ es idx)) 0) as [Hz|Hnz].
  - eexists; split; [done|]. split; [|done].
    intros o [Hi0 (p & Hp & Hat)].
    assert (Hpo : id (at_ es p) <> 0) by (rewrite Hat; done).
    assert (Hpi : id (at_ es p) = i) by (rewrite Hat; done).
    destruct (Z_lt_le_dec (cdist cap (home cap i) p) (cdist cap (home cap i) idx)) as [Hlt|Hge].
    + destruct (Hinv p Hp Hlt) as [_ Hne]. congruence.
    + assert (p <> idx) by congruence.
      exfalso. eapply (t_probe _ _ Hok p idx); eauto. rewrite Hpi. cyc.
  - destruct (Z.eqb_spec (id (at_ es idx)) i) as [Heq|Hne].
    + eexists; split; [done|]. split.
      * intros o [Hi0 (p & Hp & Hat)].
        assert (p = idx).
        { symmetry. eapply (t_distinct _ _ Hok); eauto. rewrite Hat. done. }
        subst p. rewrite Hat. done.
      * intros Hno. exfalso. eapply (Hno (order (at_ es idx))).
        split; [congruence|]. exists idx. split; [done|].
        destruct (at_ es idx); simpl in *; congruence.
    + assert (Hnot_last : cdist cap (home cap i) idx + 1 < cap).
      { destruct (Z_lt_le_dec (cdist cap (home cap i) idx + 1) cap); [done|].
        exfalso. destruct (Z.eq_dec e idx) as [->|Hne']; [done|].
        destruct (Hinv e He); [cyc | done]. }
      rewrite (land_next cap k) by done.
      apply IH.
      * cyc.
      * intros j Hj Hlt.
        destruct (Z.eq_dec j idx) as [->|Hji]; [done|].
        apply Hinv; [done|]. cyc.
      * cyc.
Qed.

End Table.

Lemma occ_count_cons (e : Entry) (es : list Entry) :
  occ_count (e :: es) = occ_bit e + occ_count es.
Proof. reflexivity. Qed.

Lemma occ_count_bounds (es : list Entry) : 0 <= occ_count es <= Z.of_nat (length es).
Proof.
  induction es as [|e es IH]; simpl; [lia|]. unfold occ_bit. cyc.
Qed.

Lemma occ_count_insert (es : list Entry) (n : nat) (e : Entry) :
  (n < length es)%nat ->
  occ_count (<[n:=e]> es) = occ_count es - occ_bit (default empty_entry (es !! n)) + occ_bit e.
Proof.
  revert n. induction es as [|a es IH]; intros n Hn; simpl in *; [lia|].
  destruct n as [|n]; simpl.
  - lia.
  - rewrite IH by lia. lia.
Qed.

Lemma occ_count_set (es : list Entry) (i : Z) (e : Entry) :
  0 <= i < Z.of_nat (length es) ->
  occ_count (set_ es i e) = occ_count es - occ_bit (at_ es i) + occ_bit e.
Proof. intros Hi. unfold set_, at_. apply occ_count_insert. lia. Qed.

Lemma occ_count_replicate (n : nat) : occ_count (replicate n empty_entry) = 0.
Proof. induction n as [|n IH]; simpl; [done|]. rewrite IH. done. Qed.

Lemma occ_count_lt_empty (es : list Entry) :
  occ_count es < Z.of_nat (length es) ->
  exists n, (n < length es)%nat /\ id (default empty_entry (es !! n)) = 0.
Proof.
  induction es as [|a es IH]; simpl; [lia|]. intros Hlt.
  destruct (Z.eqb_spec (id a) 0) as [Hz|Hnz].
  - exists O. simpl. split; [lia|done].
  - unfold occ_bit in Hlt. destruct (Z.eqb_spec (id a) 0); [done|].
    destruct IH as (n' & Hn & Hid); [lia|].
    exists (S n'). simpl. split; [lia|done].
Qed.

Lemma has_empty_of_count (cap : Z) (es : list Entry) :
  Z.of_nat (length es) = cap -> occ_count es < cap -> has_empty cap es.
Proof.
  intros Hlen Hlt. destruct (occ_count_lt_empty es) as (n & Hn & Hid); [lia|].
  exists (Z.of_nat n). split; [lia|]. unfold at_. rewrite Nat2Z.id. done.
Qed.

(** A table whose slots carry the same ids satisfies the same invariant. *)
Lemma table_ok_same_ids (cap : Z) (es es' : list Entry) :
  table_ok cap es -> length es' = length es ->
  (forall p, 0 <= p < cap -> id (at_ es' p) = id (at_ es p)) ->
  table_ok cap es'.
Proof.
  intros [Hlen Hpr Hd] Hl Hid. split.
  - lia.
  - intros p j Hp Hj. rewrite !Hid by done. by apply Hpr.
  - intros p q Hp Hq. rewrite !Hid by done. by apply Hd.
Qed.

Section Insert.
Variables (cap k : Z) (es : list Entry).
Hypothesis Hk : 0 <= k.
Hypothesis Hcap : cap = 2 ^ k.
Hypothesis Hok : table_ok cap es.

(** The probing loop of [put] stops at the first empty slot after [h]. *)
Lemma probe_loop_spec (h : Z) :
  has_empty cap es -> 0 <= h < cap ->
  forall (fuel : nat) (idx : Z),
    0 <= idx < cap ->
    (forall j, 0 <= j < cap -> cdist cap h j < cdist cap h idx -> id (at_ es j) <> 0) ->
    cap - cdist cap h idx < Z.of_nat fuel ->
    exists q, probe_loop fuel es (cap - 1) idx = Some q /\ 0 <= q < cap /\
      id (at_ es q) = 0 /\
      (forall j, 0 <= j < cap -> cdist cap h j < cdist cap h q -> id (at_ es j) <> 0).
Proof.
  intros [e [He He0]] Hh.
  induction fuel as [|fuel IH]; intros idx Hidx Hinv Hfuel.
  { cyc. }
  simpl. destruct (Z.eqb_spec (id (at_ es idx)) 0) as [Hz|Hnz].
  - exists idx. done.
  - assert (Hnot_last : cdist cap h idx + 1 < cap).
    { destruct (Z_lt_le_dec (cdist cap h idx + 1) cap); [done|].
      exfalso. destruct (Z.eq_dec e idx) as [->|Hne']; [done|].
      apply (Hinv e He); [cyc | done]. }
    rewrite (land_next cap k) by done.
    apply IH.
    + cyc.
    + intros j Hj Hlt.
      destruct (Z.eq_dec j idx) as [->|Hji]; [done|].
      apply Hinv; [done|]. cyc.
    + cyc.
Qed.

(** Storing a fresh id at the slot found by the probe keeps the invariant. *)
Lemma insert_ok (i q : Z) (o : option ptr) :
  i <> 0 -> 0 <= q < cap -> id (at_ es q) = 0 ->
  (forall j, 0 <= j < cap -> cdist cap (home cap i) j < cdist cap (home cap i) q ->
             id (at_ es j) <> 0) ->
  (forall p, 0 <= p < cap -> id (at_ es p) <> i) ->
  table_ok cap (set_ es q (mkEntry i o)).
Proof.
  intros Hi Hq Hq0 Hpath Hfresh. destruct Hok as [Hlen Hpr Hd].
  assert (Hat : forall p, 0 <= p < cap ->
            at_ (set_ es q (mkEntry i o)) p = if Z.eq_dec p q then mkEntry i o else at_ es p).
  { intros p Hp. destruct (Z.eq_dec p q) as [->|Hne].
    - apply at_set_eq. lia.
    - apply at_set_ne; lia. }
  split.
  - rewrite length_set. done.
  - intros p j Hp Hj. rewrite !Hat by done.
    destruct (Z.eq_dec p q) as [->|Hpq]; destruct (Z.eq_dec j q) as [->|Hjq]; simpl;
      intros Hocc Hlt; try done.
    + apply Hpath; done.
    + by apply (Hpr p j).
  - intros p p' Hp Hp'. rewrite !Hat by done.
    destruct (Z.eq_dec p q) as [->|Hpq]; destruct (Z.eq_dec p' q) as [->|Hjq]; simpl;
      intros Hocc Heq; try done.
    + exfalso. by apply (Hfresh p').
    + exfalso. by apply (Hfresh p).
    + by apply Hd.
Qed.

Lemma insert_holds (i q : Z) (o : option ptr) :
  i <> 0 -> 0 <= q < cap -> id (at_ es q) = 0 ->
  forall i' o', holds cap (set_ es q (mkEntry i o)) i' o' <->
                (i' = i /\ o' = o) \/ holds cap es i' o'.
Proof.
  intros Hi Hq Hq0 i' o'. pose proof (t_len _ _ Hok) as Hlen. split.
  - intros [Hi' (p & Hp & Hat)].
    destruct (Z.eq_dec p q) as [->|Hne].
    + rewrite at_set_eq in Hat by lia. left. by inversion Hat.
    + rewrite at_set_ne in Hat by lia. right. split; [done|]. eauto.
  - intros [[-> ->]|[Hi' (p & Hp & Hat)]].
    + split; [done|]. exists q. split; [done|]. apply at_set_eq. lia.
    + split; [done|]. exists p. split; [done|].
      rewrite at_set_ne; [done|lia|lia|]. intros ->. rewrite Hat in Hq0. done.
Qed.

(** [put] of the sentinel id 0 writes a slot that stays empty. *)
Lemma insert_zero_ok (q : Z) (o : option ptr) :
  0 <= q < cap -> id (at_ es q) = 0 -> table_ok cap (set_ es q (mkEntry 0 o)).
Proof.
  intros Hq Hq0. pose proof (t_len _ _ Hok) as Hlen.
  apply (table_ok_same_ids cap es); [done|apply length_set|].
  intros p Hp. destruct (Z.eq_dec p q) as [->|Hne].
  - rewrite at_set_eq by lia. done.
  - rewrite at_set_ne by lia. done.
Qed.

Lemma insert_zero_holds (q : Z) (o : option ptr) :
  0 <= q < cap -> id (at_ es q) = 0 ->
  forall i' o', holds cap (set_ es q (mkEntry 0 o)) i' o' <-> holds cap es i' o'.
Proof.
  intros Hq Hq0 i' o'. pose proof (t_len _ _ Hok) as Hlen. split.
  - intros [Hi' (p & Hp & Hat)]. split; [done|].
    destruct (Z.eq_dec p q) as [->|Hne].
    + rewrite at_set_eq in Hat by lia. inversion Hat. done.
    + rewrite at_set_ne in Hat by lia. eauto.
  - intros [Hi' (p & Hp & Hat)]. split; [done|]. exists p. split; [done|].
    rewrite at_set_ne; [done|lia|lia|]. intros ->. rewrite Hat in Hq0. done.
Qed.

End Insert.

Section Shift.
Variables (cap k : Z).
Hypothesis Hk : 1 <= k.
Hypothesis Hcap : cap = 2 ^ k.

Lemma cap_ge2 : 2 <= cap.
Proof.
  rewrite Hcap. replace k with (1 + (k - 1)) by lia.
  rewrite Z.pow_add_r by lia. pose proof (Z.pow_pos_nonneg 2 (k - 1)). lia.
Qed.

Lemma shift_exit (es : list Entry) (curr next e : Z) :
  shift_inv cap es curr next e -> id (at_ es next) = 0 -> table_ok cap es.
Proof.
  intros [Hlen Hc Hn Hne Hh Hb Hp Hd He Hec He0] Hz.
  pose proof cap_ge2 as Hc2. split; try done.
  intros p j Hpr Hjr Hocc Hlt.
  destruct (Hp p j Hpr Hjr Hocc Hlt) as [?|[-> Hnot]]; [done|].
  exfalso.
  pose proof (home_range cap (id (at_ es p)) ltac:(lia)) as Hh'.
  assert (p <> curr) by congruence. assert (p <> next) by congruence.
  assert (Hlt' : cdist cap (home cap (id (at_ es p))) next <
                 cdist cap (home cap (id (at_ es p))) p) by cyc.
  destruct (Hp p next Hpr Hn Hocc Hlt') as [?|[? _]]; done.
Qed.

Lemma shift_stay (es : list Entry) (curr next e : Z) :
  shift_inv cap es curr next e -> id (at_ es next) <> 0 ->
  moves_back curr next (home cap (id (at_ es next))) = false ->
  shift_inv cap es curr (nxt cap next) e.
Proof.
  intros [Hlen Hc Hn Hne Hh Hb Hp Hd He Hec He0] Hocc Hmv.
  pose proof cap_ge2 as Hc2.
  pose proof (home_range cap (id (at_ es next)) ltac:(lia)) as Hh'.
  assert (Hst : cdist cap (home cap (id (at_ es next))) next < cdist cap curr next).
  { destruct (Z_lt_le_dec (cdist cap (home cap (id (at_ es next))) next) (cdist cap curr next));
      [done|].
    apply (moves_back_spec cap) in l; try done. rewrite l in Hmv. done. }
  assert (Hnn' : nxt cap next <> curr).
  { intros Heq. assert (e <> next) by congruence.
    apply (Hb e He); [cyc | done]. }
  split; try done.
  - cyc.
  - intros j Hj Hbt. destruct (Z.eq_dec j next) as [->|Hjn]; [done|].
    apply Hb; [done|]. cyc.
  - intros p j Hpr Hjr Hpo Hlt.
    destruct (Hp p j Hpr Hjr Hpo Hlt) as [?|[-> Hnot]]; [by left|].
    right. split; [done|]. intros Hin.
    destruct (Z.eq_dec p next) as [->|Hpn].
    + cyc.
    + apply Hnot. cyc.
Qed.

Lemma at_move (es : list Entry) (curr next p : Z) :
  Z.of_nat (length es) = cap -> 0 <= curr < cap -> 0 <= next < cap -> curr <> next ->
  0 <= p < cap ->
  at_ (set_ (set_ es curr (at_ es next)) next
            (mkEntry 0 (order (at_ (set_ es curr (at_ es next)) next)))) p =
  if Z.eq_dec p next then mkEntry 0 (order (at_ es next))
  else if Z.eq_dec p curr then at_ es next else at_ es p.
Proof.
  intros Hlen Hc Hn Hne Hp.
  destruct (Z.eq_dec p next) as [->|Hpn].
  - rewrite at_set_eq by (rewrite length_set; lia).
    rewrite at_set_ne by lia. done.
  - rewrite at_set_ne by lia.
    destruct (Z.eq_dec p curr) as [->|Hpc].
    + rewrite at_set_eq by lia. done.
    + rewrite at_set_ne by lia. done.
Qed.

Lemma shift_move (es : list Entry) (curr next e : Z) :
  shift_inv cap es curr next e -> id (at_ es next) <> 0 ->
  moves_back curr next (home cap (id (at_ es next))) = true ->
  shift_inv cap
    (set_ (set_ es curr (at_ es next)) next
          (mkEntry 0 (order (at_ (set_ es curr (at_ es next)) next))))
    next (nxt cap next) e.
Proof.
  intros [Hlen Hc Hn Hne Hh Hb Hp Hd He Hec He0] Hocc Hmv.
  pose proof cap_ge2 as Hc2.
  pose proof (home_range cap (id (at_ es next)) ltac:(lia)) as Hh'.
  apply (moves_back_spec cap) in Hmv; try done.
  assert (Hen : e <> next) by congruence.
  pose proof (at_move es curr next) as Hat.
  split.
  - rewrite !length_set. done.
  - done.
  - cyc.
  - cyc.
  - rewrite Hat by done. destruct (Z.eq_dec next next); done.
  - intros j Hj Hbt. cyc.
  - intros p j Hpr Hjr. rewrite !Hat by done.
    destruct (Z.eq_dec p next) as [->|Hpn]; [done|].
    destruct (Z.eq_dec j next) as [->|Hjn].
    { intros _ _. right. split; [done|]. cyc. }
    destruct (Z.eq_dec p curr) as [->|Hpc].
    + intros _ Hlt. left.
      destruct (Z.eq_dec j curr) as [->|Hjc]; [done|].
      assert (Hlt' : cdist cap (home cap (id (at_ es next))) j <
                     cdist cap (home cap (id (at_ es next))) next) by cyc.
      destruct (Hp next j Hn Hjr Hocc Hlt') as [?|[? _]]; done.
    + intros Hpo Hlt.
      destruct (Z.eq_dec j curr) as [->|Hjc]; [by left|].
      destruct (Hp p j Hpr Hjr Hpo Hlt) as [?|[? _]]; [by left|done].
  - intros p q Hpr Hqr. rewrite !Hat by done.
    destruct (Z.eq_dec p next) as [->|Hpn]; [done|].
    destruct (Z.eq_dec q next) as [->|Hqn]; [simpl; intros; congruence|].
    destruct (Z.eq_dec p curr) as [->|Hpc]; destruct (Z.eq_dec q curr) as [->|Hqc];
      intros Hpo Heq; try done.
    + exfalso. apply Hqn. symmetry. by apply Hd.
    + exfalso. apply Hpn. symmetry. by apply Hd.
    + by apply Hd.
  - done.
  - done.
  - rewrite Hat by done.
    destruct (Z.eq_dec e next); [done|]. destruct (Z.eq_dec e curr); done.
Qed.

(** The backward-shift loop ends, restores the probe invariant and keeps
    the stored pairs. *)
Lemma backshift_spec (e : Z) :
  forall (fuel : nat) (es : list Entry) (curr next : Z),
    shift_inv cap es curr next e -> cdist cap next e < Z.of_nat fuel ->
    exists es', backshift fuel es (cap - 1) curr next = Some es' /\
      table_ok cap es' /\
      (forall i o, holds cap es' i o <-> holds cap es i o) /\
      occ_count es' = occ_count es.
Proof.
  pose proof cap_ge2 as Hc2.
  induction fuel as [|fuel IH]; intros es curr next Hinv Hfuel.
  { pose proof (s_e _ _ _ _ _ Hinv). pose proof (s_next _ _ _ _ _ Hinv). cyc. }
  simpl. destruct (Z.eqb_spec (id (at_ es next)) 0) as [Hz|Hnz].
  { exists es. split; [done|]. split; [by eapply shift_exit|]. done. }
  pose proof Hinv as [Hlen Hc Hn Hne Hh Hb Hp Hd He Hec He0].
  assert (Hen : e <> next) by congruence.
  rewrite (land_home cap k) by (done || lia).
  rewrite (land_next cap k) by (done || lia).
  destruct (moves_back curr next (home cap (id (at_ es next)))) eqn:Hmv; simpl.
  - destruct (IH _ _ _ (shift_move _ _ _ _ Hinv Hnz Hmv)) as (es' & Hrun & Hok & Hh' & Hcnt).
    { cyc. }
    exists es'. split; [done|]. split; [done|]. split.
    + intros i o. rewrite Hh'. pose proof (fun p => at_move es curr next p Hlen Hc Hn Hne) as Hat.
      split.
      * intros [Hi (p & Hpr & Hp')]. split; [done|]. rewrite Hat in Hp' by done.
        destruct (Z.eq_dec p next); [by inversion Hp'|].
        destruct (Z.eq_dec p curr); eauto.
      * intros [Hi (p & Hpr & Hp')]. split; [done|].
        assert (p <> curr) by (intros ->; rewrite Hp' in Hh; done).
        destruct (Z.eq_dec p next) as [->|Hpn].
        -- exists curr. split; [done|]. rewrite Hat by done.
           destruct (Z.eq_dec curr next); [done|]. destruct (Z.eq_dec curr curr); done.
        -- exists p. split; [done|]. rewrite Hat by done.
           destruct (Z.eq_dec p next); [done|]. destruct (Z.eq_dec p curr); done.
    + rewrite Hcnt. rewrite !occ_count_set by (rewrite ?length_set; lia).
      rewrite (at_set_ne _ curr next) by lia.
      unfold occ_bit. simpl. rewrite Hh. simpl.
      destruct (Z.eqb_spec (id (at_ es next)) 0); [done|lia].
  - destruct (IH _ _ _ (shift_stay _ _ _ _ Hinv Hnz Hmv)) as (es' & Hrun & Hok & Hh' & Hcnt).
    { cyc. }
    exists es'. done.
Qed.

End Shift.

Section Remove.
Variables (cap k : Z) (es : list Entry).
Hypothesis Hk : 1 <= k.
Hypothesis Hcap : cap = 2 ^ k.
Hypothesis Hok : table_ok cap es.

(** A probe that meets an empty slot before the id proves it absent. *)
Lemma probe_miss (i idx : Z) :
  0 <= idx < cap -> id (at_ es idx) = 0 ->
  (forall j, 0 <= j < cap -> cdist cap (home cap i) j < cdist cap (home cap i) idx ->
             id (at_ es j) <> 0 /\ id (at_ es j) <> i) ->
  forall o, ~ holds cap es i o.
Proof.
  intros Hidx Hz Hinv o [Hi0 (p & Hp & Hat)].
  pose proof (cap_ge2 cap k Hk Hcap) as Hc2.
  pose proof (home_range cap i ltac:(lia)) as Hh.
  assert (Hpo : id (at_ es p) <> 0) by (rewrite Hat; done).
  assert (Hpi : id (at_ es p) = i) by (rewrite Hat; done).
  destruct (Z_lt_le_dec (cdist cap (home cap i) p) (cdist cap (home cap i) idx)) as [Hlt|Hge].
  - destruct (Hinv p Hp Hlt) as [_ Hne]. congruence.
  - assert (p <> idx) by congruence.
    apply (t_probe _ _ Hok p idx); try done. rewrite Hpi. cyc.
Qed.

Lemma clear_shift_inv (idx e : Z) :
  0 <= idx < cap -> id (at_ es idx) <> 0 ->
  0 <= e < cap -> id (at_ es e) = 0 ->
  shift_inv cap (set_ es idx (mkEntry 0 (order (at_ es idx)))) idx (nxt cap idx) e.
Proof.
  intros Hidx Hocc He He0. destruct Hok as [Hlen Hpr Hd].
  pose proof (cap_ge2 cap k Hk Hcap) as Hc2.
  assert (Hei : e <> idx) by congruence.
  assert (Hat : forall p, 0 <= p < cap ->
    at_ (set_ es idx (mkEntry 0 (order (at_ es idx)))) p =
    if Z.eq_dec p idx then mkEntry 0 (order (at_ es idx)) else at_ es p).
  { intros p Hp. destruct (Z.eq_dec p idx) as [->|Hne].
    - apply at_set_eq. lia.
    - apply at_set_ne; lia. }
  split; try done.
  - by rewrite length_set.
  - cyc.
  - cyc.
  - rewrite Hat by done. destruct (Z.eq_dec idx idx); done.
  - intros j Hj Hbt. cyc.
  - intros p j Hp Hj. rewrite !Hat by done.
    destruct (Z.eq_dec p idx) as [->|Hpi]; [done|].
    destruct (Z.eq_dec j idx) as [->|Hji]; intros Hpo Hlt.
    + right. split; [done|]. cyc.
    + left. by apply (Hpr p j).
  - intros p q Hp Hq. rewrite !Hat by done.
    destruct (Z.eq_dec p idx) as [->|Hpi]; [done|].
    destruct (Z.eq_dec q idx) as [->|Hqi]; [simpl; intros; congruence|].
    by apply Hd.
  - rewrite Hat by done. destruct (Z.eq_dec e idx); done.
Qed.

Lemma clear_holds (idx : Z) :
  0 <= idx < cap -> id (at_ es idx) <> 0 ->
  forall i' o', holds cap (set_ es idx (mkEntry 0 (order (at_ es idx)))) i' o' <->
                i' <> id (at_ es idx) /\ holds cap es i' o'.
Proof.
  intros Hidx Hocc i' o'. destruct Hok as [Hlen Hpr Hd]. split.
  - intros [Hi' (p & Hp & Hat)].
    destruct (Z.eq_dec p idx) as [->|Hne].
    { rewrite at_set_eq in Hat by lia. inversion Hat. done. }
    rewrite at_set_ne in Hat by lia. split.
    + intros Heq. apply Hne. apply Hd; try done.
      * rewrite Hat. done.
      * rewrite Hat. done.
    + split; [done|]. eauto.
  - intros [Hne [Hi' (p & Hp & Hat)]]. split; [done|].
    exists p. split; [done|]. rewrite at_set_ne; [done|lia|lia|].
    intros ->. rewrite Hat in Hne. done.
Qed.

Lemma remove_loop_spec (i ld : Z) :
  has_empty cap es ->
  forall (fuel : nat) (idx : Z),
    0 <= idx < cap ->
    (forall j, 0 <= j < cap -> cdist cap (home cap i) j < cdist cap (home cap i) idx ->
               id (at_ es j) <> 0 /\ id (at_ es j) <> i) ->
    cap - cdist cap (home cap i) idx < Z.of_nat fuel ->
    exists es' ld', remove_loop fuel es (cap - 1) ld i idx = Some (es', ld') /\
      table_ok cap es' /\
      (forall i' o', holds cap es' i' o' <-> (i' <> i /\ holds cap es i' o')) /\
      ((exists o, holds cap es i o) -> ld' = ld - 1 /\ occ_count es' = occ_count es - 1) /\
      ((forall o, ~ holds cap es i o) -> es' = es /\ ld' = ld).
Proof.
  intros [e [He He0]].
  pose proof (cap_ge2 cap k Hk Hcap) as Hc2.
  pose proof (home_range cap i ltac:(lia)) as Hh.
  pose proof (t_len _ _ Hok) as Hlen.
  induction fuel as [|fuel IH]; intros idx Hidx Hinv Hfuel.
  { cyc. }
  cbn [remove_loop]. destruct (Z.eqb_spec (id (at_ es idx)) 0) as [Hz|Hnz].
  - pose proof (probe_miss i idx Hidx Hz Hinv) as Hmiss.
    exists es, ld. split; [done|]. split; [done|]. split; [|split].
    + intros i' o'. split; [|tauto]. intros Hh'. split; [|done].
      intros ->. by apply (Hmiss o').
    + intros [o Ho]. by apply Hmiss in Ho.
    + done.
  - destruct (Z.eqb_spec (id (at_ es idx)) i) as [Heq|Hne].
    + rewrite (land_next cap k) by (done || lia).
      destruct (backshift_spec cap k Hk Hcap e (budget es) _ _ _
                  (clear_shift_inv idx e Hidx Hnz He He0))
        as (es' & Hrun & Hok' & Hh' & Hcnt).
      { unfold budget. cyc. }
      rewrite Hrun. exists es', (ld - 1). split; [done|]. split; [done|]. split; [|split].
      * intros i' o'. rewrite Hh', clear_holds by done. rewrite Heq. done.
      * intros _. split; [done|]. rewrite Hcnt, occ_count_set by lia.
        unfold occ_bit. simpl. destruct (Z.eqb_spec (id (at_ es idx)) 0); [done|lia].
      * intros Hno. exfalso. apply (Hno (order (at_ es idx))).
        split; [congruence|]. exists idx. split; [done|].
        destruct (at_ es idx); simpl in *; congruence.
    + assert (Hnot_last : cdist cap (home cap i) idx + 1 < cap).
      { destruct (Z_lt_le_dec (cdist cap (home cap i) idx + 1) cap); [done|].
        exfalso. destruct (Z.eq_dec e idx) as [->|Hne']; [done|].
        destruct (Hinv e He); [cyc | done]. }
      rewrite (land_next cap k) by (done || lia).
      apply IH.
      * cyc.
      * intros j Hj Hlt.
        destruct (Z.eq_dec j idx) as [->|Hji]; [done|].
        apply Hinv; [done|]. cyc.
      * cyc.
Qed.

End Remove.

(** ** Re-insertion ([resize]) *)

Lemma ids_distinct_tail (e : Entry) (old : list Entry) :
  ids_distinct (e :: old) -> ids_distinct old.
Proof.
  intros H n1 n2 e1 e2 H1 H2 Hz Heq.
  assert (S n1 = S n2) by (eapply H; eauto). lia.
Qed.

Lemma reinsert_spec (cap k : Z) :
  1 <= k -> cap = 2 ^ k ->
  forall (old es : list Entry) (ld : Z),
    table_ok cap es -> ids_distinct old ->
    (forall e, e ∈ old -> id e <> 0 -> forall p, 0 <= p < cap -> id (at_ es p) <> id e) ->
    occ_count es + occ_count old < cap ->
    exists es', reinsert old es (cap - 1) ld = Some (es', ld + occ_count old) /\
      table_ok cap es' /\
      occ_count es' = occ_count es + occ_count old /\
      (forall i o, holds cap es' i o <-> holds cap es i o \/ (i <> 0 /\ mkEntry i o ∈ old)).
Proof.
  intros Hk Hcap. pose proof (cap_ge2 cap k Hk Hcap) as Hc2.
  induction old as [|e old IH]; intros es ld Hok Hdist Hfresh Hcnt.
  { exists es. simpl. rewrite Z.add_0_r. split; [done|]. split; [done|]. split; [lia|].
    intros i o. split; [by left|]. intros [?|[_ Hin]]; [done|]. by apply elem_of_nil in Hin. }
  cbn [reinsert]. rewrite occ_count_cons in *. unfold occ_bit in Hcnt. unfold occ_bit at 1 2.
  destruct e as [ie oe]. cbn [id order] in *.
  destruct (Z.eqb_spec ie 0) as [Hz|Hnz].
  - destruct (IH es ld Hok) as (es' & Hrun & Hok' & Hcnt' & Hh').
    { by eapply ids_distinct_tail. }
    { intros e' Hin. apply Hfresh. by right. }
    { lia. }
    exists es'. rewrite Z.add_0_l. split; [done|]. split; [done|]. split; [done|].
    intros i o. rewrite Hh'. split.
    + intros [?|[? Hin]]; [by left|]. right. split; [done|]. by right.
    + intros [?|[Hi Hin]]; [by left|]. right. split; [done|].
      apply elem_of_cons in Hin as [Heq|?]; [|done].
      inversion Heq. congruence.
  - pose proof (t_len _ _ Hok) as Hlen.
    pose proof (occ_count_bounds old) as Hob.
    pose proof (home_range cap ie ltac:(lia)) as Hh.
    destruct (probe_loop_spec cap k es ltac:(lia) Hcap (home cap ie)
                (has_empty_of_count cap es Hlen ltac:(lia)) Hh (budget es) (home cap ie) Hh)
      as (q & Hq & Hqr & Hq0 & Hpath).
    { intros j Hj Hlt. cyc. }
    { unfold budget. cyc. }
    rewrite (land_home cap k) by (done || lia). rewrite Hq.
    assert (Hok1 : table_ok cap (set_ es q (mkEntry ie oe))).
    { apply (insert_ok cap k es ltac:(lia) Hok); try done.
      intros p Hp. apply (Hfresh (mkEntry ie oe)); [by left|done|done]. }
    destruct (IH (set_ es q (mkEntry ie oe)) (ld + 1) Hok1) as (es' & Hrun & Hok' & Hcnt' & Hh').
    { by eapply ids_distinct_tail. }
    { intros e' Hin Hnz' p Hp. destruct (Z.eq_dec p q) as [->|Hpq].
      - rewrite at_set_eq by lia. intros Heq.
        apply list_elem_of_lookup in Hin as [n Hn].
        assert (O = S n) by (eapply (Hdist O (S n) (mkEntry ie oe) e'); eauto). lia.
      - rewrite at_set_ne by lia. apply Hfresh; [by right|done|done]. }
    { rewrite occ_count_set by lia. unfold occ_bit. rewrite Hq0. simpl.
      destruct (Z.eqb_spec ie 0); [done|lia]. }
    exists es'. split; [rewrite Hrun; f_equal; f_equal; lia|]. split; [done|]. split.
    { rewrite Hcnt', occ_count_set by lia. unfold occ_bit. rewrite Hq0. simpl.
      destruct (Z.eqb_spec ie 0); [done|lia]. }
    intros i o. rewrite Hh'.
    rewrite (insert_holds cap k es ltac:(lia) Hok) by done. split.
    + intros [[[-> ->]|?]|[? Hin]].
      * right. split; [done|]. by left.
      * by left.
      * right. split; [done|]. by right.
    + intros [?|[Hi Hin]]; [left; by right|].
      apply elem_of_cons in Hin as [Heq|?]; [left; left; by inversion Heq|]. right. done.
Qed.

(** The capacity loop of [resize] returns a power of two not below the
    request. *)
Lemma pow2_loop_spec (new_cap : Z) :
  forall (fuel : nat) (j : Z),
    0 <= j -> new_cap <= 2 ^ (j + Z.of_nat fuel) ->
    exists j', j <= j' /\ pow2_loop fuel (2 ^ j) new_cap = 2 ^ j' /\ new_cap <= 2 ^ j'.
Proof.
  induction fuel as [|fuel IH]; intros j Hj Hle; simpl.
  - exists j. rewrite Z.add_0_r in Hle. done.
  - destruct (Z.ltb_spec (2 ^ j) new_cap) as [Hlt|Hge].
    + destruct (IH (j + 1)) as (j' & Hj' & Hrun & Hle'); [lia| |].
      { replace (j + 1 + Z.of_nat fuel) with (j + Z.of_nat (S fuel)) by lia. done. }
      exists j'. split; [lia|]. split; [|done].
      rewrite <- Hrun. f_equal. rewrite Z.pow_add_r by lia. lia.
    + exists j. done.
Qed.

Lemma pow2_resize (new_cap : Z) :
  exists j, 0 <= j /\
    pow2_loop (S (Z.to_nat (Z.log2_up new_cap))) 1 new_cap = 2 ^ j /\ new_cap <= 2 ^ j.
Proof.
  destruct (pow2_loop_spec new_cap (S (Z.to_nat (Z.log2_up new_cap))) 0) as (j & Hj & Hrun & Hle).
  - done.
  - pose proof (Z.log2_up_nonneg new_cap).
    destruct (Z_lt_le_dec 1 new_cap) as [Hgt|Hle1].
    + pose proof (Z.log2_up_spec new_cap Hgt) as [_ Hup].
      etrans; [exact Hup|]. apply Z.pow_le_mono_r; lia.
    + etrans; [exact Hle1|].
      pose proof (Z.pow_pos_nonneg 2 (0 + Z.of_nat (S (Z.to_nat (Z.log2_up new_cap))))).
      lia.
  - exists j. done.
Qed.

(** ** The index as a finite map *)

Lemma om_repr_zero (m : OrderMap.t) (abs : gmap Z (option ptr)) :
  om_repr m abs -> abs !! 0 = None.
Proof.
  intros [_ Hh]. destruct (abs !! 0) as [o|] eqn:E; [|done].
  apply Hh in E as [? _]. done.
Qed.

Lemma om_ok_has_empty (m : OrderMap.t) :
  om_ok m -> has_empty (capacity_ m) (entries_ m).
Proof.
  intros (k & Hk & Hcap & Hmask & Hok & Hocc & Hld).
  pose proof (cap_ge2 _ k Hk Hcap).
  apply has_empty_of_count; [by apply t_len|lia].
Qed.

Lemma table_ok_replicate (cap : Z) :
  0 <= cap -> table_ok cap (replicate (Z.to_nat cap) empty_entry).
Proof.
  intros Hc. split.
  - rewrite length_replicate. lia.
  - intros p j _ _ Hocc. by rewrite at_replicate in Hocc.
  - intros p q _ _ Hocc. by rewrite at_replicate in Hocc.
Qed.

Lemma elem_of_at (es : list Entry) (e : Entry) :
  e ∈ es <-> exists p, 0 <= p < Z.of_nat (length es) /\ es !! Z.to_nat p = Some e.
Proof.
  rewrite list_elem_of_lookup. split.
  - intros [n Hn]. exists (Z.of_nat n). rewrite Nat2Z.id. split; [|done].
    apply lookup_lt_Some in Hn. lia.
  - intros (p & _ & Hp). eauto.
Qed.

Lemma at_lookup (es : list Entry) (p : Z) (e : Entry) :
  es !! Z.to_nat p = Some e -> at_ es p = e.
Proof. intros H. unfold at_. by rewrite H. Qed.

Lemma lookup_at (es : list Entry) (p : Z) :
  0 <= p < Z.of_nat (length es) -> es !! Z.to_nat p = Some (at_ es p).
Proof.
  intros Hp. unfold at_. destruct (es !! Z.to_nat p) eqn:E; [done|].
  apply lookup_ge_None in E. lia.
Qed.

Lemma at_nil (p : Z) : at_ [] p = empty_entry.
Proof. unfold at_. by rewrite lookup_nil. Qed.

Lemma resize_spec (m : OrderMap.t) (new_cap : Z) :
  table_ok (capacity_ m) (entries_ m) -> 2 <= new_cap ->
  occ_count (entries_ m) < new_cap ->
  exists m' j, resize m new_cap = Some m' /\ 1 <= j /\
    capacity_ m' = 2 ^ j /\ new_cap <= capacity_ m' /\ mask_ m' = capacity_ m' - 1 /\
    table_ok (capacity_ m') (entries_ m') /\
    load_ m' = occ_count (entries_ m) /\
    occ_count (entries_ m') = occ_count (entries_ m) /\
    (forall i o, holds (capacity_ m') (entries_ m') i o <->
                 holds (capacity_ m) (entries_ m) i o).
Proof.
  intros Hok Hnc Hcnt. unfold resize.
  destruct (pow2_resize new_cap) as (j & Hj & -> & Hle).
  assert (Hj1 : 1 <= j).
  { destruct (Z.eq_dec j 0) as [->|]; [simpl in Hle; lia|lia]. }
  pose proof (t_len _ _ Hok) as Hlen.
  destruct (reinsert_spec (2 ^ j) j Hj1 eq_refl (entries_ m)
              (replicate (Z.to_nat (2 ^ j)) empty_entry) 0) as (es' & Hrun & Hok' & Hcnt' & Hh').
  - apply table_ok_replicate. pose proof (Z.pow_pos_nonneg 2 j). lia.
  - unfold ids_distinct. intros n1 n2 e1 e2 H1 H2 Hz Heq.
    pose proof (lookup_lt_Some _ _ _ H1). pose proof (lookup_lt_Some _ _ _ H2).
    assert (Z.of_nat n1 = Z.of_nat n2); [|lia].
    apply (t_distinct _ _ Hok); try lia.
    + unfold at_. rewrite Nat2Z.id, H1. done.
    + unfold at_. rewrite !Nat2Z.id, H1, H2. done.
  - intros e _ Hz p _. rewrite at_replicate. simpl. congruence.
  - rewrite occ_count_replicate. lia.
  - rewrite Hrun. rewrite occ_count_replicate in Hcnt'.
    eexists _, j. split; [done|]. simpl. do 5 (split; [done || lia|]).
    split; [lia|]. split; [lia|]. intros i o. rewrite Hh'. split.
    + intros [[Hi0 (p & _ & Hp)]|[Hi Hin]].
      { rewrite at_replicate in Hp. inversion Hp. congruence. }
      split; [done|]. apply elem_of_at in Hin as (p & Hp & Hat).
      exists p. split; [lia|]. by apply at_lookup.
    + intros [Hi (p & Hp & Hat)]. right. split; [done|].
      apply elem_of_at. exists p. split; [lia|]. rewrite lookup_at by lia. by f_equal.
Qed.

Lemma new_with_spec (initial_capacity : Z) :
  2 <= initial_capacity ->
  exists m, new_with initial_capacity = Some m /\ om_repr m ∅ /\ load_ m = 0 /\
            initial_capacity <= capacity_ m.
Proof.
  intros Hc. unfold new_with.
  destruct (resize_spec (mk [] 0 0 0) initial_capacity)
    as (m & j & Hrun & Hj & Hcap & Hle & Hmask & Hok & Hld & Hcnt & Hh).
  - split; cbn [entries_ capacity_]; [done| |]; intros p ? _ _ Hocc; by rewrite at_nil in Hocc.
  - done.
  - simpl. lia.
  - exists m. split; [done|]. simpl in *. split; [|done]. split.
    + exists j. pose proof (cap_ge2 _ j Hj Hcap). do 4 (split; [done|]). lia.
    + intros i o. rewrite Hh, lookup_empty. split; [|done].
      intros [Hi0 (p & _ & Hp)]. rewrite at_nil in Hp. inversion Hp. congruence.
Qed.

(** [find] returns what the table stores for the id, null if nothing. *)
Lemma find_spec (m : OrderMap.t) (abs : gmap Z (option ptr)) (i : Z) :
  om_repr m abs -> find m i = Some (default None (abs !! i)).
Proof.
  intros [Hok Hh]. pose proof (om_ok_has_empty m Hok) as He.
  destruct Hok as (k & Hk & Hcap & Hmask & Hok & Hocc & Hld).
  pose proof (cap_ge2 _ k Hk Hcap) as Hc2.
  pose proof (home_range (capacity_ m) i ltac:(lia)) as Hhome.
  unfold find. rewrite Hmask, (land_home _ k) by (done || lia).
  destruct (find_loop_spec (capacity_ m) k (entries_ m) ltac:(lia) Hcap Hok i He
              (budget (entries_ m)) (home (capacity_ m) i) Hhome)
    as (r & Hrun & Hhit & Hmiss).
  - intros j Hj Hlt. cyc.
  - unfold budget. pose proof (t_len _ _ Hok). cyc.
  - rewrite Hrun. f_equal. destruct (abs !! i) as [o|] eqn:E; simpl.
    + apply Hhit. by apply Hh.
    + apply Hmiss. intros o Ho. apply Hh in Ho. congruence.
Qed.

Lemma put_spec (m : OrderMap.t) (abs : gmap Z (option ptr)) (i : Z) (o : option ptr) :
  om_repr m abs -> abs !! i = None ->
  exists m', put m i o = Some m' /\
    om_repr m' (if decide (i = 0) then abs else <[i:=o]> abs).
Proof.
  intros [Hok Hh] Hfresh.
  destruct Hok as (k & Hk & Hcap & Hmask & Hok & Hocc & Hld).
  pose proof (cap_ge2 _ k Hk Hcap) as Hc2.
  pose proof (occ_count_bounds (entries_ m)) as Hob.
  unfold put.
  (* the table the insertion runs on: resized or not *)
  assert (exists m1 k1,
    (if capacity_ m <=? load_ m * 2 then resize m (capacity_ m * 2) else Some m) = Some m1 /\
    1 <= k1 /\ capacity_ m1 = 2 ^ k1 /\ mask_ m1 = capacity_ m1 - 1 /\
    table_ok (capacity_ m1) (entries_ m1) /\
    occ_count (entries_ m1) <= load_ m1 /\ 2 * load_ m1 + 2 <= capacity_ m1 /\
    (forall i o, holds (capacity_ m1) (entries_ m1) i o <-> abs !! i = Some o))
    as (m1 & k1 & -> & Hk1 & Hcap1 & Hmask1 & Hok1 & Hocc1 & Hld1 & Hh1).
  { destruct (Z.leb_spec (capacity_ m) (load_ m * 2)) as [Hfull|Hroom].
    - destruct (resize_spec m (capacity_ m * 2) Hok) as
        (m1 & j & Hrun & Hj & Hcap1 & Hle & Hmask1 & Hok1 & Hld1 & Hcnt1 & Hh1); [lia|lia|].
      exists m1, j. split; [done|]. do 4 (split; [done|]). split; [lia|]. split; [lia|].
      intros i' o'. rewrite Hh1. apply Hh.
    - exists m, k. split; [done|]. do 5 (split; [done|]). split; [|done].
      assert (capacity_ m = 2 * 2 ^ (k - 1)).
      { rewrite Hcap. replace k with (1 + (k - 1)) at 1 by lia.
        rewrite Z.pow_add_r by lia. done. }
      lia. }
  pose proof (cap_ge2 _ k1 Hk1 Hcap1) as Hc21.
  pose proof (t_len _ _ Hok1) as Hlen1.
  pose proof (home_range (capacity_ m1) i ltac:(lia)) as Hhome.
  destruct (probe_loop_spec (capacity_ m1) k1 (entries_ m1) ltac:(lia) Hcap1
              (home (capacity_ m1) i)
              (has_empty_of_count _ _ Hlen1 ltac:(lia)) Hhome
              (budget (entries_ m1)) (home (capacity_ m1) i) Hhome)
    as (q & Hq & Hqr & Hq0 & Hpath).
  { intros j Hj Hlt. cyc. }
  { unfold budget. cyc. }
  rewrite Hmask1, (land_home _ k1) by (done || lia). rewrite Hq.
  eexists. split; [done|].
  assert (Hcnt : occ_count (set_ (entries_ m1) q (mkEntry i o)) <= load_ m1 + 1).
  { rewrite occ_count_set by lia. unfold occ_bit. rewrite Hq0. simpl.
    destruct (i =? 0); lia. }
  destruct (decide (i = 0)) as [->|Hi].
  - split.
    + exists k1. simpl. do 3 (split; [done|]).
      split; [apply (insert_zero_ok _ k1); first [done|lia]|]. split; [done|lia].
    + intros i' o'. simpl. rewrite (insert_zero_holds _ k1) by (done || lia). apply Hh1.
  - split.
    + exists k1. simpl. do 3 (split; [done|]). split; [|split; [done|lia]].
      apply (insert_ok _ k1); try done; try lia.
      intros p Hp Heq. assert (abs !! i = Some (order (at_ (entries_ m1) p))); [|congruence].
      apply Hh1. split; [done|]. exists p. split; [done|].
      destruct (at_ (entries_ m1) p); simpl in *; congruence.
    + intros i' o'. simpl. rewrite (insert_holds _ k1) by (done || lia).
      rewrite Hh1. destruct (decide (i' = i)) as [->|Hne].
      * rewrite lookup_insert_eq. split; [|intros [=]; by left].
        intros [[_ ->]|?]; [done|congruence].
      * rewrite lookup_insert_ne by done. split; [|by right].
        intros [[? _]|?]; [done|done].
Qed.

Lemma remove_spec (m : OrderMap.t) (abs : gmap Z (option ptr)) (i : Z) :
  om_repr m abs ->
  exists m', remove m i = Some m' /\ om_repr m' (delete i abs) /\
    capacity_ m' = capacity_ m /\
    (abs !! i = None -> m' = m).
Proof.
  intros [Hok Hh]. pose proof (om_ok_has_empty m Hok) as He.
  destruct Hok as (k & Hk & Hcap & Hmask & Hok & Hocc & Hld).
  pose proof (cap_ge2 _ k Hk Hcap) as Hc2.
  pose proof (home_range (capacity_ m) i ltac:(lia)) as Hhome.
  pose proof (t_len _ _ Hok) as Hlen.
  unfold remove. rewrite Hmask, (land_home _ k) by (done || lia).
  destruct (remove_loop_spec (capacity_ m) k (entries_ m) Hk Hcap Hok i (load_ m) He
              (budget (entries_ m)) (home (capacity_ m) i) Hhome)
    as (es' & ld' & Hrun & Hok' & Hh' & Hhit & Hmiss).
  - intros j Hj Hlt. cyc.
  - unfold budget. cyc.
  - rewrite Hrun. eexists. split; [done|]. simpl. split; [|split; [done|]].
    + split.
      * exists k. simpl. do 3 (split; [done|]). split; [done|].
        destruct (abs !! i) as [o|] eqn:E.
        -- destruct Hhit as [-> ->]; [exists o; by apply Hh|]. lia.
        -- destruct Hmiss as [-> ->]; [|done].
           intros o Ho. apply Hh in Ho. congruence.
      * intros i' o'. simpl. rewrite Hh', Hh.
        destruct (decide (i' = i)) as [->|Hne].
        -- rewrite lookup_delete_eq. split; [by intros [? _]|done].
        -- rewrite lookup_delete_ne by done. split; [by intros [_ ?]|done].
    + intros Hnone. destruct Hmiss as [-> ->].
      * intros o Ho. apply Hh in Ho. congruence.
      * rewrite <- Hmask. by destruct m.
Qed.

End IndexTheory.

(** ** Ordered price maps *)

Lemma greater_ok : comp_ok PriceMap.greater.
Proof. split; unfold PriceMap.greater; intros; lia. Qed.

Lemma less_ok : comp_ok PriceMap.less.
Proof. split; unfold PriceMap.less; intros; lia. Qed.

Section PriceMapFacts.
Variable comp : Z -> Z -> bool.
Hypothesis Hcomp : comp_ok comp.

Lemma find_Some_elem (k : Z) (l : PriceLevel.t) (m : PriceMap.t) :
  PriceMap.find k m = Some l -> (k, l) ∈ m.
Proof.
  induction m as [|[k' v'] m IH]; simpl; [done|].
  destruct (Z.eqb_spec k' k) as [->|Hne].
  - intros [= ->]. by left.
  - intros H. right. by apply IH.
Qed.

Lemma find_None_above (k : Z) (m : PriceMap.t) :
  Forall (fun kv' => comp k kv'.1 = true) m -> PriceMap.find k m = None.
Proof.
  induction m as [|[k' v'] m IH]; simpl; [done|].
  intros Hall. apply Forall_cons in Hall as [Hhd Htl]. simpl in Hhd.
  destruct (Z.eqb_spec k' k) as [->|Hne].
  - rewrite (comp_irrefl _ Hcomp) in Hhd. done.
  - by apply IH.
Qed.

Lemma find_emplace_eq (k : Z) (v : PriceLevel.t) (m : PriceMap.t) :
  PriceMap.find k m = None -> PriceMap.find k (PriceMap.emplace comp k v m) = Some v.
Proof.
  induction m as [|[k' v'] m IH]; simpl.
  - intros _. by rewrite Z.eqb_refl.
  - destruct (Z.eqb_spec k' k) as [->|Hne]; [done|]. intros Hnone.
    destruct (comp k k') eqn:E1; simpl.
    + by rewrite Z.eqb_refl.
    + destruct (comp k' k) eqn:E2; simpl.
      * destruct (Z.eqb_spec k' k); [done|]. by apply IH.
      * exfalso. apply Hne. by apply (comp_total _ Hcomp).
Qed.

Lemma find_emplace_ne (k k' : Z) (v : PriceLevel.t) (m : PriceMap.t) :
  k' <> k -> PriceMap.find k' (PriceMap.emplace comp k v m) = PriceMap.find k' m.
Proof.
  intros Hne. induction m as [|[k0 v0] m IH]; simpl.
  - destruct (Z.eqb_spec k k'); [congruence|done].
  - destruct (comp k k0) eqn:E1; simpl.
    + destruct (Z.eqb_spec k k'); [congruence|done].
    + destruct (comp k0 k) eqn:E2; simpl; [|done].
      destruct (Z.eqb_spec k0 k'); [done|]. apply IH.
Qed.

Lemma emplace_keys_above (k0 k : Z) (v : PriceLevel.t) (m : PriceMap.t) :
  comp k0 k = true -> Forall (fun kv' => comp k0 kv'.1 = true) m ->
  Forall (fun kv' => comp k0 kv'.1 = true) (PriceMap.emplace comp k v m).
Proof.
  intros Hk. induction m as [|[k' v'] m IH]; simpl; intros Hall.
  - by constructor.
  - apply Forall_cons in Hall as [Hhd Htl].
    destruct (comp k k'); [by repeat constructor|].
    destruct (comp k' k); [|by constructor].
    constructor; [done|]. by apply IH.
Qed.

Lemma sorted_emplace (k : Z) (v : PriceLevel.t) (m : PriceMap.t) :
  sorted comp m -> sorted comp (PriceMap.emplace comp k v m).
Proof.
  induction m as [|[k' v'] m IH]; simpl.
  - intros _. split; [constructor|done].
  - intros [Hhd Htl]. destruct (comp k k') eqn:E1.
    + simpl. split; [|done]. constructor; [done|].
      eapply Forall_impl; [exact Hhd|]. simpl. intros kv Hkv.
      by apply (comp_trans _ Hcomp _ k').
    + destruct (comp k' k) eqn:E2; [|done]. simpl. split; [|by apply IH].
      by apply emplace_keys_above.
Qed.

Lemma find_assign_eq (k : Z) (v : PriceLevel.t) (m : PriceMap.t) :
  PriceMap.find k (PriceMap.assign k v m) =
  match PriceMap.find k m with Some _ => Some v | None => None end.
Proof.
  induction m as [|[k' v'] m IH]; simpl; [done|].
  destruct (Z.eqb_spec k' k) as [->|Hne]; simpl.
  - by rewrite Z.eqb_refl.
  - destruct (Z.eqb_spec k' k); [done|]. apply IH.
Qed.

Lemma find_assign_ne (k k' : Z) (v : PriceLevel.t) (m : PriceMap.t) :
  k' <> k -> PriceMap.find k' (PriceMap.assign k v m) = PriceMap.find k' m.
Proof.
  intros Hne. induction m as [|[k0 v0] m IH]; simpl; [done|].
  destruct (Z.eqb_spec k0 k) as [->|Hne0]; simpl.
  - destruct (Z.eqb_spec k k'); [congruence|done].
  - destruct (Z.eqb_spec k0 k'); [done|]. apply IH.
Qed.

Lemma assign_keys (k : Z) (v : PriceLevel.t) (m : PriceMap.t) :
  (PriceMap.assign k v m).*1 = m.*1.
Proof.
  induction m as [|[k' v'] m IH]; simpl; [done|].
  destruct (k' =? k); simpl; [done|]. f_equal. apply IH.
Qed.

Lemma sorted_keys (m1 m2 : PriceMap.t) :
  m1.*1 = m2.*1 -> sorted comp m1 -> sorted comp m2.
Proof.
  revert m2. induction m1 as [|[k1 v1] m1 IH]; intros [|[k2 v2] m2]; try done.
  rewrite !fmap_cons. intros [= Hk Heq] [Hhd Htl]. simpl in Hk. subst k2.
  split; [|by apply IH]. simpl.
  apply (Forall_fmap fst (fun k => comp k1 k = true)).
  rewrite <- Heq. by apply (Forall_fmap fst (fun k => comp k1 k = true)).
Qed.

Lemma sorted_assign (k : Z) (v : PriceLevel.t) (m : PriceMap.t) :
  sorted comp m -> sorted comp (PriceMap.assign k v m).
Proof. apply sorted_keys. symmetry. apply assign_keys. Qed.

Lemma find_erase_ne (k k' : Z) (m : PriceMap.t) :
  k' <> k -> PriceMap.find k' (PriceMap.erase k m) = PriceMap.find k' m.
Proof.
  intros Hne. induction m as [|[k0 v0] m IH]; simpl; [done|].
  destruct (Z.eqb_spec k0 k) as [->|Hne0]; simpl.
  - destruct (Z.eqb_spec k k'); [congruence|done].
  - destruct (Z.eqb_spec k0 k'); [done|]. apply IH.
Qed.

Lemma find_erase_eq (k : Z) (m : PriceMap.t) :
  sorted comp m -> PriceMap.find k (PriceMap.erase k m) = None.
Proof.
  induction m as [|[k0 v0] m IH]; simpl; [done|]. intros [Hhd Htl].
  destruct (Z.eqb_spec k0 k) as [->|Hne0]; simpl.
  - by apply find_None_above.
  - destruct (Z.eqb_spec k0 k); [done|]. by apply IH.
Qed.

Lemma erase_keys_above (k0 k : Z) (m : PriceMap.t) :
  Forall (fun kv' => comp k0 kv'.1 = true) m ->
  Forall (fun kv' => comp k0 kv'.1 = true) (PriceMap.erase k m).
Proof.
  induction m as [|[k' v'] m IH]; simpl; intros Hall; [done|].
  apply Forall_cons in Hall as [Hhd Htl].
  destruct (k' =? k); [done|]. constructor; [done|]. by apply IH.
Qed.

Lemma sorted_erase (k : Z) (m : PriceMap.t) :
  sorted comp m -> sorted comp (PriceMap.erase k m).
Proof.
  induction m as [|[k' v'] m IH]; simpl; [done|]. intros [Hhd Htl].
  destruct (k' =? k); [done|]. simpl. split; [by apply erase_keys_above|by apply IH].
Qed.

Lemma elem_find (k : Z) (l : PriceLevel.t) (m : PriceMap.t) :
  sorted comp m -> (k, l) ∈ m -> PriceMap.find k m = Some l.
Proof.
  induction m as [|[k' v'] m IH]; simpl; intros Hs Hin.
  - by apply elem_of_nil in Hin.
  - destruct Hs as [Hhd Htl]. apply elem_of_cons in Hin as [[= <- <-]|Hin].
    + by rewrite Z.eqb_refl.
    + destruct (Z.eqb_spec k' k) as [->|Hne]; [|by apply IH].
      rewrite Forall_forall in Hhd. specialize (Hhd _ Hin). simpl in Hhd.
      by rewrite (comp_irrefl _ Hcomp) in Hhd.
Qed.

(** The first pair of a sorted map has the extreme key. *)
Lemma sorted_head (k0 : Z) (l0 : PriceLevel.t) (m : PriceMap.t) (k : Z) (l : PriceLevel.t) :
  sorted comp ((k0, l0) :: m) -> PriceMap.find k ((k0, l0) :: m) = Some l ->
  k = k0 \/ comp k0 k = true.
Proof.
  simpl. intros [Hhd _]. destruct (Z.eqb_spec k0 k) as [->|Hne]; [by left|].
  intros Hf. right. apply find_Some_elem in Hf.
  rewrite Forall_forall in Hhd. by apply (Hhd (k, l)).
Qed.

(** Sorted maps with the same lookups are the same list. *)
Lemma sorted_ext (m1 m2 : PriceMap.t) :
  sorted comp m1 -> sorted comp m2 ->
  (forall k, PriceMap.find k m1 = PriceMap.find k m2) -> m1 = m2.
Proof.
  revert m2. induction m1 as [|[k1 v1] m1 IH]; intros [|[k2 v2] m2] Hs1 Hs2 Hf.
  - done.
  - specialize (Hf k2). simpl in Hf. by rewrite Z.eqb_refl in Hf.
  - specialize (Hf k1). simpl in Hf. by rewrite Z.eqb_refl in Hf.
  - assert (k1 = k2) as ->.
    { pose proof (Hf k1) as H1. pose proof (Hf k2) as H2.
      pose proof (sorted_head _ _ _ k2 v2 Hs1) as A.
      pose proof (sorted_head _ _ _ k1 v1 Hs2) as B.
      simpl in *. rewrite !Z.eqb_refl in *.
      destruct (Z.eqb_spec k1 k2) as [|Hne]; [done|].
      destruct (Z.eqb_spec k2 k1); [done|].
      destruct A as [|A]; [by rewrite H2|done|].
      destruct B as [|B]; [by rewrite <- H1|done|].
      pose proof (comp_trans _ Hcomp _ _ _ A B) as C.
      by rewrite (comp_irrefl _ Hcomp) in C. }
    assert (v1 = v2) as ->.
    { specialize (Hf k2). simpl in Hf. rewrite Z.eqb_refl in Hf. congruence. }
    f_equal. destruct Hs1 as [Hh1 Hs1]. destruct Hs2 as [Hh2 Hs2].
    apply IH; [done|done|]. intros k. specialize (Hf k). simpl in Hf.
    destruct (Z.eqb_spec k2 k) as [->|Hne]; [|done].
    rewrite !find_None_above; done.
Qed.

End PriceMapFacts.

(** ** The level code of the book, described by lookups *)

Section LevelCode.
Variable comp : Z -> Z -> bool.
Hypothesis Hcomp : comp_ok comp.

Lemma level_add_find (m : PriceMap.t) (price : Z) (pool : ObjectPool.t) (p : ptr) (k : Z) :
  PriceMap.find k (OrderBook.level_add comp m price pool p) =
  if decide (k = price)
  then Some (PriceLevel.add_order
               (default (PriceLevel.new price) (PriceMap.find price m)) pool p)
  else PriceMap.find k m.
Proof.
  unfold OrderBook.level_add.
  destruct (PriceMap.find price m) as [l|] eqn:E.
  - rewrite E. simpl. destruct (decide (k = price)) as [->|Hne].
    + by rewrite find_assign_eq, E.
    + by rewrite find_assign_ne.
  - rewrite (find_emplace_eq comp Hcomp) by done. simpl.
    destruct (decide (k = price)) as [->|Hne].
    + by rewrite find_assign_eq, (find_emplace_eq comp Hcomp).
    + rewrite find_assign_ne by done. by rewrite (find_emplace_ne comp).
Qed.

Lemma level_add_sorted (m : PriceMap.t) (price : Z) (pool : ObjectPool.t) (p : ptr) :
  sorted comp m -> sorted comp (OrderBook.level_add comp m price pool p).
Proof.
  intros Hs. unfold OrderBook.level_add.
  destruct (PriceMap.find price m) as [l|] eqn:E.
  - rewrite E. by apply sorted_assign.
  - rewrite (find_emplace_eq comp Hcomp) by done.
    apply sorted_assign. by apply sorted_emplace.
Qed.

Lemma level_remove_find (m : PriceMap.t) (price : Z) (pool : ObjectPool.t) (p : ptr) (k : Z) :
  sorted comp m ->
  PriceMap.find k (OrderBook.level_remove m price pool p) =
  if decide (k = price)
  then match PriceMap.find price m with
       | Some l => if PriceLevel.empty (PriceLevel.remove_order l pool p) then None
                   else Some (PriceLevel.remove_order l pool p)
       | None => None
       end
  else PriceMap.find k m.
Proof.
  intros Hs. unfold OrderBook.level_remove.
  destruct (PriceMap.find price m) as [l|] eqn:E.
  - destruct (PriceLevel.empty _) eqn:Ee.
    + destruct (decide (k = price)) as [->|Hne].
      * by apply (find_erase_eq comp Hcomp).
      * by apply find_erase_ne.
    + destruct (decide (k = price)) as [->|Hne].
      * by rewrite find_assign_eq, E.
      * by rewrite find_assign_ne.
  - destruct (decide (k = price)) as [->|Hne]; done.
Qed.

Lemma level_remove_sorted (m : PriceMap.t) (price : Z) (pool : ObjectPool.t) (p : ptr) :
  sorted comp m -> sorted comp (OrderBook.level_remove m price pool p).
Proof.
  intros Hs. unfold OrderBook.level_remove.
  destruct (PriceMap.find price m) as [l|]; [|done].
  destruct (PriceLevel.empty _); [by apply sorted_erase|by apply sorted_assign].
Qed.

Lemma level_reduce_pool (m : PriceMap.t) (price : Z) (pool : ObjectPool.t) (p : ptr) (q : Z) :
  (OrderBook.level_reduce m price pool p q).2 =
  match PriceMap.find price m with
  | Some l => (PriceLevel.reduce_quantity l pool p q).2
  | None => pool
  end.
Proof.
  unfold OrderBook.level_reduce. destruct (PriceMap.find price m) as [l|]; [|done].
  by destruct (PriceLevel.reduce_quantity l pool p q).
Qed.

Lemma level_reduce_find (m : PriceMap.t) (price : Z) (pool : ObjectPool.t) (p : ptr)
      (q k : Z) :
  sorted comp m ->
  PriceMap.find k (OrderBook.level_reduce m price pool p q).1 =
  if decide (k = price)
  then match PriceMap.find price m with
       | Some l => if PriceLevel.empty (PriceLevel.reduce_quantity l pool p q).1 then None
                   else Some (PriceLevel.reduce_quantity l pool p q).1
       | None => None
       end
  else PriceMap.find k m.
Proof.
  intros Hs. unfold OrderBook.level_reduce.
  destruct (PriceMap.find price m) as [l|] eqn:E.
  - destruct (PriceLevel.reduce_quantity l pool p q) as [l' pool'] eqn:Er. simpl.
    destruct (PriceLevel.empty l') eqn:Ee.
    + destruct (decide (k = price)) as [->|Hne].
      * by apply (find_erase_eq comp Hcomp).
      * by apply find_erase_ne.
    + destruct (decide (k = price)) as [->|Hne].
      * by rewrite find_assign_eq, E.
      * by rewrite find_assign_ne.
  - simpl. destruct (decide (k = price)) as [->|Hne]; done.
Qed.

Lemma level_reduce_sorted (m : PriceMap.t) (price : Z) (pool : ObjectPool.t) (p : ptr)
      (q : Z) :
  sorted comp m -> sorted comp (OrderBook.level_reduce m price pool p q).1.
Proof.
  intros Hs. unfold OrderBook.level_reduce.
  destruct (PriceMap.find price m) as [l|]; [|done].
  destruct (PriceLevel.reduce_quantity l pool p q) as [l' pool']. simpl.
  destruct (PriceLevel.empty l'); [by apply sorted_erase|by apply sorted_assign].
Qed.

End LevelCode.

(** ** The pool *)

Lemma BlockSize_pos : 0 < ObjectPool.BlockSize.
Proof. done. Qed.

Lemma allocate_block_ok (pool : ObjectPool.t) :
  pool_ok pool -> pool_ok (ObjectPool.allocate_block pool).
Proof.
  intros [Hb Hnd Hr]. pose proof BlockSize_pos as Hbs.
  unfold ObjectPool.allocate_block. split; cbn [ObjectPool.blocks_ ObjectPool.free_list_].
  - lia.
  - apply NoDup_app. split; [rewrite reverse_Permutation; apply NoDup_seqZ|]. split; [|done].
    intros q. rewrite elem_of_reverse, elem_of_seqZ. intros Hq Hin.
    apply Hr in Hin. lia.
  - intros q. rewrite elem_of_app, elem_of_reverse, elem_of_seqZ.
    intros [?|Hin]; [lia|]. apply Hr in Hin. lia.
Qed.

Lemma pool_new_ok : pool_ok ObjectPool.new.
Proof.
  apply allocate_block_ok. split; cbn [ObjectPool.blocks_ ObjectPool.free_list_].
  - done.
  - constructor.
  - intros q Hq. by apply elem_of_nil in Hq.
Qed.

(** [acquire] hands out a slot that is neither free afterwards nor in use
    before: it was free, or it belongs to a block allocated by this call. *)
Lemma acquire_spec (pool pool1 : ObjectPool.t) (p : ptr) :
  pool_ok pool -> ObjectPool.acquire pool = (p, pool1) ->
  pool_ok pool1 /\ ObjectPool.slots pool1 = ObjectPool.slots pool /\
  ObjectPool.blocks_ pool <= ObjectPool.blocks_ pool1 /\
  (p ∉ ObjectPool.free_list_ pool1) /\
  0 <= p < ObjectPool.blocks_ pool1 * ObjectPool.BlockSize /\
  (p ∈ ObjectPool.free_list_ pool \/
   ObjectPool.blocks_ pool * ObjectPool.BlockSize <= p) /\
  (forall q, q ∈ ObjectPool.free_list_ pool1 ->
     q ∈ ObjectPool.free_list_ pool \/
     ObjectPool.blocks_ pool * ObjectPool.BlockSize <= q).
Proof.
  intros Hok. unfold ObjectPool.acquire.
  set (pool0 := match ObjectPool.free_list_ pool with
                | [] => ObjectPool.allocate_block pool | _ => pool end).
  assert (Hok1 : pool_ok pool0).
  { unfold pool0. destruct (ObjectPool.free_list_ pool); [by apply allocate_block_ok|done]. }
  assert (Hsl : ObjectPool.slots pool0 = ObjectPool.slots pool).
  { unfold pool0. by destruct (ObjectPool.free_list_ pool). }
  assert (Hbl : ObjectPool.blocks_ pool <= ObjectPool.blocks_ pool0).
  { unfold pool0. destruct (ObjectPool.free_list_ pool);
      cbn [ObjectPool.allocate_block ObjectPool.blocks_]; lia. }
  assert (Hfl : forall q, q ∈ ObjectPool.free_list_ pool0 ->
     q ∈ ObjectPool.free_list_ pool \/ ObjectPool.blocks_ pool * ObjectPool.BlockSize <= q).
  { unfold pool0. destruct (ObjectPool.free_list_ pool) eqn:E; [|rewrite E; by left].
    cbn [ObjectPool.allocate_block ObjectPool.free_list_ ObjectPool.blocks_]. rewrite E.
    intros q. rewrite app_nil_r, elem_of_reverse, elem_of_seqZ. lia. }
  assert (Hne : ObjectPool.free_list_ pool0 <> []).
  { unfold pool0. destruct (ObjectPool.free_list_ pool) eqn:E; [|by rewrite E].
    cbn [ObjectPool.allocate_block ObjectPool.free_list_ ObjectPool.blocks_]. rewrite E.
    rewrite app_nil_r. intros Hnil. apply (f_equal length) in Hnil.
    rewrite length_reverse, length_seqZ in Hnil. pose proof BlockSize_pos.
    simpl in Hnil. lia. }
  destruct Hok1 as [Hb1 Hnd1 Hr1].
  destruct (ObjectPool.free_list_ pool0) as [|p0 rest] eqn:E; [done|].
  intros [= <- <-].
  apply NoDup_cons in Hnd1 as [Hp Hnd1].
  split; [|split; [done|split; [done|split; [done|split; [|split]]]]].
  - split; cbn [ObjectPool.blocks_ ObjectPool.free_list_]; [done|done|].
    intros q Hq. apply Hr1. by right.
  - cbn [ObjectPool.blocks_]. apply Hr1. by left.
  - apply Hfl. by left.
  - cbn [ObjectPool.free_list_]. intros q Hq. apply Hfl. by right.
Qed.

(** ** Sums of quantities along a chain *)

Lemma sum_qty_app (pool : ObjectPool.t) (c1 c2 : list ptr) :
  sum_qty pool (c1 ++ c2) = sum_qty pool c1 + sum_qty pool c2.
Proof. induction c1 as [|p c1 IH]; simpl; [done|]. rewrite IH. lia. Qed.

Lemma sum_qty_singleton (pool : ObjectPool.t) (p : ptr) :
  sum_qty pool [p] = Order.quantity (ObjectPool.deref pool p).
Proof. simpl. lia. Qed.

Lemma sum_qty_ext (pool pool' : ObjectPool.t) (c : list ptr) :
  (forall p, p ∈ c -> ObjectPool.deref pool' p = ObjectPool.deref pool p) ->
  sum_qty pool' c = sum_qty pool c.
Proof.
  induction c as [|p c IH]; simpl; [done|]. intros H.
  rewrite H by (by left). rewrite IH; [done|]. intros q Hq. apply H. by right.
Qed.

Lemma filter_ne_notin (c : list ptr) (p : ptr) :
  p ∉ c -> filter (fun q => q <> p) c = c.
Proof.
  induction c as [|a c IH]; [done|]. intros Hn.
  apply not_elem_of_cons in Hn as [Hne Hn].
  rewrite filter_cons_True by done. by rewrite IH.
Qed.

(** Removing one (unique) order from a chain. *)
Lemma sum_qty_remove (pool : ObjectPool.t) (c : list ptr) (p : ptr) :
  NoDup c -> p ∈ c ->
  sum_qty pool (filter (fun q => q <> p) c) =
  sum_qty pool c - Order.quantity (ObjectPool.deref pool p).
Proof.
  induction c as [|a c IH]; intros Hnd Hin; [by apply elem_of_nil in Hin|].
  apply NoDup_cons in Hnd as [Ha Hnd].
  destruct (decide (a = p)) as [->|Hne].
  - rewrite filter_cons_False by (intros H; by apply H).
    rewrite filter_ne_notin by done. simpl. lia.
  - rewrite filter_cons_True by done. simpl.
    apply elem_of_cons in Hin as [?|Hin]; [congruence|]. rewrite IH by done. lia.
Qed.

Lemma length_filter_remove (c : list ptr) (p : ptr) :
  NoDup c -> p ∈ c ->
  Z.of_nat (length (filter (fun q => q <> p) c)) = Z.of_nat (length c) - 1.
Proof.
  induction c as [|a c IH]; intros Hnd Hin; [by apply elem_of_nil in Hin|].
  apply NoDup_cons in Hnd as [Ha Hnd].
  destruct (decide (a = p)) as [->|Hne].
  - rewrite filter_cons_False by (intros H; by apply H).
    rewrite filter_ne_notin by done. simpl. lia.
  - rewrite filter_cons_True by done. simpl.
    apply elem_of_cons in Hin as [?|Hin]; [congruence|].
    pose proof (IH Hnd Hin). lia.
Qed.

(** Changing the quantity of one (unique) order of a chain. *)
Lemma sum_qty_store (pool : ObjectPool.t) (c : list ptr) (p : ptr) (o : Order.t) :
  NoDup c -> p ∈ c ->
  sum_qty (ObjectPool.store pool p o) c =
  sum_qty pool c - Order.quantity (ObjectPool.deref pool p) + Order.quantity o.
Proof.
  induction c as [|a c IH]; intros Hnd Hin; [by apply elem_of_nil in Hin|].
  apply NoDup_cons in Hnd as [Ha Hnd]. simpl.
  destruct (decide (a = p)) as [->|Hne].
  - unfold ObjectPool.deref at 1. simpl. rewrite lookup_insert_eq. simpl.
    rewrite (sum_qty_ext pool); [lia|]. intros q Hq.
    unfold ObjectPool.deref. simpl. rewrite lookup_insert_ne; [done|]. intros ->. done.
  - apply elem_of_cons in Hin as [?|Hin]; [congruence|]. rewrite IH by done.
    unfold ObjectPool.deref at 1. simpl. rewrite lookup_insert_ne by done.
    fold (ObjectPool.deref pool a). lia.
Qed.

Lemma deref_store_eq (pool : ObjectPool.t) (p : ptr) (o : Order.t) :
  ObjectPool.deref (ObjectPool.store pool p o) p = o.
Proof. unfold ObjectPool.deref. simpl. by rewrite lookup_insert_eq. Qed.

Lemma deref_store_ne (pool : ObjectPool.t) (p q : ptr) (o : Order.t) :
  q <> p -> ObjectPool.deref (ObjectPool.store pool p o) q = ObjectPool.deref pool q.
Proof. intros. unfold ObjectPool.deref. simpl. by rewrite lookup_insert_ne. Qed.

Lemma wrap32_idem_add (a b : Z) : wrap32 (wrap32 a + b) = wrap32 (a + b).
Proof. unfold wrap32. by rewrite Zplus_mod_idemp_l. Qed.

Lemma wrap32_idem_sub (a b : Z) : wrap32 (wrap32 a - b) = wrap32 (a - b).
Proof. unfold wrap32. by rewrite Zminus_mod_idemp_l. Qed.

Lemma wrap32_small (a : Z) : 0 <= a < 2 ^ 32 -> wrap32 a = a.
Proof. intros. unfold wrap32. by apply Z.mod_small. Qed.

Lemma wrap32_twice (a : Z) : wrap32 (wrap32 a) = wrap32 a.
Proof. unfold wrap32. apply Z.mod_mod. lia. Qed.

(** ** Well-formed books *)

Lemma comp_of_ok (sd : bool) : comp_ok (comp_of sd).
Proof. destruct sd; [apply greater_ok|apply less_ok]. Qed.

Lemma side_update_levels (b : OrderBook.t) (sd : bool) (m' : PriceMap.t)
      (orders' : OrderMap.t) (sd' : bool) :
  levels (side_update b sd m' orders') sd' = if decide (sd' = sd) then m' else levels b sd'.
Proof.
  unfold side_update, OrderBook.update_best_bid, OrderBook.update_best_ask.
  destruct sd, sd'; simpl; try done; by destruct m' as [|[??]?].
Qed.

Lemma side_update_orders (b : OrderBook.t) (sd : bool) (m' : PriceMap.t)
      (orders' : OrderMap.t) :
  OrderBook.orders_ (side_update b sd m' orders') = orders'.
Proof.
  unfold side_update, OrderBook.update_best_bid, OrderBook.update_best_ask.
  destruct sd; simpl; by destruct m' as [|[??]?].
Qed.

Lemma side_update_misc (b : OrderBook.t) (sd : bool) (m' : PriceMap.t)
      (orders' : OrderMap.t) :
  OrderBook.stock_locate_ (side_update b sd m' orders') = OrderBook.stock_locate_ b /\
  OrderBook.order_count_ (side_update b sd m' orders') = OrderBook.order_count_ b.
Proof.
  unfold side_update, OrderBook.update_best_bid, OrderBook.update_best_ask.
  destruct sd; simpl; by destruct m' as [|[??]?].
Qed.

Lemma side_update_bbo (b : OrderBook.t) (sd : bool) (m' : PriceMap.t)
      (orders' : OrderMap.t) (sd' : bool) :
  bbo_side (OrderBook.bbo_ (side_update b sd m' orders')) sd' =
  if decide (sd' = sd)
  then match m' with
       | [] => (no_price sd, 0)
       | (_, best) :: _ => (PriceLevel.price_ best, PriceLevel.total_quantity_ best)
       end
  else bbo_side (OrderBook.bbo_ b) sd'.
Proof.
  unfold side_update, OrderBook.update_best_bid, OrderBook.update_best_ask, bbo_side.
  destruct sd, sd'; simpl; try done; by destruct m' as [|[??]?].
Qed.

Lemma side_update_bbo_ok (b : OrderBook.t) (sd : bool) (m' : PriceMap.t)
      (orders' : OrderMap.t) :
  (forall sd', bbo_side_ok b sd') ->
  forall sd', bbo_side_ok (side_update b sd m' orders') sd'.
Proof.
  intros Hb sd'. unfold bbo_side_ok.
  rewrite side_update_bbo, side_update_levels.
  destruct (decide (sd' = sd)) as [->|]; [done|]. apply Hb.
Qed.

(** Books with the same level maps, index and BBO are equally well-formed. *)
Lemma book_ok_view (b b' : OrderBook.t) (pool : ObjectPool.t) :
  OrderBook.bids_ b' = OrderBook.bids_ b -> OrderBook.asks_ b' = OrderBook.asks_ b ->
  OrderBook.orders_ b' = OrderBook.orders_ b -> OrderBook.bbo_ b' = OrderBook.bbo_ b ->
  book_ok b pool -> book_ok b' pool.
Proof.
  intros Hb Ha Ho Hq [Hs Hl Hp [abs [Hr Hsd Hc]] Hbbo].
  assert (Hlv : forall sd, levels b' sd = levels b sd).
  { intros []; simpl; done. }
  split.
  - intros sd. rewrite Hlv. apply Hs.
  - intros sd k l. rewrite Hlv. apply Hl.
  - done.
  - exists abs. split.
    + by rewrite Ho.
    + intros i op Hi. destruct (Hsd i op Hi) as (p & -> & (sd & k & l & Hf & Hin) & Hid).
      exists p. split; [done|]. split; [|done]. exists sd, k, l. by rewrite Hlv.
    + intros p (sd & k & l & Hf & Hin). apply Hc. exists sd, k, l. by rewrite <- Hlv.
  - intros sd. unfold bbo_side_ok. rewrite Hq, Hlv. apply Hbbo.
Qed.

Lemma om_repr_unique (m : OrderMap.t) (abs1 abs2 : gmap Z (option ptr)) :
  om_repr m abs1 -> om_repr m abs2 -> abs1 = abs2.
Proof.
  intros [_ H1] [_ H2]. apply map_eq. intros i.
  destruct (abs1 !! i) as [o|] eqn:E1.
  - apply H1, H2 in E1. done.
  - destruct (abs2 !! i) as [o|] eqn:E2; [|done].
    apply H2, H1 in E2. congruence.
Qed.

Lemma index_ok_unique (b : OrderBook.t) (pool : ObjectPool.t)
      (abs1 abs2 : gmap Z (option ptr)) :
  index_ok b pool abs1 -> index_ok b pool abs2 -> abs1 = abs2.
Proof. intros [H1 _ _] [H2 _ _]. by eapply om_repr_unique. Qed.

(** [get_order] on a well-formed book. *)
Lemma get_order_spec (b : OrderBook.t) (pool : ObjectPool.t) (abs : gmap Z (option ptr))
      (i : Z) :
  index_ok b pool abs ->
  OrderBook.get_order b i = Some (default None (abs !! i)).
Proof. intros [Hr _ _]. unfold OrderBook.get_order. by apply find_spec. Qed.

Lemma get_order_Some (b : OrderBook.t) (pool : ObjectPool.t) (abs : gmap Z (option ptr))
      (i : Z) (p : ptr) :
  index_ok b pool abs ->
  OrderBook.get_order b i = Some (Some p) <-> abs !! i = Some (Some p).
Proof.
  intros Hix. rewrite (get_order_spec b pool abs) by done. split.
  - intros [= H]. destruct (abs !! i) as [op|] eqn:E; [|done]. simpl in H. by subst.
  - intros ->. done.
Qed.

Lemma get_order_None (b : OrderBook.t) (pool : ObjectPool.t) (abs : gmap Z (option ptr))
      (i : Z) :
  index_ok b pool abs ->
  OrderBook.get_order b i = Some None <-> abs !! i = None.
Proof.
  intros Hix. rewrite (get_order_spec b pool abs) by done. split.
  - intros [= H]. destruct (abs !! i) as [op|] eqn:E; [|done]. simpl in H. subst.
    destruct (ix_sound _ _ _ Hix i None E) as (p & ? & _). done.
  - intros ->. done.
Qed.

Lemma deref_slots (pool pool' : ObjectPool.t) (p : ptr) :
  ObjectPool.slots pool' = ObjectPool.slots pool ->
  ObjectPool.deref pool' p = ObjectPool.deref pool p.
Proof. intros H. unfold ObjectPool.deref. by rewrite H. Qed.

(** A level whose orders are untouched stays well-formed. *)
Lemma level_ok_transfer (pool pool' : ObjectPool.t) (sd : bool) (k : Z) (l : PriceLevel.t) :
  level_ok pool sd k l ->
  (forall p, p ∈ PriceLevel.chain l ->
     ObjectPool.deref pool' p = ObjectPool.deref pool p /\
     (p ∉ ObjectPool.free_list_ pool') /\
     0 <= p < ObjectPool.blocks_ pool' * ObjectPool.BlockSize) ->
  level_ok pool' sd k l.
Proof.
  intros [Hp Hne Hc Ht Hnd Ho] Hsame. split; try done.
  - rewrite Ht. f_equal. symmetry. apply sum_qty_ext. intros p Hin. by apply Hsame.
  - intros p Hin. destruct (Hsame p Hin) as (Hd & Hf & Hr).
    destruct (Ho p Hin) as [? ? ? ? ?]. split; rewrite ?Hd; done.
Qed.

(** An order is referenced from the level of its own side and price. *)
Lemma in_book_level (b : OrderBook.t) (pool : ObjectPool.t) (p : ptr) :
  book_ok b pool -> in_book b p ->
  exists l, PriceMap.find (Order.price (ObjectPool.deref pool p))
              (levels b (is_buy (Order.side (ObjectPool.deref pool p)))) = Some l /\
            p ∈ PriceLevel.chain l.
Proof.
  intros Hok (sd & k & l & Hf & Hin).
  destruct (lv_orders _ _ _ _ (bk_levels _ _ Hok sd k l Hf) p Hin) as [Hp Hs _ _ _].
  exists l. by rewrite Hp, Hs.
Qed.

(** ** [add_order] *)

Lemma add_order_duplicate (b : OrderBook.t) (pool : ObjectPool.t)
      (order_id : Z) (side : Side) (price quantity timestamp : Z) (p : ptr) :
  OrderBook.get_order b order_id = Some (Some p) ->
  OrderBook.add_order b pool order_id side price quantity timestamp = Some (None, b, pool).
Proof.
  unfold OrderBook.get_order, OrderBook.add_order. intros ->. done.
Qed.

(** The code of [add_order] on a fresh id, with the side abstracted. *)
Lemma add_order_fresh_eq (b : OrderBook.t) (pool pool1 : ObjectPool.t)
      (order_id : Z) (side : Side) (price quantity timestamp : Z) (p : ptr)
      (orders' : OrderMap.t) :
  OrderBook.get_order b order_id = Some None ->
  ObjectPool.acquire pool = (p, pool1) ->
  OrderMap.put (OrderBook.orders_ b) order_id (Some p) = Some orders' ->
  let pool2 := ObjectPool.store pool1 p
                 (new_order b order_id side price quantity timestamp) in
  let sd := is_buy side in
  let b1 := side_update b sd
              (OrderBook.level_add (comp_of sd) (levels b sd) price pool2 p) orders' in
  OrderBook.add_order b pool order_id side price quantity timestamp =
  Some (Some p, with_count b1 (OrderBook.order_count_ b1 + 1), pool2).
Proof.
  unfold OrderBook.get_order, OrderBook.add_order. intros -> -> Hput. simpl.
  rewrite Hput. simpl. unfold side_update, with_count, new_order.
  destruct (is_buy side); reflexivity.
Qed.

Section AddOrder.
Variables (b : OrderBook.t) (pool pool1 : ObjectPool.t) (abs : gmap Z (option ptr)).
Variables (order_id : Z) (side : Side) (price quantity timestamp : Z) (p : ptr).
Hypothesis Hok : book_ok b pool.
Hypothesis Hix : index_ok b pool abs.
Hypothesis Hqty : 0 <= quantity < 2 ^ 32.
Hypothesis Hacq : ObjectPool.acquire pool = (p, pool1).

Let o := new_order b order_id side price quantity timestamp.
Let pool2 := ObjectPool.store pool1 p o.
Let sd := is_buy side.
Let m' := OrderBook.level_add (comp_of sd) (levels b sd) price pool2 p.

Lemma acquired_fresh (sd' : bool) (k : Z) (l : PriceLevel.t) :
  PriceMap.find k (levels b sd') = Some l -> p ∉ PriceLevel.chain l.
Proof.
  intros Hf Hin.
  destruct (lv_orders _ _ _ _ (bk_levels _ _ Hok sd' k l Hf) p Hin) as [_ _ _ Hlive Hr].
  destruct (acquire_spec _ _ _ (bk_pool _ _ Hok) Hacq) as (_ & _ & _ & _ & _ & [?|?] & _);
    [done|lia].
Qed.

Lemma order_ok_after_acquire (sd' : bool) (k : Z) (q : ptr) :
  order_ok pool sd' k q -> q <> p -> order_ok pool2 sd' k q.
Proof.
  intros [Hp Hs Hq Hlive Hr] Hne.
  destruct (acquire_spec _ _ _ (bk_pool _ _ Hok) Hacq)
    as (_ & Hsl & Hbl & _ & _ & _ & Hfl).
  pose proof BlockSize_pos.
  assert (Hd : ObjectPool.deref pool2 q = ObjectPool.deref pool q).
  { unfold pool2. rewrite deref_store_ne by done. by apply deref_slots. }
  split; rewrite ?Hd; try done.
  - unfold pool2. simpl. intros Hin. destruct (Hfl q Hin); [done|lia].
  - unfold pool2. simpl. nia.
Qed.

Lemma level_ok_after_acquire (sd' : bool) (k : Z) (l : PriceLevel.t) :
  PriceMap.find k (levels b sd') = Some l -> level_ok pool2 sd' k l.
Proof.
  intros Hf. pose proof (bk_levels _ _ Hok sd' k l Hf) as Hl.
  apply (level_ok_transfer pool); [done|]. intros q Hin.
  assert (q <> p) by (intros ->; by eapply acquired_fresh).
  destruct (order_ok_after_acquire sd' k q (lv_orders _ _ _ _ Hl q Hin)) as [_ _ _ ? ?];
    [done|].
  split; [|done]. unfold pool2. rewrite deref_store_ne by done.
  apply deref_slots.
  by destruct (acquire_spec _ _ _ (bk_pool _ _ Hok) Hacq) as (_ & ? & _).
Qed.

Lemma deref_new : ObjectPool.deref pool2 p = o.
Proof. unfold pool2. apply deref_store_eq. Qed.

Lemma new_order_ok : order_ok pool2 sd price p.
Proof.
  destruct (acquire_spec _ _ _ (bk_pool _ _ Hok) Hacq) as (_ & _ & _ & Hnf & Hr & _ & _).
  split; rewrite ?deref_new; simpl; done.
Qed.

(** The level that receives the order. *)
Lemma added_level_ok :
  level_ok pool2 sd price
    (PriceLevel.add_order (default (PriceLevel.new price)
                             (PriceMap.find price (levels b sd))) pool2 p).
Proof.
  pose proof new_order_ok as Hno.
  destruct (PriceMap.find price (levels b sd)) as [l|] eqn:E; simpl.
  - pose proof (level_ok_after_acquire sd price l E) as [Hp Hne Hc Ht Hnd Ho].
    pose proof (acquired_fresh sd price l E) as Hfresh.
    split; simpl.
    + done.
    + by destruct (PriceLevel.chain l).
    + rewrite length_app. simpl. lia.
    + rewrite Ht, sum_qty_app, sum_qty_singleton, !deref_new. simpl.
      by rewrite wrap32_idem_add.
    + apply NoDup_app. split; [done|]. split; [|apply NoDup_singleton].
      intros q Hq. rewrite list_elem_of_singleton. intros ->. done.
    + intros q. rewrite elem_of_app, list_elem_of_singleton.
      intros [?| ->]; [by apply Ho|done].
  - split; simpl.
    + done.
    + done.
    + done.
    + rewrite deref_new. simpl. f_equal. lia.
    + apply NoDup_singleton.
    + intros q. rewrite list_elem_of_singleton. intros ->. done.
Qed.

Lemma added_find (sd' : bool) (k : Z) :
  PriceMap.find k (if decide (sd' = sd) then m' else levels b sd') =
  if decide (sd' = sd /\ k = price)
  then Some (PriceLevel.add_order (default (PriceLevel.new price)
                                     (PriceMap.find price (levels b sd))) pool2 p)
  else PriceMap.find k (levels b sd').
Proof.
  destruct (decide (sd' = sd)) as [->|Hsd].
  - unfold m'. rewrite (level_add_find _ (comp_of_ok sd)).
    destruct (decide (k = price)) as [->|].
    + rewrite decide_True; done.
    + rewrite decide_False; [done|]. intros [_ ?]. done.
  - rewrite decide_False; [done|]. intros [? _]. done.
Qed.

Variable orders' : OrderMap.t.
Let b1 := side_update b sd m' orders'.
Let b' := with_count b1 (OrderBook.order_count_ b1 + 1).

Lemma added_levels (sd' : bool) :
  levels b' sd' = if decide (sd' = sd) then m' else levels b sd'.
Proof.
  transitivity (levels b1 sd'); [by destruct sd'|]. apply side_update_levels.
Qed.

Lemma added_in_book (q : ptr) : in_book b' q <-> q = p \/ in_book b q.
Proof.
  split.
  - intros (sd' & k & l & Hf & Hin). rewrite added_levels, added_find in Hf.
    destruct (decide (sd' = sd /\ k = price)) as [[-> ->]|Hne].
    + injection Hf as <-. simpl in Hin.
      apply elem_of_app in Hin as [Hin|Hin].
      * right. destruct (PriceMap.find price (levels b sd)) as [l|] eqn:E.
        -- exists sd, price, l. done.
        -- simpl in Hin. by apply elem_of_nil in Hin.
      * left. by apply list_elem_of_singleton in Hin.
    + right. exists sd', k, l. done.
  - intros [->|(sd' & k & l & Hf & Hin)].
    + eexists sd, price, _. rewrite added_levels, added_find.
      rewrite decide_True by done. split; [done|]. simpl.
      apply elem_of_app. right. by apply list_elem_of_singleton.
    + destruct (decide (sd' = sd /\ k = price)) as [[-> ->]|Hne].
      * eexists sd, price, _. rewrite added_levels, added_find.
        rewrite decide_True by done. split; [done|]. simpl.
        rewrite Hf. simpl. apply elem_of_app. by left.
      * exists sd', k, l. rewrite added_levels, added_find.
        rewrite decide_False by done. done.
Qed.

Hypothesis Hfresh : abs !! order_id = None.
Hypothesis Hput : om_repr orders'
                    (if decide (order_id = 0) then abs else <[order_id:=Some p]> abs).

Lemma not_in_book_p : ~ in_book b p.
Proof. intros (sd' & k & l & Hf & Hin). by eapply acquired_fresh. Qed.

Lemma added_index_ok :
  index_ok b' pool2 (if decide (order_id = 0) then abs else <[order_id:=Some p]> abs).
Proof.
  destruct Hix as [Hr Hsd Hc].
  assert (Hd : forall q, in_book b q ->
            ObjectPool.deref pool2 q = ObjectPool.deref pool q).
  { intros q Hq. unfold pool2. rewrite deref_store_ne.
    - apply deref_slots.
      by destruct (acquire_spec _ _ _ (bk_pool _ _ Hok) Hacq) as (_ & ? & _).
    - intros ->. by apply not_in_book_p. }
  assert (Hold : forall i op, abs !! i = Some op ->
            exists q, op = Some q /\ in_book b' q /\
                      Order.order_id (ObjectPool.deref pool2 q) = i).
  { intros i op Hi. destruct (Hsd i op Hi) as (q & -> & Hq & Hid).
    exists q. split; [done|]. split; [apply added_in_book; by right|].
    by rewrite Hd. }
  split.
  - unfold b', b1, with_count. simpl. by rewrite side_update_orders.
  - intros i op. destruct (decide (order_id = 0)) as [Hz|Hnz]; [by apply Hold|].
    destruct (decide (i = order_id)) as [->|Hne].
    + rewrite lookup_insert_eq. intros [= <-]. exists p. split; [done|].
      split; [apply added_in_book; by left|]. by rewrite deref_new.
    + rewrite lookup_insert_ne by done. by apply Hold.
  - intros q Hq Hid. apply added_in_book in Hq as [->|Hq].
    + rewrite deref_new in *. simpl in *.
      rewrite decide_False by done. by rewrite lookup_insert_eq.
    + rewrite Hd in * by done. pose proof (Hc q Hq Hid) as Hl.
      destruct (decide (order_id = 0)); [done|].
      rewrite lookup_insert_ne; [done|]. intros Heq. rewrite <- Heq in Hl. congruence.
Qed.

Lemma added_book_ok : book_ok b' pool2.
Proof.
  split.
  - intros sd'. rewrite added_levels. destruct (decide (sd' = sd)) as [->|].
    + apply (level_add_sorted _ (comp_of_ok sd)). apply (bk_sorted _ _ Hok).
    + apply (bk_sorted _ _ Hok).
  - intros sd' k l. rewrite added_levels, added_find.
    destruct (decide (sd' = sd /\ k = price)) as [[-> ->]|Hne].
    + intros [= <-]. apply added_level_ok.
    + apply level_ok_after_acquire.
  - destruct (acquire_spec _ _ _ (bk_pool _ _ Hok) Hacq) as ([? ? ?] & _).
    split; done.
  - eexists. apply added_index_ok.
  - intros sd'. assert (Hb1 : bbo_side_ok b1 sd').
    { apply side_update_bbo_ok. apply (bk_bbo _ _ Hok). }
    unfold bbo_side_ok in *. by destruct sd'.
Qed.

End AddOrder.

(** ** Reducing and removing a resting order *)

Section Resting.
Variables (b : OrderBook.t) (pool : ObjectPool.t) (abs : gmap Z (option ptr)).
Variables (order_id : Z) (p : ptr).
Hypothesis Hok : book_ok b pool.
Hypothesis Hix : index_ok b pool abs.
Hypothesis Hp : abs !! order_id = Some (Some p).

Let o := ObjectPool.deref pool p.
Let sd := is_buy (Order.side o).
Let price := Order.price o.

Lemma resting_in_book : in_book b p.
Proof. destruct (ix_sound _ _ _ Hix _ _ Hp) as (q & [= <-] & ? & _). done. Qed.

Lemma resting_id : Order.order_id o = order_id.
Proof. destruct (ix_sound _ _ _ Hix _ _ Hp) as (q & [= <-] & _ & ?). done. Qed.

Lemma resting_id_nonzero : order_id <> 0.
Proof.
  intros ->. pose proof (om_repr_zero _ _ (ix_repr _ _ _ Hix)). congruence.
Qed.

Lemma resting_level :
  exists l, PriceMap.find price (levels b sd) = Some l /\ p ∈ PriceLevel.chain l.
Proof. apply (in_book_level b pool p Hok), resting_in_book. Qed.

(** [p] is referenced from no other level. *)
Lemma resting_elsewhere (sd' : bool) (k : Z) (l' : PriceLevel.t) :
  PriceMap.find k (levels b sd') = Some l' -> p ∈ PriceLevel.chain l' ->
  sd' = sd /\ k = price.
Proof.
  intros Hf Hin.
  destruct (lv_orders _ _ _ _ (bk_levels _ _ Hok sd' k l' Hf) p Hin) as [? ? _ _ _].
  done.
Qed.

Variable l : PriceLevel.t.
Hypothesis Hl : PriceMap.find price (levels b sd) = Some l.

Lemma resting_in_chain : p ∈ PriceLevel.chain l.
Proof. destruct resting_level as (l0 & Hf & Hin). congruence. Qed.

Lemma resting_order_ok : order_ok pool sd price p.
Proof.
  apply (lv_orders _ _ _ _ (bk_levels _ _ Hok sd price l Hl)), resting_in_chain.
Qed.

(** *** Partial reduction: the order stays *)
Section Reduced.
Variable exec : Z.
Hypothesis Hexec : 0 <= exec < Order.quantity o.

Let pool1 := ObjectPool.store pool p (Order.with_quantity o (Order.quantity o - exec)).
Let l1 := PriceLevel.mk (PriceLevel.price_ l) (PriceLevel.chain l)
            (wrap32 (PriceLevel.total_quantity_ l - exec)) (PriceLevel.order_count_ l).

Lemma reduced_deref (q : ptr) :
  ObjectPool.deref pool1 q =
  if decide (q = p) then Order.with_quantity o (Order.quantity o - exec)
  else ObjectPool.deref pool q.
Proof.
  unfold pool1. destruct (decide (q = p)) as [->|Hne].
  - apply deref_store_eq.
  - by apply deref_store_ne.
Qed.

Lemma reduced_order_ok (sd' : bool) (k : Z) (q : ptr) :
  order_ok pool sd' k q -> order_ok pool1 sd' k q.
Proof.
  intros [Hpr Hs Hq Hlive Hr]. pose proof resting_order_ok as [_ _ Hq0 _ _].
  split; rewrite ?reduced_deref; try done.
  - destruct (decide (q = p)) as [->|]; done.
  - destruct (decide (q = p)) as [->|]; done.
  - destruct (decide (q = p)) as [->|]; [|done]. simpl. fold o in Hq0. lia.
Qed.

Lemma reduced_level_ok : level_ok pool1 sd price l1.
Proof.
  pose proof (bk_levels _ _ Hok sd price l Hl) as [Hpr Hne Hc Ht Hnd Ho].
  pose proof resting_in_chain as Hin.
  split; unfold l1; simpl; try done.
  - rewrite Ht, wrap32_idem_sub. f_equal. unfold pool1.
    rewrite sum_qty_store by done. simpl. fold o. lia.
  - intros q Hq. by apply reduced_order_ok, Ho.
Qed.

Lemma reduced_other_level_ok (sd' : bool) (k : Z) (l' : PriceLevel.t) :
  PriceMap.find k (levels b sd') = Some l' -> ~ (sd' = sd /\ k = price) ->
  level_ok pool1 sd' k l'.
Proof.
  intros Hf Hne. pose proof (bk_levels _ _ Hok sd' k l' Hf) as Hl'.
  apply (level_ok_transfer pool); [done|]. intros q Hq.
  assert (q <> p) by (intros ->; by apply Hne, (resting_elsewhere sd' k l')).
  rewrite reduced_deref, decide_False by done.
  destruct (lv_orders _ _ _ _ Hl' q Hq) as [_ _ _ ? ?]. done.
Qed.

Variable b' : OrderBook.t.
Hypothesis Hfind : forall sd' k, PriceMap.find k (levels b' sd') =
  if decide (sd' = sd /\ k = price) then Some l1 else PriceMap.find k (levels b sd').
Hypothesis Hsorted : forall sd', sorted (comp_of sd') (levels b' sd').
Hypothesis Horders : OrderBook.orders_ b' = OrderBook.orders_ b.
Hypothesis Hbbo : forall sd', bbo_side_ok b' sd'.

Lemma reduced_in_book (q : ptr) : in_book b' q <-> in_book b q.
Proof.
  split.
  - intros (sd' & k & l' & Hf & Hin). rewrite Hfind in Hf.
    destruct (decide (sd' = sd /\ k = price)) as [[-> ->]|Hne].
    + injection Hf as <-. exists sd, price, l. done.
    + exists sd', k, l'. done.
  - intros (sd' & k & l' & Hf & Hin).
    destruct (decide (sd' = sd /\ k = price)) as [[-> ->]|Hne].
    + exists sd, price, l1. rewrite Hfind, decide_True by done.
      split; [done|]. simpl. congruence.
    + exists sd', k, l'. rewrite Hfind, decide_False by done. done.
Qed.

Lemma reduced_book_ok : book_ok b' pool1 /\ index_ok b' pool1 abs.
Proof.
  assert (Hid : forall q, Order.order_id (ObjectPool.deref pool1 q) =
                          Order.order_id (ObjectPool.deref pool q)).
  { intros q. rewrite reduced_deref. destruct (decide (q = p)) as [->|]; done. }
  assert (Hix' : index_ok b' pool1 abs).
  { destruct Hix as [Hr Hsd Hc]. split.
    - by rewrite Horders.
    - intros i op Hi. destruct (Hsd i op Hi) as (q & -> & Hq & Hqi).
      exists q. split; [done|]. split; [by apply reduced_in_book|]. by rewrite Hid.
    - intros q Hq. rewrite Hid. apply Hc. by apply reduced_in_book. }
  split; [|done]. split; try done.
  - intros sd' k l'. rewrite Hfind.
    destruct (decide (sd' = sd /\ k = price)) as [[-> ->]|Hne].
    + intros [= <-]. apply reduced_level_ok.
    + intros Hf. by apply reduced_other_level_ok.
  - destruct (bk_pool _ _ Hok) as [? ? ?]. split; done.
  - by exists abs.
Qed.
End Reduced.

(** *** Removal: the order leaves its level, the index and goes back to
    the pool *)
Section Removed.
Variables (poolX : ObjectPool.t) (l' : PriceLevel.t).
Hypothesis HXf : ObjectPool.free_list_ poolX = ObjectPool.free_list_ pool.
Hypothesis HXb : ObjectPool.blocks_ poolX = ObjectPool.blocks_ pool.
Hypothesis HXd : forall q, q <> p -> ObjectPool.deref poolX q = ObjectPool.deref pool q.
Hypothesis Hl'p : PriceLevel.price_ l' = price.
Hypothesis Hl'c : PriceLevel.chain l' = filter (fun q => q <> p) (PriceLevel.chain l).
Hypothesis Hl'n : PriceLevel.order_count_ l' = PriceLevel.order_count_ l - 1.
Hypothesis Hl't : PriceLevel.total_quantity_ l' =
                  wrap32 (sum_qty pool (PriceLevel.chain l) - Order.quantity o).

Let pool' := ObjectPool.release poolX p.

Lemma removed_order_ok (sd' : bool) (k : Z) (q : ptr) :
  order_ok pool sd' k q -> q <> p -> order_ok pool' sd' k q.
Proof.
  intros [Hpr Hs Hq Hlive Hr] Hne.
  assert (Hd : ObjectPool.deref pool' q = ObjectPool.deref pool q).
  { unfold pool', ObjectPool.release, ObjectPool.deref. simpl.
    apply (HXd q Hne). }
  split; rewrite ?Hd; try done.
  - unfold pool'. simpl. rewrite HXf. apply not_elem_of_cons. done.
  - unfold pool'. simpl. by rewrite HXb.
Qed.

Lemma removed_level_ok :
  PriceLevel.empty l' = false -> level_ok pool' sd price l'.
Proof.
  pose proof (bk_levels _ _ Hok sd price l Hl) as [Hpr Hne Hc Ht Hnd Ho].
  pose proof resting_in_chain as Hin.
  pose proof (length_filter_remove _ _ Hnd Hin) as Hlen.
  unfold PriceLevel.empty. intros He. apply Z.eqb_neq in He.
  split.
  - done.
  - rewrite Hl'c. intros Hnil. rewrite Hnil in Hlen. simpl in Hlen. lia.
  - rewrite Hl'c, Hl'n. lia.
  - rewrite Hl't, Hl'c. f_equal.
    rewrite (sum_qty_ext pool pool').
    + by rewrite sum_qty_remove.
    + intros q Hq. apply list_elem_of_filter in Hq as [Hqp _].
      unfold pool', ObjectPool.release, ObjectPool.deref. simpl. by apply HXd.
  - rewrite Hl'c. by apply NoDup_filter.
  - intros q. rewrite Hl'c. intros Hq. apply list_elem_of_filter in Hq as [Hqp Hq].
    apply removed_order_ok; [by apply Ho|done].
Qed.

Lemma removed_other_level_ok (sd' : bool) (k : Z) (l0 : PriceLevel.t) :
  PriceMap.find k (levels b sd') = Some l0 -> ~ (sd' = sd /\ k = price) ->
  level_ok pool' sd' k l0.
Proof.
  intros Hf Hne. pose proof (bk_levels _ _ Hok sd' k l0 Hf) as Hl0.
  apply (level_ok_transfer pool); [done|]. intros q Hq.
  assert (q <> p) by (intros ->; by apply Hne, (resting_elsewhere sd' k l0)).
  destruct (removed_order_ok sd' k q (lv_orders _ _ _ _ Hl0 q Hq)) as [_ _ _ ? ?];
    [done|].
  split; [|done]. unfold pool', ObjectPool.release, ObjectPool.deref. simpl.
  by apply HXd.
Qed.

Variable b' : OrderBook.t.
Hypothesis Hfind : forall sd' k, PriceMap.find k (levels b' sd') =
  if decide (sd' = sd /\ k = price)
  then (if PriceLevel.empty l' then None else Some l')
  else PriceMap.find k (levels b sd').
Hypothesis Hsorted : forall sd', sorted (comp_of sd') (levels b' sd').
Hypothesis Horders : om_repr (OrderBook.orders_ b') (delete order_id abs).
Hypothesis Hbbo : forall sd', bbo_side_ok b' sd'.

Lemma removed_in_book (q : ptr) : in_book b' q <-> in_book b q /\ q <> p.
Proof.
  split.
  - intros (sd' & k & l0 & Hf & Hin). rewrite Hfind in Hf.
    destruct (decide (sd' = sd /\ k = price)) as [[-> ->]|Hne].
    + destruct (PriceLevel.empty l'); [done|]. injection Hf as <-.
      rewrite Hl'c in Hin. apply list_elem_of_filter in Hin as [Hqp Hin].
      split; [|done]. exists sd, price, l. done.
    + split; [exists sd', k, l0; done|].
      intros ->. by apply Hne, (resting_elsewhere sd' k l0).
  - intros [(sd' & k & l0 & Hf & Hin) Hqp].
    destruct (decide (sd' = sd /\ k = price)) as [[-> ->]|Hne].
    + assert (l0 = l) as -> by congruence.
      assert (Hin' : q ∈ PriceLevel.chain l').
      { rewrite Hl'c. by apply list_elem_of_filter. }
      exists sd, price, l'. rewrite Hfind, decide_True by done.
      split; [|done]. unfold PriceLevel.empty.
      destruct (Z.eqb_spec (PriceLevel.order_count_ l') 0) as [Hz|]; [|done].
      exfalso.
      pose proof (bk_levels _ _ Hok sd price l Hl) as [_ _ Hc _ Hnd _].
      pose proof (length_filter_remove _ _ Hnd resting_in_chain) as Hlen.
      rewrite <- Hl'c in Hlen.
      destruct (PriceLevel.chain l'); [by apply elem_of_nil in Hin'|].
      simpl in Hlen. lia.
    + exists sd', k, l0. rewrite Hfind, decide_False by done. done.
Qed.

Lemma removed_book_ok :
  book_ok b' pool' /\ index_ok b' pool' (delete order_id abs).
Proof.
  pose proof resting_order_ok as [_ _ _ Hlive Hrange].
  assert (Hd : forall q, q <> p -> ObjectPool.deref pool' q = ObjectPool.deref pool q).
  { intros q Hq. unfold pool', ObjectPool.release, ObjectPool.deref. simpl.
    by apply HXd. }
  assert (Hix' : index_ok b' pool' (delete order_id abs)).
  { destruct Hix as [Hr Hsd Hc]. split.
    - done.
    - intros i op. destruct (decide (i = order_id)) as [->|Hne].
      { by rewrite lookup_delete_eq. }
      rewrite lookup_delete_ne by done. intros Hi.
      destruct (Hsd i op Hi) as (q & -> & Hq & Hqi).
      assert (q <> p).
      { intros ->. pose proof resting_id. unfold o in *. congruence. }
      exists q. split; [done|]. split; [by apply removed_in_book|]. by rewrite Hd.
    - intros q Hq. apply removed_in_book in Hq as [Hq Hqp]. rewrite Hd by done.
      intros Hnz. pose proof (Hc q Hq Hnz) as Hlk.
      rewrite lookup_delete_ne; [done|]. intros Heq. rewrite <- Heq in Hlk.
      congruence. }
  split; [|done]. split; try done.
  - intros sd' k l0. rewrite Hfind.
    destruct (decide (sd' = sd /\ k = price)) as [[-> ->]|Hne].
    + destruct (PriceLevel.empty l') eqn:He; [done|]. intros [= <-].
      by apply removed_level_ok.
    + intros Hf. by apply removed_other_level_ok.
  - destruct (bk_pool _ _ Hok) as [Hb Hnd Hr]. unfold pool'. split; simpl.
    + by rewrite HXb.
    + rewrite HXf. apply NoDup_cons. done.
    + intros q. rewrite HXf, HXb. intros [->|Hq]%elem_of_cons; [done|by apply Hr].
  - by eexists.
Qed.
End Removed.

End Resting.

Lemma side_update_find (b : OrderBook.t) (sd : bool) (m' : PriceMap.t)
      (orders' : OrderMap.t) (price : Z) (X : option PriceLevel.t) :
  (forall k, PriceMap.find k m' =
             if decide (k = price) then X else PriceMap.find k (levels b sd)) ->
  forall sd' k, PriceMap.find k (levels (side_update b sd m' orders') sd') =
    if decide (sd' = sd /\ k = price) then X else PriceMap.find k (levels b sd').
Proof.
  intros Hf sd' k. rewrite side_update_levels.
  destruct (decide (sd' = sd)) as [->|Hsd].
  - rewrite Hf. destruct (decide (k = price)) as [->|].
    + by rewrite decide_True.
    + rewrite decide_False; [done|]. by intros [_ ?].
  - rewrite decide_False; [done|]. by intros [? _].
Qed.

Lemma side_update_sorted (b : OrderBook.t) (sd : bool) (m' : PriceMap.t)
      (orders' : OrderMap.t) :
  (forall sd', sorted (comp_of sd') (levels b sd')) -> sorted (comp_of sd) m' ->
  forall sd', sorted (comp_of sd') (levels (side_update b sd m' orders') sd').
Proof.
  intros Hs Hm sd'. rewrite side_update_levels.
  destruct (decide (sd' = sd)) as [->|]; [done|apply Hs].
Qed.

(** Views of a book that differ in the index and the order count only. *)
Lemma with_orders_levels (b : OrderBook.t) (orders' : OrderMap.t) (c : Z) (sd : bool) :
  levels (with_orders b orders' c) sd = levels b sd.
Proof. by destruct sd. Qed.

Lemma with_orders_bbo_ok (b : OrderBook.t) (orders' : OrderMap.t) (c : Z) :
  (forall sd, bbo_side_ok b sd) -> forall sd, bbo_side_ok (with_orders b orders' c) sd.
Proof. intros H sd. specialize (H sd). unfold bbo_side_ok in *. by destruct sd. Qed.

(** ** [execute_order] / [cancel_order] *)

Lemma execute_order_absent (b : OrderBook.t) (pool : ObjectPool.t) (order_id quantity : Z) :
  OrderBook.get_order b order_id = Some None ->
  OrderBook.execute_order b pool order_id quantity = Some (0, b, pool).
Proof. unfold OrderBook.get_order, OrderBook.execute_order. by intros ->. Qed.

Lemma execute_order_eq (b : OrderBook.t) (pool : ObjectPool.t) (order_id quantity : Z)
      (p : ptr) :
  OrderBook.get_order b order_id = Some (Some p) ->
  let o := ObjectPool.deref pool p in
  let exec_qty := Z.min quantity (Order.quantity o) in
  let sd := is_buy (Order.side o) in
  let r := OrderBook.level_reduce (levels b sd) (Order.price o) pool p exec_qty in
  let b1 := side_update b sd r.1 (OrderBook.orders_ b) in
  OrderBook.execute_order b pool order_id quantity =
  if Order.quantity (ObjectPool.deref r.2 p) =? 0 then
    match OrderMap.remove (OrderBook.orders_ b) order_id with
    | Some orders' =>
        Some (exec_qty, with_orders b1 orders' (OrderBook.order_count_ b1 - 1),
              ObjectPool.release r.2 p)
    | None => None
    end
  else Some (exec_qty, b1, r.2).
Proof.
  unfold OrderBook.get_order, OrderBook.execute_order. intros ->. simpl.
  unfold side_update, with_orders.
  destruct (is_buy (Order.side (ObjectPool.deref pool p))); simpl;
    destruct (OrderBook.level_reduce _ _ _ _ _) as [m' pool'] eqn:E; simpl.
  - destruct (Order.quantity (ObjectPool.deref pool' p) =? 0); [|done].
    unfold OrderBook.update_best_bid. destruct m' as [|[??]?]; simpl;
      by destruct (OrderMap.remove _ _).
  - destruct (Order.quantity (ObjectPool.deref pool' p) =? 0); [|done].
    unfold OrderBook.update_best_ask. destruct m' as [|[??]?]; simpl;
      by destruct (OrderMap.remove _ _).
Qed.

Section Execute.
Variables (b : OrderBook.t) (pool : ObjectPool.t) (abs : gmap Z (option ptr)).
Variables (order_id quantity : Z) (p : ptr) (l : PriceLevel.t).
Hypothesis Hok : book_ok b pool.
Hypothesis Hix : index_ok b pool abs.
Hypothesis Hp : abs !! order_id = Some (Some p).
Hypothesis Hq : 0 <= quantity.

Let o := ObjectPool.deref pool p.
Let sd := is_buy (Order.side o).
Let price := Order.price o.
Let exec := Z.min quantity (Order.quantity o).
Hypothesis Hl : PriceMap.find price (levels b sd) = Some l.

Let pool1 := ObjectPool.store pool p (Order.with_quantity o (Order.quantity o - exec)).
Let l1 := PriceLevel.mk (PriceLevel.price_ l) (PriceLevel.chain l)
            (wrap32 (PriceLevel.total_quantity_ l - exec)) (PriceLevel.order_count_ l).
Let l2 := PriceLevel.mk (PriceLevel.price_ l)
            (filter (fun q => q <> p) (PriceLevel.chain l))
            (wrap32 (PriceLevel.total_quantity_ l - exec)) (PriceLevel.order_count_ l - 1).

Lemma exec_range : 0 <= exec <= Order.quantity o /\ Order.quantity o < 2 ^ 32.
Proof.
  pose proof (resting_order_ok b pool abs order_id p Hok Hix Hp l Hl) as [_ _ ? _ _].
  unfold exec, o in *. lia.
Qed.

(** [PriceLevel::reduce_quantity] on the resting order. *)
Lemma reduce_quantity_eq :
  PriceLevel.reduce_quantity l pool p exec =
  (if decide (exec = Order.quantity o) then l2 else l1, pool1).
Proof.
  pose proof exec_range as [He Hqo].
  unfold PriceLevel.reduce_quantity. fold o.
  rewrite (wrap32_small (Order.quantity o - exec)) by lia. fold pool1.
  assert (Hd : ObjectPool.deref pool1 p = Order.with_quantity o (Order.quantity o - exec)).
  { unfold pool1. apply deref_store_eq. }
  rewrite Hd. simpl.
  destruct (Z.eqb_spec (Order.quantity o - exec) 0) as [Hz|Hnz].
  - rewrite decide_True by lia. unfold PriceLevel.remove_order, l2. simpl.
    rewrite Hd. simpl. rewrite Hz, Z.sub_0_r, wrap32_twice. done.
  - rewrite decide_False by lia. done.
Qed.

Lemma level_count_pos : 1 <= PriceLevel.order_count_ l.
Proof.
  pose proof (bk_levels _ _ Hok sd price l Hl) as [_ Hne Hc _ _ _].
  rewrite Hc. destruct (PriceLevel.chain l); [done|]. simpl. lia.
Qed.

Let r := OrderBook.level_reduce (levels b sd) price pool p exec.

Lemma level_reduce_eq_pool : r.2 = pool1.
Proof.
  unfold r. rewrite level_reduce_pool, Hl, reduce_quantity_eq. done.
Qed.

Lemma level_reduce_eq_find (k : Z) :
  PriceMap.find k r.1 =
  if decide (k = price)
  then (if decide (exec = Order.quantity o)
        then (if PriceLevel.empty l2 then None else Some l2)
        else Some l1)
  else PriceMap.find k (levels b sd).
Proof.
  unfold r. rewrite (level_reduce_find _ (comp_of_ok sd)) by apply (bk_sorted _ _ Hok).
  destruct (decide (k = price)) as [->|]; [|done].
  rewrite Hl, reduce_quantity_eq. simpl.
  destruct (decide (exec = Order.quantity o)); [done|].
  unfold PriceLevel.empty, l1. simpl. pose proof level_count_pos.
  destruct (Z.eqb_spec (PriceLevel.order_count_ l) 0); [lia|done].
Qed.

Let b1 := side_update b sd r.1 (OrderBook.orders_ b).

(** Partial execution. *)
Lemma execute_partial :
  exec <> Order.quantity o ->
  OrderBook.execute_order b pool order_id quantity = Some (exec, b1, pool1) /\
  book_ok b1 pool1 /\ index_ok b1 pool1 abs /\
  (forall sd' k, PriceMap.find k (levels b1 sd') =
     if decide (sd' = sd /\ k = price) then Some l1 else PriceMap.find k (levels b sd')).
Proof.
  intros Hne. pose proof exec_range as [He Hqo].
  assert (Hfind : forall sd' k, PriceMap.find k (levels b1 sd') =
     if decide (sd' = sd /\ k = price) then Some l1 else PriceMap.find k (levels b sd')).
  { apply side_update_find. intros k. rewrite level_reduce_eq_find.
    destruct (decide (k = price)); [|done]. by rewrite decide_False. }
  split; [|split; [|split; [|done]]].
  - rewrite (execute_order_eq b pool order_id quantity p)
      by (by apply (get_order_Some b pool abs)).
    cbv zeta. fold o sd price exec r b1. rewrite level_reduce_eq_pool.
    unfold pool1 at 1. rewrite deref_store_eq. simpl.
    destruct (Z.eqb_spec (Order.quantity o - exec) 0); [lia|done].
  - eapply (reduced_book_ok b pool abs order_id p Hok Hix Hp l Hl exec); try done.
    + fold o. lia.
    + apply side_update_sorted; [apply (bk_sorted _ _ Hok)|].
      apply (level_reduce_sorted (comp_of sd)), (bk_sorted _ _ Hok).
    + apply side_update_orders.
    + apply side_update_bbo_ok, (bk_bbo _ _ Hok).
  - eapply (reduced_book_ok b pool abs order_id p Hok Hix Hp l Hl exec); try done.
    + fold o. lia.
    + apply side_update_sorted; [apply (bk_sorted _ _ Hok)|].
      apply (level_reduce_sorted (comp_of sd)), (bk_sorted _ _ Hok).
    + apply side_update_orders.
    + apply side_update_bbo_ok, (bk_bbo _ _ Hok).
Qed.

(** Full execution: the order leaves the book. *)
Lemma execute_full :
  exec = Order.quantity o ->
  exists orders',
    OrderMap.remove (OrderBook.orders_ b) order_id = Some orders' /\
    let b' := with_orders b1 orders' (OrderBook.order_count_ b1 - 1) in
    let pool' := ObjectPool.release pool1 p in
    OrderBook.execute_order b pool order_id quantity = Some (exec, b', pool') /\
    book_ok b' pool' /\ index_ok b' pool' (delete order_id abs) /\
    (forall sd' k, PriceMap.find k (levels b' sd') =
       if decide (sd' = sd /\ k = price)
       then (if PriceLevel.empty l2 then None else Some l2)
       else PriceMap.find k (levels b sd')).
Proof.
  intros Heq. pose proof exec_range as [He Hqo].
  destruct (remove_spec _ _ order_id (ix_repr _ _ _ Hix)) as (orders' & Hrm & Hrepr & _).
  exists orders'. split; [done|]. cbv zeta.
  assert (Hfind : forall sd' k,
     PriceMap.find k (levels (with_orders b1 orders' (OrderBook.order_count_ b1 - 1)) sd') =
     if decide (sd' = sd /\ k = price)
     then (if PriceLevel.empty l2 then None else Some l2)
     else PriceMap.find k (levels b sd')).
  { intros sd' k. rewrite with_orders_levels. revert sd' k.
    apply side_update_find. intros k. rewrite level_reduce_eq_find.
    destruct (decide (k = price)); [|done]. by rewrite decide_True. }
  split; [|split; [|split; [|done]]].
  - rewrite (execute_order_eq b pool order_id quantity p)
      by (by apply (get_order_Some b pool abs)).
    cbv zeta. fold o sd price exec r b1. rewrite level_reduce_eq_pool.
    unfold pool1 at 1. rewrite deref_store_eq. simpl.
    destruct (Z.eqb_spec (Order.quantity o - exec) 0); [|lia].
    by rewrite Hrm.
  - eapply (removed_book_ok b pool abs order_id p Hok Hix Hp l Hl pool1 l2); try done.
    + intros q Hne. unfold pool1. by apply deref_store_ne.
    + pose proof (bk_levels _ _ Hok sd price l Hl) as [? _ _ _ _ _]. done.
    + unfold l2. simpl.
      pose proof (bk_levels _ _ Hok sd price l Hl) as [_ _ _ Ht _ _].
      rewrite Ht, wrap32_idem_sub. fold o. by rewrite Heq.
    + intros sd'. rewrite with_orders_levels.
      apply side_update_sorted; [apply (bk_sorted _ _ Hok)|].
      apply (level_reduce_sorted (comp_of sd)), (bk_sorted _ _ Hok).
    + apply with_orders_bbo_ok, side_update_bbo_ok, (bk_bbo _ _ Hok).
  - eapply (removed_book_ok b pool abs order_id p Hok Hix Hp l Hl pool1 l2); try done.
    + intros q Hne. unfold pool1. by apply deref_store_ne.
    + pose proof (bk_levels _ _ Hok sd price l Hl) as [? _ _ _ _ _]. done.
    + unfold l2. simpl.
      pose proof (bk_levels _ _ Hok sd price l Hl) as [_ _ _ Ht _ _].
      rewrite Ht, wrap32_idem_sub. fold o. by rewrite Heq.
    + intros sd'. rewrite with_orders_levels.
      apply side_update_sorted; [apply (bk_sorted _ _ Hok)|].
      apply (level_reduce_sorted (comp_of sd)), (bk_sorted _ _ Hok).
    + apply with_orders_bbo_ok, side_update_bbo_ok, (bk_bbo _ _ Hok).
Qed.

End Execute.

(** ** [delete_order] *)

Lemma delete_order_absent (b : OrderBook.t) (pool : ObjectPool.t) (order_id : Z) :
  OrderBook.get_order b order_id = Some None ->
  OrderBook.delete_order b pool order_id = Some (false, b, pool).
Proof. unfold OrderBook.get_order, OrderBook.delete_order. by intros ->. Qed.

Lemma delete_order_eq (b : OrderBook.t) (pool : ObjectPool.t) (order_id : Z) (p : ptr) :
  OrderBook.get_order b order_id = Some (Some p) ->
  let o := ObjectPool.deref pool p in
  let sd := is_buy (Order.side o) in
  let b1 := side_update b sd (OrderBook.level_remove (levels b sd) (Order.price o) pool p)
              (OrderBook.orders_ b) in
  OrderBook.delete_order b pool order_id =
  match OrderMap.remove (OrderBook.orders_ b) order_id with
  | Some orders' =>
      Some (true, with_orders b1 orders' (OrderBook.order_count_ b1 - 1),
            ObjectPool.release pool p)
  | None => None
  end.
Proof.
  unfold OrderBook.get_order, OrderBook.delete_order. intros ->. simpl.
  unfold side_update, with_orders.
  destruct (is_buy (Order.side (ObjectPool.deref pool p))); simpl.
  - unfold OrderBook.update_best_bid.
    destruct (OrderBook.level_remove _ _ _ _) as [|[??]?]; simpl;
      by destruct (OrderMap.remove _ _).
  - unfold OrderBook.update_best_ask.
    destruct (OrderBook.level_remove _ _ _ _) as [|[??]?]; simpl;
      by destruct (OrderMap.remove _ _).
Qed.

Section Delete.
Variables (b : OrderBook.t) (pool : ObjectPool.t) (abs : gmap Z (option ptr)).
Variables (order_id : Z) (p : ptr) (l : PriceLevel.t).
Hypothesis Hok : book_ok b pool.
Hypothesis Hix : index_ok b pool abs.
Hypothesis Hp : abs !! order_id = Some (Some p).

Let o := ObjectPool.deref pool p.
Let sd := is_buy (Order.side o).
Let price := Order.price o.
Hypothesis Hl : PriceMap.find price (levels b sd) = Some l.

Let l2 := PriceLevel.remove_order l pool p.
Let b1 := side_update b sd (OrderBook.level_remove (levels b sd) price pool p)
            (OrderBook.orders_ b).

Lemma delete_present :
  exists orders',
    OrderMap.remove (OrderBook.orders_ b) order_id = Some orders' /\
    let b' := with_orders b1 orders' (OrderBook.order_count_ b1 - 1) in
    let pool' := ObjectPool.release pool p in
    OrderBook.delete_order b pool order_id = Some (true, b', pool') /\
    book_ok b' pool' /\ index_ok b' pool' (delete order_id abs) /\
    (forall sd' k, PriceMap.find k (levels b' sd') =
       if decide (sd' = sd /\ k = price)
       then (if PriceLevel.empty l2 then None else Some l2)
       else PriceMap.find k (levels b sd')).
Proof.
  destruct (remove_spec _ _ order_id (ix_repr _ _ _ Hix)) as (orders' & Hrm & Hrepr & _).
  exists orders'. split; [done|]. cbv zeta.
  assert (Hfind : forall sd' k,
     PriceMap.find k (levels (with_orders b1 orders' (OrderBook.order_count_ b1 - 1)) sd') =
     if decide (sd' = sd /\ k = price)
     then (if PriceLevel.empty l2 then None else Some l2)
     else PriceMap.find k (levels b sd')).
  { intros sd' k. rewrite with_orders_levels. revert sd' k.
    apply side_update_find. intros k.
    rewrite (level_remove_find _ (comp_of_ok sd)) by apply (bk_sorted _ _ Hok).
    by rewrite Hl. }
  assert (Hboth : book_ok (with_orders b1 orders' (OrderBook.order_count_ b1 - 1))
                    (ObjectPool.release pool p) /\
                  index_ok (with_orders b1 orders' (OrderBook.order_count_ b1 - 1))
                    (ObjectPool.release pool p) (delete order_id abs)).
  { eapply (removed_book_ok b pool abs order_id p Hok Hix Hp l Hl pool l2); try done.
    - pose proof (bk_levels _ _ Hok sd price l Hl) as [? _ _ _ _ _]. done.
    - unfold l2. simpl.
      pose proof (bk_levels _ _ Hok sd price l Hl) as [_ _ _ Ht _ _].
      by rewrite Ht, wrap32_idem_sub.
    - intros sd'. rewrite with_orders_levels.
      apply side_update_sorted; [apply (bk_sorted _ _ Hok)|].
      apply (level_remove_sorted (comp_of sd)), (bk_sorted _ _ Hok).
    - apply with_orders_bbo_ok, side_update_bbo_ok, (bk_bbo _ _ Hok). }
  split; [|split; [apply Hboth|split; [apply Hboth|done]]].
  rewrite (delete_order_eq b pool order_id p) by (by apply (get_order_Some b pool abs)).
  cbv zeta. fold o sd price b1. by rewrite Hrm.
Qed.

End Delete.

(** ** Summary of the book operations on well-formed books *)

Lemma add_order_fresh_spec (b : OrderBook.t) (pool pool1 : ObjectPool.t)
      (abs : gmap Z (option ptr)) (order_id : Z) (side : Side)
      (price quantity timestamp : Z) (p : ptr) :
  book_ok b pool -> index_ok b pool abs -> 0 <= quantity < 2 ^ 32 ->
  abs !! order_id = None -> ObjectPool.acquire pool = (p, pool1) ->
  exists b',
    let pool2 := ObjectPool.store pool1 p
                   (new_order b order_id side price quantity timestamp) in
    let sd := is_buy side in
    OrderBook.add_order b pool order_id side price quantity timestamp =
      Some (Some p, b', pool2) /\
    book_ok b' pool2 /\
    index_ok b' pool2 (if decide (order_id = 0) then abs else <[order_id:=Some p]> abs) /\
    (forall sd' k, PriceMap.find k (levels b' sd') =
       if decide (sd' = sd /\ k = price)
       then Some (PriceLevel.add_order
                    (default (PriceLevel.new price) (PriceMap.find price (levels b sd)))
                    pool2 p)
       else PriceMap.find k (levels b sd')) /\
    OrderBook.order_count_ b' = OrderBook.order_count_ b + 1 /\
    OrderBook.stock_locate_ b' = OrderBook.stock_locate_ b /\
    bbo_side (OrderBook.bbo_ b') (negb sd) = bbo_side (OrderBook.bbo_ b) (negb sd).
Proof.
  intros Hok Hix Hq Hfresh Hacq.
  destruct (put_spec _ _ order_id (Some p) (ix_repr _ _ _ Hix) Hfresh) as (orders' & Hput & Hrepr).
  eexists. cbv zeta. split; [|split; [|split; [|split; [|split; [|split]]]]].
  - apply (add_order_fresh_eq b pool pool1 order_id side price quantity timestamp p orders');
      [|done|done].
    by apply (get_order_None b pool abs).
  - by apply (added_book_ok b pool pool1 abs).
  - by apply (added_index_ok b pool pool1 abs).
  - intros sd' k. rewrite added_levels. apply added_find.
  - unfold with_count. simpl. by destruct (side_update_misc b (is_buy side)
      (OrderBook.level_add (comp_of (is_buy side)) (levels b (is_buy side)) price
         (ObjectPool.store pool1 p (new_order b order_id side price quantity timestamp)) p)
      orders') as [_ ->].
  - unfold with_count. simpl. by destruct (side_update_misc b (is_buy side)
      (OrderBook.level_add (comp_of (is_buy side)) (levels b (is_buy side)) price
         (ObjectPool.store pool1 p (new_order b order_id side price quantity timestamp)) p)
      orders') as [-> _].
  - unfold with_count. simpl. rewrite side_update_bbo.
    rewrite decide_False; [done|]. by destruct (is_buy side).
Qed.

(** A freshly constructed book. *)
Lemma new_book_ok (stock_locate : Z) (pool : ObjectPool.t) :
  pool_ok pool ->
  exists b, OrderBook.new stock_locate = Some b /\ book_ok b pool /\ index_ok b pool ∅ /\
            OrderBook.stock_locate_ b = stock_locate /\
            OrderBook.bids_ b = [] /\ OrderBook.asks_ b = [] /\
            OrderBook.bbo_ b = BBO.init /\ OrderBook.order_count_ b = 0.
Proof.
  intros Hp. unfold OrderBook.new.
  destruct (new_with_spec OrderMap.DEFAULT_INITIAL_CAPACITY) as (m & -> & Hr & _);
    [done|].
  eexists. split; [done|]. simpl.
  assert (Hix : index_ok (OrderBook.mk stock_locate [] [] m BBO.init 0) pool ∅).
  { split; [done| |].
    - intros i op. by rewrite lookup_empty.
    - intros q (sd & k & l & Hf & _). by destruct sd. }
  split; [|done]. split.
  - intros []; done.
  - intros [] k l; done.
  - done.
  - by exists ∅.
  - intros []; done.
Qed.

(** *** Every operation returns and keeps the book well-formed *)

Lemma add_order_ok (b : OrderBook.t) (pool : ObjectPool.t)
      (order_id : Z) (side : Side) (price quantity timestamp : Z) :
  book_ok b pool -> 0 <= quantity < 2 ^ 32 ->
  exists r b' pool', OrderBook.add_order b pool order_id side price quantity timestamp =
                       Some (r, b', pool') /\ book_ok b' pool'.
Proof.
  intros Hok Hq. destruct (bk_index _ _ Hok) as [abs Hix].
  destruct (abs !! order_id) as [op|] eqn:E.
  - destruct (ix_sound _ _ _ Hix _ _ E) as (p & -> & _).
    exists None, b, pool. split; [|done].
    apply (add_order_duplicate _ _ _ _ _ _ _ p). by apply (get_order_Some b pool abs).
  - destruct (ObjectPool.acquire pool) as [p pool1] eqn:Hacq.
    destruct (add_order_fresh_spec b pool pool1 abs order_id side price quantity timestamp p)
      as (b' & Hrun & Hok' & _); try done.
    eauto.
Qed.

Lemma execute_order_ok (b : OrderBook.t) (pool : ObjectPool.t) (order_id quantity : Z) :
  book_ok b pool -> 0 <= quantity ->
  exists r b' pool', OrderBook.execute_order b pool order_id quantity =
                       Some (r, b', pool') /\ book_ok b' pool'.
Proof.
  intros Hok Hq. destruct (bk_index _ _ Hok) as [abs Hix].
  destruct (abs !! order_id) as [op|] eqn:E.
  - destruct (ix_sound _ _ _ Hix _ _ E) as (p & -> & _).
    destruct (resting_level b pool abs order_id p Hok Hix E) as (l & Hl & _).
    destruct (decide (Z.min quantity (Order.quantity (ObjectPool.deref pool p)) =
                      Order.quantity (ObjectPool.deref pool p))) as [Heq|Hne].
    + destruct (execute_full b pool abs order_id quantity p l Hok Hix E Hq Hl Heq)
        as (orders' & _ & Hrun & Hok' & _).
      eauto.
    + destruct (execute_partial b pool abs order_id quantity p l Hok Hix E Hq Hl Hne)
        as (Hrun & Hok' & _).
      eauto.
  - exists 0, b, pool. split; [|done].
    apply execute_order_absent. by apply (get_order_None b pool abs).
Qed.

Lemma delete_order_ok (b : OrderBook.t) (pool : ObjectPool.t) (order_id : Z) :
  book_ok b pool ->
  exists r b' pool', OrderBook.delete_order b pool order_id = Some (r, b', pool') /\
                     book_ok b' pool'.
Proof.
  intros Hok. destruct (bk_index _ _ Hok) as [abs Hix].
  destruct (abs !! order_id) as [op|] eqn:E.
  - destruct (ix_sound _ _ _ Hix _ _ E) as (p & -> & _).
    destruct (resting_level b pool abs order_id p Hok Hix E) as (l & Hl & _).
    destruct (delete_present b pool abs order_id p l Hok Hix E Hl)
      as (orders' & _ & Hrun & Hok' & _).
    eauto.
  - exists false, b, pool. split; [|done].
    apply delete_order_absent. by apply (get_order_None b pool abs).
Qed.

Lemma replace_order_ok (b : OrderBook.t) (pool : ObjectPool.t)
      (old_order_id new_order_id new_quantity new_price timestamp : Z) :
  book_ok b pool -> 0 <= new_quantity < 2 ^ 32 ->
  exists r b' pool',
    OrderBook.replace_order b pool old_order_id new_order_id new_quantity new_price
                            timestamp = Some (r, b', pool') /\
    book_ok b' pool'.
Proof.
  intros Hok Hq. destruct (bk_index _ _ Hok) as [abs Hix].
  unfold OrderBook.replace_order.
  change (OrderMap.find (OrderBook.orders_ b) old_order_id)
    with (OrderBook.get_order b old_order_id).
  rewrite (get_order_spec b pool abs) by done. simpl.
  destruct (abs !! old_order_id) as [op|] eqn:E; simpl.
  - destruct (ix_sound _ _ _ Hix _ _ E) as (p & -> & _).
    destruct (delete_order_ok b pool old_order_id Hok) as (r1 & b1 & pool1 & -> & Hok1).
    simpl. by apply add_order_ok.
  - by exists None, b, pool.
Qed.

(** *** Sequences of operations on one book *)

Lemma run_op_ok (op : book_op) (b : OrderBook.t) (pool : ObjectPool.t) :
  op_typed op -> book_ok b pool ->
  exists b' pool', run_op op (b, pool) = Some (b', pool') /\ book_ok b' pool'.
Proof.
  intros Ht Hok. destruct op; simpl in *.
  - destruct (add_order_ok b pool order_id side price quantity timestamp Hok Ht)
      as (r & b' & pool' & -> & ?). eauto.
  - destruct (execute_order_ok b pool order_id quantity Hok ltac:(lia))
      as (r & b' & pool' & -> & ?). eauto.
  - unfold OrderBook.cancel_order.
    destruct (execute_order_ok b pool order_id quantity Hok ltac:(lia))
      as (r & b' & pool' & -> & ?). eauto.
  - destruct (delete_order_ok b pool order_id Hok) as (r & b' & pool' & -> & ?). eauto.
  - destruct (replace_order_ok b pool old_order_id new_order_id new_quantity new_price
                timestamp Hok Ht) as (r & b' & pool' & -> & ?). eauto.
Qed.

Lemma run_ops_ok (ops : list book_op) :
  Forall op_typed ops -> forall b pool, book_ok b pool ->
  exists b' pool', run_ops ops (b, pool) = Some (b', pool') /\ book_ok b' pool'.
Proof.
  induction ops as [|op ops IH]; intros Ht b pool Hok; simpl.
  - eauto.
  - apply Forall_cons in Ht as [Hop Ht].
    destruct (run_op_ok op b pool Hop Hok) as (b1 & pool1 & -> & Hok1).
    by apply IH.
Qed.

Lemma initial_state_ok (stock_locate : Z) :
  exists b, initial_state stock_locate = Some (b, ObjectPool.new) /\
            book_ok b ObjectPool.new.
Proof.
  unfold initial_state.
  destruct (new_book_ok stock_locate ObjectPool.new pool_new_ok) as (b & -> & Hok & _).
  eauto.
Qed.

(** Every sequence of typed operations from the initial state runs to a
    well-formed book. *)
Lemma reachable_ok (stock_locate : Z) (ops : list book_op) :
  Forall op_typed ops ->
  exists b pool,
    (st ← initial_state stock_locate; run_ops ops st) = Some (b, pool) /\ book_ok b pool.
Proof.
  intros Ht. destruct (initial_state_ok stock_locate) as (b0 & -> & Hok0). simpl.
  by apply run_ops_ok.
Qed.

(** ** Reachable index states *)

Lemma om_reachable_repr (m : OrderMap.t) (abs : gmap Z (option ptr)) :
  om_reachable m abs -> om_repr m abs.
Proof.
  induction 1 as [c m Hc Hnew|m m' abs i o _ IH Hi Hfresh Hput|m m' abs i _ IH Hrm].
  - destruct (new_with_spec c Hc) as (m0 & Hnew0 & Hr & _). congruence.
  - destruct (put_spec m abs i o IH Hfresh) as (m0 & Hput0 & Hr).
    rewrite decide_False in Hr by done. congruence.
  - destruct (remove_spec m abs i IH) as (m0 & Hrm0 & Hr & _). congruence.
Qed.

(** Every [put] of a fresh id and every [remove] returns on a reachable
    state. *)
Lemma om_reachable_put_total (m : OrderMap.t) (abs : gmap Z (option ptr)) (i : Z)
      (o : option ptr) :
  om_reachable m abs -> abs !! i = None -> is_Some (OrderMap.put m i o).
Proof.
  intros Hr Hf. destruct (put_spec m abs i o (om_reachable_repr _ _ Hr) Hf) as (m' & -> & _).
  done.
Qed.

(** C6: backward-shift deletion. On every reachable index state, for every
    present id [I]: [remove(I)] returns, [find(I)] is null afterwards, and
    every other present id [K] is still found with the reference it was
    stored with. *)
Theorem C6_remove_backshift (m : OrderMap.t) (abs : gmap Z (option ptr)) (I : Z)
        (o : option ptr) :
  om_reachable m abs -> abs !! I = Some o ->
  OrderMap.find m I = Some o /\
  exists m', OrderMap.remove m I = Some m' /\
    OrderMap.find m' I = Some None /\
    forall K oK, K <> I -> abs !! K = Some oK ->
      OrderMap.find m K = Some oK /\ OrderMap.find m' K = Some oK.
Proof.
  intros Hr HI. pose proof (om_reachable_repr _ _ Hr) as Hrepr.
  split; [by rewrite (find_spec m abs), HI|].
  destruct (remove_spec m abs I Hrepr) as (m' & Hrm & Hrepr' & _).
  exists m'. split; [done|]. split.
  - by rewrite (find_spec m' (delete I abs)), lookup_delete_eq.
  - intros K oK HK HoK. split.
    + by rewrite (find_spec m abs), HoK.
    + by rewrite (find_spec m' (delete I abs)), lookup_delete_ne, HoK.
Qed.

Lemma om_two_reachable : om_reachable om_two (<[5:=Some 11]> (<[1:=Some 10]> ∅)).
Proof.
  eapply (reach_put (default (OrderMap.mk [] 0 0 0)
            (m0 ← OrderMap.new_with 4; OrderMap.put m0 1 (Some 10)))); [|done|done|].
  - eapply (reach_put (default (OrderMap.mk [] 0 0 0) (OrderMap.new_with 4)));
      [|done|done|].
    + by apply (reach_new 4).
    + vm_compute. reflexivity.
  - vm_compute. reflexivity.
Qed.

(** The theorem on [om_two], removing id 1. *)
Lemma C6_witness :
  om_reachable om_two (<[5:=Some 11]> (<[1:=Some 10]> ∅)) /\
  (<[5:=Some 11]> (<[1:=Some 10]> (∅ : gmap Z (option ptr)))) !! 1 = Some (Some 10) /\
  (OrderMap.find om_two 1 = Some (Some 10) /\
   exists m', OrderMap.remove om_two 1 = Some m' /\
     OrderMap.find m' 1 = Some None /\
     forall K oK, K <> 1 ->
       (<[5:=Some 11]> (<[1:=Some 10]> (∅ : gmap Z (option ptr)))) !! K = Some oK ->
       OrderMap.find om_two K = Some oK /\ OrderMap.find m' K = Some oK).
Proof.
  split; [apply om_two_reachable|]. split; [done|].
  apply (C6_remove_backshift om_two _ 1 (Some 10)); [apply om_two_reachable|done].
Defined.

(** The removal above moves id 5 back from slot 2 to slot 1. *)
Example om_two_backshift :
  OrderMap.entries_ <$> OrderMap.remove om_two 1 =
  Some [OrderMap.mkEntry 0 None; OrderMap.mkEntry 5 (Some 11);
        OrderMap.mkEntry 0 (Some 11); OrderMap.mkEntry 0 None].
Proof. vm_compute. reflexivity. Qed.

(** ** States reached from a new book *)

Lemma state_after_run (stock_locate : Z) (ops : list book_op) :
  Forall op_typed ops ->
  (st ← initial_state stock_locate; run_ops ops st) = Some (state_after stock_locate ops) /\
  book_ok (state_after stock_locate ops).1 (state_after stock_locate ops).2.
Proof.
  intros Ht. unfold state_after.
  destruct (reachable_ok stock_locate ops Ht) as (b & pool & -> & Hok). done.
Qed.

Lemma best_price_extreme (b : OrderBook.t) (pool : ObjectPool.t) (sd : bool) :
  book_ok b pool -> levels b sd <> [] ->
  extreme_price (if sd then Z.le else Z.ge) (levels b sd) (bbo_side (OrderBook.bbo_ b) sd).1.
Proof.
  intros Hok Hne. pose proof (bk_bbo _ _ Hok sd) as Hb. unfold bbo_side_ok in Hb.
  pose proof (bk_sorted _ _ Hok sd) as Hs.
  pose proof (bk_levels _ _ Hok sd) as Hl.
  destruct (levels b sd) as [|[k0 l0] m] eqn:E; [done|].
  rewrite Hb. simpl.
  assert (Hf0 : PriceMap.find k0 ((k0, l0) :: m) = Some l0) by (simpl; by rewrite Z.eqb_refl).
  rewrite (lv_price _ _ _ _ (Hl k0 l0 Hf0)). split; [by exists l0|].
  intros k l Hf.
  destruct (sorted_head (comp_of sd) k0 l0 m k l Hs Hf) as [->|Hc].
  - destruct sd; lia.
  - destruct sd; unfold comp_of, PriceMap.greater, PriceMap.less in Hc; lia.
Qed.

Lemma best_price_none (b : OrderBook.t) (pool : ObjectPool.t) (sd : bool) :
  book_ok b pool -> levels b sd = [] ->
  bbo_side (OrderBook.bbo_ b) sd = (no_price sd, 0).
Proof.
  intros Hok He. pose proof (bk_bbo _ _ Hok sd) as Hb. unfold bbo_side_ok in Hb.
  by rewrite He in Hb.
Qed.

(** C5 (amended): after every sequence of add / execute / cancel / delete /
    replace operations on a new book, the operations all return, and every
    price level of the resulting book has a non-empty list, a cached
    [total_quantity] equal to the sum of the quantities of the orders of its
    list modulo 2^32 ([Quantity] is a 32-bit unsigned integer), and an
    [order_count] equal to the length of its list; [bbo.bid_price] is the
    maximum price of the bid levels, or 0 when there are none, and
    [bbo.ask_price] the minimum price of the ask levels, or the maximum
    [Price] value when there are none. *)
Theorem C5_level_totals_and_bbo (stock_locate : Z) (ops : list book_op) :
  Forall op_typed ops ->
  exists b pool,
    (st ← initial_state stock_locate; run_ops ops st) = Some (b, pool) /\
    (forall sd k l, (k, l) ∈ levels b sd ->
       PriceLevel.chain l <> [] /\
       PriceLevel.total_quantity l = sum_qty pool (PriceLevel.chain l) mod 2 ^ 32 /\
       PriceLevel.order_count l = Z.of_nat (length (PriceLevel.chain l))) /\
    (OrderBook.bids_ b = [] -> BBO.bid_price (OrderBook.bbo b) = 0) /\
    (OrderBook.bids_ b <> [] ->
       extreme_price Z.le (OrderBook.bids_ b) (BBO.bid_price (OrderBook.bbo b))) /\
    (OrderBook.asks_ b = [] -> BBO.ask_price (OrderBook.bbo b) = PRICE_MAX) /\
    (OrderBook.asks_ b <> [] ->
       extreme_price Z.ge (OrderBook.asks_ b) (BBO.ask_price (OrderBook.bbo b))).
Proof.
  intros Ht. destruct (reachable_ok stock_locate ops Ht) as (b & pool & Hrun & Hok).
  exists b, pool. split; [done|]. split; [|split; [|split; [|split]]].
  - intros sd k l Hin.
    pose proof (elem_find (comp_of sd) (comp_of_ok sd) k l _ (bk_sorted _ _ Hok sd) Hin) as Hf.
    destruct (bk_levels _ _ Hok sd k l Hf) as [_ Hne Hc Htot _ _]. done.
  - intros He. by pose proof (best_price_none b pool true Hok He) as [= H _].
  - intros Hne. apply (best_price_extreme b pool true Hok Hne).
  - intros He. by pose proof (best_price_none b pool false Hok He) as [= H _].
  - intros Hne. apply (best_price_extreme b pool false Hok Hne).
Qed.

(** The theorem on [ops_overflow]. *)
Lemma C5_witness :
  Forall op_typed ops_overflow /\
  exists b pool,
    (st ← initial_state 1; run_ops ops_overflow st) = Some (b, pool) /\
    (forall sd k l, (k, l) ∈ levels b sd ->
       PriceLevel.chain l <> [] /\
       PriceLevel.total_quantity l = sum_qty pool (PriceLevel.chain l) mod 2 ^ 32 /\
       PriceLevel.order_count l = Z.of_nat (length (PriceLevel.chain l))) /\
    (OrderBook.bids_ b = [] -> BBO.bid_price (OrderBook.bbo b) = 0) /\
    (OrderBook.bids_ b <> [] ->
       extreme_price Z.le (OrderBook.bids_ b) (BBO.bid_price (OrderBook.bbo b))) /\
    (OrderBook.asks_ b = [] -> BBO.ask_price (OrderBook.bbo b) = PRICE_MAX) /\
    (OrderBook.asks_ b <> [] ->
       extreme_price Z.ge (OrderBook.asks_ b) (BBO.ask_price (OrderBook.bbo b))).
Proof.
  assert (Ht : Forall op_typed ops_overflow) by (repeat constructor; simpl; lia).
  split; [exact Ht|]. exact (C5_level_totals_and_bbo 1 ops_overflow Ht).
Defined.

(** Counterexample to C5 as the specification states it: on
    [ops_overflow] the level of price 100 holds two orders whose quantities
    sum to 2^32, while its cached total and the bid quantity of the BBO
    are 0. *)
Lemma C5_counterexample :
  (st ← initial_state 1; st' ← run_ops ops_overflow st;
   l ← PriceMap.find 100 (OrderBook.bids_ st'.1);
   Some (PriceLevel.total_quantity l, sum_qty st'.2 (PriceLevel.chain l),
         PriceLevel.order_count l, BBO.bid_quantity (OrderBook.bbo st'.1))) =
  Some (0, 4294967296, 2, 0).
Proof. vm_compute. reflexivity. Qed.

(** ** [execute_order] and [cancel_order] *)





(** ** [replace_order] *)

Lemma with_orders_misc (b : OrderBook.t) (orders' : OrderMap.t) (c : Z) :
  OrderBook.stock_locate_ (with_orders b orders' c) = OrderBook.stock_locate_ b /\
  OrderBook.order_count_ (with_orders b orders' c) = c.
Proof. done. Qed.

(** C4 (amended): [replace_order(old_id, new_id, new_qty, new_price, ts)]
    on a well-formed book always returns.  When [old_id] is absent it
    returns failure and leaves book and pool unchanged.  When [old_id] is
    live with side [S], and [new_id] is nonzero and not the id of a live
    order, [old_id] is removed ([get_order(old_id)] is null afterwards) and
    [get_order(new_id)] is an order with id [new_id], price [new_price],
    quantity [new_qty] and side [S], linked in the level of [new_price] on
    the side of [S]; the order count is unchanged and the BBO is the one
    recomputed from the first levels. *)
Theorem C4_replace_order (b : OrderBook.t) (pool : ObjectPool.t)
        (old_id new_id new_qty new_price ts : Z) :
  book_ok b pool -> 0 <= new_qty < 2 ^ 32 ->
  (exists r b' pool',
     OrderBook.replace_order b pool old_id new_id new_qty new_price ts = Some (r, b', pool') /\
     book_ok b' pool') /\
  (OrderBook.get_order b old_id = Some None ->
   OrderBook.replace_order b pool old_id new_id new_qty new_price ts = Some (None, b, pool)) /\
  (forall p_old, OrderBook.get_order b old_id = Some (Some p_old) ->
     new_id <> 0 -> OrderBook.get_order b new_id = Some None ->
     let S := Order.side (ObjectPool.deref pool p_old) in
     exists p b' pool',
       OrderBook.replace_order b pool old_id new_id new_qty new_price ts =
         Some (Some p, b', pool') /\
       OrderBook.get_order b' old_id = Some None /\
       OrderBook.get_order b' new_id = Some (Some p) /\
       ObjectPool.deref pool' p =
         Order.mk new_id new_price new_qty new_qty (OrderBook.stock_locate b) S ts /\
       (exists l, PriceMap.find new_price (levels b' (is_buy S)) = Some l /\
                  p ∈ PriceLevel.chain l) /\
       OrderBook.order_count b' = OrderBook.order_count b /\
       (forall sd, bbo_side_ok b' sd)).
Proof.
  intros Hok Hq. split; [by apply replace_order_ok|]. split.
  { unfold OrderBook.get_order, OrderBook.replace_order. by intros ->. }
  intros p_old Hold Hnz Hnew. cbv zeta.
  destruct (bk_index _ _ Hok) as [abs Hix].
  apply (get_order_Some b pool abs _ _ Hix) in Hold.
  apply (get_order_None b pool abs _ Hix) in Hnew.
  assert (Hne : new_id <> old_id) by congruence.
  destruct (resting_level b pool abs old_id p_old Hok Hix Hold) as (l & Hl & _).
  destruct (delete_present b pool abs old_id p_old l Hok Hix Hold Hl)
    as (orders1 & _ & Hdel & Hok1 & Hix1 & _).
  set (b1 := with_orders _ orders1 _) in *.
  set (pool1 := ObjectPool.release pool p_old) in *.
  destruct (ObjectPool.acquire pool1) as [p pool1a] eqn:Hacq.
  destruct (add_order_fresh_spec b1 pool1 pool1a (delete old_id abs) new_id
              (Order.side (ObjectPool.deref pool p_old)) new_price new_qty ts p
              Hok1 Hix1 Hq) as (b' & Hadd & Hok' & Hix' & Hfind & Hcnt & Hloc & _);
    [by rewrite lookup_delete_ne|done|].
  rewrite decide_False in Hix' by done.
  assert (Hloc1 : OrderBook.stock_locate_ b1 = OrderBook.stock_locate_ b).
  { unfold b1. rewrite (proj1 (with_orders_misc _ _ _)). apply side_update_misc. }
  assert (Hcnt1 : OrderBook.order_count_ b1 = OrderBook.order_count_ b - 1).
  { unfold b1. rewrite (proj2 (with_orders_misc _ _ _)). f_equal. apply side_update_misc. }
  eexists p, b', _. split; [|split; [|split; [|split; [|split; [|split]]]]].
  - unfold OrderBook.replace_order.
    change (OrderMap.find (OrderBook.orders_ b) old_id) with (OrderBook.get_order b old_id).
    rewrite (get_order_spec b pool abs _ Hix), Hold. simpl. rewrite Hdel. simpl.
    exact Hadd.
  - eapply get_order_None; [exact Hix'|].
    rewrite lookup_insert_ne by done. apply lookup_delete_eq.
  - eapply get_order_Some; [exact Hix'|]. apply lookup_insert_eq.
  - rewrite deref_store_eq. unfold new_order, OrderBook.stock_locate. by rewrite Hloc1.
  - eexists. split; [rewrite Hfind; by rewrite decide_True|].
    simpl. apply elem_of_app. right. by apply list_elem_of_singleton.
  - unfold OrderBook.order_count. rewrite Hcnt, Hcnt1. lia.
  - apply (bk_bbo _ _ Hok').
Qed.

(** ** Adding, deleting and adding again *)

Lemma wrap32_sub_add (a q : Z) : wrap32 (wrap32 (wrap32 a - q) + q) = wrap32 a.
Proof.
  rewrite wrap32_idem_add. replace (wrap32 a - q + q) with (wrap32 a) by lia.
  apply wrap32_twice.
Qed.

(** [acquire] right after [release] hands the released slot back. *)
Lemma acquire_release (pool : ObjectPool.t) (p : ptr) :
  ObjectPool.acquire (ObjectPool.release pool p) =
  (p, ObjectPool.mk (ObjectPool.blocks_ pool) (ObjectPool.free_list_ pool)
                    (ObjectPool.slots pool)).
Proof. done. Qed.

Lemma bbo_sides_eq (x y : BBO.t) :
  (forall sd, bbo_side x sd = bbo_side y sd) -> x = y.
Proof.
  intros H. pose proof (H true) as Ht. pose proof (H false) as Hf.
  destruct x, y. simpl in *. congruence.
Qed.

Lemma levels_eq (b b' : OrderBook.t) :
  (forall sd, levels b sd = levels b' sd) ->
  OrderBook.bids_ b = OrderBook.bids_ b' /\ OrderBook.asks_ b = OrderBook.asks_ b'.
Proof. intros H. split; [apply (H true)|apply (H false)]. Qed.

(** The level of a newly linked order [p], last of its list. *)
Lemma relinked_level (pool1 pool3 : ObjectPool.t) (sd : bool) (price : Z)
      (l0 : PriceLevel.t) (p : ptr) :
  level_ok pool1 sd price (PriceLevel.add_order l0 pool1 p) ->
  PriceLevel.price_ l0 = price ->
  Order.quantity (ObjectPool.deref pool3 p) = Order.quantity (ObjectPool.deref pool1 p) ->
  let l1 := PriceLevel.add_order l0 pool1 p in
  let l2 := PriceLevel.remove_order l1 pool1 p in
  PriceLevel.add_order
    (default (PriceLevel.new price) (if PriceLevel.empty l2 then None else Some l2))
    pool3 p = l1.
Proof.
  intros [_ _ Hc Ht Hnd _] Hp Hq. cbv zeta. simpl in Hc, Ht, Hnd.
  apply NoDup_app in Hnd as (_ & Hnot & _).
  assert (Hnin : p ∉ PriceLevel.chain l0).
  { intros Hin. apply (Hnot p Hin). by apply list_elem_of_singleton. }
  assert (Hfil : filter (fun q => q <> p) (PriceLevel.chain l0 ++ [p]) = PriceLevel.chain l0).
  { rewrite filter_app, filter_ne_notin by done.
    rewrite filter_cons_False by (intros H; by apply H). rewrite filter_nil.
    by rewrite app_nil_r. }
  unfold PriceLevel.empty, PriceLevel.remove_order, PriceLevel.add_order. simpl.
  rewrite length_app in Hc. simpl in Hc.
  destruct (Z.eqb_spec (PriceLevel.order_count_ l0 + 1 - 1) 0) as [Hz|Hnz]; simpl.
  - assert (Hnil : PriceLevel.chain l0 = []).
    { destruct (PriceLevel.chain l0); [done|]. simpl in Hc. lia. }
    rewrite Hnil in *. simpl in *. rewrite Hq, Ht, Hp.
    replace (PriceLevel.order_count_ l0 + 1) with (0 + 1) by lia.
    unfold sum_qty. simpl. by rewrite Z.add_0_r.
  - rewrite Hfil, Hp, Hq.
    replace (PriceLevel.order_count_ l0 + 1 - 1 + 1) with (PriceLevel.order_count_ l0 + 1)
      by lia.
    by rewrite wrap32_sub_add.
Qed.

(** C8 (amended): for a well-formed book that does not contain the nonzero
    id [id], [add_order(id, ..)], [delete_order(id)] and [add_order(id, ..)]
    with the same side, price and quantity all succeed, the second add
    reuses the slot of the first, and the resulting book has the same price
    levels with their cached totals, the same BBO, order count and index
    contents as the book after the first [add_order]; the pools differ only
    in the timestamp of the record of [id]. *)
Theorem C8_add_delete_add (b : OrderBook.t) (pool : ObjectPool.t)
        (id : Z) (side : Side) (price qty ts1 ts2 : Z) :
  book_ok b pool -> 0 <= qty < 2 ^ 32 -> id <> 0 ->
  OrderBook.get_order b id = Some None ->
  exists p b1 pool1 b2 pool2 b3 pool3,
    OrderBook.add_order b pool id side price qty ts1 = Some (Some p, b1, pool1) /\
    OrderBook.delete_order b1 pool1 id = Some (true, b2, pool2) /\
    OrderBook.add_order b2 pool2 id side price qty ts2 = Some (Some p, b3, pool3) /\
    OrderBook.bids_ b3 = OrderBook.bids_ b1 /\
    OrderBook.asks_ b3 = OrderBook.asks_ b1 /\
    OrderBook.bbo b3 = OrderBook.bbo b1 /\
    OrderBook.order_count b3 = OrderBook.order_count b1 /\
    OrderBook.stock_locate b3 = OrderBook.stock_locate b1 /\
    (forall i, OrderBook.get_order b3 i = OrderBook.get_order b1 i) /\
    pool3 = ObjectPool.store pool1 p
              (Order.mk id price qty qty (OrderBook.stock_locate b) side ts2).
Proof.
  intros Hok Hq Hnz Habs. destruct (bk_index _ _ Hok) as [abs Hix].
  apply (get_order_None b pool abs _ Hix) in Habs.
  destruct (ObjectPool.acquire pool) as [p pool1a] eqn:Hacq.
  destruct (add_order_fresh_spec b pool pool1a abs id side price qty ts1 p Hok Hix Hq Habs Hacq)
    as (b1 & Hadd1 & Hok1 & Hix1 & Hfind1 & Hcnt1 & Hloc1 & _).
  rewrite decide_False in Hix1 by done.
  set (pool1 := ObjectPool.store pool1a p (new_order b id side price qty ts1)) in *.
  assert (Hd1 : ObjectPool.deref pool1 p = new_order b id side price qty ts1)
    by apply deref_store_eq.
  assert (E1 : (<[id:=Some p]> abs) !! id = Some (Some p)) by apply lookup_insert_eq.
  set (l0 := default (PriceLevel.new price) (PriceMap.find price (levels b (is_buy side)))) in *.
  assert (Hl1 : PriceMap.find (Order.price (ObjectPool.deref pool1 p))
                  (levels b1 (is_buy (Order.side (ObjectPool.deref pool1 p)))) =
                Some (PriceLevel.add_order l0 pool1 p)).
  { rewrite Hd1. simpl. rewrite Hfind1. by rewrite decide_True. }
  destruct (delete_present b1 pool1 (<[id:=Some p]> abs) id p _ Hok1 Hix1 E1 Hl1)
    as (orders2 & _ & Hdel & Hok2 & Hix2 & Hfind2).
  set (b2 := with_orders _ orders2 _) in *.
  set (pool2 := ObjectPool.release pool1 p) in *.
  destruct (add_order_fresh_spec b2 pool2 _ (delete id (<[id:=Some p]> abs)) id side price qty
              ts2 p Hok2 Hix2 Hq (lookup_delete_eq _ _) (acquire_release pool1 p))
    as (b3 & Hadd3 & Hok3 & Hix3 & Hfind3 & Hcnt3 & Hloc3 & _).
  rewrite decide_False in Hix3 by done.
  rewrite (insert_delete_id _ _ _ E1) in Hix3.
  assert (Hloc2 : OrderBook.stock_locate_ b2 = OrderBook.stock_locate_ b1).
  { unfold b2. rewrite (proj1 (with_orders_misc _ _ _)). apply side_update_misc. }
  assert (Hcnt2 : OrderBook.order_count_ b2 = OrderBook.order_count_ b1 - 1).
  { unfold b2. rewrite (proj2 (with_orders_misc _ _ _)). f_equal. apply side_update_misc. }
  assert (Hp0 : PriceLevel.price_ l0 = price).
  { unfold l0. destruct (PriceMap.find price (levels b (is_buy side))) as [l|] eqn:El; [|done].
    apply (lv_price _ _ _ _ (bk_levels _ _ Hok _ _ l El)). }
  assert (Hlev : forall sd, levels b3 sd = levels b1 sd).
  { intros sd. apply (sorted_ext (comp_of sd) (comp_of_ok sd));
      [apply (bk_sorted _ _ Hok3)|apply (bk_sorted _ _ Hok1)|].
    intros k. rewrite Hfind3. rewrite !Hfind2. rewrite Hd1. simpl.
    destruct (decide (sd = is_buy side /\ k = price)) as [[-> ->]|Hne]; [|done].
    rewrite decide_True by done. rewrite Hfind1, decide_True by done. f_equal.
    apply (relinked_level pool1 _ (is_buy side) price l0 p); [|done|].
    - apply (bk_levels _ _ Hok1). rewrite Hfind1. by rewrite decide_True.
    - by rewrite deref_store_eq, Hd1. }
  destruct (levels_eq b3 b1 Hlev) as [Hbids Hasks].
  eexists p, b1, pool1, b2, pool2, b3, _.
  split; [exact Hadd1|]. split; [exact Hdel|]. split; [exact Hadd3|].
  split; [done|]. split; [done|]. split; [|split; [|split; [|split]]].
  - apply bbo_sides_eq. intros sd.
    pose proof (bk_bbo _ _ Hok3 sd) as H3. pose proof (bk_bbo _ _ Hok1 sd) as H1.
    unfold bbo_side_ok in *. unfold OrderBook.bbo. rewrite H3, H1, Hlev. done.
  - unfold OrderBook.order_count. rewrite Hcnt3, Hcnt2. lia.
  - unfold OrderBook.stock_locate. by rewrite Hloc3, Hloc2.
  - intros i. erewrite get_order_spec by exact Hix3.
    erewrite (get_order_spec b1) by exact Hix1. done.
  - unfold new_order. rewrite Hloc2, Hloc1. done.
Qed.

(** ** Concrete books *)

Lemma book_one_ok : book_ok book_one pool_one.
Proof. apply state_after_run. repeat constructor; simpl; lia. Qed.

Lemma book_new_ok : book_ok book_new pool_new.
Proof. apply state_after_run. constructor. Qed.

Example book_one_view :
  (fields_of pool_one <$> OrderBook.get_order book_one 1001,
   OrderBook.bbo book_one, OrderBook.order_count book_one,
   OrderBook.bid_depth book_one 5, OrderBook.ask_depth book_one 5) =
  (Some (Some (1001, 1500000, 500, Side_Buy)), BBO.mk 1500000 PRICE_MAX 500 0, 1,
   [(1500000, 500, 1)], []).
Proof. vm_compute. reflexivity. Qed.

(** ** Instances of the book theorems *)


(** Scenario: 200 of the 500 shares of order 1001 are executed, then the
    remaining 300. *)
Example execute_scenario :
  ('(e1, b1, p1) ← OrderBook.execute_order book_one pool_one 1001 200;
   '(e2, b2, p2) ← OrderBook.execute_order b1 p1 1001 1000;
   g1 ← OrderBook.get_order b1 1001;
   g2 ← OrderBook.get_order b2 1001;
   Some (e1, fields_of p1 g1, OrderBook.bid_depth b1 5, OrderBook.bbo b1,
         e2, g2, OrderBook.bid_depth b2 5, OrderBook.bbo b2, OrderBook.order_count b2)) =
  Some (200, Some (1001, 1500000, 300, Side_Buy), [(1500000, 300, 1)],
        BBO.mk 1500000 PRICE_MAX 300 0,
        300, None, [], BBO.mk 0 PRICE_MAX 0 0, 0).
Proof. vm_compute. reflexivity. Qed.

(** The theorem on [book_one]: order 1001 replaced by 1002. *)
Lemma C4_witness :
  book_ok book_one pool_one /\
  0 <= 750 < 2 ^ 32 /\
  ((exists r b' pool',
       OrderBook.replace_order book_one pool_one 1001 1002 750 1505000 7 = Some (r, b', pool')
           /\
       book_ok b' pool') /\
    (OrderBook.get_order book_one 1001 = Some None ->
     OrderBook.replace_order book_one pool_one 1001 1002 750 1505000 7 = Some (None, book_one,
         pool_one)) /\
    (forall p_old, OrderBook.get_order book_one 1001 = Some (Some p_old) ->
       1002 <> 0 -> OrderBook.get_order book_one 1002 = Some None ->
       let S := Order.side (ObjectPool.deref pool_one p_old) in
       exists p b' pool',
         OrderBook.replace_order book_one pool_one 1001 1002 750 1505000 7 =
           Some (Some p, b', pool') /\
         OrderBook.get_order b' 1001 = Some None /\
         OrderBook.get_order b' 1002 = Some (Some p) /\
         ObjectPool.deref pool' p =
           Order.mk 1002 1505000 750 750 (OrderBook.stock_locate book_one) S 7 /\
         (exists l, PriceMap.find 1505000 (levels b' (is_buy S)) = Some l /\
                    p ∈ PriceLevel.chain l) /\
         OrderBook.order_count b' = OrderBook.order_count book_one /\
         (forall sd, bbo_side_ok b' sd))).
Proof.
  split; [apply book_one_ok|]. split; [lia|].
  apply (C4_replace_order book_one pool_one 1001 1002 750 1505000 7);
    [apply book_one_ok|lia].
Defined.

(** Scenario of the specification: replacing 1001 by 1002 keeps the side
    and moves the best bid. *)
Example replace_scenario :
  ('(r, b', pool') ← OrderBook.replace_order book_one pool_one 1001 1002 750 1505000 7;
   g1 ← OrderBook.get_order b' 1001;
   g2 ← OrderBook.get_order b' 1002;
   Some (g1, fields_of pool' g2, OrderBook.bbo b')) =
  Some (None, Some (1002, 1505000, 750, Side_Buy), BBO.mk 1505000 PRICE_MAX 750 0).
Proof. vm_compute. reflexivity. Qed.

(** Counterexample to C4 as the specification states it, when [new_id] is
    the id of another live order: 1001 is removed, [add_order] rejects the
    duplicate 1002 and the call returns null, so that [get_order(1002)] is
    still the resting sell order of 5 shares at 1600000 and the best bid is
    gone.  The statement also fails for [new_id = 0]: the new order is
    linked in the book but [get_order(0)] is null. *)
Lemma C4_counterexample :
  (st ← initial_state 1;
   st1 ← run_ops [op_add 1001 Side_Buy 1500000 500 0; op_add 1002 Side_Sell 1600000 5 0] st;
   '(r, b', pool') ← OrderBook.replace_order st1.1 st1.2 1001 1002 750 1505000 7;
   g1 ← OrderBook.get_order b' 1001;
   g2 ← OrderBook.get_order b' 1002;
   Some (r, g1, fields_of pool' g2, OrderBook.bbo b')) =
  Some (None, None, Some (1002, 1600000, 5, Side_Sell), BBO.mk 0 1600000 0 5) /\
  ('(r, b', pool') ← OrderBook.replace_order book_one pool_one 1001 0 750 1505000 7;
   g0 ← OrderBook.get_order b' 0;
   Some (fields_of pool' r, g0, OrderBook.bid_depth b' 5)) =
  Some (Some (0, 1505000, 750, Side_Buy), None, [(1505000, 750, 1)]).
Proof. split; vm_compute; reflexivity. Qed.

(** The theorem on [book_one] for the id 2002, which it does not contain. *)
Lemma C8_witness :
  book_ok book_one pool_one /\
  0 <= 30 < 2 ^ 32 /\
  2002 <> 0 /\
  OrderBook.get_order book_one 2002 = Some None /\
  (exists p b1 pool1 b2 pool2 b3 pool3,
      OrderBook.add_order book_one pool_one 2002 Side_Sell 1600000 30 1 = Some (Some p, b1,
          pool1) /\
      OrderBook.delete_order b1 pool1 2002 = Some (true, b2, pool2) /\
      OrderBook.add_order b2 pool2 2002 Side_Sell 1600000 30 2 = Some (Some p, b3, pool3) /\
      OrderBook.bids_ b3 = OrderBook.bids_ b1 /\
      OrderBook.asks_ b3 = OrderBook.asks_ b1 /\
      OrderBook.bbo b3 = OrderBook.bbo b1 /\
      OrderBook.order_count b3 = OrderBook.order_count b1 /\
      OrderBook.stock_locate b3 = OrderBook.stock_locate b1 /\
      (forall i, OrderBook.get_order b3 i = OrderBook.get_order b1 i) /\
      pool3 = ObjectPool.store pool1 p
                (Order.mk 2002 1600000 30 30 (OrderBook.stock_locate book_one) Side_Sell 2)).
Proof.
  assert (Hfresh : OrderBook.get_order book_one 2002 = Some None)
    by (vm_compute; reflexivity).
  split; [apply book_one_ok|]. split; [lia|]. split; [done|]. split; [exact Hfresh|].
  apply (C8_add_delete_add book_one pool_one 2002 Side_Sell 1600000 30 1 2);
    [apply book_one_ok|lia|done|exact Hfresh].
Defined.

(** Counterexample to C8 as the specification states it, for id 0, which
    no book contains: the index uses 0 as the mark of an empty slot, so
    [delete_order(0)] finds nothing and the second [add_order(0, ..)] links
    a second order. *)
Lemma C8_counterexample :
  (g ← OrderBook.get_order book_new 0;
   '(_, b1, pool1) ← OrderBook.add_order book_new pool_new 0 Side_Buy 100 10 0;
   '(d, b2, pool2) ← OrderBook.delete_order b1 pool1 0;
   '(_, b3, pool3) ← OrderBook.add_order b2 pool2 0 Side_Buy 100 10 0;
   Some (g, OrderBook.order_count b1, OrderBook.bid_depth b1 5, OrderBook.bbo b1,
         d, OrderBook.order_count b3, OrderBook.bid_depth b3 5, OrderBook.bbo b3)) =
  Some (None, 1, [(100, 10, 1)], BBO.mk 100 PRICE_MAX 10 0,
        false, 2, [(100, 20, 2)], BBO.mk 100 PRICE_MAX 20 0).
Proof. vm_compute. reflexivity. Qed.

(** ** The book manager *)

Lemma book_new_some (L : Z) :
  exists b, OrderBook.new L = Some b /\
            OrderBook.stock_locate_ b = L /\ OrderBook.bids_ b = [] /\
            OrderBook.asks_ b = [] /\ OrderBook.bbo_ b = BBO.init /\
            OrderBook.order_count_ b = 0 /\
            forall i, OrderBook.get_order b i = Some None.
Proof.
  destruct (new_book_ok L ObjectPool.new pool_new_ok)
    as (b & Hn & _ & Hix & H1 & H2 & H3 & H4 & H5).
  exists b. do 6 (split; [done|]). intros i.
  by rewrite (get_order_spec b ObjectPool.new ∅ i Hix).
Qed.

Lemma manager_new_eq :
  exists b, OrderBook.new 0 = Some b /\ OrderBook.stock_locate_ b = 0 /\
    OrderBookManager.new =
    Some (OrderBookManager.mk (replicate (Z.to_nat OrderBookManager.MAX_SYMBOLS) b)
                              ObjectPool.new).
Proof.
  destruct (book_new_some 0) as (b & Hb & Hloc & _). exists b.
  split; [done|]. split; [done|]. unfold OrderBookManager.new. rewrite Hb. reflexivity.
Qed.

Lemma manager_new_some : OrderBookManager.new = Some mgr_new.
Proof.
  unfold mgr_new. destruct manager_new_eq as (b & _ & _ & ->). reflexivity.
Qed.

Lemma update_best_bid_locate (b : OrderBook.t) :
  OrderBook.stock_locate_ (OrderBook.update_best_bid b) = OrderBook.stock_locate_ b.
Proof. unfold OrderBook.update_best_bid. by destruct (OrderBook.bids_ b) as [|[??]?]. Qed.

Lemma update_best_ask_locate (b : OrderBook.t) :
  OrderBook.stock_locate_ (OrderBook.update_best_ask b) = OrderBook.stock_locate_ b.
Proof. unfold OrderBook.update_best_ask. by destruct (OrderBook.asks_ b) as [|[??]?]. Qed.

Lemma add_order_locate (b b' : OrderBook.t) (pool pool' : ObjectPool.t) (r : option ptr)
      (i : Z) (s : Side) (p q t : Z) :
  OrderBook.add_order b pool i s p q t = Some (r, b', pool') ->
  OrderBook.stock_locate_ b' = OrderBook.stock_locate_ b.
Proof.
  unfold OrderBook.add_order.
  destruct (OrderMap.find _ _) as [[x|]|]; simpl; [congruence| |done].
  destruct (ObjectPool.acquire pool) as [o pool1].
  destruct (OrderMap.put _ _ _) as [orders'|]; simpl; [|done].
  intros [= _ <- _]. simpl.
  destruct (is_buy s); by rewrite ?update_best_bid_locate, ?update_best_ask_locate.
Qed.

Lemma execute_order_locate (b b' : OrderBook.t) (pool pool' : ObjectPool.t) (r i q : Z) :
  OrderBook.execute_order b pool i q = Some (r, b', pool') ->
  OrderBook.stock_locate_ b' = OrderBook.stock_locate_ b.
Proof.
  intros H. destruct (OrderBook.get_order b i) as [[p|]|] eqn:E.
  - rewrite (execute_order_eq b pool i q p E) in H. cbv zeta in H.
    destruct (_ =? 0) in H.
    + destruct (OrderMap.remove _ _) in H; [|done]. injection H as _ <- _.
      rewrite (proj1 (with_orders_misc _ _ _)). apply side_update_misc.
    + injection H as _ <- _. apply side_update_misc.
  - rewrite (execute_order_absent b pool i q E) in H. congruence.
  - unfold OrderBook.get_order in E. unfold OrderBook.execute_order in H.
    by rewrite E in H.
Qed.

Lemma delete_order_locate (b b' : OrderBook.t) (pool pool' : ObjectPool.t) (r : bool)
      (i : Z) :
  OrderBook.delete_order b pool i = Some (r, b', pool') ->
  OrderBook.stock_locate_ b' = OrderBook.stock_locate_ b.
Proof.
  intros H. destruct (OrderBook.get_order b i) as [[p|]|] eqn:E.
  - rewrite (delete_order_eq b pool i p E) in H. cbv zeta in H.
    destruct (OrderMap.remove _ _) in H; [|done]. injection H as _ <- _.
    rewrite (proj1 (with_orders_misc _ _ _)). apply side_update_misc.
  - rewrite (delete_order_absent b pool i E) in H. congruence.
  - unfold OrderBook.get_order in E. unfold OrderBook.delete_order in H.
    by rewrite E in H.
Qed.

Lemma replace_order_locate (b b' : OrderBook.t) (pool pool' : ObjectPool.t)
      (r : option ptr) (i j q p t : Z) :
  OrderBook.replace_order b pool i j q p t = Some (r, b', pool') ->
  OrderBook.stock_locate_ b' = OrderBook.stock_locate_ b.
Proof.
  unfold OrderBook.replace_order.
  destruct (OrderMap.find _ _) as [[x|]|]; simpl; [|congruence|done].
  destruct (OrderBook.delete_order b pool i) as [[[d b1] pool1]|] eqn:Hd; simpl; [|done].
  intros Ha. apply add_order_locate in Ha. apply delete_order_locate in Hd. congruence.
Qed.

(** No book operation changes the locate of its book. *)
Lemma run_op_locate (op : book_op) (b b' : OrderBook.t) (pool pool' : ObjectPool.t) :
  run_op op (b, pool) = Some (b', pool') ->
  OrderBook.stock_locate_ b' = OrderBook.stock_locate_ b.
Proof.
  destruct op; simpl.
  - destruct (OrderBook.add_order _ _ _ _ _ _ _) as [[[r b1] p1]|] eqn:E; [|done].
    intros [= <- _]. by eapply add_order_locate.
  - destruct (OrderBook.execute_order _ _ _ _) as [[[r b1] p1]|] eqn:E; [|done].
    intros [= <- _]. by eapply execute_order_locate.
  - unfold OrderBook.cancel_order.
    destruct (OrderBook.execute_order _ _ _ _) as [[[r b1] p1]|] eqn:E; [|done].
    intros [= <- _]. by eapply execute_order_locate.
  - destruct (OrderBook.delete_order _ _ _) as [[[r b1] p1]|] eqn:E; [|done].
    intros [= <- _]. by eapply delete_order_locate.
  - destruct (OrderBook.replace_order _ _ _ _ _ _ _) as [[[r b1] p1]|] eqn:E; [|done].
    intros [= <- _]. by eapply replace_order_locate.
Qed.

Lemma run_ops_locate (ops : list book_op) :
  forall b pool b' pool', run_ops ops (b, pool) = Some (b', pool') ->
  OrderBook.stock_locate_ b' = OrderBook.stock_locate_ b.
Proof.
  induction ops as [|op ops IH]; intros b pool b' pool'; simpl.
  - by intros [= <- _].
  - destruct (run_op op (b, pool)) as [[b1 pool1]|] eqn:E; [|done].
    intros H. apply IH in H. apply run_op_locate in E. congruence.
Qed.

Lemma new_mgr_ok (m : OrderBookManager.t) :
  OrderBookManager.new = Some m -> mgr_ok m.
Proof.
  destruct manager_new_eq as (b & _ & Hloc & ->). intros Heq.
  apply (inj Some) in Heq. rewrite <- Heq. split; cbn [OrderBookManager.books_].
  - apply length_replicate.
  - intros L b' Hl. apply lookup_replicate in Hl as [-> _]. by left.
Qed.

Lemma get_book_ok (m m' : OrderBookManager.t) (L : Z) :
  mgr_ok m -> 0 <= L -> OrderBookManager.get_book m L = Some m' -> mgr_ok m'.
Proof.
  intros [Hlen Hloc] HL0. unfold OrderBookManager.get_book.
  destruct (OrderBookManager.books_ m !! Z.to_nat L) as [b|] eqn:E; [|done].
  cbn [mbind option_bind].
  destruct (OrderBook.stock_locate b =? 0) eqn:Ez; [|by intros [= <-]].
  destruct (book_new_some L) as (nb & -> & HL & _). cbn [mbind option_bind].
  intros Heq. apply (inj Some) in Heq. rewrite <- Heq.
  split; cbn [OrderBookManager.books_].
  - by rewrite length_insert.
  - intros L' b' Hl. destruct (decide (L' = Z.to_nat L)) as [->|Hne].
    + rewrite list_lookup_insert_eq in Hl by (by eapply lookup_lt_Some).
      injection Hl as <-. right. lia.
    + rewrite list_lookup_insert_ne in Hl by done. by apply Hloc.
Qed.

Lemma commit_ok (m : OrderBookManager.t) (L : Z) (b b' : OrderBook.t)
      (pool' : ObjectPool.t) :
  mgr_ok m -> OrderBookManager.books_ m !! Z.to_nat L = Some b ->
  OrderBook.stock_locate_ b' = OrderBook.stock_locate_ b ->
  mgr_ok (FeedHandler.commit m L b' pool').
Proof.
  intros [Hlen Hloc] Hb Hsame. split; cbn [FeedHandler.commit OrderBookManager.books_].
  - by rewrite length_insert.
  - intros L' b1 Hl. destruct (decide (L' = Z.to_nat L)) as [->|Hne].
    + rewrite list_lookup_insert_eq in Hl by (by eapply lookup_lt_Some).
      injection Hl as <-. rewrite Hsame. by apply Hloc.
    + rewrite list_lookup_insert_ne in Hl by done. by apply Hloc.
Qed.

Lemma mgr_reachable_ok (m : OrderBookManager.t) : mgr_reachable m -> mgr_ok m.
Proof.
  induction 1 as [m Hn|m m' L _ IH HL Hg|m L b b' pool' op _ IH HL Hb Hop].
  - by apply new_mgr_ok.
  - by eapply get_book_ok.
  - eapply commit_ok; [done|exact Hb|]. by eapply run_op_locate.
Qed.

Lemma mgr_new_reachable : mgr_reachable mgr_new.
Proof. apply mr_new, manager_new_some. Qed.

Lemma get_book_eq (m : OrderBookManager.t) (L : Z) (b0 : OrderBook.t) :
  OrderBookManager.books_ m !! Z.to_nat L = Some b0 ->
  exists nb, OrderBook.new L = Some nb /\ OrderBook.stock_locate_ nb = L /\
    OrderBookManager.get_book m L =
    Some (if OrderBook.stock_locate b0 =? 0
          then OrderBookManager.mk (<[Z.to_nat L := nb]> (OrderBookManager.books_ m))
                                   (OrderBookManager.order_pool_ m)
          else m).
Proof.
  intros Hb. destruct (book_new_some L) as (nb & Hn & HL & _). exists nb.
  split; [done|]. split; [done|]. unfold OrderBookManager.get_book.
  rewrite Hb. cbn [mbind option_bind]. rewrite Hn.
  by destruct (OrderBook.stock_locate b0 =? 0).
Qed.

Lemma mgr_lookup (m : OrderBookManager.t) (L : Z) :
  mgr_ok m -> 0 <= L < OrderBookManager.MAX_SYMBOLS ->
  exists b0, OrderBookManager.books_ m !! Z.to_nat L = Some b0 /\
             (OrderBook.stock_locate_ b0 = 0 \/ OrderBook.stock_locate_ b0 = L).
Proof.
  intros [Hlen Hloc] HL.
  destruct (lookup_lt_is_Some_2 (OrderBookManager.books_ m) (Z.to_nat L)) as [b0 Hb].
  { rewrite Hlen. lia. }
  exists b0. split; [done|]. destruct (Hloc _ _ Hb); [by left|right; lia].
Qed.

(** C9: [has_book(L)] returns for every 16-bit locate, and returns false
    without indexing the array whenever [L] is at least the size of the
    array, whatever the array holds; the array of a manager has
    [MAX_SYMBOLS] = 8192 books, so that the unchecked index of
    [get_book(L)] is inside the array exactly when [L < 8192], and
    [get_book(L)] returns exactly then. *)
Theorem C9_manager_bounds (m : OrderBookManager.t) (L : Z) :
  mgr_reachable m -> 0 <= L < 65536 ->
  (exists r, OrderBookManager.has_book m L = Some r) /\
  (forall m0 : OrderBookManager.t,
     Z.of_nat (length (OrderBookManager.books_ m0)) <= L ->
     OrderBookManager.has_book m0 L = Some false) /\
  Z.of_nat (length (OrderBookManager.books_ m)) = OrderBookManager.MAX_SYMBOLS /\
  OrderBookManager.MAX_SYMBOLS = 8192 /\
  (is_Some (OrderBookManager.books_ m !! Z.to_nat L) <-> L < OrderBookManager.MAX_SYMBOLS) /\
  (is_Some (OrderBookManager.get_book m L) <-> L < OrderBookManager.MAX_SYMBOLS).
Proof.
  intros Hr HL. pose proof (mgr_reachable_ok m Hr) as Hok. pose proof Hok as [Hlen Hloc].
  assert (Hfalse : forall m0 : OrderBookManager.t,
            Z.of_nat (length (OrderBookManager.books_ m0)) <= L ->
            OrderBookManager.has_book m0 L = Some false).
  { intros m0 Hge. unfold OrderBookManager.has_book.
    destruct (Z.ltb_spec L (Z.of_nat (length (OrderBookManager.books_ m0)))); [lia|done]. }
  assert (Hin : is_Some (OrderBookManager.books_ m !! Z.to_nat L) <->
                L < OrderBookManager.MAX_SYMBOLS).
  { rewrite lookup_lt_is_Some, Hlen. lia. }
  split; [|split; [done|split; [|split; [done|split; [done|]]]]].
  - destruct (Z_lt_le_dec L OrderBookManager.MAX_SYMBOLS) as [Hlt|Hge].
    + destruct (mgr_lookup m L Hok ltac:(lia)) as (b0 & Hb & _).
      unfold OrderBookManager.has_book. rewrite Hb.
      destruct (L <? _); cbn [mbind option_bind]; eauto.
    + exists false. apply Hfalse. lia.
  - rewrite Hlen. unfold OrderBookManager.MAX_SYMBOLS. lia.
  - rewrite <- Hin. split.
    + intros [m' Hg]. unfold OrderBookManager.get_book in Hg.
      destruct (OrderBookManager.books_ m !! Z.to_nat L); [done|discriminate].
    + intros [b0 Hb]. destruct (get_book_eq m L b0 Hb) as (nb & _ & _ & ->). done.
Qed.

(** The theorem on the new manager at locate 9000. *)
Lemma C9_witness :
  mgr_reachable mgr_new /\ 0 <= 9000 < 65536 /\
  ((exists r, OrderBookManager.has_book mgr_new 9000 = Some r) /\
   (forall m0 : OrderBookManager.t,
      Z.of_nat (length (OrderBookManager.books_ m0)) <= 9000 ->
      OrderBookManager.has_book m0 9000 = Some false) /\
   Z.of_nat (length (OrderBookManager.books_ mgr_new)) = OrderBookManager.MAX_SYMBOLS /\
   OrderBookManager.MAX_SYMBOLS = 8192 /\
   (is_Some (OrderBookManager.books_ mgr_new !! Z.to_nat 9000) <->
    9000 < OrderBookManager.MAX_SYMBOLS) /\
   (is_Some (OrderBookManager.get_book mgr_new 9000) <->
    9000 < OrderBookManager.MAX_SYMBOLS)).
Proof.
  split; [apply mgr_new_reachable|]. split; [lia|].
  apply (C9_manager_bounds mgr_new 9000); [apply mgr_new_reachable|lia].
Defined.

Example manager_bounds_view :
  (OrderBookManager.has_book mgr_new 8191, OrderBookManager.has_book mgr_new 8192,
   OrderBookManager.has_book mgr_new 65535,
   OrderBook.stock_locate <$>
     (m ← OrderBookManager.get_book mgr_new 8191;
      OrderBookManager.books_ m !! Z.to_nat 8191),
   OrderBook.stock_locate <$>
     (m ← OrderBookManager.get_book mgr_new 8192;
      OrderBookManager.books_ m !! Z.to_nat 8192)) =
  (Some false, Some false, Some false, Some 8191, None).
Proof. vm_compute. reflexivity. Qed.

Lemma commit_lookup (m : OrderBookManager.t) (L : Z) (b b' : OrderBook.t)
      (pool' : ObjectPool.t) :
  OrderBookManager.books_ m !! Z.to_nat L = Some b ->
  OrderBookManager.books_ (FeedHandler.commit m L b' pool') !! Z.to_nat L = Some b'.
Proof.
  intros Hb. cbn [FeedHandler.commit OrderBookManager.books_].
  apply list_lookup_insert_eq. by eapply lookup_lt_Some.
Qed.

(** A book that carries a nonzero locate is returned as it is. *)
Lemma get_book_initialised (m : OrderBookManager.t) (L : Z) (b0 : OrderBook.t) :
  OrderBookManager.books_ m !! Z.to_nat L = Some b0 ->
  OrderBook.stock_locate_ b0 <> 0 ->
  OrderBookManager.get_book m L = Some m.
Proof.
  intros Hb Hnz. destruct (get_book_eq m L b0 Hb) as (nb & _ & _ & ->).
  unfold OrderBook.stock_locate.
  by destruct (Z.eqb_spec (OrderBook.stock_locate_ b0) 0).
Qed.

(** A book that carries locate 0 is replaced by a new book. *)
Lemma get_book_reset (m : OrderBookManager.t) (L : Z) (b0 : OrderBook.t) :
  OrderBookManager.books_ m !! Z.to_nat L = Some b0 ->
  OrderBook.stock_locate_ b0 = 0 ->
  exists nb, OrderBook.new L = Some nb /\ OrderBook.stock_locate_ nb = L /\
    OrderBookManager.get_book m L =
    Some (OrderBookManager.mk (<[Z.to_nat L := nb]> (OrderBookManager.books_ m))
                              (OrderBookManager.order_pool_ m)).
Proof.
  intros Hb Hz. destruct (get_book_eq m L b0 Hb) as (nb & Hn & HL & ->).
  exists nb. split; [done|]. split; [done|].
  unfold OrderBook.stock_locate. by rewrite Hz.
Qed.

(** C10: on every manager state.  For [1 <= L < 8192], [get_book(L)]
    returns a book that carries locate [L]: the book already there when it
    was initialised ([get_book] then changes nothing), else a new book
    written to index [L]; the other books and the pool are untouched; and
    after that call, and after any operations on that book, [get_book(L)]
    changes nothing any more.  For [L = 0] the book at index 0 always
    carries locate 0, so [get_book(0)] always overwrites it with a new,
    empty book, also after any operations on it, and [has_book(0)] is
    false. *)
Theorem C10_get_book_initialisation (m : OrderBookManager.t) :
  mgr_reachable m ->
  (forall L, 1 <= L < OrderBookManager.MAX_SYMBOLS ->
     exists m1 b0 bk,
       OrderBookManager.get_book m L = Some m1 /\
       OrderBookManager.books_ m !! Z.to_nat L = Some b0 /\
       OrderBookManager.books_ m1 !! Z.to_nat L = Some bk /\
       OrderBook.stock_locate bk = L /\
       (if OrderBook.stock_locate b0 =? 0 then OrderBook.new L = Some bk
        else bk = b0 /\ m1 = m) /\
       OrderBookManager.order_pool m1 = OrderBookManager.order_pool m /\
       (forall L' : nat, L' <> Z.to_nat L ->
          OrderBookManager.books_ m1 !! L' = OrderBookManager.books_ m !! L') /\
       OrderBookManager.get_book m1 L = Some m1 /\
       (forall ops b' pool',
          run_ops ops (bk, OrderBookManager.order_pool m1) = Some (b', pool') ->
          OrderBookManager.get_book (FeedHandler.commit m1 L b' pool') L =
            Some (FeedHandler.commit m1 L b' pool'))) /\
  (exists m1 b0 nb,
     OrderBookManager.get_book m 0 = Some m1 /\
     OrderBookManager.books_ m !! 0%nat = Some b0 /\
     OrderBook.stock_locate b0 = 0 /\
     OrderBook.new 0 = Some nb /\
     OrderBookManager.books_ m1 !! 0%nat = Some nb /\
     OrderBook.bids_ nb = [] /\ OrderBook.asks_ nb = [] /\ OrderBook.order_count nb = 0 /\
     (forall i, OrderBook.get_order nb i = Some None) /\
     (forall ops b' pool',
        run_ops ops (b0, OrderBookManager.order_pool m) = Some (b', pool') ->
        exists m2, OrderBookManager.get_book (FeedHandler.commit m 0 b' pool') 0 = Some m2 /\
                   OrderBookManager.books_ m2 !! 0%nat = Some nb)) /\
  OrderBookManager.has_book m 0 = Some false.
Proof.
  intros Hr. pose proof (mgr_reachable_ok m Hr) as Hok. split; [|split].
  - intros L HL. destruct (mgr_lookup m L Hok ltac:(lia)) as (b0 & Hb & Hloc).
    assert (Hstep : forall m1 bk, OrderBookManager.books_ m1 !! Z.to_nat L = Some bk ->
              OrderBook.stock_locate_ bk = L ->
              OrderBookManager.get_book m1 L = Some m1 /\
              forall ops b' pool',
                run_ops ops (bk, OrderBookManager.order_pool m1) = Some (b', pool') ->
                OrderBookManager.get_book (FeedHandler.commit m1 L b' pool') L =
                  Some (FeedHandler.commit m1 L b' pool')).
    { intros m1 bk Hbk Hbl. split.
      - apply (get_book_initialised m1 L bk Hbk). lia.
      - intros ops b' pool' Hrun. apply run_ops_locate in Hrun.
        apply (get_book_initialised _ L b'); [by eapply commit_lookup|lia]. }
    destruct Hloc as [Hz|Hl].
    + destruct (get_book_reset m L b0 Hb Hz) as (nb & Hn & HnL & Hg).
      assert (Hnb : <[Z.to_nat L:=nb]> (OrderBookManager.books_ m) !! Z.to_nat L = Some nb).
      { apply list_lookup_insert_eq. by eapply lookup_lt_Some. }
      eexists _, b0, nb. split; [exact Hg|]. split; [done|].
      cbn [OrderBookManager.books_ OrderBookManager.order_pool OrderBookManager.order_pool_].
      split; [done|]. split; [done|].
      split; [unfold OrderBook.stock_locate; by rewrite Hz|]. split; [done|].
      split; [intros L' Hne; by apply list_lookup_insert_ne|].
      exact (Hstep (OrderBookManager.mk (<[Z.to_nat L:=nb]> (OrderBookManager.books_ m))
                                        (OrderBookManager.order_pool_ m)) nb Hnb HnL).
    + exists m, b0, b0. split; [apply (get_book_initialised m L b0 Hb); lia|].
      split; [done|]. split; [done|]. split; [done|].
      split; [unfold OrderBook.stock_locate;
              by destruct (Z.eqb_spec (OrderBook.stock_locate_ b0) 0); [lia|]|].
      split; [done|]. split; [done|]. exact (Hstep m b0 Hb Hl).
  - destruct (mgr_lookup m 0 Hok ltac:(done)) as (b0 & Hb & Hloc).
    assert (Hz : OrderBook.stock_locate_ b0 = 0) by (by destruct Hloc).
    change (Z.to_nat 0) with 0%nat in Hb.
    destruct (get_book_reset m 0 b0 Hb Hz) as (nb & Hn & _ & Hg).
    destruct (book_new_some 0) as (nb' & Hn' & _ & Hbids & Hasks & _ & Hcnt & Hget).
    assert (nb' = nb) as -> by congruence.
    eexists _, b0, nb. split; [exact Hg|]. split; [done|]. split; [done|]. split; [done|].
    cbn [OrderBookManager.books_]. change (Z.to_nat 0) with 0%nat.
    split; [apply list_lookup_insert_eq; by eapply lookup_lt_Some|].
    do 4 (split; [done|]).
    intros ops b' pool' Hrun. apply run_ops_locate in Hrun.
    pose proof (commit_lookup m 0 b0 b' pool' Hb) as Hb'.
    destruct (get_book_reset _ 0 b' Hb' ltac:(lia)) as (nb2 & Hn2 & _ & Hg2).
    assert (nb2 = nb) as -> by congruence.
    eexists. split; [exact Hg2|]. cbn [OrderBookManager.books_].
    apply list_lookup_insert_eq. by eapply lookup_lt_Some.
  - destruct (mgr_lookup m 0 Hok ltac:(done)) as (b0 & Hb & Hloc).
    assert (Hz : OrderBook.stock_locate_ b0 = 0) by (by destruct Hloc).
    unfold OrderBookManager.has_book. rewrite Hb. cbn [mbind option_bind].
    unfold OrderBook.stock_locate. rewrite Hz.
    by destruct (0 <? _).
Qed.

(** The theorem on the new manager. *)
Lemma C10_witness :
  mgr_reachable mgr_new /\
  ((forall L, 1 <= L < OrderBookManager.MAX_SYMBOLS ->
       exists m1 b0 bk,
         OrderBookManager.get_book mgr_new L = Some m1 /\
         OrderBookManager.books_ mgr_new !! Z.to_nat L = Some b0 /\
         OrderBookManager.books_ m1 !! Z.to_nat L = Some bk /\
         OrderBook.stock_locate bk = L /\
         (if OrderBook.stock_locate b0 =? 0 then OrderBook.new L = Some bk
          else bk = b0 /\ m1 = mgr_new) /\
         OrderBookManager.order_pool m1 = OrderBookManager.order_pool mgr_new /\
         (forall L' : nat, L' <> Z.to_nat L ->
            OrderBookManager.books_ m1 !! L' = OrderBookManager.books_ mgr_new !! L') /\
         OrderBookManager.get_book m1 L = Some m1 /\
         (forall ops b' pool',
            run_ops ops (bk, OrderBookManager.order_pool m1) = Some (b', pool') ->
            OrderBookManager.get_book (FeedHandler.commit m1 L b' pool') L =
              Some (FeedHandler.commit m1 L b' pool'))) /\
    (exists m1 b0 nb,
       OrderBookManager.get_book mgr_new 0 = Some m1 /\
       OrderBookManager.books_ mgr_new !! 0%nat = Some b0 /\
       OrderBook.stock_locate b0 = 0 /\
       OrderBook.new 0 = Some nb /\
       OrderBookManager.books_ m1 !! 0%nat = Some nb /\
       OrderBook.bids_ nb = [] /\ OrderBook.asks_ nb = [] /\ OrderBook.order_count nb = 0 /\
       (forall i, OrderBook.get_order nb i = Some None) /\
       (forall ops b' pool',
          run_ops ops (b0, OrderBookManager.order_pool mgr_new) = Some (b', pool') ->
          exists m2, OrderBookManager.get_book (FeedHandler.commit mgr_new 0 b' pool') 0 = Some
              m2 /\
                     OrderBookManager.books_ m2 !! 0%nat = Some nb)) /\
    OrderBookManager.has_book mgr_new 0 = Some false).
Proof.
  split; [apply mgr_new_reachable|].
  apply (C10_get_book_initialisation mgr_new), mgr_new_reachable.
Defined.

(** An order added under locate 0 is gone at the next [get_book(0)], and
    one added under locate 5 stays. *)
Example locate_zero_reset :
  (m1 ← OrderBookManager.get_book mgr_new 0;
   b ← OrderBookManager.books_ m1 !! 0%nat;
   '(_, b', pool') ← OrderBook.add_order b (OrderBookManager.order_pool m1)
                       1001 Side_Buy 1500000 500 0;
   let m2 := FeedHandler.commit m1 0 b' pool' in
   h ← OrderBookManager.has_book m2 0;
   m3 ← OrderBookManager.get_book m2 0;
   b3 ← OrderBookManager.books_ m3 !! 0%nat;
   g ← OrderBook.get_order b3 1001;
   Some (OrderBook.order_count b', h, OrderBook.order_count b3, g)) =
  Some (1, false, 0, None) /\
  (m1 ← OrderBookManager.get_book mgr_new 5;
   b ← OrderBookManager.books_ m1 !! 5%nat;
   '(_, b', pool') ← OrderBook.add_order b (OrderBookManager.order_pool m1)
                       1001 Side_Buy 1500000 500 0;
   let m2 := FeedHandler.commit m1 5 b' pool' in
   h ← OrderBookManager.has_book m2 5;
   m3 ← OrderBookManager.get_book m2 5;
   b3 ← OrderBookManager.books_ m3 !! 5%nat;
   g ← OrderBook.get_order b3 1001;
   Some (OrderBook.order_count b', h, OrderBook.order_count b3, fields_of pool' g)) =
  Some (1, true, 1, Some (1001, 1500000, 500, Side_Buy)).
Proof. split; vm_compute; reflexivity. Qed.

(** ** The decoders *)

Lemma known_tag_None (tag : Z) : message_type_of tag = None <-> tag ∉ known_tags.
Proof.
  unfold message_type_of, known_tags.
  repeat match goal with
         | |- context [?a =? ?b] =>
             destruct (Z.eqb_spec a b) as [->|?];
             [split; [discriminate|];
              intros Hn; exfalso; apply Hn;
              repeat first [apply list_elem_of_here|apply list_elem_of_further]|]
         end.
  split; [|done]. intros _. rewrite !elem_of_cons, elem_of_nil. lia.
Qed.

Lemma known_tag_Some (tag : Z) :
  tag ∈ known_tags <-> exists v, message_type_of tag = Some v.
Proof.
  destruct (message_type_of tag) as [v|] eqn:E.
  - split; [eauto|]. intros _. destruct (decide (tag ∈ known_tags)) as [|Hn]; [done|].
    apply known_tag_None in Hn. congruence.
  - split; [|by intros [v ?]]. intros Hin. by apply known_tag_None in E.
Qed.

Lemma known_tag_size (tag : Z) : get_message_size tag = 0 <-> tag ∉ known_tags.
Proof.
  rewrite <- known_tag_None. unfold get_message_size.
  destruct (message_type_of tag) as [v|]; [|done].
  split; [|done]. by destruct v.
Qed.

Lemma known_tag_byte (tag : Z) : tag ∈ known_tags -> 0 <= tag < 256.
Proof. unfold known_tags. rewrite !elem_of_cons, elem_of_nil. lia. Qed.

Lemma sizeof_message_pos (v : MessageType) : 12 <= sizeof_message v <= 50.
Proof. destruct v; simpl; lia. Qed.

Lemma counted_count (st : ParserStats.t) (tag size t' : Z) :
  length (ParserStats.message_type_counts st) = 256%nat -> 0 <= tag < 256 -> 0 <= t' ->
  ParserStats.count_of (counted st tag size) t' =
  if decide (t' = tag) then wrap64 (ParserStats.count_of st tag + 1)
  else ParserStats.count_of st t'.
Proof.
  intros Hlen Ht Ht'. unfold ParserStats.count_of, counted. cbn [ParserStats.message_type_counts].
  destruct (decide (t' = tag)) as [->|Hne].
  - rewrite list_lookup_insert_eq by lia. done.
  - rewrite list_lookup_insert_ne by lia. done.
Qed.

(** C1 (amended): the two decoders.  [ITCHParser::parse_message] follows
    the decoder contract: 0 for [max_len = 0]; for a tag outside the 22
    known ones it increments [parse_errors], calls [on_parse_error] of an
    attached subscriber and returns 1; for a known tag with [max_len] below
    its size it returns 0 and changes nothing; otherwise it calls the typed
    callback of an attached subscriber with the timestamp of offset 5,
    increments [messages_parsed] and the count of the tag, adds the size to
    [bytes_processed] and returns the size.  [TemplateParser::parse_message]
    returns 0 and changes nothing in the first three cases, the unknown tag
    included, and in the last one calls the typed callback and returns the
    size; it never changes a counter and never calls [on_parse_error]. *)
Theorem C1_parse_message {H : Type} `{!MessageHandler H}
        (p : @ITCHParser.t H) (q : @TemplateParser.t H) (data : list Z) (max_len : Z) :
  let tag := endian.byte_at data 0 in
  let ts := endian.be48_to_host data 5 in
  (max_len = 0 ->
     ITCHParser.parse_message p data max_len = (0, p) /\
     TemplateParser.parse_message q data max_len = (0, q)) /\
  (max_len <> 0 -> tag ∉ known_tags ->
     ITCHParser.parse_message p data max_len =
       (1, ITCHParser.mk
             (on_parse_error data max_len "Unknown message type" <$> ITCHParser.handler_ p)
             (errored (ITCHParser.stats_ p))) /\
     TemplateParser.parse_message q data max_len = (0, q)) /\
  (forall v, max_len <> 0 -> message_type_of tag = Some v ->
     tag ∈ known_tags /\ get_message_size tag = sizeof_message v /\
     (max_len < sizeof_message v ->
        ITCHParser.parse_message p data max_len = (0, p) /\
        TemplateParser.parse_message q data max_len = (0, q)) /\
     (sizeof_message v <= max_len ->
        ITCHParser.parse_message p data max_len =
          (sizeof_message v,
           ITCHParser.mk (on_message v data ts <$> ITCHParser.handler_ p)
                         (counted (ITCHParser.stats_ p) tag (sizeof_message v))) /\
        TemplateParser.parse_message q data max_len =
          (sizeof_message v,
           TemplateParser.mk (on_message v data ts (TemplateParser.handler_ q))
                             (TemplateParser.stats_ q)))) /\
  (forall size t',
     length (ParserStats.message_type_counts (ITCHParser.stats_ p)) = 256%nat ->
     tag ∈ known_tags -> 0 <= t' ->
     let st' := counted (ITCHParser.stats_ p) tag size in
     ParserStats.messages_parsed st' =
       wrap64 (ParserStats.messages_parsed (ITCHParser.stats_ p) + 1) /\
     ParserStats.bytes_processed st' =
       wrap64 (ParserStats.bytes_processed (ITCHParser.stats_ p) + size) /\
     ParserStats.parse_errors st' = ParserStats.parse_errors (ITCHParser.stats_ p) /\
     ParserStats.count_of st' t' =
       (if decide (t' = tag)
        then wrap64 (ParserStats.count_of (ITCHParser.stats_ p) tag + 1)
        else ParserStats.count_of (ITCHParser.stats_ p) t') /\
     length (ParserStats.message_type_counts st') = 256%nat).
Proof.
  cbv zeta. split; [|split; [|split]].
  - intros ->. done.
  - intros Hnz Hun. apply known_tag_size in Hun.
    unfold ITCHParser.parse_message, TemplateParser.parse_message.
    destruct (Z.eqb_spec max_len 0); [done|]. cbv zeta. rewrite Hun. simpl.
    split; [|done]. by destruct (ITCHParser.handler_ p).
  - intros v Hnz Hv.
    assert (Hs : get_message_size (endian.byte_at data 0) = sizeof_message v)
      by (unfold get_message_size; by rewrite Hv).
    pose proof (sizeof_message_pos v) as Hpos.
    split; [apply known_tag_Some; eauto|]. split; [done|].
    unfold ITCHParser.parse_message, TemplateParser.parse_message,
      ITCHParser.dispatch_message, TemplateParser.dispatch, ITCHParser.extract_timestamp.
    destruct (Z.eqb_spec max_len 0); [done|]. cbv zeta. rewrite Hs, Hv.
    destruct (Z.eqb_spec (sizeof_message v) 0); [lia|]. simpl.
    split.
    + intros Hlt. destruct (Z.ltb_spec max_len (sizeof_message v)); [done|lia].
    + intros Hge. destruct (Z.ltb_spec max_len (sizeof_message v)); [lia|].
      split; [|done]. by destruct (ITCHParser.handler_ p).
  - intros size t' Hlen Hin Ht'. cbv zeta. do 3 (split; [done|]).
    split; [apply counted_count; [done|by apply known_tag_byte|done]|].
    unfold counted. cbn [ParserStats.message_type_counts]. by rewrite length_insert.
Qed.

(** Counterexample to C1 as the specification states it: on the unknown
    tag ['Z'], [TemplateParser] returns 0, counts no parse error and calls
    nothing, where [ITCHParser] returns 1, counts one parse error and calls
    [on_parse_error]. *)
Lemma C1_counterexample :
  TemplateParser.parse_message (TemplateParser.mk [] ParserStats.init) [90] 1 =
    (0, TemplateParser.mk [] ParserStats.init) /\
  ITCHParser.parse_message (ITCHParser.mk (Some []) ParserStats.init) [90] 1 =
    (1, ITCHParser.mk (Some [call_parse_error [90] 1 "Unknown message type"])
                      (ParserStats.mk 0 0 1 (replicate 256 0))).
Proof. split; reflexivity. Qed.

Example parse_add_order :
  ITCHParser.parse_message (ITCHParser.mk (Some []) ParserStats.init) add_order_bytes 36 =
    (36, ITCHParser.mk (Some [call_message AddOrder add_order_bytes 7])
           (counted ParserStats.init 65 36)) /\
  ITCHParser.parse_message (ITCHParser.mk (Some []) ParserStats.init) add_order_bytes 35 =
    (0, ITCHParser.mk (Some []) ParserStats.init) /\
  TemplateParser.parse_message (TemplateParser.mk [] ParserStats.init) add_order_bytes 36 =
    (36, TemplateParser.mk [call_message AddOrder add_order_bytes 7] ParserStats.init) /\
  (let m := AddOrderMessage.view add_order_bytes in
   (endian.be16_to_host (AddOrderMessage.stock_locate m),
    endian.be64_to_host (AddOrderMessage.order_ref_number m),
    char_to_side (AddOrderMessage.buy_sell_indicator m),
    endian.be32_to_host (AddOrderMessage.shares m),
    endian.be32_to_host (AddOrderMessage.price m))) = (1, 1001, Side_Buy, 500, 1500000).
Proof. repeat split; vm_compute; reflexivity. Qed.

(** ** The orchestrator *)

(** *** The book operations return on a well-formed index *)

Lemma index_wf_find (b : OrderBook.t) (abs : gmap Z (option ptr)) (i : Z) :
  om_repr (OrderBook.orders_ b) abs -> (forall j, abs !! j <> Some None) ->
  (exists p, abs !! i = Some (Some p) /\ OrderBook.get_order b i = Some (Some p)) \/
  (abs !! i = None /\ OrderBook.get_order b i = Some None).
Proof.
  intros Hr Hnn. unfold OrderBook.get_order. rewrite (find_spec _ abs i Hr).
  destruct (abs !! i) as [[p|]|] eqn:E; [left; eauto|by destruct (Hnn i)|by right].
Qed.

Lemma index_wf_orders (b b' : OrderBook.t) :
  OrderBook.orders_ b' = OrderBook.orders_ b ->
  OrderBook.order_count_ b' = OrderBook.order_count_ b -> index_wf b -> index_wf b'.
Proof. intros He Hc (abs & Hr & Hnn & Hsz). exists abs. by rewrite He, Hc. Qed.

(** An indexed order is counted: [--order_count_] does not wrap. *)
Lemma order_count_pos (b : OrderBook.t) (i : Z) (p : ptr) :
  index_wf b -> OrderBook.get_order b i = Some (Some p) -> 1 <= OrderBook.order_count_ b.
Proof.
  intros (abs & Hr & Hnn & Hsz) Hg.
  destruct (index_wf_find b abs i Hr Hnn) as [(x & Hx & _)|[_ Hn]]; [|congruence].
  assert (size abs <> 0%nat); [|lia].
  intros Hz. apply map_size_empty_inv in Hz. by rewrite Hz, lookup_empty in Hx.
Qed.

Lemma index_wf_removed (b : OrderBook.t) (i : Z) (p : ptr) :
  index_wf b -> OrderBook.get_order b i = Some (Some p) ->
  exists orders', OrderMap.remove (OrderBook.orders_ b) i = Some orders' /\
    forall b', OrderBook.orders_ b' = orders' ->
               OrderBook.order_count_ b' = OrderBook.order_count_ b - 1 -> index_wf b'.
Proof.
  intros (abs & Hr & Hnn & Hsz) Hg.
  destruct (index_wf_find b abs i Hr Hnn) as [(x & Hx & _)|[_ Hn]]; [|congruence].
  destruct (remove_spec _ abs i Hr) as (orders' & Hrm & Hr' & _).
  exists orders'. split; [done|]. intros b' He Hc. exists (delete i abs). rewrite He, Hc.
  split; [done|]. split.
  - intros j Hj. apply lookup_delete_Some in Hj as [_ Hj]. by apply (Hnn j).
  - rewrite (map_size_delete_Some i abs) by eauto.
    assert (size abs <> 0%nat); [|lia].
    intros Hz. apply map_size_empty_inv in Hz. by rewrite Hz, lookup_empty in Hx.
Qed.

Lemma add_order_total (b : OrderBook.t) (pool : ObjectPool.t) (i : Z) (s : Side)
      (p q t : Z) :
  index_wf b ->
  exists r b' pool', OrderBook.add_order b pool i s p q t = Some (r, b', pool') /\
                     index_wf b'.
Proof.
  intros Hwf. pose proof Hwf as (abs & Hr & Hnn & Hsz).
  destruct (index_wf_find b abs i Hr Hnn) as [(x & _ & Hg)|[Hfresh Hg]].
  - rewrite (add_order_duplicate b pool i s p q t x Hg). eauto.
  - destruct (ObjectPool.acquire pool) as [o pool1] eqn:Hacq.
    destruct (put_spec _ abs i (Some o) Hr Hfresh) as (orders' & Hput & Hr').
    rewrite (add_order_fresh_eq b pool pool1 i s p q t o orders' Hg Hacq Hput).
    cbv zeta. eexists _, _, _. split; [done|].
    exists (if decide (i = 0) then abs else <[i:=Some o]> abs).
    cbn [with_count OrderBook.orders_ OrderBook.order_count_].
    rewrite side_update_orders, (proj2 (side_update_misc _ _ _ _)).
    split; [done|]. split.
    + intros j Hj. destruct (decide (i = 0)); [by apply (Hnn j)|].
      apply lookup_insert_Some in Hj as [[_ ?]|[_ Hj]]; [done|by apply (Hnn j)].
    + destruct (decide (i = 0)); [lia|]. rewrite map_size_insert_None by done. lia.
Qed.

Lemma execute_order_total (b : OrderBook.t) (pool : ObjectPool.t) (i q : Z) :
  index_wf b ->
  exists r b' pool', OrderBook.execute_order b pool i q = Some (r, b', pool') /\
                     index_wf b'.
Proof.
  intros Hwf. pose proof Hwf as (abs & Hr & Hnn & Hsz).
  destruct (index_wf_find b abs i Hr Hnn) as [(x & _ & Hg)|[_ Hg]].
  - rewrite (execute_order_eq b pool i q x Hg). cbv zeta.
    destruct (index_wf_removed b i x Hwf Hg) as (orders' & -> & Hwf').
    destruct (_ =? 0); eexists _, _, _; (split; [done|]).
    + apply Hwf'; [done|]. cbn [with_orders OrderBook.order_count_].
      by rewrite (proj2 (side_update_misc _ _ _ _)).
    + apply (index_wf_orders b); [apply side_update_orders|apply side_update_misc|done].
  - rewrite (execute_order_absent b pool i q Hg). eauto.
Qed.

Lemma delete_order_total (b : OrderBook.t) (pool : ObjectPool.t) (i : Z) :
  index_wf b ->
  exists r b' pool', OrderBook.delete_order b pool i = Some (r, b', pool') /\ index_wf b'.
Proof.
  intros Hwf. pose proof Hwf as (abs & Hr & Hnn & Hsz).
  destruct (index_wf_find b abs i Hr Hnn) as [(x & _ & Hg)|[_ Hg]].
  - rewrite (delete_order_eq b pool i x Hg). cbv zeta.
    destruct (index_wf_removed b i x Hwf Hg) as (orders' & -> & Hwf').
    eexists _, _, _. split; [done|]. apply Hwf'; [done|].
    cbn [with_orders OrderBook.order_count_]. by rewrite (proj2 (side_update_misc _ _ _ _)).
  - rewrite (delete_order_absent b pool i Hg). eauto.
Qed.

Lemma replace_order_total (b : OrderBook.t) (pool : ObjectPool.t) (i j q p t : Z) :
  index_wf b ->
  exists r b' pool', OrderBook.replace_order b pool i j q p t = Some (r, b', pool') /\
                     index_wf b'.
Proof.
  intros Hwf. pose proof Hwf as (abs & Hr & Hnn & Hsz). unfold OrderBook.replace_order.
  destruct (index_wf_find b abs i Hr Hnn) as [(x & _ & Hg)|[_ Hg]];
    unfold OrderBook.get_order in Hg; rewrite Hg; cbn [mbind option_bind]; [|eauto].
  destruct (delete_order_total b pool i Hwf) as (r1 & b1 & pool1 & -> & Hwf1).
  cbn [mbind option_bind]. by apply add_order_total.
Qed.

(** Every book operation returns and keeps the index well-formed. *)
Lemma run_op_wf (op : book_op) (b : OrderBook.t) (pool : ObjectPool.t) :
  index_wf b -> exists b' pool', run_op op (b, pool) = Some (b', pool') /\ index_wf b'.
Proof.
  intros Hwf. destruct op; simpl.
  - destruct (add_order_total b pool order_id side price quantity timestamp Hwf)
      as (r & b' & pool' & -> & ?). eauto.
  - destruct (execute_order_total b pool order_id quantity Hwf)
      as (r & b' & pool' & -> & ?). eauto.
  - unfold OrderBook.cancel_order.
    destruct (execute_order_total b pool order_id quantity Hwf)
      as (r & b' & pool' & -> & ?). eauto.
  - destruct (delete_order_total b pool order_id Hwf) as (r & b' & pool' & -> & ?). eauto.
  - destruct (replace_order_total b pool old_order_id new_order_id new_quantity new_price
                timestamp Hwf) as (r & b' & pool' & -> & ?). eauto.
Qed.

Lemma run_ops_wf (ops : list book_op) :
  forall b pool, index_wf b ->
  exists b' pool', run_ops ops (b, pool) = Some (b', pool') /\ index_wf b'.
Proof.
  induction ops as [|op ops IH]; intros b pool Hwf; simpl; [eauto|].
  destruct (run_op_wf op b pool Hwf) as (b1 & pool1 & -> & Hwf1). by apply IH.
Qed.

Lemma book_new_wf (L : Z) (nb : OrderBook.t) : OrderBook.new L = Some nb -> index_wf nb.
Proof.
  intros Hn. destruct (new_book_ok L ObjectPool.new pool_new_ok)
    as (b & Hb & _ & Hix & _ & _ & _ & _ & Hcnt).
  assert (b = nb) as -> by congruence. exists ∅. split; [apply (ix_repr _ _ _ Hix)|].
  split; [intros i; by rewrite lookup_empty|].
  rewrite map_size_empty, Hcnt. done.
Qed.

(** [get_book] returns on an index inside the array, and the book it
    designates has a well-formed index when the book of the array has. *)
Lemma get_book_wf (m0 : OrderBookManager.t) (L : Z) (b0 : OrderBook.t) :
  OrderBookManager.books_ m0 !! Z.to_nat L = Some b0 -> index_wf b0 ->
  exists m book,
    OrderBookManager.get_book m0 L = Some m /\
    OrderBookManager.books_ m !! Z.to_nat L = Some book /\ index_wf book.
Proof.
  intros Hb Hwf. destruct (get_book_eq m0 L b0 Hb) as (nb & Hn & _ & ->).
  destruct (OrderBook.stock_locate b0 =? 0).
  - eexists _, nb. split; [done|]. cbn [OrderBookManager.books_].
    split; [apply list_lookup_insert_eq; by eapply lookup_lt_Some|by eapply book_new_wf].
  - by exists m0, b0.
Qed.

(** *** The closing block of the handlers *)

Lemma notify_bbo_attached (fh : FeedHandler.t) (m : OrderBookManager.t)
      (mt : FeedMetrics.t) (calls : list FeedEvent) (L : Z) (old_bbo new_bbo : BBO.t)
      (ts : Z) :
  let fh' := FeedHandler.notify_bbo (FeedHandler.with_state fh m mt (Some calls))
               L old_bbo new_bbo ts in
  FeedHandler.book_manager_ fh' = m /\
  calls_of fh' =
    calls ++ (if FeedHandler.bbo_changed old_bbo new_bbo
              then [on_bbo_update_event (BBOEvent.mk L old_bbo new_bbo ts)] else []) /\
  FeedMetrics.bbo_updates (FeedHandler.metrics_ fh') =
    (if FeedHandler.bbo_changed old_bbo new_bbo
     then wrap64 (FeedMetrics.bbo_updates mt + 1) else FeedMetrics.bbo_updates mt).
Proof.
  cbv zeta. unfold FeedHandler.notify_bbo, calls_of.
  cbn [FeedHandler.with_state FeedHandler.event_handler_ FeedHandler.book_manager_
       FeedHandler.metrics_].
  destruct (FeedHandler.bbo_changed old_bbo new_bbo);
    cbn [FeedHandler.with_state FeedHandler.event_handler_ FeedHandler.book_manager_
         FeedHandler.metrics_ FeedMetrics.bbo_updates default].
  - done.
  - by rewrite app_nil_r.
Qed.

Lemma bbo_events_trades (trades : list FeedEvent) :
  Forall is_trade trades -> bbo_events trades = [].
Proof.
  induction 1 as [|c l Hc _ IH]; [done|]. unfold bbo_events in *.
  destruct c; [|done]. cbn [omap list_omap]. exact IH.
Qed.

Lemma bbo_changed_iff (old_bbo new_bbo : BBO.t) :
  FeedHandler.bbo_changed old_bbo new_bbo = true <->
  BBO.bid_price old_bbo <> BBO.bid_price new_bbo \/
  BBO.ask_price old_bbo <> BBO.ask_price new_bbo.
Proof.
  unfold FeedHandler.bbo_changed.
  destruct (Z.eqb_spec (BBO.bid_price old_bbo) (BBO.bid_price new_bbo));
    destruct (Z.eqb_spec (BBO.ask_price old_bbo) (BBO.ask_price new_bbo)); simpl;
    intuition congruence.
Qed.

(** *** The shape of a handled order message *)

Lemma fmap_app_nil (h : option (list FeedEvent)) : (fun calls => calls ++ []) <$> h = h.
Proof. destruct h as [c|]; [|done]. simpl. by rewrite app_nil_r. Qed.

Lemma handled_plain (fh : FeedHandler.t) (L ts : Z) (m : OrderBookManager.t)
      (book book' : OrderBook.t) (pool' : ObjectPool.t) (mt : FeedMetrics.t) :
  index_wf book' ->
  FeedMetrics.bbo_updates mt = FeedMetrics.bbo_updates (FeedHandler.metrics_ fh) ->
  handled fh L ts m book
    (Some (FeedHandler.notify_bbo
             (FeedHandler.with_state fh (FeedHandler.commit m L book' pool') mt
                (FeedHandler.event_handler_ fh))
             L (FeedHandler.snapshot fh book) (OrderBook.bbo book') ts)).
Proof.
  intros Hwf Hmt. exists book', pool', mt, []. split; [constructor|]. split; [done|].
  split; [done|]. by rewrite fmap_app_nil.
Qed.

Lemma executed_handled (fh : FeedHandler.t) (L order_id exec_shares match_number : Z)
      (trade_price : Order.t -> Z) (ts : Z) (m : OrderBookManager.t) (book : OrderBook.t) :
  FeedHandler.filtered_out fh L = false ->
  OrderBookManager.get_book (FeedHandler.book_manager_ fh) L = Some m ->
  OrderBookManager.books_ m !! Z.to_nat L = Some book ->
  index_wf book ->
  handled fh L ts m book
    (FeedHandler.executed fh L order_id exec_shares match_number trade_price ts).
Proof.
  intros Hf Hg Hbook Hwf. pose proof Hwf as (abs & Hr & Hnn & _).
  unfold FeedHandler.executed. rewrite Hf, Hg. cbn [mbind option_bind].
  rewrite Hbook. cbn [mbind option_bind].
  destruct (index_wf_find book abs order_id Hr Hnn) as [(x & _ & ->)|[_ ->]];
    cbn [mbind option_bind].
  - destruct (execute_order_total book (OrderBookManager.order_pool m) order_id exec_shares
                Hwf) as (r & b' & pool' & -> & Hwf').
    cbn [mbind option_bind].
    exists b', pool', (FeedHandler.count_executed (FeedHandler.metrics_ fh)),
      [on_trade_event
         (TradeEvent.mk L (trade_price (ObjectPool.deref (OrderBookManager.order_pool m) x))
            exec_shares order_id match_number
            (Order.side (ObjectPool.deref (OrderBookManager.order_pool m) x)) ts)].
    split; [by repeat constructor|]. split; [done|]. split; [done|].
    by destruct (FeedHandler.event_handler_ fh).
  - by apply handled_plain.
Qed.

Lemma handle_handled (fh : FeedHandler.t) (msg : OrderMessage) (ts : Z)
      (m : OrderBookManager.t) (book : OrderBook.t) :
  FeedHandler.filtered_out fh (msg_locate msg) = false ->
  OrderBookManager.get_book (FeedHandler.book_manager_ fh) (msg_locate msg) = Some m ->
  OrderBookManager.books_ m !! Z.to_nat (msg_locate msg) = Some book ->
  index_wf book ->
  handled fh (msg_locate msg) ts m book (handle fh msg ts).
Proof.
  intros Hf Hg Hbook Hwf.
  destruct msg as [a|a|a|a|a|a|a]; unfold msg_locate in *; cbn [handle].
  - unfold FeedHandler.on_add_order. cbv zeta. rewrite Hf, Hg. cbn [mbind option_bind].
    rewrite Hbook. cbn [mbind option_bind].
    destruct (add_order_total book (OrderBookManager.order_pool m)
                (endian.be64_to_host (AddOrderMessage.order_ref_number a))
                (char_to_side (AddOrderMessage.buy_sell_indicator a))
                (endian.be32_to_host (AddOrderMessage.price a))
                (endian.be32_to_host (AddOrderMessage.shares a)) ts Hwf)
      as (r & b' & pool' & -> & Hwf').
    cbn [mbind option_bind]. apply handled_plain; [done|].
    by destruct (FeedHandler.collect_metrics_ fh).
  - unfold FeedHandler.on_add_order_mpid. cbv zeta. rewrite Hf, Hg. cbn [mbind option_bind].
    rewrite Hbook. cbn [mbind option_bind].
    destruct (add_order_total book (OrderBookManager.order_pool m)
                (endian.be64_to_host (AddOrderMPIDMessage.order_ref_number a))
                (char_to_side (AddOrderMPIDMessage.buy_sell_indicator a))
                (endian.be32_to_host (AddOrderMPIDMessage.price a))
                (endian.be32_to_host (AddOrderMPIDMessage.shares a)) ts Hwf)
      as (r & b' & pool' & -> & Hwf').
    cbn [mbind option_bind]. by apply handled_plain.
  - by apply executed_handled.
  - by apply executed_handled.
  - unfold FeedHandler.on_order_cancel, OrderBook.cancel_order. cbv zeta.
    rewrite Hf, Hg. cbn [mbind option_bind]. rewrite Hbook. cbn [mbind option_bind].
    destruct (execute_order_total book (OrderBookManager.order_pool m)
                (endian.be64_to_host (OrderCancelMessage.order_ref_number a))
                (endian.be32_to_host (OrderCancelMessage.cancelled_shares a)) Hwf)
      as (r & b' & pool' & -> & Hwf').
    cbn [mbind option_bind]. by apply handled_plain.
  - unfold FeedHandler.on_order_delete. cbv zeta.
    rewrite Hf, Hg. cbn [mbind option_bind]. rewrite Hbook. cbn [mbind option_bind].
    destruct (delete_order_total book (OrderBookManager.order_pool m)
                (endian.be64_to_host (OrderDeleteMessage.order_ref_number a)) Hwf)
      as (r & b' & pool' & -> & Hwf').
    cbn [mbind option_bind]. by apply handled_plain.
  - unfold FeedHandler.on_order_replace. cbv zeta.
    rewrite Hf, Hg. cbn [mbind option_bind]. rewrite Hbook. cbn [mbind option_bind].
    destruct (replace_order_total book (OrderBookManager.order_pool m)
                (endian.be64_to_host (OrderReplaceMessage.original_order_ref_number a))
                (endian.be64_to_host (OrderReplaceMessage.new_order_ref_number a))
                (endian.be32_to_host (OrderReplaceMessage.shares a))
                (endian.be32_to_host (OrderReplaceMessage.price a)) ts Hwf)
      as (r & b' & pool' & -> & Hwf').
    cbn [mbind option_bind]. by apply handled_plain.
Qed.

Lemma handle_filtered (fh : FeedHandler.t) (msg : OrderMessage) (ts : Z) :
  FeedHandler.filtered_out fh (msg_locate msg) = true -> handle fh msg ts = Some fh.
Proof.
  intros Hf. destruct msg; unfold msg_locate in Hf; cbn [handle];
    unfold FeedHandler.on_add_order, FeedHandler.on_add_order_mpid,
      FeedHandler.on_order_executed, FeedHandler.on_order_executed_price,
      FeedHandler.executed, FeedHandler.on_order_cancel, FeedHandler.on_order_delete,
      FeedHandler.on_order_replace; cbv zeta; by rewrite Hf.
Qed.

(** *** Orchestrator states *)

Lemma be16_range (v : Z) : 0 <= endian.be16_to_host v < 65536.
Proof.
  unfold endian.be16_to_host. change 65535 with (Z.ones 16).
  rewrite Z.land_ones by lia. apply Z.mod_pos_bound. lia.
Qed.

Lemma msg_locate_range (msg : OrderMessage) : 0 <= msg_locate msg < 65536.
Proof. unfold msg_locate. apply be16_range. Qed.

Lemma notify_bbo_manager (fh : FeedHandler.t) (L : Z) (old_bbo new_bbo : BBO.t) (ts : Z) :
  FeedHandler.book_manager_ (FeedHandler.notify_bbo fh L old_bbo new_bbo ts) =
  FeedHandler.book_manager_ fh.
Proof.
  unfold FeedHandler.notify_bbo. destruct (FeedHandler.event_handler_ fh); [|done].
  by destruct (FeedHandler.bbo_changed old_bbo new_bbo).
Qed.

Lemma fh_ok_lookup (fh : FeedHandler.t) (L : Z) :
  fh_ok fh -> 0 <= L < OrderBookManager.MAX_SYMBOLS ->
  exists b0, OrderBookManager.books_ (FeedHandler.book_manager_ fh) !! Z.to_nat L = Some b0 /\
             index_wf b0.
Proof.
  intros [Hlen Hall] HL.
  destruct (lookup_lt_is_Some_2 (OrderBookManager.books_ (FeedHandler.book_manager_ fh))
              (Z.to_nat L)) as [b0 Hb]; [rewrite Hlen; lia|].
  exists b0. split; [done|]. rewrite Forall_lookup in Hall. by eapply Hall.
Qed.

Lemma get_book_books (m0 m : OrderBookManager.t) (L : Z) (b0 book : OrderBook.t) :
  OrderBookManager.books_ m0 !! Z.to_nat L = Some b0 ->
  OrderBookManager.get_book m0 L = Some m ->
  OrderBookManager.books_ m !! Z.to_nat L = Some book ->
  <[Z.to_nat L := book]> (OrderBookManager.books_ m0) = OrderBookManager.books_ m.
Proof.
  intros Hb Hg Hbook. destruct (get_book_eq m0 L b0 Hb) as (nb & _ & _ & Hg').
  rewrite Hg' in Hg. apply (inj Some) in Hg. subst m.
  destruct (OrderBook.stock_locate b0 =? 0).
  - cbn [OrderBookManager.books_] in *.
    rewrite list_lookup_insert_eq in Hbook by (by eapply lookup_lt_Some). congruence.
  - apply list_insert_id. congruence.
Qed.

(** Every order message for a locate below [MAX_SYMBOLS] is handled, and
    the handler leaves a state of the same kind. *)
Lemma handle_ok (fh : FeedHandler.t) (msg : OrderMessage) (ts : Z) :
  fh_ok fh -> msg_locate msg < OrderBookManager.MAX_SYMBOLS ->
  exists fh', handle fh msg ts = Some fh' /\ fh_ok fh'.
Proof.
  intros Hok HL. destruct (FeedHandler.filtered_out fh (msg_locate msg)) eqn:Hf.
  { exists fh. split; [by apply handle_filtered|done]. }
  pose proof (msg_locate_range msg) as Hr.
  destruct (fh_ok_lookup fh (msg_locate msg) Hok ltac:(lia)) as (b0 & Hb & Hwf0).
  destruct (get_book_wf _ _ _ Hb Hwf0) as (m & book & Hg & Hbook & Hwf).
  destruct (handle_handled fh msg ts m book Hf Hg Hbook Hwf)
    as (book' & pool' & mt & trades & _ & Hwf' & _ & ->).
  eexists. split; [done|]. unfold fh_ok. rewrite notify_bbo_manager.
  cbn [FeedHandler.with_state FeedHandler.book_manager_ FeedHandler.commit
       OrderBookManager.books_].
  rewrite <- (get_book_books _ _ _ _ _ Hb Hg Hbook), list_insert_insert_eq.
  destruct Hok as [Hlen Hall]. split; [by rewrite length_insert|].
  apply Forall_insert; done.
Qed.

Lemma run_feed_ok (msgs : list (OrderMessage * Z)) :
  Forall (fun mt => msg_locate mt.1 < OrderBookManager.MAX_SYMBOLS) msgs ->
  forall fh, fh_ok fh -> exists fh', run_feed msgs fh = Some fh' /\ fh_ok fh'.
Proof.
  induction 1 as [|[msg ts] msgs HL _ IH]; intros fh Hok; simpl.
  - eauto.
  - destruct (handle_ok fh msg ts Hok HL) as (fh1 & -> & Hok1). by apply IH.
Qed.

Lemma feed_new_some : FeedHandler.new = Some fh_new.
Proof.
  unfold fh_new, FeedHandler.new. rewrite manager_new_some. reflexivity.
Qed.

Lemma fh_new_ok : fh_ok fh_new.
Proof.
  assert (Hm : FeedHandler.book_manager_ fh_new = mgr_new).
  { pose proof feed_new_some as Hn. unfold FeedHandler.new in Hn.
    rewrite manager_new_some in Hn. cbn [mbind option_bind] in Hn.
    apply (inj Some) in Hn. by rewrite <- Hn. }
  unfold fh_ok. rewrite Hm. destruct manager_new_eq as (b & Hb & _ & Hn).
  rewrite manager_new_some in Hn. apply (inj Some) in Hn. rewrite Hn.
  cbn [OrderBookManager.books_]. split; [apply length_replicate|].
  apply Forall_replicate. by eapply book_new_wf.
Qed.

Lemma fh_attached_ok : fh_ok fh_attached.
Proof. exact fh_new_ok. Qed.

Lemma bbo_events_app (c1 c2 : list FeedEvent) :
  bbo_events (c1 ++ c2) = bbo_events c1 ++ bbo_events c2.
Proof. apply omap_app. Qed.

Lemma bbo_events_fmap (evs : list BBOEvent.t) :
  bbo_events (on_bbo_update_event <$> evs) = evs.
Proof.
  induction evs as [|e evs IH]; [done|]. rewrite fmap_cons. unfold bbo_events in *.
  cbn [omap list_omap]. by rewrite IH.
Qed.

Lemma new_bbo_events_eq (fh fh' : FeedHandler.t) (calls trades : list FeedEvent)
      (evs : list BBOEvent.t) :
  FeedHandler.event_handler_ fh = Some calls -> Forall is_trade trades ->
  calls_of fh' = (calls ++ trades) ++ (on_bbo_update_event <$> evs) ->
  new_bbo_events fh fh' = evs.
Proof.
  intros Hh Ht Hc. unfold new_bbo_events, calls_of at 1. rewrite Hh, Hc.
  cbn [default]. rewrite <- app_assoc, drop_app_length.
  by rewrite bbo_events_app, (bbo_events_trades trades Ht), bbo_events_fmap.
Qed.

(** C7 (amended): an order message (A, F, E, C, X, D or U) that passes the
    locate filter while a subscriber is attached, for a locate below
    [MAX_SYMBOLS], is handled; the BBO calls made to the subscriber while
    handling it are
    exactly one call carrying the locate, both snapshots and the timestamp
    when the BBO of the book after the operation differs from the snapshot
    taken before it in bid price or in ask price, and none otherwise, so
    none when only quantities changed; [bbo_updates] counts the call. *)
Theorem C7_bbo_event_iff (fh : FeedHandler.t) (msg : OrderMessage) (ts : Z)
        (calls : list FeedEvent) :
  fh_ok fh ->
  FeedHandler.event_handler_ fh = Some calls ->
  FeedHandler.filtered_out fh (msg_locate msg) = false ->
  msg_locate msg < OrderBookManager.MAX_SYMBOLS ->
  exists fh' m book book',
    handle fh msg ts = Some fh' /\
    OrderBookManager.get_book (FeedHandler.book_manager_ fh) (msg_locate msg) = Some m /\
    OrderBookManager.books_ m !! Z.to_nat (msg_locate msg) = Some book /\
    OrderBookManager.books_ (FeedHandler.book_manager_ fh') !! Z.to_nat (msg_locate msg) =
      Some book' /\
    let old_bbo := OrderBook.bbo book in
    let new_bbo := OrderBook.bbo book' in
    let differs := BBO.bid_price old_bbo <> BBO.bid_price new_bbo \/
                   BBO.ask_price old_bbo <> BBO.ask_price new_bbo in
    new_bbo_events fh fh' =
      (if FeedHandler.bbo_changed old_bbo new_bbo
       then [BBOEvent.mk (msg_locate msg) old_bbo new_bbo ts] else []) /\
    (FeedHandler.bbo_changed old_bbo new_bbo = true <-> differs) /\
    ((exists e, e ∈ new_bbo_events fh fh') <-> differs) /\
    (BBO.bid_price old_bbo = BBO.bid_price new_bbo ->
     BBO.ask_price old_bbo = BBO.ask_price new_bbo -> new_bbo_events fh fh' = []) /\
    FeedMetrics.bbo_updates (FeedHandler.metrics_ fh') =
      (if FeedHandler.bbo_changed old_bbo new_bbo
       then wrap64 (FeedMetrics.bbo_updates (FeedHandler.metrics_ fh) + 1)
       else FeedMetrics.bbo_updates (FeedHandler.metrics_ fh)).
Proof.
  intros Hok Hh Hf HL. pose proof (msg_locate_range msg) as Hr.
  destruct (fh_ok_lookup fh (msg_locate msg) Hok ltac:(lia)) as (b0 & Hb & Hwf0).
  destruct (get_book_wf _ _ _ Hb Hwf0) as (m & book & Hg & Hbook & Hwf).
  destruct (handle_handled fh msg ts m book Hf Hg Hbook Hwf)
    as (book' & pool' & mt & trades & Htr & Hwf' & Hmt & Hrun).
  rewrite Hh in Hrun. cbn [fmap option_fmap option_map] in Hrun.
  assert (Hsnap : FeedHandler.snapshot fh book = OrderBook.bbo book)
    by (unfold FeedHandler.snapshot; by rewrite Hh).
  rewrite Hsnap in Hrun.
  destruct (notify_bbo_attached fh (FeedHandler.commit m (msg_locate msg) book' pool') mt
              (calls ++ trades) (msg_locate msg) (OrderBook.bbo book) (OrderBook.bbo book') ts)
    as (Hmgr & Hcalls & Hupd).
  set (fh' := FeedHandler.notify_bbo _ _ _ _ _) in *.
  assert (Hev : new_bbo_events fh fh' =
                if FeedHandler.bbo_changed (OrderBook.bbo book) (OrderBook.bbo book')
                then [BBOEvent.mk (msg_locate msg) (OrderBook.bbo book) (OrderBook.bbo book') ts]
                else []).
  { apply (new_bbo_events_eq fh fh' calls trades); [done|done|]. rewrite Hcalls.
    by destruct (FeedHandler.bbo_changed _ _). }
  exists fh', m, book, book'. split; [done|]. split; [done|]. split; [done|]. split.
  { rewrite Hmgr. cbn [FeedHandler.commit OrderBookManager.books_].
    apply list_lookup_insert_eq. by eapply lookup_lt_Some. }
  cbv zeta. pose proof (bbo_changed_iff (OrderBook.bbo book) (OrderBook.bbo book')) as Hiff.
  split; [done|]. split; [done|]. split; [|split].
  - rewrite Hev, <- Hiff. destruct (FeedHandler.bbo_changed _ _).
    + split; [done|]. intros _. eexists. by apply list_elem_of_here.
    + split; [|done]. intros [e He]. by apply elem_of_nil in He.
  - intros Hbid Hask. rewrite Hev.
    destruct (FeedHandler.bbo_changed _ _); [|done].
    by destruct (proj1 Hiff eq_refl).
  - by rewrite Hupd, Hmt.
Qed.

(** *** Wire images of order messages *)

Example wire_add_view :
  length (wire_add 65 1 7 1001 Side_Buy 500 1500000) = 36%nat /\
  length (wire_add 70 1 7 1001 Side_Buy 500 1500000) = 40%nat /\
  length (wire_cancel 1 7 1001 100) = 23%nat /\
  add_fields (add_msg 1 7 1001 Side_Buy 500 1500000) =
    Some (1, 1001, Side_Buy, 1500000, 500) /\
  add_fields (add_mpid_msg 1 7 1001 Side_Buy 500 1500000) =
    Some (1, 1001, Side_Buy, 1500000, 500).
Proof. repeat split; vm_compute; reflexivity. Qed.

(** The theorem on [fh_attached] for a first Add Order message. *)
Lemma C7_witness :
  fh_ok fh_attached /\
  FeedHandler.event_handler_ fh_attached = Some [] /\
  FeedHandler.filtered_out fh_attached (msg_locate (add_msg 1 7 1001 Side_Buy 500 1500000)) =
      false /\
  msg_locate (add_msg 1 7 1001 Side_Buy 500 1500000) < OrderBookManager.MAX_SYMBOLS /\
  (exists fh' m book book',
      handle fh_attached (add_msg 1 7 1001 Side_Buy 500 1500000) 7 = Some fh' /\
      OrderBookManager.get_book (FeedHandler.book_manager_ fh_attached) (msg_locate (add_msg 1
          7 1001 Side_Buy 500 1500000)) = Some m /\
      OrderBookManager.books_ m !! Z.to_nat (msg_locate (add_msg 1 7 1001 Side_Buy 500
          1500000)) = Some book /\
      OrderBookManager.books_ (FeedHandler.book_manager_ fh') !! Z.to_nat (msg_locate (add_msg
          1 7 1001 Side_Buy 500 1500000)) =
        Some book' /\
      let old_bbo := OrderBook.bbo book in
      let new_bbo := OrderBook.bbo book' in
      let differs := BBO.bid_price old_bbo <> BBO.bid_price new_bbo \/
                     BBO.ask_price old_bbo <> BBO.ask_price new_bbo in
      new_bbo_events fh_attached fh' =
        (if FeedHandler.bbo_changed old_bbo new_bbo
         then [BBOEvent.mk (msg_locate (add_msg 1 7 1001 Side_Buy 500 1500000)) old_bbo new_bbo
             7] else []) /\
      (FeedHandler.bbo_changed old_bbo new_bbo = true <-> differs) /\
      ((exists e, e ∈ new_bbo_events fh_attached fh') <-> differs) /\
      (BBO.bid_price old_bbo = BBO.bid_price new_bbo ->
       BBO.ask_price old_bbo = BBO.ask_price new_bbo -> new_bbo_events fh_attached fh' = []) /\
      FeedMetrics.bbo_updates (FeedHandler.metrics_ fh') =
        (if FeedHandler.bbo_changed old_bbo new_bbo
         then wrap64 (FeedMetrics.bbo_updates (FeedHandler.metrics_ fh_attached) + 1)
         else FeedMetrics.bbo_updates (FeedHandler.metrics_ fh_attached))).
Proof.
  assert (Hf : FeedHandler.filtered_out fh_attached
                 (msg_locate (add_msg 1 7 1001 Side_Buy 500 1500000)) = false)
    by (vm_compute; reflexivity).
  assert (HL : msg_locate (add_msg 1 7 1001 Side_Buy 500 1500000) <
               OrderBookManager.MAX_SYMBOLS) by (vm_compute; reflexivity).
  split; [apply fh_attached_ok|]. split; [reflexivity|]. split; [exact Hf|].
  split; [exact HL|].
  apply (C7_bbo_event_iff fh_attached (add_msg 1 7 1001 Side_Buy 500 1500000) 7 []);
    [apply fh_attached_ok|reflexivity|exact Hf|exact HL].
Defined.

(** A feed in which the best bid appears, its quantity then grows and
    shrinks at the same price, and the best ask appears: two BBO calls. *)
Example bbo_event_scenario :
  (fh' ← run_feed [(add_msg 1 1 1001 Side_Buy 500 1500000, 1);
                   (add_msg 1 2 1002 Side_Buy 100 1500000, 2);
                   (cancel_msg 1 3 1002 100, 3);
                   (add_msg 1 4 1003 Side_Sell 10 1600000, 4)] fh_attached;
   b ← OrderBookManager.books_ (FeedHandler.book_manager_ fh') !! 1%nat;
   Some (bbo_prices <$> bbo_events (calls_of fh'), length (calls_of fh'),
         FeedMetrics.bbo_updates (FeedHandler.metrics_ fh'), OrderBook.bbo b)) =
  Some ([(0, PRICE_MAX, 1500000, PRICE_MAX); (1500000, PRICE_MAX, 1500000, 1600000)],
        2%nat, 2, BBO.mk 1500000 1600000 500 10).
Proof. vm_compute. reflexivity. Qed.

(** Counterexample to C7 as the specification states it.  With no filter
    set every locate passes; for locate 9000 [get_book] indexes [books_],
    which has [MAX_SYMBOLS] = 8192 books, outside its bounds ([None]), so
    the handler has no defined outcome for a message that passes the
    filter while a subscriber is attached. *)
Lemma C7_counterexample :
  FeedHandler.event_handler_ fh_attached = Some [] /\
  FeedHandler.use_filter_ fh_attached = false /\
  msg_locate (add_msg 9000 7 1001 Side_Buy 500 1500000) = 9000 /\
  FeedHandler.filtered_out fh_attached
    (msg_locate (add_msg 9000 7 1001 Side_Buy 500 1500000)) = false /\
  Z.of_nat (length (OrderBookManager.books_ (FeedHandler.book_manager_ fh_attached))) =
    OrderBookManager.MAX_SYMBOLS /\
  OrderBookManager.has_book (FeedHandler.book_manager_ fh_attached) 9000 = Some false /\
  OrderBookManager.get_book (FeedHandler.book_manager_ fh_attached) 9000 = None /\
  handle fh_attached (add_msg 9000 7 1001 Side_Buy 500 1500000) 7 = None.
Proof. repeat split; vm_compute; reflexivity. Qed.

(** *** Duplicate Add Order messages *)

Lemma commit_same (m : OrderBookManager.t) (L : Z) (book : OrderBook.t) :
  OrderBookManager.books_ m !! Z.to_nat L = Some book ->
  FeedHandler.commit m L book (OrderBookManager.order_pool m) = m.
Proof.
  intros Hb. unfold FeedHandler.commit. rewrite list_insert_id by done. by destruct m.
Qed.

Lemma bbo_changed_same (x : BBO.t) : FeedHandler.bbo_changed x x = false.
Proof. unfold FeedHandler.bbo_changed. by rewrite !Z.eqb_refl. Qed.

Lemma notify_bbo_same (fh : FeedHandler.t) (m : OrderBookManager.t) (mt : FeedMetrics.t)
      (L ts : Z) (book : OrderBook.t) :
  FeedHandler.notify_bbo (FeedHandler.with_state fh m mt (FeedHandler.event_handler_ fh))
    L (FeedHandler.snapshot fh book) (OrderBook.bbo book) ts =
  FeedHandler.with_state fh m mt (FeedHandler.event_handler_ fh).
Proof.
  unfold FeedHandler.notify_bbo, FeedHandler.snapshot.
  cbn [FeedHandler.with_state FeedHandler.event_handler_].
  destruct (FeedHandler.event_handler_ fh); [|done]. by rewrite bbo_changed_same.
Qed.

(** C2 (amended): an Add Order message ('A' or 'F') whose id is already
    in the index of the book stored for its locate, that book being
    initialised ([stock_locate() != 0], so that [get_book] returns it as it
    is; the book of locate 0 never is).  [add_order] returns null and
    leaves book and pool as they are; the handler returns, the manager is
    unchanged, the subscriber receives no call, and no counter other than
    [orders_added] and [messages_processed] changes.  The handler does not
    look at the result of [add_order]: the handler of 'F' increments these
    two all the same, unless the locate filter drops the message, which
    then changes nothing at all. *)
Theorem C2_duplicate_add (fh : FeedHandler.t) (msg : OrderMessage) (ts : Z)
        (book : OrderBook.t) (p : ptr) (L id : Z) (side : Side) (price qty : Z) :
  add_fields msg = Some (L, id, side, price, qty) ->
  OrderBookManager.books_ (FeedHandler.book_manager_ fh) !! Z.to_nat L = Some book ->
  OrderBook.stock_locate book <> 0 ->
  OrderBook.get_order book id = Some (Some p) ->
  let m := FeedHandler.book_manager_ fh in
  OrderBookManager.get_book m L = Some m /\
  OrderBook.add_order book (OrderBookManager.order_pool m) id side price qty ts =
    Some (None, book, OrderBookManager.order_pool m) /\
  exists fh',
    handle fh msg ts = Some fh' /\
    FeedHandler.book_manager_ fh' = m /\
    FeedHandler.event_handler_ fh' = FeedHandler.event_handler_ fh /\
    (FeedHandler.filtered_out fh L = true -> fh' = fh) /\
    (let mt := FeedHandler.metrics_ fh in
     let mt' := FeedHandler.metrics_ fh' in
     (FeedMetrics.bbo_updates mt', FeedMetrics.orders_executed mt', FeedMetrics.trades mt',
      FeedMetrics.orders_cancelled mt', FeedMetrics.orders_deleted mt',
      FeedMetrics.orders_replaced mt') =
     (FeedMetrics.bbo_updates mt, FeedMetrics.orders_executed mt, FeedMetrics.trades mt,
      FeedMetrics.orders_cancelled mt, FeedMetrics.orders_deleted mt,
      FeedMetrics.orders_replaced mt) /\
     match msg with
     | msg_add_mpid _ =>
         FeedHandler.filtered_out fh L = false ->
         FeedMetrics.orders_added mt' = wrap64 (FeedMetrics.orders_added mt + 1) /\
         FeedMetrics.messages_processed mt' =
           wrap64 (FeedMetrics.messages_processed mt + 1)
     | _ => True
     end).
Proof.
  intros Hfields Hbook Hinit Hdup m. subst m.
  set (m := FeedHandler.book_manager_ fh) in *.
  assert (Hg : OrderBookManager.get_book m L = Some m)
    by (apply (get_book_initialised m L book Hbook); exact Hinit).
  pose proof (add_order_duplicate book (OrderBookManager.order_pool m) id side price qty ts p
                Hdup) as Hadd.
  split; [exact Hg|]. split; [exact Hadd|].
  destruct (FeedHandler.filtered_out fh L) eqn:Hf.
  { exists fh. split.
    - destruct msg as [a|a| | | | |]; try discriminate Hfields;
        cbn [add_fields] in Hfields; injection Hfields as <- <- <- <- <-; cbn [handle].
      + unfold FeedHandler.on_add_order. cbv zeta. by rewrite Hf.
      + unfold FeedHandler.on_add_order_mpid. cbv zeta. by rewrite Hf.
    - do 3 (split; [done|]). split; [done|]. destruct msg; try exact I. discriminate. }
  destruct msg as [a|a| | | | |]; try discriminate Hfields;
    cbn [add_fields] in Hfields; injection Hfields as <- <- <- <- <-; cbn [handle].
  - unfold FeedHandler.on_add_order. cbv zeta. rewrite Hf. fold m. rewrite Hg.
    cbn [mbind option_bind]. rewrite Hbook. cbn [mbind option_bind]. rewrite Hadd.
    cbn [mbind option_bind]. rewrite (commit_same m _ book Hbook), notify_bbo_same.
    eexists. split; [done|].
    cbn [FeedHandler.with_state FeedHandler.book_manager_ FeedHandler.event_handler_
         FeedHandler.metrics_].
    do 2 (split; [done|]). split; [discriminate|].
    by destruct (FeedHandler.collect_metrics_ fh).
  - unfold FeedHandler.on_add_order_mpid. cbv zeta. rewrite Hf. fold m. rewrite Hg.
    cbn [mbind option_bind]. rewrite Hbook. cbn [mbind option_bind]. rewrite Hadd.
    cbn [mbind option_bind]. rewrite (commit_same m _ book Hbook), notify_bbo_same.
    eexists. split; [done|].
    cbn [FeedHandler.with_state FeedHandler.book_manager_ FeedHandler.event_handler_
         FeedHandler.metrics_].
    do 2 (split; [done|]). split; [discriminate|]. done.
Qed.

Lemma fh_dup_state :
  fh_ok fh_dup /\
  OrderBookManager.get_book (FeedHandler.book_manager_ fh_dup) 1 = Some m_dup /\
  OrderBookManager.books_ m_dup !! Z.to_nat 1 = Some book_dup.
Proof.
  assert (Hok : fh_ok fh_dup).
  { destruct (handle_ok fh_attached (add_mpid_msg 1 7 1001 Side_Buy 500 1500000) 7
                fh_attached_ok) as (fh' & He & Hok'); [vm_compute; reflexivity|].
    unfold fh_dup. by rewrite He. }
  split; [done|].
  destruct (fh_ok_lookup fh_dup 1 Hok ltac:(done)) as (b0 & Hb & Hwf0).
  destruct (get_book_wf _ _ _ Hb Hwf0) as (m & book & Hg & Hbook & _).
  assert (Hm : m_dup = m) by (unfold m_dup; by rewrite Hg).
  rewrite Hm. split; [done|]. unfold book_dup. rewrite Hm, Hbook. done.
Qed.

(** The book of locate 1 in [fh_dup] is initialised and is the book that
    [get_book(1)] designates. *)
Lemma fh_dup_book :
  OrderBookManager.books_ (FeedHandler.book_manager_ fh_dup) !! Z.to_nat 1 = Some book_dup /\
  OrderBook.stock_locate book_dup = 1.
Proof.
  destruct fh_dup_state as (Hok & Hg & Hbook).
  destruct (fh_ok_lookup fh_dup 1 Hok ltac:(unfold OrderBookManager.MAX_SYMBOLS; lia))
    as (b0 & Hb & _).
  assert (Hloc : OrderBook.stock_locate <$>
                 OrderBookManager.books_ (FeedHandler.book_manager_ fh_dup) !! Z.to_nat 1 =
                 Some 1) by (vm_compute; reflexivity).
  rewrite Hb in Hloc. cbn [fmap option_fmap option_map] in Hloc.
  apply (inj Some) in Hloc.
  assert (Hnz : OrderBook.stock_locate_ b0 <> 0).
  { unfold OrderBook.stock_locate in Hloc. rewrite Hloc. discriminate. }
  pose proof (get_book_initialised _ 1 b0 Hb Hnz) as Hg'.
  rewrite Hg' in Hg. apply (inj Some) in Hg.
  rewrite <- Hg in Hbook. rewrite Hb in Hbook. apply (inj Some) in Hbook.
  rewrite <- Hbook. split; [exact Hb|exact Hloc].
Qed.

(** The theorem on [fh_dup] for a second 'F' message with id 1001. *)
Lemma C2_witness :
  add_fields (add_mpid_msg 1 8 1001 Side_Buy 500 1500000) = Some (1, 1001, Side_Buy, 1500000,
      500) /\
  OrderBookManager.books_ (FeedHandler.book_manager_ fh_dup) !! Z.to_nat 1 = Some book_dup /\
  OrderBook.stock_locate book_dup <> 0 /\
  OrderBook.get_order book_dup 1001 = Some (Some 4095) /\
  (let m := FeedHandler.book_manager_ fh_dup in
   OrderBookManager.get_book m 1 = Some m /\
   OrderBook.add_order book_dup (OrderBookManager.order_pool m) 1001 Side_Buy 1500000 500 8 =
     Some (None, book_dup, OrderBookManager.order_pool m) /\
   exists fh',
     handle fh_dup (add_mpid_msg 1 8 1001 Side_Buy 500 1500000) 8 = Some fh' /\
     FeedHandler.book_manager_ fh' = m /\
     FeedHandler.event_handler_ fh' = FeedHandler.event_handler_ fh_dup /\
     (FeedHandler.filtered_out fh_dup 1 = true -> fh' = fh_dup) /\
     (let mt := FeedHandler.metrics_ fh_dup in
      let mt' := FeedHandler.metrics_ fh' in
      (FeedMetrics.bbo_updates mt', FeedMetrics.orders_executed mt', FeedMetrics.trades mt',
       FeedMetrics.orders_cancelled mt', FeedMetrics.orders_deleted mt',
       FeedMetrics.orders_replaced mt') =
      (FeedMetrics.bbo_updates mt, FeedMetrics.orders_executed mt, FeedMetrics.trades mt,
       FeedMetrics.orders_cancelled mt, FeedMetrics.orders_deleted mt,
       FeedMetrics.orders_replaced mt) /\
      match add_mpid_msg 1 8 1001 Side_Buy 500 1500000 with
      | msg_add_mpid _ =>
          FeedHandler.filtered_out fh_dup 1 = false ->
          FeedMetrics.orders_added mt' = wrap64 (FeedMetrics.orders_added mt + 1) /\
          FeedMetrics.messages_processed mt' =
            wrap64 (FeedMetrics.messages_processed mt + 1)
      | _ => True
      end)).
Proof.
  assert (H1 : add_fields (add_mpid_msg 1 8 1001 Side_Buy 500 1500000) =
               Some (1, 1001, Side_Buy, 1500000, 500)) by (vm_compute; reflexivity).
  assert (H5 : OrderBook.get_order book_dup 1001 = Some (Some 4095))
    by (vm_compute; reflexivity).
  destruct fh_dup_book as (H3 & Hloc).
  assert (H4 : OrderBook.stock_locate book_dup <> 0) by (rewrite Hloc; discriminate).
  split; [exact H1|]. split; [exact H3|]. split; [exact H4|]. split; [exact H5|].
  exact (C2_duplicate_add fh_dup (add_mpid_msg 1 8 1001 Side_Buy 500 1500000) 8
           book_dup 4095 1 1001 Side_Buy 1500000 500 H1 H3 H4 H5).
Defined.

(** Counterexample to C2 as the specification states it.  Of two 'F'
    messages with the same id on locate 1, the second one inserts nothing
    and makes no call, and still [orders_added] and [messages_processed] go
    from 1 to 2.  On locate 0, whose book [get_book] builds anew at every
    call, the id is in the index of the stored book after the first
    message, and the second message inserts it again: a second slot leaves
    the pool and a second BBO call is made. *)
Lemma C2_counterexample :
  (fh1 ← handle fh_attached (add_mpid_msg 1 7 1001 Side_Buy 500 1500000) 7;
   fh2 ← handle fh1 (add_mpid_msg 1 8 1001 Side_Buy 500 1500000) 8;
   b1 ← OrderBookManager.books_ (FeedHandler.book_manager_ fh1) !! 1%nat;
   b2 ← OrderBookManager.books_ (FeedHandler.book_manager_ fh2) !! 1%nat;
   Some (FeedMetrics.orders_added (FeedHandler.metrics_ fh1),
         FeedMetrics.messages_processed (FeedHandler.metrics_ fh1),
         OrderBook.order_count b1, length (calls_of fh1),
         FeedMetrics.orders_added (FeedHandler.metrics_ fh2),
         FeedMetrics.messages_processed (FeedHandler.metrics_ fh2),
         OrderBook.order_count b2, length (calls_of fh2), OrderBook.bid_depth b2 5)) =
  Some (1, 1, 1, 1%nat, 2, 2, 1, 1%nat, [(1500000, 500, 1)]) /\
  (fh1 ← handle fh_attached (add_mpid_msg 0 7 1001 Side_Buy 500 1500000) 7;
   fh2 ← handle fh1 (add_mpid_msg 0 8 1001 Side_Buy 500 1500000) 8;
   b1 ← OrderBookManager.books_ (FeedHandler.book_manager_ fh1) !! 0%nat;
   b2 ← OrderBookManager.books_ (FeedHandler.book_manager_ fh2) !! 0%nat;
   p1 ← OrderBook.get_order b1 1001;
   p2 ← OrderBook.get_order b2 1001;
   Some (p1, OrderBook.stock_locate b1,
         ObjectPool.available (OrderBookManager.order_pool (FeedHandler.book_manager_ fh1)),
         length (calls_of fh1), FeedMetrics.bbo_updates (FeedHandler.metrics_ fh1),
         p2,
         ObjectPool.available (OrderBookManager.order_pool (FeedHandler.book_manager_ fh2)),
         length (calls_of fh2), FeedMetrics.bbo_updates (FeedHandler.metrics_ fh2))) =
  Some (Some 4095, 0, 4095, 1%nat, 1, Some 4094, 4094, 2%nat, 2).
Proof. split; vm_compute; reflexivity. Qed.

(** ** Byte order *)

(** Masking with a byte mask at bit [k] selects the byte at bit [k]. *)
Lemma land_byte_mask (y k : Z) :
  0 <= k -> Z.land y (255 * 2 ^ k) = (y / 2 ^ k) mod 256 * 2 ^ k.
Proof.
  intros Hk. change 256 with (2 ^ 8).
  rewrite <- Z.land_ones, <- Z.shiftr_div_pow2, <- !Z.shiftl_mul_pow2 by lia.
  apply Z.bits_inj'. intros n Hn.
  rewrite Z.land_spec, !Z.shiftl_spec by lia.
  destruct (Z.lt_ge_cases n k).
  - rewrite !(Z.testbit_neg_r _ (n - k)) by lia. apply andb_false_r.
  - rewrite Z.land_spec, Z.shiftr_spec by lia. by replace (n - k + k) with n by lia.
Qed.

(** Bytes that do not overlap are combined by [lor] as by a sum. *)
Lemma lor_add_shifted (a b k : Z) :
  0 <= k -> 0 <= a < 2 ^ k -> Z.lor a (b * 2 ^ k) = a + b * 2 ^ k.
Proof.
  intros Hk Ha. rewrite <- Z.lxor_lor, <- Z.add_nocarry_lxor; [done| |];
    (apply Z.bits_inj'; intros n Hn; rewrite Z.land_spec, Z.bits_0;
     destruct (Z.lt_ge_cases n k);
     [rewrite Z.mul_pow2_bits_low by lia; apply andb_false_r|
      destruct (decide (a = 0)) as [->|];
      [by rewrite Z.bits_0|
       rewrite (Z.bits_above_log2 a n); [done|lia|];
       apply Z.log2_lt_pow2; [lia|];
       apply Z.lt_le_trans with (2 ^ k); [lia|apply Z.pow_le_mono_r; lia]]]).
Qed.

Lemma be16_bytes (b0 b1 : Z) :
  0 <= b0 < 256 -> 0 <= b1 < 256 ->
  endian.be16_to_host (b0 + b1 * 256) = b1 + b0 * 256.
Proof.
  intros H0 H1. unfold endian.be16_to_host.
  change 65535 with (Z.ones 16). rewrite Z.land_ones by lia.
  rewrite Z.shiftr_div_pow2, Z.shiftl_mul_pow2 by lia.
  replace ((b0 + b1 * 256) / 2 ^ 8) with b1 by (Z.div_mod_to_equations; lia).
  replace ((b0 + b1 * 256) * 2 ^ 8) with (b0 * 2 ^ 8 + b1 * 2 ^ 16) by lia.
  replace (b0 * 2 ^ 8 + b1 * 2 ^ 16) with ((b0 + b1 * 2 ^ 8) * 2 ^ 8) by lia.
  rewrite lor_add_shifted by lia.
  Z.div_mod_to_equations; lia.
Qed.

Lemma be32_bytes (b0 b1 b2 b3 : Z) :
  0 <= b0 < 256 -> 0 <= b1 < 256 -> 0 <= b2 < 256 -> 0 <= b3 < 256 ->
  endian.be32_to_host (b0 + b1 * 2 ^ 8 + b2 * 2 ^ 16 + b3 * 2 ^ 24) =
  b3 + b2 * 2 ^ 8 + b1 * 2 ^ 16 + b0 * 2 ^ 24.
Proof.
  intros H0 H1 H2 H3. unfold endian.be32_to_host.
  set (x := b0 + b1 * 2 ^ 8 + b2 * 2 ^ 16 + b3 * 2 ^ 24).
  change 255 with (255 * 2 ^ 0) at 1. change 65280 with (255 * 2 ^ 8).
  change 16711680 with (255 * 2 ^ 16). change 4278190080 with (255 * 2 ^ 24).
  rewrite !land_byte_mask by lia.
  rewrite !Z.shiftr_div_pow2, !Z.shiftl_mul_pow2 by lia.
  replace ((x / 2 ^ 24 / 2 ^ 0) mod 256) with b3 by (subst x; Z.div_mod_to_equations; lia).
  replace ((x / 2 ^ 8 / 2 ^ 8) mod 256) with b2 by (subst x; Z.div_mod_to_equations; lia).
  replace ((x * 2 ^ 8 / 2 ^ 16) mod 256) with b1 by (subst x; Z.div_mod_to_equations; lia).
  replace ((x * 2 ^ 24 / 2 ^ 24) mod 256) with b0 by (subst x; Z.div_mod_to_equations; lia).
  rewrite (lor_add_shifted _ b2 8) by lia.
  rewrite (lor_add_shifted _ b1 16) by lia.
  rewrite (lor_add_shifted _ b0 24) by lia.
  lia.
Qed.

Lemma be64_bytes (b0 b1 b2 b3 b4 b5 b6 b7 : Z) :
  0 <= b0 < 256 -> 0 <= b1 < 256 -> 0 <= b2 < 256 -> 0 <= b3 < 256 ->
  0 <= b4 < 256 -> 0 <= b5 < 256 -> 0 <= b6 < 256 -> 0 <= b7 < 256 ->
  endian.be64_to_host (b0 + b1 * 2 ^ 8 + b2 * 2 ^ 16 + b3 * 2 ^ 24 +
                       b4 * 2 ^ 32 + b5 * 2 ^ 40 + b6 * 2 ^ 48 + b7 * 2 ^ 56) =
  b7 + b6 * 2 ^ 8 + b5 * 2 ^ 16 + b4 * 2 ^ 24 +
  b3 * 2 ^ 32 + b2 * 2 ^ 40 + b1 * 2 ^ 48 + b0 * 2 ^ 56.
Proof.
  intros H0 H1 H2 H3 H4 H5 H6 H7. unfold endian.be64_to_host.
  set (x := b0 + b1 * 2 ^ 8 + b2 * 2 ^ 16 + b3 * 2 ^ 24 +
            b4 * 2 ^ 32 + b5 * 2 ^ 40 + b6 * 2 ^ 48 + b7 * 2 ^ 56).
  change 255 with (255 * 2 ^ 0) at 1. change 65280 with (255 * 2 ^ 8).
  change 16711680 with (255 * 2 ^ 16). change 4278190080 with (255 * 2 ^ 24).
  change 1095216660480 with (255 * 2 ^ 32). change 280375465082880 with (255 * 2 ^ 40).
  change 71776119061217280 with (255 * 2 ^ 48).
  change 18374686479671623680 with (255 * 2 ^ 56).
  rewrite !land_byte_mask by lia.
  rewrite !Z.shiftr_div_pow2, !Z.shiftl_mul_pow2 by lia.
  replace ((x / 2 ^ 56 / 2 ^ 0) mod 256) with b7 by (subst x; Z.div_mod_to_equations; lia).
  replace ((x / 2 ^ 40 / 2 ^ 8) mod 256) with b6 by (subst x; Z.div_mod_to_equations; lia).
  replace ((x / 2 ^ 24 / 2 ^ 16) mod 256) with b5 by (subst x; Z.div_mod_to_equations; lia).
  replace ((x / 2 ^ 8 / 2 ^ 24) mod 256) with b4 by (subst x; Z.div_mod_to_equations; lia).
  replace ((x * 2 ^ 8 / 2 ^ 32) mod 256) with b3 by (subst x; Z.div_mod_to_equations; lia).
  replace ((x * 2 ^ 24 / 2 ^ 40) mod 256) with b2 by (subst x; Z.div_mod_to_equations; lia).
  replace ((x * 2 ^ 40 / 2 ^ 48) mod 256) with b1 by (subst x; Z.div_mod_to_equations; lia).
  replace ((x * 2 ^ 56 / 2 ^ 56) mod 256) with b0 by (subst x; Z.div_mod_to_equations; lia).
  rewrite (lor_add_shifted _ b6 8) by lia.
  rewrite (lor_add_shifted _ b5 16) by lia.
  rewrite (lor_add_shifted _ b4 24) by lia.
  rewrite (lor_add_shifted _ b3 32) by lia.
  rewrite (lor_add_shifted _ b2 40) by lia.
  rewrite (lor_add_shifted _ b1 48) by lia.
  rewrite (lor_add_shifted _ b0 56) by lia.
  lia.
Qed.

Lemma byte_at_app (pre l : list Z) (i : Z) :
  0 <= i -> endian.byte_at (pre ++ l) (Z.of_nat (length pre) + i) = endian.byte_at l i.
Proof.
  intros Hi. unfold endian.byte_at.
  replace (Z.to_nat (Z.of_nat (length pre) + i)) with (length pre + Z.to_nat i)%nat by lia.
  by rewrite lookup_app_r, Nat.add_comm, Nat.add_sub by lia.
Qed.

Lemma load16_bytes (data : list Z) (off : Z) :
  endian.load16 data off = endian.byte_at data off + endian.byte_at data (off + 1) * 2 ^ 8.
Proof. unfold endian.load16. by rewrite Z.shiftl_mul_pow2 by lia. Qed.

Lemma load32_bytes (data : list Z) (off : Z) :
  endian.load32 data off =
  endian.byte_at data off + endian.byte_at data (off + 1) * 2 ^ 8 +
  endian.byte_at data (off + 2) * 2 ^ 16 + endian.byte_at data (off + 3) * 2 ^ 24.
Proof.
  unfold endian.load32. rewrite !load16_bytes, Z.shiftl_mul_pow2 by lia.
  replace (off + 2 + 1) with (off + 3) by lia. lia.
Qed.

Lemma load64_bytes (data : list Z) (off : Z) :
  endian.load64 data off =
  endian.byte_at data off + endian.byte_at data (off + 1) * 2 ^ 8 +
  endian.byte_at data (off + 2) * 2 ^ 16 + endian.byte_at data (off + 3) * 2 ^ 24 +
  endian.byte_at data (off + 4) * 2 ^ 32 + endian.byte_at data (off + 5) * 2 ^ 40 +
  endian.byte_at data (off + 6) * 2 ^ 48 + endian.byte_at data (off + 7) * 2 ^ 56.
Proof.
  unfold endian.load64. rewrite !load32_bytes, Z.shiftl_mul_pow2 by lia.
  replace (off + 4 + 1) with (off + 5) by lia. replace (off + 4 + 2) with (off + 6) by lia.
  replace (off + 4 + 3) with (off + 7) by lia. lia.
Qed.

Lemma be48_bytes (data : list Z) (off : Z) :
  (forall i, 0 <= i < 6 -> 0 <= endian.byte_at data (off + i) < 256) ->
  endian.be48_to_host data off =
  endian.byte_at data (off + 5) + endian.byte_at data (off + 4) * 2 ^ 8 +
  endian.byte_at data (off + 3) * 2 ^ 16 + endian.byte_at data (off + 2) * 2 ^ 24 +
  endian.byte_at data (off + 1) * 2 ^ 32 + endian.byte_at data off * 2 ^ 40.
Proof.
  intros Hb. unfold endian.be48_to_host.
  pose proof (Hb 0 ltac:(lia)) as H0. rewrite Z.add_0_r in H0.
  pose proof (Hb 1 ltac:(lia)). pose proof (Hb 2 ltac:(lia)). pose proof (Hb 3 ltac:(lia)).
  pose proof (Hb 4 ltac:(lia)). pose proof (Hb 5 ltac:(lia)).
  set (b0 := endian.byte_at data off) in *.
  set (b1 := endian.byte_at data (off + 1)) in *.
  set (b2 := endian.byte_at data (off + 2)) in *.
  set (b3 := endian.byte_at data (off + 3)) in *.
  set (b4 := endian.byte_at data (off + 4)) in *.
  set (b5 := endian.byte_at data (off + 5)) in *.
  rewrite !Z.shiftl_mul_pow2 by lia.
  rewrite (Z.lor_comm (b0 * 2 ^ 40)), (lor_add_shifted _ b0 40) by lia.
  replace (b1 * 2 ^ 32 + b0 * 2 ^ 40) with ((b1 + b0 * 2 ^ 8) * 2 ^ 32) by lia.
  rewrite (Z.lor_comm _ (b2 * 2 ^ 24)), (lor_add_shifted _ _ 32) by lia.
  replace (b2 * 2 ^ 24 + (b1 + b0 * 2 ^ 8) * 2 ^ 32)
    with ((b2 + b1 * 2 ^ 8 + b0 * 2 ^ 16) * 2 ^ 24) by lia.
  rewrite (Z.lor_comm _ (b3 * 2 ^ 16)), (lor_add_shifted _ _ 24) by lia.
  replace (b3 * 2 ^ 16 + (b2 + b1 * 2 ^ 8 + b0 * 2 ^ 16) * 2 ^ 24)
    with ((b3 + b2 * 2 ^ 8 + b1 * 2 ^ 16 + b0 * 2 ^ 24) * 2 ^ 16) by lia.
  rewrite (Z.lor_comm _ (b4 * 2 ^ 8)), (lor_add_shifted _ _ 16) by lia.
  replace (b4 * 2 ^ 8 + (b3 + b2 * 2 ^ 8 + b1 * 2 ^ 16 + b0 * 2 ^ 24) * 2 ^ 16)
    with ((b4 + b3 * 2 ^ 8 + b2 * 2 ^ 16 + b1 * 2 ^ 24 + b0 * 2 ^ 32) * 2 ^ 8) by lia.
  rewrite (Z.lor_comm _ b5), (lor_add_shifted _ _ 8) by lia.
  lia.
Qed.

(** The bytes of [be_bytes] are bytes. *)
Lemma be_bytes_range (n : nat) (v b : Z) : b ∈ be_bytes n v -> 0 <= b < 256.
Proof.
  induction n as [|n IH]; simpl; [by rewrite elem_of_nil|].
  rewrite elem_of_cons. intros [->|?]; [|by apply IH].
  apply Z.mod_pos_bound. lia.
Qed.

Lemma be_bytes_length (n : nat) (v : Z) : length (be_bytes n v) = n.
Proof. induction n as [|n IH]; simpl; [done|by rewrite IH]. Qed.

(** Decoding the big-endian bytes of a value at any offset of a buffer. *)
Lemma be16_decode (pre post : list Z) (v : Z) :
  0 <= v < 2 ^ 16 ->
  endian.be16_to_host (endian.load16 (pre ++ be_bytes 2 v ++ post) (Z.of_nat (length pre)))
  = v.
Proof.
  intros Hv.
  assert (Hm : forall k, 0 <= Z.shiftr v k mod 256 < 256)
    by (intros; apply Z.mod_pos_bound; lia).
  rewrite load16_bytes, <- (Z.add_0_r (Z.of_nat (length pre))) at 1.
  rewrite !byte_at_app by lia. unfold endian.byte_at. simpl.
  rewrite (be16_bytes (_ mod 256) (_ mod 256)) by apply Hm.
  rewrite !Z.shiftr_div_pow2 by lia. Z.div_mod_to_equations; lia.
Qed.

Lemma be32_decode (pre post : list Z) (v : Z) :
  0 <= v < 2 ^ 32 ->
  endian.be32_to_host (endian.load32 (pre ++ be_bytes 4 v ++ post) (Z.of_nat (length pre)))
  = v.
Proof.
  intros Hv.
  assert (Hm : forall k, 0 <= Z.shiftr v k mod 256 < 256)
    by (intros; apply Z.mod_pos_bound; lia).
  rewrite load32_bytes, <- (Z.add_0_r (Z.of_nat (length pre))) at 1.
  rewrite !byte_at_app by lia. unfold endian.byte_at. simpl.
  rewrite (be32_bytes (_ mod 256) (_ mod 256) (_ mod 256) (_ mod 256)) by apply Hm.
  rewrite !Z.shiftr_div_pow2 by lia. Z.div_mod_to_equations; lia.
Qed.

Lemma be64_decode (pre post : list Z) (v : Z) :
  0 <= v < 2 ^ 64 ->
  endian.be64_to_host (endian.load64 (pre ++ be_bytes 8 v ++ post) (Z.of_nat (length pre)))
  = v.
Proof.
  intros Hv.
  assert (Hm : forall k, 0 <= Z.shiftr v k mod 256 < 256)
    by (intros; apply Z.mod_pos_bound; lia).
  rewrite load64_bytes, <- (Z.add_0_r (Z.of_nat (length pre))) at 1.
  rewrite !byte_at_app by lia. unfold endian.byte_at. simpl.
  rewrite (be64_bytes (_ mod 256) (_ mod 256) (_ mod 256) (_ mod 256)
                      (_ mod 256) (_ mod 256) (_ mod 256) (_ mod 256)) by apply Hm.
  rewrite !Z.shiftr_div_pow2 by lia. Z.div_mod_to_equations; lia.
Qed.

Lemma be48_decode (pre post : list Z) (v : Z) :
  0 <= v < 2 ^ 48 ->
  endian.be48_to_host (pre ++ be_bytes 6 v ++ post) (Z.of_nat (length pre)) = v.
Proof.
  intros Hv.
  assert (Hm : forall k, 0 <= Z.shiftr v k mod 256 < 256)
    by (intros; apply Z.mod_pos_bound; lia).
  rewrite be48_bytes.
  - rewrite <- (Z.add_0_r (Z.of_nat (length pre))) at 6.
    rewrite !byte_at_app by lia. unfold endian.byte_at. simpl.
    rewrite !Z.shiftr_div_pow2 by lia. Z.div_mod_to_equations; lia.
  - intros i Hi. rewrite byte_at_app by lia.
    assert (Hc : i = 0 \/ i = 1 \/ i = 2 \/ i = 3 \/ i = 4 \/ i = 5) by lia.
    destruct Hc as [->|[->|[->|[->|[->| ->]]]]]; apply Hm.
Qed.

(** The byte swaps are involutions on the values of their width. *)
Lemma byte_swap_involutive (v : Z) :
  (0 <= v < 2 ^ 16 ->
     0 <= endian.be16_to_host v < 2 ^ 16 /\
     endian.be16_to_host (endian.be16_to_host v) = v) /\
  (0 <= v < 2 ^ 32 ->
     0 <= endian.be32_to_host v < 2 ^ 32 /\
     endian.be32_to_host (endian.be32_to_host v) = v) /\
  (0 <= v < 2 ^ 64 ->
     0 <= endian.be64_to_host v < 2 ^ 64 /\
     endian.be64_to_host (endian.be64_to_host v) = v).
Proof.
  assert (Hm : forall x, 0 <= x mod 256 < 256) by (intros; apply Z.mod_pos_bound; lia).
  split; [|split]; intros Hv.
  - pose proof (Hm v) as H0. pose proof (Hm (v / 2 ^ 8)) as H1.
    assert (Hd : v = v mod 256 + (v / 2 ^ 8) mod 256 * 256)
      by (Z.div_mod_to_equations; lia).
    revert H0 H1 Hd. generalize (v mod 256) ((v / 2 ^ 8) mod 256).
    intros b0 b1 H0 H1 ->. rewrite !be16_bytes by done. lia.
  - pose proof (Hm v) as H0. pose proof (Hm (v / 2 ^ 8)) as H1.
    pose proof (Hm (v / 2 ^ 16)) as H2. pose proof (Hm (v / 2 ^ 24)) as H3.
    assert (Hd : v = v mod 256 + (v / 2 ^ 8) mod 256 * 2 ^ 8 +
                     (v / 2 ^ 16) mod 256 * 2 ^ 16 + (v / 2 ^ 24) mod 256 * 2 ^ 24)
      by (Z.div_mod_to_equations; lia).
    revert H0 H1 H2 H3 Hd.
    generalize (v mod 256) ((v / 2 ^ 8) mod 256) ((v / 2 ^ 16) mod 256)
               ((v / 2 ^ 24) mod 256).
    intros b0 b1 b2 b3 H0 H1 H2 H3 ->. rewrite be32_bytes by done.
    split; [lia|]. rewrite be32_bytes by done. lia.
  - pose proof (Hm v) as H0. pose proof (Hm (v / 2 ^ 8)) as H1.
    pose proof (Hm (v / 2 ^ 16)) as H2. pose proof (Hm (v / 2 ^ 24)) as H3.
    pose proof (Hm (v / 2 ^ 32)) as H4. pose proof (Hm (v / 2 ^ 40)) as H5.
    pose proof (Hm (v / 2 ^ 48)) as H6. pose proof (Hm (v / 2 ^ 56)) as H7.
    assert (Hd : v = v mod 256 + (v / 2 ^ 8) mod 256 * 2 ^ 8 +
                     (v / 2 ^ 16) mod 256 * 2 ^ 16 + (v / 2 ^ 24) mod 256 * 2 ^ 24 +
                     (v / 2 ^ 32) mod 256 * 2 ^ 32 + (v / 2 ^ 40) mod 256 * 2 ^ 40 +
                     (v / 2 ^ 48) mod 256 * 2 ^ 48 + (v / 2 ^ 56) mod 256 * 2 ^ 56)
      by (Z.div_mod_to_equations; lia).
    revert H0 H1 H2 H3 H4 H5 H6 H7 Hd.
    generalize (v mod 256) ((v / 2 ^ 8) mod 256) ((v / 2 ^ 16) mod 256)
               ((v / 2 ^ 24) mod 256) ((v / 2 ^ 32) mod 256) ((v / 2 ^ 40) mod 256)
               ((v / 2 ^ 48) mod 256) ((v / 2 ^ 56) mod 256).
    intros b0 b1 b2 b3 b4 b5 b6 b7 H0 H1 H2 H3 H4 H5 H6 H7 ->.
    rewrite be64_bytes by done.
    split; [lia|]. rewrite be64_bytes by done. lia.
Qed.

(** X1: decoding a big-endian field. For a value [v] that fits the field,
    the 2, 4 or 8 bytes of [v] in network order, read as a packed struct
    field at any offset of a buffer and passed to [be16_to_host],
    [be32_to_host] or [be64_to_host], give [v] back; so do the 6 bytes of a
    timestamp read by [be48_to_host]. Each of the three byte swaps returns
    a value of its width and, applied twice, its argument: the same
    function converts from host order back to network order. *)
Theorem X1_big_endian_round_trip (pre post : list Z) (v : Z) :
  let off := Z.of_nat (length pre) in
  (0 <= v < 2 ^ 16 ->
     endian.be16_to_host (endian.load16 (pre ++ be_bytes 2 v ++ post) off) = v) /\
  (0 <= v < 2 ^ 32 ->
     endian.be32_to_host (endian.load32 (pre ++ be_bytes 4 v ++ post) off) = v) /\
  (0 <= v < 2 ^ 64 ->
     endian.be64_to_host (endian.load64 (pre ++ be_bytes 8 v ++ post) off) = v) /\
  (0 <= v < 2 ^ 48 ->
     endian.be48_to_host (pre ++ be_bytes 6 v ++ post) off = v) /\
  (0 <= v < 2 ^ 16 ->
     0 <= endian.be16_to_host v < 2 ^ 16 /\
     endian.be16_to_host (endian.be16_to_host v) = v) /\
  (0 <= v < 2 ^ 32 ->
     0 <= endian.be32_to_host v < 2 ^ 32 /\
     endian.be32_to_host (endian.be32_to_host v) = v) /\
  (0 <= v < 2 ^ 64 ->
     0 <= endian.be64_to_host v < 2 ^ 64 /\
     endian.be64_to_host (endian.be64_to_host v) = v).
Proof.
  intros off. split; [apply be16_decode|]. split; [apply be32_decode|].
  split; [apply be64_decode|]. split; [apply be48_decode|].
  apply byte_swap_involutive.
Qed.

(** ** Symbols as keys *)

Lemma memcmp_eq (a b : list Z) : length a = length b -> Symbol.memcmp a b = 0 <-> a = b.
Proof.
  revert b. induction a as [|x a IH]; intros [|y b] Hlen; try done. simpl in *.
  destruct (Z.ltb_spec x y); [split; [done|intros [= -> _]; lia]|].
  destruct (Z.ltb_spec y x); [split; [done|intros [= -> _]; lia]|].
  assert (x = y) as -> by lia. rewrite IH by lia. split; [by intros ->|by intros [= ->]].
Qed.

Lemma memcmp_swap (a b : list Z) :
  length a = length b -> Symbol.memcmp b a = - Symbol.memcmp a b.
Proof.
  revert b. induction a as [|x a IH]; intros [|y b] Hlen; try done. simpl in *.
  destruct (Z.ltb_spec x y), (Z.ltb_spec y x); try lia. apply IH. lia.
Qed.

Lemma memcmp_sign (a b : list Z) :
  Symbol.memcmp a b = -1 \/ Symbol.memcmp a b = 0 \/ Symbol.memcmp a b = 1.
Proof.
  revert b. induction a as [|x a IH]; intros [|y b]; simpl; try tauto.
  destruct (x <? y); [tauto|]. destruct (y <? x); [tauto|]. apply IH.
Qed.

Lemma memcmp_trans (a b c : list Z) :
  length a = length b -> length b = length c ->
  Symbol.memcmp a b < 0 -> Symbol.memcmp b c < 0 -> Symbol.memcmp a c < 0.
Proof.
  revert b c. induction a as [|x a IH]; intros [|y b] [|z c] Hab Hbc; try done; simpl in *;
    try lia.
  destruct (Z.ltb_spec x y), (Z.ltb_spec y x), (Z.ltb_spec y z), (Z.ltb_spec z y),
    (Z.ltb_spec x z), (Z.ltb_spec z x); try lia.
  apply IH; lia.
Qed.

Lemma xor_shift_range (x : Z) : 0 <= x < 2 ^ 64 -> 0 <= xor_shift x < 2 ^ 64.
Proof.
  intros Hx. unfold xor_shift.
  assert (H0 : 0 <= Z.lxor x (Z.shiftr x 33))
    by (apply Z.lxor_nonneg; rewrite Z.shiftr_nonneg; lia).
  apply Z.bounded_iff_bits_nonneg'; [lia|done|]. intros l Hl.
  rewrite Z.lxor_spec, Z.shiftr_spec by lia.
  rewrite !(proj1 (Z.bounded_iff_bits_nonneg' 64 x ltac:(lia) ltac:(lia)) Hx) by lia. done.
Qed.

Lemma xor_shift_involutive (x : Z) : 0 <= x < 2 ^ 64 -> xor_shift (xor_shift x) = x.
Proof.
  intros Hx. unfold xor_shift. apply Z.bits_inj'. intros n Hn.
  rewrite !Z.lxor_spec, !Z.shiftr_spec, !Z.lxor_spec, !Z.shiftr_spec by lia.
  rewrite (proj1 (Z.bounded_iff_bits_nonneg' 64 x ltac:(lia) ltac:(lia)) Hx (n + 33 + 33))
    by lia.
  destruct (Z.testbit x n), (Z.testbit x (n + 33)); done.
Qed.

Lemma unmultiply (x c c' : Z) :
  0 <= x < 2 ^ 64 -> wrap64 (c * c') = 1 -> wrap64 (wrap64 (x * c) * c') = x.
Proof.
  intros Hx Hc. unfold wrap64 in *. rewrite Zmult_mod_idemp_l, <- Z.mul_assoc.
  rewrite <- Zmult_mod_idemp_r, Hc, Z.mul_1_r. apply Z.mod_small. lia.
Qed.

Lemma wrap64_range (x : Z) : 0 <= wrap64 x < 2 ^ 64.
Proof. apply Z.mod_pos_bound. lia. Qed.

Lemma load64_symbol (s : Symbol.t) :
  is_symbol s ->
  0 <= endian.load64 s 0 < 2 ^ 64 /\
  forall s', is_symbol s' -> endian.load64 s' 0 = endian.load64 s 0 -> s' = s.
Proof.
  assert (Hbytes : forall s, is_symbol s ->
    exists b0 b1 b2 b3 b4 b5 b6 b7,
      s = [b0; b1; b2; b3; b4; b5; b6; b7] /\
      (0 <= b0 < 256 /\ 0 <= b1 < 256 /\ 0 <= b2 < 256 /\ 0 <= b3 < 256) /\
      (0 <= b4 < 256 /\ 0 <= b5 < 256 /\ 0 <= b6 < 256 /\ 0 <= b7 < 256) /\
      endian.load64 s 0 = b0 + b1 * 2 ^ 8 + b2 * 2 ^ 16 + b3 * 2 ^ 24 +
                          b4 * 2 ^ 32 + b5 * 2 ^ 40 + b6 * 2 ^ 48 + b7 * 2 ^ 56).
  { intros s0 [Hlen Hall].
    destruct s0 as [|b0 [|b1 [|b2 [|b3 [|b4 [|b5 [|b6 [|b7 [|? ?]]]]]]]]]; try done.
    exists b0, b1, b2, b3, b4, b5, b6, b7. split; [done|].
    repeat (apply Forall_cons in Hall as [? Hall]).
    split; [done|]. split; [done|]. by rewrite load64_bytes. }
  intros Hs. destruct (Hbytes s Hs) as (a0 & a1 & a2 & a3 & a4 & a5 & a6 & a7 & -> & Ha & Ha' &
    Hla).
  split; [rewrite Hla; lia|].
  intros s' Hs' Heq.
  destruct (Hbytes s' Hs') as (b0 & b1 & b2 & b3 & b4 & b5 & b6 & b7 & -> & Hb & Hb' & Hlb).
  rewrite Hla, Hlb in Heq.
  assert (b0 = a0) by lia. assert (b1 = a1) by lia. assert (b2 = a2) by lia.
  assert (b3 = a3) by lia. assert (b4 = a4) by lia. assert (b5 = a5) by lia.
  assert (b6 = a6) by lia. assert (b7 = a7) by lia. by subst.
Qed.

(** [unmix] undoes [SymbolHash] on the 64-bit load of the bytes. *)
Lemma unmix_hash (s : Symbol.t) :
  is_symbol s -> 0 <= SymbolHash s < 2 ^ 64 /\ unmix (SymbolHash s) = endian.load64 s 0.
Proof.
  intros Hs. destruct (load64_symbol s Hs) as [Hr _].
  unfold SymbolHash, unmix. cbv zeta. fold (xor_shift (endian.load64 s 0)).
  set (x1 := xor_shift (endian.load64 s 0)).
  fold (xor_shift (wrap64 (x1 * 18397679294719823053))).
  set (x2 := xor_shift (wrap64 (x1 * 18397679294719823053))).
  fold (xor_shift (wrap64 (x2 * 14181476777654086739))).
  assert (H1 : 0 <= x1 < 2 ^ 64) by (by apply xor_shift_range).
  assert (H2 : 0 <= x2 < 2 ^ 64) by (apply xor_shift_range, wrap64_range).
  split; [apply xor_shift_range, wrap64_range|].
  rewrite xor_shift_involutive by apply wrap64_range.
  rewrite (unmultiply x2) by done. unfold x2.
  rewrite xor_shift_involutive by apply wrap64_range.
  rewrite (unmultiply x1) by done. unfold x1.
  by apply xor_shift_involutive.
Qed.

(** X2: symbols as keys. On 8-byte symbols [operator==] holds exactly for
    equal bytes and [operator!=] is its negation; [operator<] is a strict
    total order (irreflexive, asymmetric, transitive, and two different
    symbols are ordered one way); [SymbolHash] returns a 64-bit value and
    is injective, each of its mixing steps being invertible, so that equal
    hashes mean equal symbols. *)
Theorem X2_symbol_keys (a b c : Symbol.t) :
  is_symbol a -> is_symbol b -> is_symbol c ->
  (Symbol.eq a b = true <-> a = b) /\
  Symbol.ne a b = negb (Symbol.eq a b) /\
  Symbol.lt a a = false /\
  (Symbol.lt a b = true -> Symbol.lt b a = false) /\
  (Symbol.lt a b = true -> Symbol.lt b c = true -> Symbol.lt a c = true) /\
  (a <> b -> Symbol.lt a b = true \/ Symbol.lt b a = true) /\
  0 <= SymbolHash a < 2 ^ 64 /\
  (SymbolHash a = SymbolHash b <-> a = b).
Proof.
  intros Ha Hb Hc. pose proof Ha as [Hla _]. pose proof Hb as [Hlb _].
  pose proof Hc as [Hlc _].
  assert (Hab : length a = length b) by congruence.
  assert (Hbc : length b = length c) by congruence.
  pose proof (memcmp_eq a b Hab) as Heq. pose proof (memcmp_swap a b Hab) as Hsw.
  pose proof (memcmp_sign a b) as Hsg.
  unfold Symbol.eq, Symbol.ne, Symbol.lt.
  split; [by rewrite Z.eqb_eq|]. split; [done|]. split.
  { rewrite (proj2 (memcmp_eq a a eq_refl) eq_refl). done. }
  split. { rewrite !Z.ltb_lt, Z.ltb_ge. lia. }
  split. { rewrite !Z.ltb_lt. by apply memcmp_trans. }
  split. { intros Hne. rewrite !Z.ltb_lt. rewrite <- Heq in Hne. lia. }
  split; [by apply unmix_hash|].
  split; [|by intros ->]. intros Hh.
  destruct (unmix_hash a Ha) as [_ Hua]. destruct (unmix_hash b Hb) as [_ Hub].
  apply (load64_symbol b Hb); [done|]. by rewrite <- Hua, <- Hub, Hh.
Qed.

Lemma symbol_aapl_ok : is_symbol symbol_aapl.
Proof. split; [done|]. unfold symbol_aapl. repeat (apply Forall_cons; split; [lia|]). constructor. Qed.

Lemma symbol_msft_ok : is_symbol symbol_msft.
Proof. split; [done|]. unfold symbol_msft. repeat (apply Forall_cons; split; [lia|]). constructor. Qed.

Example symbol_scenario :
  (Symbol.eq symbol_aapl symbol_msft, Symbol.lt symbol_aapl symbol_msft,
   Symbol.lt symbol_msft symbol_aapl, unmix (SymbolHash symbol_msft),
   endian.load64 symbol_msft 0) =
  (false, true, false, 2314885531693372237, 2314885531693372237).
Proof. vm_compute. reflexivity. Qed.

(** The theorem on AAPL, MSFT and AAPL. *)
Lemma X2_witness :
  is_symbol symbol_aapl /\
  is_symbol symbol_msft /\
  is_symbol symbol_aapl /\
  ((Symbol.eq symbol_aapl symbol_msft = true <-> symbol_aapl = symbol_msft) /\
    Symbol.ne symbol_aapl symbol_msft = negb (Symbol.eq symbol_aapl symbol_msft) /\
    Symbol.lt symbol_aapl symbol_aapl = false /\
    (Symbol.lt symbol_aapl symbol_msft = true -> Symbol.lt symbol_msft symbol_aapl = false) /\
    (Symbol.lt symbol_aapl symbol_msft = true -> Symbol.lt symbol_msft symbol_aapl = true ->
        Symbol.lt symbol_aapl symbol_aapl = true) /\
    (symbol_aapl <> symbol_msft -> Symbol.lt symbol_aapl symbol_msft = true \/ Symbol.lt
        symbol_msft symbol_aapl = true) /\
    0 <= SymbolHash symbol_aapl < 2 ^ 64 /\
    (SymbolHash symbol_aapl = SymbolHash symbol_msft <-> symbol_aapl = symbol_msft)).
Proof.
  split; [apply symbol_aapl_ok|]. split; [apply symbol_msft_ok|].
  split; [apply symbol_aapl_ok|].
  apply (X2_symbol_keys symbol_aapl symbol_msft symbol_aapl);
    [apply symbol_aapl_ok|apply symbol_msft_ok|apply symbol_aapl_ok].
Defined.

(** ** Streams of messages *)

Lemma is_frame_spec (f : list Z) :
  is_frame f = true ->
  get_message_size (endian.byte_at f 0) = Z.of_nat (length f) /\ (0 < length f)%nat.
Proof.
  unfold is_frame. rewrite andb_true_iff, negb_true_iff, Z.eqb_neq, Z.eqb_eq.
  intros [Hn He]. split; [done|].
  destruct f; [exfalso; apply Hn; reflexivity|simpl; lia].
Qed.

Lemma byte_at_app_l (f l : list Z) (i : Z) :
  0 <= i < Z.of_nat (length f) -> endian.byte_at (f ++ l) i = endian.byte_at f i.
Proof. intros Hi. unfold endian.byte_at. by rewrite lookup_app_l by lia. Qed.

Lemma byte_at_drop (data : list Z) (n : nat) (i : Z) :
  0 <= i -> endian.byte_at (drop n data) i = endian.byte_at data (Z.of_nat n + i).
Proof.
  intros Hi. unfold endian.byte_at. rewrite lookup_drop. f_equal. f_equal. lia.
Qed.

Lemma frames_length (frames : list (list Z)) :
  Forall (fun f => is_frame f = true) frames ->
  (length frames <= length (concat frames))%nat.
Proof.
  induction 1 as [|f fs Hf _ IH]; simpl; [done|].
  apply is_frame_spec in Hf as [_ Hf]. rewrite length_app. lia.
Qed.

Section Streams.
Context {H : Type} `{!MessageHandler H}.

(** One complete message at the head of the buffer. *)
Lemma template_parse_frame (q : @TemplateParser.t H) (f l : list Z) (max_len : Z) :
  is_frame f = true -> Z.of_nat (length f) <= max_len ->
  TemplateParser.parse_message q (f ++ l) max_len =
    (Z.of_nat (length f),
     TemplateParser.mk
       (TemplateParser.dispatch (endian.byte_at (f ++ l) 0) (f ++ l)
          (endian.be48_to_host (f ++ l) 5) (TemplateParser.handler_ q))
       (TemplateParser.stats_ q)).
Proof.
  intros Hf Hl. apply is_frame_spec in Hf as [Hs Hpos].
  unfold TemplateParser.parse_message.
  rewrite (byte_at_app_l f l 0) by lia. rewrite Hs.
  destruct (Z.eqb_spec max_len 0); [lia|].
  destruct (Z.eqb_spec (Z.of_nat (length f)) 0); [lia|].
  destruct (Z.ltb_spec max_len (Z.of_nat (length f))); [lia|]. done.
Qed.

Lemma itch_parse_frame (p : @ITCHParser.t H) (f l : list Z) (max_len : Z) :
  is_frame f = true -> Z.of_nat (length f) <= max_len ->
  ITCHParser.parse_message p (f ++ l) max_len =
    (Z.of_nat (length f),
     ITCHParser.mk
       (ITCHParser.dispatch_message (endian.byte_at (f ++ l) 0) (f ++ l)
          (ITCHParser.extract_timestamp (f ++ l)) (ITCHParser.handler_ p))
       (counted (ITCHParser.stats_ p) (endian.byte_at f 0) (Z.of_nat (length f)))).
Proof.
  intros Hf Hl. apply is_frame_spec in Hf as [Hs Hpos].
  unfold ITCHParser.parse_message.
  rewrite (byte_at_app_l f l 0) by lia. rewrite Hs.
  destruct (Z.eqb_spec max_len 0); [lia|].
  destruct (Z.eqb_spec (Z.of_nat (length f)) 0); [lia|].
  destruct (Z.ltb_spec max_len (Z.of_nat (length f))); [lia|]. done.
Qed.

Lemma template_parse_stream (frames : list (list Z)) (rest : list Z) :
  Forall (fun f => is_frame f = true) frames ->
  forall (fuel : nat) (pre : list Z) (h : H) (st : ParserStats.t),
    (length frames < fuel)%nat ->
    TemplateParser.parse_loop fuel (TemplateParser.mk h st)
      (pre ++ concat frames ++ rest)
      (Z.of_nat (length pre) + Z.of_nat (length (concat frames)))
      (Z.of_nat (length pre)) =
    Some (Z.of_nat (length pre) + Z.of_nat (length (concat frames)),
          TemplateParser.mk (template_calls (stream_views frames rest) h) st).
Proof.
  induction 1 as [|f fs Hf Hfs IH]; intros fuel pre h st Hfuel.
  - destruct fuel as [|fuel]; [simpl in Hfuel; lia|].
    cbn [TemplateParser.parse_loop concat length]. rewrite Z.add_0_r, Z.ltb_irrefl. done.
  - destruct fuel as [|fuel]; [simpl in Hfuel; lia|].
    pose proof (is_frame_spec f Hf) as [Hs Hpos].
    cbn [TemplateParser.parse_loop concat]. rewrite length_app.
    destruct (Z.ltb_spec (Z.of_nat (length pre))
                (Z.of_nat (length pre) + Z.of_nat (length f + length (concat fs))));
      [|lia].
    rewrite Nat2Z.id, drop_app_length, <- app_assoc.
    rewrite template_parse_frame by (done || lia).
    destruct (Z.eqb_spec (Z.of_nat (length f)) 0); [lia|].
    specialize (IH fuel (pre ++ f)
      (TemplateParser.dispatch (endian.byte_at (f ++ concat fs ++ rest) 0)
         (f ++ concat fs ++ rest) (endian.be48_to_host (f ++ concat fs ++ rest) 5) h)
      st ltac:(simpl in Hfuel; lia)).
    rewrite length_app, <- app_assoc in IH.
    replace (Z.of_nat (length pre) + Z.of_nat (length f))
      with (Z.of_nat (length pre + length f)) by lia.
    replace (Z.of_nat (length pre) + Z.of_nat (length f + length (concat fs)))
      with (Z.of_nat (length pre + length f) + Z.of_nat (length (concat fs))) by lia.
    cbn [TemplateParser.handler_ TemplateParser.stats_].
    rewrite IH. done.
Qed.

Lemma itch_parse_stream (frames : list (list Z)) (rest : list Z) :
  Forall (fun f => is_frame f = true) frames ->
  forall (fuel : nat) (pre : list Z) (h : option H) (st : ParserStats.t),
    (length frames < fuel)%nat ->
    ITCHParser.parse_loop fuel (ITCHParser.mk h st)
      (pre ++ concat frames ++ rest)
      (Z.of_nat (length pre) + Z.of_nat (length (concat frames)))
      (Z.of_nat (length pre)) =
    Some (Z.of_nat (length pre) + Z.of_nat (length (concat frames)),
          ITCHParser.mk (itch_calls (stream_views frames rest) h)
                        (counted_all frames st)).
Proof.
  induction 1 as [|f fs Hf Hfs IH]; intros fuel pre h st Hfuel.
  - destruct fuel as [|fuel]; [simpl in Hfuel; lia|].
    cbn [ITCHParser.parse_loop concat length]. rewrite Z.add_0_r, Z.ltb_irrefl. done.
  - destruct fuel as [|fuel]; [simpl in Hfuel; lia|].
    pose proof (is_frame_spec f Hf) as [Hs Hpos].
    cbn [ITCHParser.parse_loop concat]. rewrite length_app.
    destruct (Z.ltb_spec (Z.of_nat (length pre))
                (Z.of_nat (length pre) + Z.of_nat (length f + length (concat fs))));
      [|lia].
    rewrite Nat2Z.id, drop_app_length, <- app_assoc.
    rewrite itch_parse_frame by (done || lia).
    destruct (Z.eqb_spec (Z.of_nat (length f)) 0); [lia|].
    specialize (IH fuel (pre ++ f)
      (ITCHParser.dispatch_message (endian.byte_at (f ++ concat fs ++ rest) 0)
         (f ++ concat fs ++ rest) (ITCHParser.extract_timestamp (f ++ concat fs ++ rest)) h)
      (counted st (endian.byte_at f 0) (Z.of_nat (length f)))
      ltac:(simpl in Hfuel; lia)).
    rewrite length_app, <- app_assoc in IH.
    replace (Z.of_nat (length pre) + Z.of_nat (length f))
      with (Z.of_nat (length pre + length f)) by lia.
    replace (Z.of_nat (length pre) + Z.of_nat (length f + length (concat fs)))
      with (Z.of_nat (length pre + length f) + Z.of_nat (length (concat fs))) by lia.
    cbn [ITCHParser.handler_ ITCHParser.stats_].
    rewrite IH. done.
Qed.

(** X3: a buffer of complete messages is parsed to its end. For messages
    with known type tags, each as long as its struct, laid end to end
    (and followed in memory by any bytes [rest] beyond [len]), [parse] of
    either parser returns [len]; the handler has received one callback per
    message, in stream order, each with the address of its message and its
    timestamp; [ITCHParser] has counted every message, [TemplateParser]
    leaves its statistics as they were. *)
Theorem X3_parse_stream (p : @ITCHParser.t H) (q : @TemplateParser.t H)
        (frames : list (list Z)) (rest : list Z) :
  Forall (fun f => is_frame f = true) frames ->
  let data := concat frames ++ rest in
  let len := Z.of_nat (length (concat frames)) in
  ITCHParser.parse p data len =
    Some (len, ITCHParser.mk
                 (itch_calls (stream_views frames rest) (ITCHParser.handler_ p))
                 (counted_all frames (ITCHParser.stats_ p))) /\
  TemplateParser.parse q data len =
    Some (len, TemplateParser.mk
                 (template_calls (stream_views frames rest) (TemplateParser.handler_ q))
                 (TemplateParser.stats_ q)).
Proof.
  intros Hfs data len. pose proof (frames_length frames Hfs) as Hlen.
  split.
  - destruct p as [h st]. unfold ITCHParser.parse.
    exact (itch_parse_stream frames rest Hfs (S (Z.to_nat len)) [] h st ltac:(lia)).
  - destruct q as [h st]. unfold TemplateParser.parse.
    exact (template_parse_stream frames rest Hfs (S (Z.to_nat len)) [] h st ltac:(lia)).
Qed.
End Streams.

(** ** The parse loops on any input *)

Section Loops.
Context {H : Type} `{!MessageHandler H}.

Lemma wrap64_add_l (a b : Z) : wrap64 (wrap64 a + b) = wrap64 (a + b).
Proof. unfold wrap64. by rewrite Zplus_mod_idemp_l. Qed.

Lemma wrap64_add_r (a b : Z) : wrap64 (a + wrap64 b) = wrap64 (a + b).
Proof. unfold wrap64. by rewrite Zplus_mod_idemp_r. Qed.

Lemma size_known (tag : Z) :
  get_message_size tag <> 0 ->
  exists v, message_type_of tag = Some v /\ get_message_size tag = sizeof_message v.
Proof.
  unfold get_message_size. destruct (message_type_of tag) as [v|]; [eauto|done].
Qed.

(** The three outcomes of [ITCHParser::parse_message] on a non-empty
    input. *)
Lemma itch_parse_message_cases (p : @ITCHParser.t H) (data : list Z) (max_len : Z) :
  0 < max_len ->
  let tag := endian.byte_at data 0 in
  let st := ITCHParser.stats_ p in
  exists c p', ITCHParser.parse_message p data max_len = (c, p') /\
    wrap64 (ParserStats.bytes_processed (ITCHParser.stats_ p') +
            ParserStats.parse_errors (ITCHParser.stats_ p')) =
    wrap64 (ParserStats.bytes_processed st + ParserStats.parse_errors st + c) /\
    ((c = 1 /\ message_type_of tag = None) \/
     (c = 0 /\ p' = p /\
      exists v, message_type_of tag = Some v /\ max_len < sizeof_message v) \/
     (exists v, message_type_of tag = Some v /\ c = sizeof_message v /\ 0 < c <= max_len)).
Proof.
  intros Hm tag st. subst st. unfold ITCHParser.parse_message. fold tag.
  destruct (Z.eqb_spec max_len 0); [lia|].
  destruct (Z.eqb_spec (get_message_size tag) 0) as [Hz|Hnz].
  - eexists _, _. split; [done|]. cbn [ITCHParser.stats_ ParserStats.bytes_processed
      ParserStats.parse_errors]. split.
    + rewrite wrap64_add_r. apply (f_equal wrap64); lia.
    + left. split; [done|]. unfold get_message_size in Hz.
      destruct (message_type_of tag) as [v|]; [|done].
      pose proof (sizeof_message_pos v). lia.
  - destruct (size_known tag Hnz) as (v & Hv & Hs).
    pose proof (sizeof_message_pos v) as Hpos.
    destruct (Z.ltb_spec max_len (get_message_size tag)).
    + eexists _, _. split; [done|]. split; [apply (f_equal wrap64); lia|].
      right. left. do 2 (split; [done|]). exists v. split; [done|lia].
    + eexists _, _. split; [done|]. cbn [ITCHParser.stats_ ParserStats.bytes_processed
        ParserStats.parse_errors]. split.
      * rewrite wrap64_add_l. apply (f_equal wrap64); lia.
      * right. right. exists v. split; [done|]. lia.
Qed.

Lemma template_parse_message_cases (q : @TemplateParser.t H) (data : list Z)
      (max_len : Z) :
  0 < max_len ->
  let tag := endian.byte_at data 0 in
  exists c q', TemplateParser.parse_message q data max_len = (c, q') /\
    TemplateParser.stats_ q' = TemplateParser.stats_ q /\
    ((c = 0 /\ q' = q /\
      (message_type_of tag = None \/
       exists v, message_type_of tag = Some v /\ max_len < sizeof_message v)) \/
     (exists v, message_type_of tag = Some v /\ c = sizeof_message v /\ 0 < c <= max_len)).
Proof.
  intros Hm tag. unfold TemplateParser.parse_message. fold tag.
  destruct (Z.eqb_spec max_len 0); [lia|].
  destruct (Z.eqb_spec (get_message_size tag) 0) as [Hz|Hnz]; cbn [orb].
  - eexists _, _. split; [done|]. split; [done|]. left. do 2 (split; [done|]).
    left. unfold get_message_size in Hz.
    destruct (message_type_of tag) as [v|]; [|done].
    pose proof (sizeof_message_pos v). lia.
  - destruct (size_known tag Hnz) as (v & Hv & Hs).
    pose proof (sizeof_message_pos v) as Hpos.
    destruct (Z.ltb_spec max_len (get_message_size tag)).
    + eexists _, _. split; [done|]. split; [done|]. left. do 2 (split; [done|]).
      right. exists v. split; [done|lia].
    + eexists _, _. split; [done|]. split; [done|].
      right. exists v. split; [done|]. lia.
Qed.

Lemma itch_parse_loop_spec (data : list Z) (len : Z) (fuel : nat) :
  forall (offset : Z) (p : @ITCHParser.t H),
    0 <= offset <= len -> (Z.to_nat (len - offset) < fuel)%nat ->
    exists r p', ITCHParser.parse_loop fuel p data len offset = Some (r, p') /\
      offset <= r <= len /\
      (r < len -> exists v, message_type_of (endian.byte_at data r) = Some v /\
                            len - r < sizeof_message v) /\
      wrap64 (ParserStats.bytes_processed (ITCHParser.stats_ p') +
              ParserStats.parse_errors (ITCHParser.stats_ p')) =
      wrap64 (ParserStats.bytes_processed (ITCHParser.stats_ p) +
              ParserStats.parse_errors (ITCHParser.stats_ p) + (r - offset)).
Proof.
  induction fuel as [|fuel IH]; intros offset p Ho Hf; [lia|].
  cbn [ITCHParser.parse_loop].
  destruct (Z.ltb_spec offset len) as [Hlt|Hge].
  - destruct (itch_parse_message_cases p (drop (Z.to_nat offset) data) (len - offset)
                ltac:(lia)) as (c & p1 & -> & Hacc & Hcase).
    rewrite byte_at_drop, Z2Nat.id, Z.add_0_r in Hcase by lia.
    destruct Hcase as [[-> Hnone]|[(-> & -> & v & Hv & Hshort)|(v & Hv & -> & Hc)]].
    + cbn [Z.eqb]. destruct (IH (offset + 1) p1 ltac:(lia) ltac:(lia))
        as (r & p' & -> & Hr & Hstop & Hacc').
      exists r, p'. split; [done|]. split; [lia|]. split; [done|].
      rewrite Hacc'. rewrite <- wrap64_add_l, Hacc, wrap64_add_l. apply (f_equal wrap64); lia.
    + cbn [Z.eqb]. exists offset, p. split; [done|]. split; [lia|]. split; [eauto|].
      apply (f_equal wrap64); lia.
    + destruct (Z.eqb_spec (sizeof_message v) 0); [lia|].
      destruct (IH (offset + sizeof_message v) p1 ltac:(lia) ltac:(lia))
        as (r & p' & -> & Hr & Hstop & Hacc').
      exists r, p'. split; [done|]. split; [lia|]. split; [done|].
      rewrite Hacc'. rewrite <- wrap64_add_l, Hacc, wrap64_add_l. apply (f_equal wrap64); lia.
  - exists offset, p. split; [done|]. split; [lia|]. split; [lia|]. apply (f_equal wrap64); lia.
Qed.

Lemma template_parse_loop_spec (data : list Z) (len : Z) (fuel : nat) :
  forall (offset : Z) (q : @TemplateParser.t H),
    0 <= offset <= len -> (Z.to_nat (len - offset) < fuel)%nat ->
    exists r q', TemplateParser.parse_loop fuel q data len offset = Some (r, q') /\
      offset <= r <= len /\
      TemplateParser.stats_ q' = TemplateParser.stats_ q /\
      (r < len ->
         message_type_of (endian.byte_at data r) = None \/
         exists v, message_type_of (endian.byte_at data r) = Some v /\
                   len - r < sizeof_message v).
Proof.
  induction fuel as [|fuel IH]; intros offset q Ho Hf; [lia|].
  cbn [TemplateParser.parse_loop].
  destruct (Z.ltb_spec offset len) as [Hlt|Hge].
  - destruct (template_parse_message_cases q (drop (Z.to_nat offset) data) (len - offset)
                ltac:(lia)) as (c & q1 & -> & Hst & Hcase).
    rewrite byte_at_drop, Z2Nat.id, Z.add_0_r in Hcase by lia.
    destruct Hcase as [(-> & -> & Hwhy)|(v & Hv & -> & Hc)].
    + cbn [Z.eqb]. exists offset, q. split; [done|]. split; [lia|]. split; [done|].
      by intros _.
    + destruct (Z.eqb_spec (sizeof_message v) 0); [lia|].
      destruct (IH (offset + sizeof_message v) q1 ltac:(lia) ltac:(lia))
        as (r & q' & -> & Hr & Hst' & Hstop).
      exists r, q'. split; [done|]. split; [lia|]. split; [congruence|done].
  - exists offset, q. split; [done|]. split; [lia|]. split; [done|lia].
Qed.

(** X4: [parse] returns, and where it stops. For every buffer, [parse] of
    either parser terminates with an offset within the buffer.
    [ITCHParser] stops before the end only at a known type tag whose
    message is longer than the bytes that remain: an unknown byte is
    skipped, not stopped at.  [TemplateParser] stops before the end at an
    unknown type tag as well, and never changes its statistics. *)
Theorem X4_parse_stops (p : @ITCHParser.t H) (q : @TemplateParser.t H)
        (data : list Z) (len : Z) :
  0 <= len ->
  (exists r p', ITCHParser.parse p data len = Some (r, p') /\ 0 <= r <= len /\
     (r < len -> exists v, message_type_of (endian.byte_at data r) = Some v /\
                           len - r < sizeof_message v)) /\
  (exists r q', TemplateParser.parse q data len = Some (r, q') /\ 0 <= r <= len /\
     TemplateParser.stats_ q' = TemplateParser.stats_ q /\
     (r < len ->
        message_type_of (endian.byte_at data r) = None \/
        exists v, message_type_of (endian.byte_at data r) = Some v /\
                  len - r < sizeof_message v)).
Proof.
  intros Hlen. split.
  - destruct (itch_parse_loop_spec data len (S (Z.to_nat len)) 0 p ltac:(lia) ltac:(lia))
      as (r & p' & Hrun & Hr & Hstop & _).
    exists r, p'. done.
  - destruct (template_parse_loop_spec data len (S (Z.to_nat len)) 0 q
                ltac:(lia) ltac:(lia)) as (r & q' & Hrun & Hr & Hst & Hstop).
    exists r, q'. done.
Qed.

(** X5: the statistics of [ITCHParser::parse] account for every consumed
    byte. The returned offset is the growth of [bytes_processed] plus the
    growth of [parse_errors] (as 64-bit counters): each consumed byte
    belongs to a counted message or is one counted parse error. *)
Theorem X5_parse_accounting (p : @ITCHParser.t H) (data : list Z) (len : Z) :
  0 <= len ->
  exists r p', ITCHParser.parse p data len = Some (r, p') /\
    wrap64 (ParserStats.bytes_processed (ITCHParser.stats_ p') +
            ParserStats.parse_errors (ITCHParser.stats_ p')) =
    wrap64 (ParserStats.bytes_processed (ITCHParser.stats_ p) +
            ParserStats.parse_errors (ITCHParser.stats_ p) + r).
Proof.
  intros Hlen.
  destruct (itch_parse_loop_spec data len (S (Z.to_nat len)) 0 p ltac:(lia) ltac:(lia))
    as (r & p' & Hrun & _ & _ & Hacc).
  exists r, p'. split; [done|]. rewrite Hacc. apply (f_equal wrap64); lia.
Qed.
End Loops.

(** ** MoldUDP64 packets *)

Lemma frame_length_bound (f : list Z) :
  is_frame f = true -> 12 <= Z.of_nat (length f) <= 50.
Proof.
  intros Hf. apply is_frame_spec in Hf as [Hs Hpos].
  unfold get_message_size in Hs. destruct (message_type_of _) as [v|]; [|lia].
  rewrite <- Hs. apply sizeof_message_pos.
Qed.

Section Packets.
Context {H : Type} `{!MessageHandler H}.

Lemma template_mold_blocks (frames : list (list Z)) (rest : list Z) :
  Forall (fun f => is_frame f = true) frames ->
  forall (pre : list Z) (h : H) (st : ParserStats.t) (n : Z),
    TemplateParser.moldudp64_loop (length frames) (TemplateParser.mk h st)
      (pre ++ mold_blocks frames ++ rest)
      (Z.of_nat (length pre) + Z.of_nat (length (mold_blocks frames)))
      (Z.of_nat (length pre)) n =
    (n + Z.of_nat (length frames),
     TemplateParser.mk (template_calls (mold_views frames rest) h) st).
Proof.
  induction 1 as [|f fs Hf Hfs IH]; intros pre h st n.
  - cbn. by rewrite Z.add_0_r.
  - pose proof (frame_length_bound f Hf) as Hb.
    cbn [TemplateParser.moldudp64_loop mold_blocks length].
    rewrite !length_app, be_bytes_length.
    destruct (Z.leb_spec (Z.of_nat (length pre) + 2)
                (Z.of_nat (length pre) +
                 Z.of_nat (2 + (length f + length (mold_blocks fs))))); [|lia].
    rewrite <- !app_assoc.
    rewrite be16_decode by lia.
    destruct (Z.ltb_spec
                (Z.of_nat (length pre) + Z.of_nat (2 + (length f + length (mold_blocks fs))))
                (Z.of_nat (length pre) + 2 + Z.of_nat (length f))); [lia|].
    replace (Z.to_nat (Z.of_nat (length pre) + 2))
      with (length (pre ++ be_bytes 2 (Z.of_nat (length f))))
      by (rewrite length_app, be_bytes_length; lia).
    rewrite (app_assoc pre), drop_app_length.
    rewrite template_parse_frame by (done || lia).
    destruct (Z.ltb_spec 0 (Z.of_nat (length f))); [|lia].
    specialize (IH (pre ++ be_bytes 2 (Z.of_nat (length f)) ++ f)
      (TemplateParser.dispatch (endian.byte_at (f ++ mold_blocks fs ++ rest) 0)
         (f ++ mold_blocks fs ++ rest)
         (endian.be48_to_host (f ++ mold_blocks fs ++ rest) 5) h) st (n + 1)).
    rewrite !length_app, be_bytes_length, <- !app_assoc in IH.
    rewrite <- !app_assoc.
    cbn [TemplateParser.handler_ TemplateParser.stats_].
    replace (Z.of_nat (length pre) + 2 + Z.of_nat (length f))
      with (Z.of_nat (length pre + (2 + length f))) by lia.
    replace (Z.of_nat (length pre) + Z.of_nat (2 + (length f + length (mold_blocks fs))))
      with (Z.of_nat (length pre + (2 + length f)) + Z.of_nat (length (mold_blocks fs)))
      by lia.
    rewrite IH. cbn [mold_views template_calls foldl]. f_equal. lia.
Qed.

Lemma itch_mold_blocks (frames : list (list Z)) (rest : list Z) :
  Forall (fun f => is_frame f = true) frames ->
  forall (pre : list Z) (h : option H) (st : ParserStats.t) (n : Z),
    ITCHParser.moldudp64_loop (length frames) (ITCHParser.mk h st)
      (pre ++ mold_blocks frames ++ rest)
      (Z.of_nat (length pre) + Z.of_nat (length (mold_blocks frames)))
      (Z.of_nat (length pre)) n =
    (n + Z.of_nat (length frames),
     ITCHParser.mk (itch_calls (mold_views frames rest) h) (counted_all frames st)).
Proof.
  induction 1 as [|f fs Hf Hfs IH]; intros pre h st n.
  - cbn. by rewrite Z.add_0_r.
  - pose proof (frame_length_bound f Hf) as Hb.
    cbn [ITCHParser.moldudp64_loop mold_blocks length].
    rewrite !length_app, be_bytes_length.
    destruct (Z.leb_spec (Z.of_nat (length pre) + 2)
                (Z.of_nat (length pre) +
                 Z.of_nat (2 + (length f + length (mold_blocks fs))))); [|lia].
    rewrite <- !app_assoc.
    rewrite be16_decode by lia.
    destruct (Z.ltb_spec
                (Z.of_nat (length pre) + Z.of_nat (2 + (length f + length (mold_blocks fs))))
                (Z.of_nat (length pre) + 2 + Z.of_nat (length f))); [lia|].
    replace (Z.to_nat (Z.of_nat (length pre) + 2))
      with (length (pre ++ be_bytes 2 (Z.of_nat (length f))))
      by (rewrite length_app, be_bytes_length; lia).
    rewrite (app_assoc pre), drop_app_length.
    rewrite itch_parse_frame by (done || lia).
    destruct (Z.ltb_spec 0 (Z.of_nat (length f))); [|lia].
    specialize (IH (pre ++ be_bytes 2 (Z.of_nat (length f)) ++ f)
      (ITCHParser.dispatch_message (endian.byte_at (f ++ mold_blocks fs ++ rest) 0)
         (f ++ mold_blocks fs ++ rest)
         (ITCHParser.extract_timestamp (f ++ mold_blocks fs ++ rest)) h)
      (counted st (endian.byte_at f 0) (Z.of_nat (length f))) (n + 1)).
    rewrite !length_app, be_bytes_length, <- !app_assoc in IH.
    rewrite <- !app_assoc.
    cbn [ITCHParser.handler_ ITCHParser.stats_].
    replace (Z.of_nat (length pre) + 2 + Z.of_nat (length f))
      with (Z.of_nat (length pre + (2 + length f))) by lia.
    replace (Z.of_nat (length pre) + Z.of_nat (2 + (length f + length (mold_blocks fs))))
      with (Z.of_nat (length pre + (2 + length f)) + Z.of_nat (length (mold_blocks fs)))
      by lia.
    rewrite IH. cbn [mold_views itch_calls counted_all foldl]. f_equal. lia.
Qed.

(** X6: a well-formed MoldUDP64 packet is delivered in full. For a packet
    made of 18 bytes of session and sequence number, the message count,
    and that many complete messages with known type tags, each behind its
    2-byte length, [parse_moldudp64] of either parser returns the message
    count; the handler has received one callback per message, in packet
    order, with the address of the message and its timestamp;
    [ITCHParser] has counted every message. *)
Theorem X6_moldudp64_packet (p : @ITCHParser.t H) (q : @TemplateParser.t H)
        (session_and_sequence : list Z) (frames : list (list Z)) (rest : list Z) :
  length session_and_sequence = 18%nat ->
  Forall (fun f => is_frame f = true) frames ->
  Z.of_nat (length frames) < 65536 ->
  let data := mold_packet session_and_sequence frames ++ rest in
  let len := Z.of_nat (length (mold_packet session_and_sequence frames)) in
  ITCHParser.parse_moldudp64 p data len =
    (Z.of_nat (length frames),
     ITCHParser.mk (itch_calls (mold_views frames rest) (ITCHParser.handler_ p))
                   (counted_all frames (ITCHParser.stats_ p))) /\
  TemplateParser.parse_moldudp64 q data len =
    (Z.of_nat (length frames),
     TemplateParser.mk (template_calls (mold_views frames rest) (TemplateParser.handler_ q))
                       (TemplateParser.stats_ q)).
Proof.
  intros Hh Hfs Hn data len. subst data len. unfold mold_packet.
  rewrite !length_app, be_bytes_length, Hh.
  assert (Hc : endian.be16_to_host
            (endian.load16
               ((session_and_sequence ++
                 be_bytes 2 (Z.of_nat (length frames)) ++ mold_blocks frames) ++ rest) 18)
          = Z.of_nat (length frames)).
  { rewrite <- !app_assoc. replace 18 with (Z.of_nat (length session_and_sequence)) by lia.
    apply be16_decode. lia. }
  assert (Hd : (session_and_sequence ++
                be_bytes 2 (Z.of_nat (length frames)) ++ mold_blocks frames) ++ rest =
               (session_and_sequence ++ be_bytes 2 (Z.of_nat (length frames))) ++
               mold_blocks frames ++ rest) by (by rewrite <- !app_assoc).
  assert (Hl : length (session_and_sequence ++ be_bytes 2 (Z.of_nat (length frames))) =
               20%nat) by (rewrite length_app, be_bytes_length; lia).
  split.
  - destruct p as [h st]. unfold ITCHParser.parse_moldudp64.
    unfold ITCHParser.MOLDUDP64_HEADER_SIZE.
    destruct (Z.ltb_spec (Z.of_nat (18 + (2 + length (mold_blocks frames)))) 20); [lia|].
    rewrite Hc, Nat2Z.id, Hd.
    pose proof (itch_mold_blocks frames rest Hfs
                  (session_and_sequence ++ be_bytes 2 (Z.of_nat (length frames))) h st 0)
      as Hrun.
    rewrite Hl in Hrun.
    replace (Z.of_nat (18 + (2 + length (mold_blocks frames))))
      with (Z.of_nat 20 + Z.of_nat (length (mold_blocks frames))) by lia.
    change 20 with (Z.of_nat 20). by rewrite Hrun.
  - destruct q as [h st]. unfold TemplateParser.parse_moldudp64.
    unfold TemplateParser.MOLDUDP64_HEADER_SIZE.
    destruct (Z.ltb_spec (Z.of_nat (18 + (2 + length (mold_blocks frames)))) 20); [lia|].
    rewrite Hc, Nat2Z.id, Hd.
    pose proof (template_mold_blocks frames rest Hfs
                  (session_and_sequence ++ be_bytes 2 (Z.of_nat (length frames))) h st 0)
      as Hrun.
    rewrite Hl in Hrun.
    replace (Z.of_nat (18 + (2 + length (mold_blocks frames))))
      with (Z.of_nat 20 + Z.of_nat (length (mold_blocks frames))) by lia.
    change 20 with (Z.of_nat 20). by rewrite Hrun.
Qed.

Lemma itch_mold_loop_bound (remaining : nat) (data : list Z) (len : Z) :
  forall (p : @ITCHParser.t H) (offset n : Z),
    n <= (ITCHParser.moldudp64_loop remaining p data len offset n).1
      <= n + Z.of_nat remaining.
Proof.
  induction remaining as [|r IH]; intros p offset n; cbn [ITCHParser.moldudp64_loop].
  - simpl. lia.
  - destruct (_ <=? _); [|simpl; lia].
    destruct (_ <? _); [simpl; lia|].
    destruct (ITCHParser.parse_message _ _ _) as [c p'].
    match goal with |- context [ITCHParser.moldudp64_loop r p' data len ?o ?m] =>
      pose proof (IH p' o m) end.
    destruct (0 <? c); lia.
Qed.

Lemma template_mold_loop_bound (remaining : nat) (data : list Z) (len : Z) :
  forall (q : @TemplateParser.t H) (offset n : Z),
    n <= (TemplateParser.moldudp64_loop remaining q data len offset n).1
      <= n + Z.of_nat remaining /\
    TemplateParser.stats_ (TemplateParser.moldudp64_loop remaining q data len offset n).2 =
      TemplateParser.stats_ q.
Proof.
  induction remaining as [|r IH]; intros q offset n; cbn [TemplateParser.moldudp64_loop].
  - simpl. split; [lia|done].
  - destruct (_ <=? _); [|simpl; split; [lia|done]].
    destruct (_ <? _); [simpl; split; [lia|done]|].
    match goal with |- context [TemplateParser.parse_message q ?d ?m] =>
      assert (Hst : TemplateParser.stats_ (TemplateParser.parse_message q d m).2 =
                    TemplateParser.stats_ q)
        by (unfold TemplateParser.parse_message;
            repeat match goal with |- context [if ?b then _ else _] => destruct b end;
            done);
      destruct (TemplateParser.parse_message q d m) as [c q'] end.
    simpl in Hst.
    match goal with |- context [TemplateParser.moldudp64_loop r q' data len ?o ?m] =>
      pose proof (IH q' o m) as [IH1 IH2] end.
    split; [destruct (0 <? c); lia|congruence].
Qed.

(** X7: what [parse_moldudp64] reports at most. A packet shorter than
    the 20-byte header is ignored: the result is 0 and the parser and
    its handler are as before. On every packet the result is at most the
    message count announced in the header, which is below 65536;
    [TemplateParser] leaves its statistics as they were. *)
Theorem X7_moldudp64_bounds (p : @ITCHParser.t H) (q : @TemplateParser.t H)
        (data : list Z) (len : Z) :
  let announced := endian.be16_to_host (endian.load16 data 18) in
  (len < 20 ->
     ITCHParser.parse_moldudp64 p data len = (0, p) /\
     TemplateParser.parse_moldudp64 q data len = (0, q)) /\
  0 <= (ITCHParser.parse_moldudp64 p data len).1 <= announced /\
  0 <= (TemplateParser.parse_moldudp64 q data len).1 <= announced /\
  announced < 65536 /\
  TemplateParser.stats_ (TemplateParser.parse_moldudp64 q data len).2 =
    TemplateParser.stats_ q.
Proof.
  intros announced. pose proof (be16_range (endian.load16 data 18)) as Hr.
  fold announced in Hr.
  unfold ITCHParser.parse_moldudp64, TemplateParser.parse_moldudp64,
    ITCHParser.MOLDUDP64_HEADER_SIZE, TemplateParser.MOLDUDP64_HEADER_SIZE.
  fold announced.
  destruct (Z.ltb_spec len 20) as [Hs|Hl].
  - split; [done|]. simpl. repeat split; lia.
  - split; [lia|].
    pose proof (itch_mold_loop_bound (Z.to_nat announced) data len p 20 0).
    pose proof (template_mold_loop_bound (Z.to_nat announced) data len q 20 0) as [? ?].
    repeat split; (done || lia).
Qed.
End Packets.

(** *** Concrete inputs *)

(** The theorem on two Add Order messages followed by a byte that is not part
    of the buffer. *)
Lemma X3_witness :
  Forall (fun f => is_frame f = true) [add_order_bytes; add_order_bytes] /\
  (let data := concat [add_order_bytes; add_order_bytes] ++ [90] in
      let len := Z.of_nat (length (concat [add_order_bytes; add_order_bytes])) in
      ITCHParser.parse itch_recorder data len =
        Some (len, ITCHParser.mk
                     (itch_calls (stream_views [add_order_bytes; add_order_bytes] [90])
                         (ITCHParser.handler_ itch_recorder))
                     (counted_all [add_order_bytes; add_order_bytes] (ITCHParser.stats_
                         itch_recorder))) /\
      TemplateParser.parse template_recorder data len =
        Some (len, TemplateParser.mk
                     (template_calls (stream_views [add_order_bytes; add_order_bytes] [90])
                         (TemplateParser.handler_ template_recorder))
                     (TemplateParser.stats_ template_recorder))).
Proof.
  split; [by repeat constructor|].
  apply (X3_parse_stream itch_recorder template_recorder
           [add_order_bytes; add_order_bytes] [90]).
  by repeat constructor.
Defined.

(** The theorem on an Add Order message followed by an unknown byte and the
    first byte of a second Add Order message. *)
Lemma X4_witness :
  0 <= 38 /\
  ((exists r p', ITCHParser.parse itch_recorder (add_order_bytes ++ [90; 65]) 38 = Some (r,
      p') /\ 0 <= r <= 38 /\
         (r < 38 -> exists v, message_type_of (endian.byte_at (add_order_bytes ++ [90; 65])
             r) = Some v /\
                               38 - r < sizeof_message v)) /\
      (exists r q', TemplateParser.parse template_recorder (add_order_bytes ++ [90; 65]) 38
          = Some (r, q') /\ 0 <= r <= 38 /\
         TemplateParser.stats_ q' = TemplateParser.stats_ template_recorder /\
         (r < 38 ->
            message_type_of (endian.byte_at (add_order_bytes ++ [90; 65]) r) = None \/
            exists v, message_type_of (endian.byte_at (add_order_bytes ++ [90; 65]) r) =
                Some v /\
                      38 - r < sizeof_message v))).
Proof.
  split; [lia|].
  apply (X4_parse_stops itch_recorder template_recorder (add_order_bytes ++ [90; 65]) 38).
  lia.
Defined.

(** On that buffer [ITCHParser] skips the unknown byte and stops at the
    truncated message, [TemplateParser] stops at the unknown byte. *)
Example parse_stops_scenario :
  fst <$> ITCHParser.parse itch_recorder (add_order_bytes ++ [90; 65]) 38 = Some 37 /\
  fst <$> TemplateParser.parse template_recorder (add_order_bytes ++ [90; 65]) 38 = Some 36.
Proof. split; vm_compute; reflexivity. Qed.

(** The theorem on the same buffer. *)
Lemma X5_witness :
  0 <= 38 /\
  (exists r p', ITCHParser.parse itch_recorder (add_order_bytes ++ [90; 65]) 38 = Some (r,
      p') /\
        wrap64 (ParserStats.bytes_processed (ITCHParser.stats_ p') +
                ParserStats.parse_errors (ITCHParser.stats_ p')) =
        wrap64 (ParserStats.bytes_processed (ITCHParser.stats_ itch_recorder) +
                ParserStats.parse_errors (ITCHParser.stats_ itch_recorder) + r)).
Proof.
  split; [lia|].
  apply (X5_parse_accounting itch_recorder (add_order_bytes ++ [90; 65]) 38). lia.
Defined.

(** The theorem on a packet of two Add Order messages. *)
Lemma X6_witness :
  length (replicate 18 0) = 18%nat /\
  Forall (fun f => is_frame f = true) [add_order_bytes; add_order_bytes] /\
  Z.of_nat (length [add_order_bytes; add_order_bytes]) < 65536 /\
  (let data := mold_packet (replicate 18 0) [add_order_bytes; add_order_bytes] ++ [90] in
      let len := Z.of_nat (length (mold_packet (replicate 18 0) [add_order_bytes;
          add_order_bytes])) in
      ITCHParser.parse_moldudp64 itch_recorder data len =
        (Z.of_nat (length [add_order_bytes; add_order_bytes]),
         ITCHParser.mk (itch_calls (mold_views [add_order_bytes; add_order_bytes] [90])
             (ITCHParser.handler_ itch_recorder))
                       (counted_all [add_order_bytes; add_order_bytes] (ITCHParser.stats_
                           itch_recorder))) /\
      TemplateParser.parse_moldudp64 template_recorder data len =
        (Z.of_nat (length [add_order_bytes; add_order_bytes]),
         TemplateParser.mk (template_calls (mold_views [add_order_bytes; add_order_bytes]
             [90]) (TemplateParser.handler_ template_recorder))
                           (TemplateParser.stats_ template_recorder))).
Proof.
  split; [reflexivity|]. split; [by repeat constructor|]. split; [reflexivity|].
  apply (X6_moldudp64_packet itch_recorder template_recorder (replicate 18 0)
           [add_order_bytes; add_order_bytes] [90]);
    [reflexivity|by repeat constructor|reflexivity].
Defined.

(** ** The tables of message types *)

Lemma valid_type_known (c : Z) : is_valid_message_type c = true <-> c ∈ known_tags.
Proof.
  unfold is_valid_message_type, known_tags.
  rewrite !orb_true_iff, !Z.eqb_eq, !elem_of_cons, elem_of_nil. lia.
Qed.

(** X8: the switches over the type tag agree. [is_valid_message_type]
    accepts a tag exactly when [get_message_size] gives it a size other
    than 0, which is when the dispatchers have a case for it; every such
    size is between 12 and 50 bytes, so the six timestamp bytes at offset 5
    lie inside every message; on any other tag [TemplateParser]'s dispatch
    calls nothing. *)
Theorem X8_type_tables_agree {H : Type} `{!MessageHandler H}
        (c : Z) (data : list Z) (ts : Z) (h : H) :
  (is_valid_message_type c = true <-> get_message_size c <> 0) /\
  (is_valid_message_type c = true <-> exists v, message_type_of c = Some v) /\
  (is_valid_message_type c = true -> 12 <= get_message_size c <= 50) /\
  (is_valid_message_type c = false ->
     get_message_size c = 0 /\ TemplateParser.dispatch c data ts h = h).
Proof.
  rewrite valid_type_known. split; [|split; [|split]].
  - pose proof (known_tag_size c). destruct (decide (c ∈ known_tags)); tauto.
  - apply known_tag_Some.
  - intros Hk. apply known_tag_Some in Hk as [v Hv]. unfold get_message_size.
    rewrite Hv. apply sizeof_message_pos.
  - intros Hf.
    assert (Hn : c ∉ known_tags).
    { intros Hk. apply valid_type_known in Hk. congruence. }
    split; [by apply known_tag_size|].
    apply known_tag_None in Hn. unfold TemplateParser.dispatch. by rewrite Hn.
Qed.

(** ** The order index: insertion, missing keys, the reserved id *)

(** X9: insert, then look up. On every reachable index state, [put] of an
    id other than 0 that is not stored returns, also when it has to grow
    the table; afterwards [find] of that id returns the stored reference
    and [find] of every other id returns what it returned before. *)
Theorem X9_put_then_find (m : OrderMap.t) (abs : gmap Z (option ptr)) (i : Z)
        (o : option ptr) :
  om_reachable m abs -> i <> 0 -> abs !! i = None ->
  exists m', OrderMap.put m i o = Some m' /\
    OrderMap.find m' i = Some o /\
    (forall k, k <> i -> OrderMap.find m' k = OrderMap.find m k) /\
    om_reachable m' (<[i:=o]> abs).
Proof.
  intros Hr Hi Hf. pose proof (om_reachable_repr _ _ Hr) as Hrepr.
  destruct (put_spec m abs i o Hrepr Hf) as (m' & Hput & Hrepr').
  rewrite decide_False in Hrepr' by done.
  exists m'. split; [done|]. split; [|split].
  - by rewrite (find_spec m' _ i Hrepr'), lookup_insert_eq.
  - intros k Hk. rewrite (find_spec m' _ k Hrepr'), (find_spec m abs k Hrepr).
    by rewrite lookup_insert_ne.
  - by eapply reach_put.
Qed.

(** X10: the shape of the table, and a missing key. On every reachable
    index state the capacity is a power of two, at least 2, [mask_] is the
    capacity minus 1, the vector has [capacity_] slots, at most [load_]
    slots are occupied and [load_] is at most half the capacity; [find] of
    an id that is not stored returns null. *)
Theorem X10_table_shape (m : OrderMap.t) (abs : gmap Z (option ptr)) :
  om_reachable m abs ->
  (exists k, 1 <= k /\ OrderMap.capacity_ m = 2 ^ k) /\
  OrderMap.mask_ m = OrderMap.capacity_ m - 1 /\
  Z.of_nat (length (OrderMap.entries_ m)) = OrderMap.capacity_ m /\
  occ_count (OrderMap.entries_ m) <= OrderMap.load_ m /\
  2 * OrderMap.load_ m <= OrderMap.capacity_ m /\
  (forall i, abs !! i = None -> OrderMap.find m i = Some None).
Proof.
  intros Hr. pose proof (om_reachable_repr _ _ Hr) as Hrepr.
  pose proof Hrepr as [(k & Hk & Hcap & Hmask & Hok & Hocc & Hld) _].
  split; [eauto|]. split; [done|]. split; [by apply t_len|]. split; [done|].
  split; [done|]. intros i Hi. by rewrite (find_spec m abs i Hrepr), Hi.
Qed.

(** X11: id 0 is the empty-slot marker and cannot be stored. On every
    reachable index state [put] of id 0 returns, but the reference is lost:
    [find] of every id, 0 included, returns what it returned before, and
    [find] of 0 is null. *)
Theorem X11_zero_id_is_lost (m : OrderMap.t) (abs : gmap Z (option ptr)) (o : option ptr) :
  om_reachable m abs ->
  exists m', OrderMap.put m 0 o = Some m' /\
    OrderMap.find m' 0 = Some None /\
    (forall k, OrderMap.find m' k = OrderMap.find m k).
Proof.
  intros Hr. pose proof (om_reachable_repr _ _ Hr) as Hrepr.
  pose proof (om_repr_zero m abs Hrepr) as Hz.
  destruct (put_spec m abs 0 o Hrepr Hz) as (m' & Hput & Hrepr').
  rewrite decide_True in Hrepr' by done.
  exists m'. split; [done|]. split.
  - by rewrite (find_spec m' abs 0 Hrepr'), Hz.
  - intros k. by rewrite (find_spec m' abs k Hrepr'), (find_spec m abs k Hrepr).
Qed.

Lemma pow2_loop_exact (k : Z) (fuel : nat) :
  forall j, 0 <= j <= k -> k - j <= Z.of_nat fuel ->
    OrderMap.pow2_loop fuel (2 ^ j) (2 ^ k) = 2 ^ k.
Proof.
  induction fuel as [|fuel IH]; intros j Hj Hf; simpl.
  - by replace j with k by lia.
  - destruct (Z.ltb_spec (2 ^ j) (2 ^ k)) as [Hlt|Hge].
    + replace (2 ^ j * 2) with (2 ^ (j + 1)) by (rewrite Z.pow_add_r by lia; lia).
      apply IH; [|lia]. split; [lia|].
      destruct (Z_lt_le_dec j k) as [|Hjk]; [lia|].
      replace j with k in Hlt by lia. lia.
    + destruct (Z_lt_le_dec j k) as [Hjk|Hjk]; [|by replace j with k by lia].
      pose proof (Z.pow_lt_mono_r 2 j k ltac:(lia) ltac:(lia) Hjk). lia.
Qed.

(** X12: [clear] gives back a new table. On every reachable index state
    the cleared table is the table that the constructor builds for the
    same capacity; [find] of every id returns null on it. *)
Theorem X12_clear_is_new (m : OrderMap.t) (abs : gmap Z (option ptr)) :
  om_reachable m abs ->
  OrderMap.new_with (OrderMap.capacity_ m) = Some (OrderMap.clear m) /\
  (forall i, OrderMap.find (OrderMap.clear m) i = Some None) /\
  om_reachable (OrderMap.clear m) ∅.
Proof.
  intros Hr. pose proof (om_reachable_repr _ _ Hr) as Hrepr.
  pose proof Hrepr as [(k & Hk & Hcap & Hmask & Hok & Hocc & Hld) _].
  pose proof (t_len _ _ Hok) as Hlen.
  assert (Hnew : OrderMap.new_with (OrderMap.capacity_ m) = Some (OrderMap.clear m)).
  { assert (Hp : OrderMap.pow2_loop (S (Z.to_nat (Z.log2_up (OrderMap.capacity_ m)))) 1
                   (OrderMap.capacity_ m) = OrderMap.capacity_ m).
    { rewrite Hcap, Z.log2_up_pow2 by lia. change 1 with (2 ^ 0) at 1.
      apply pow2_loop_exact; lia. }
    unfold OrderMap.new_with, OrderMap.resize. cbn [OrderMap.entries_]. rewrite Hp.
    cbn [OrderMap.reinsert]. unfold OrderMap.clear. rewrite Hmask.
    do 3 f_equal. lia. }
  assert (Hc2 : 2 <= OrderMap.capacity_ m) by (by apply (cap_ge2 _ k)).
  split; [done|].
  assert (Hreach : om_reachable (OrderMap.clear m) ∅) by (by eapply reach_new).
  split; [|done].
  intros i. by rewrite (find_spec _ ∅ i (om_reachable_repr _ _ Hreach)), lookup_empty.
Qed.

(** ** The object pool *)

Lemma nodup_range_length (l : list Z) (n : Z) :
  NoDup l -> (forall q, q ∈ l -> 0 <= q < n) -> 0 <= n -> Z.of_nat (length l) <= n.
Proof.
  intros Hnd Hr Hn.
  assert (Hsub : l ⊆+ seqZ 0 n).
  { apply NoDup_submseteq; [done|]. intros q Hq. apply elem_of_seqZ. apply Hr in Hq. lia. }
  apply submseteq_length in Hsub. rewrite length_seqZ in Hsub. lia.
Qed.

Lemma pool_available_le (pool : ObjectPool.t) :
  pool_ok pool -> 0 <= ObjectPool.available pool <= ObjectPool.capacity pool.
Proof.
  intros [Hb Hnd Hr]. unfold ObjectPool.available, ObjectPool.capacity.
  split; [lia|]. apply nodup_range_length; [done|done|].
  pose proof BlockSize_pos. lia.
Qed.

(** X13: the discipline of the pool. On a pool whose free list holds
    distinct slots of its blocks, [acquire] returns a slot inside the
    capacity that is no longer free; it allocates one block exactly when no
    slot was available, and otherwise hands out the slot released last; the
    next [acquire] returns a different slot; releasing the slot and
    acquiring again returns the same slot and the same pool; the free
    slots never exceed the capacity. *)
Theorem X13_pool_discipline (pool pool1 : ObjectPool.t) (p : ptr) :
  pool_ok pool -> ObjectPool.acquire pool = (p, pool1) ->
  pool_ok pool1 /\
  0 <= p < ObjectPool.capacity pool1 /\
  (p ∉ ObjectPool.free_list_ pool1) /\
  (ObjectPool.available pool = 0 ->
     ObjectPool.capacity pool1 = ObjectPool.capacity pool + ObjectPool.BlockSize /\
     ObjectPool.available pool1 = ObjectPool.BlockSize - 1) /\
  (0 < ObjectPool.available pool ->
     ObjectPool.capacity pool1 = ObjectPool.capacity pool /\
     ObjectPool.available pool1 = ObjectPool.available pool - 1 /\
     head (ObjectPool.free_list_ pool) = Some p) /\
  (forall q pool2, ObjectPool.acquire pool1 = (q, pool2) -> q <> p) /\
  ObjectPool.acquire (ObjectPool.release pool1 p) = (p, pool1) /\
  0 <= ObjectPool.available pool1 <= ObjectPool.capacity pool1.
Proof.
  intros Hok Hacq.
  destruct (acquire_spec pool pool1 p Hok Hacq) as (Hok1 & _ & _ & Hnf & Hrange & _ & _).
  split; [done|]. split; [done|]. split; [done|].
  split; [|split; [|split; [|split]]].
  - intros Hz. unfold ObjectPool.available in Hz.
    destruct (ObjectPool.free_list_ pool) as [|x l] eqn:E; [|simpl in Hz; lia].
    unfold ObjectPool.acquire in Hacq. rewrite E in Hacq.
    cbn [ObjectPool.allocate_block ObjectPool.free_list_ ObjectPool.blocks_] in Hacq.
    rewrite E, app_nil_r in Hacq.
    destruct (reverse (seqZ (ObjectPool.blocks_ pool * ObjectPool.BlockSize)
                            ObjectPool.BlockSize)) as [|y r] eqn:Er.
    { apply (f_equal length) in Er. rewrite length_reverse, length_seqZ in Er.
      simpl in Er. pose proof BlockSize_pos. lia. }
    injection Hacq as <- <-.
    unfold ObjectPool.capacity, ObjectPool.available.
    cbn [ObjectPool.blocks_ ObjectPool.free_list_].
    apply (f_equal length) in Er. rewrite length_reverse, length_seqZ in Er.
    cbn [length] in Er. unfold ObjectPool.BlockSize in *.
    unfold ptr in *. split; lia.
  - intros Hpos. unfold ObjectPool.available in Hpos.
    destruct (ObjectPool.free_list_ pool) as [|x l] eqn:E; [simpl in Hpos; lia|].
    unfold ObjectPool.acquire in Hacq. rewrite E in Hacq. rewrite E in Hacq.
    injection Hacq as <- <-.
    unfold ObjectPool.capacity, ObjectPool.available.
    cbn [ObjectPool.blocks_ ObjectPool.free_list_]. rewrite E. simpl.
    split; [done|]. split; [lia|done].
  - intros q pool2 Hacq2.
    destruct (acquire_spec pool1 pool2 q Hok1 Hacq2) as (_ & _ & _ & _ & _ & Hq & _).
    unfold ObjectPool.capacity in Hrange. intros ->. destruct Hq as [Hq|Hq]; [done|lia].
  - unfold ObjectPool.acquire, ObjectPool.release. cbn [ObjectPool.free_list_].
    by destruct pool1.
  - by apply pool_available_le.
Qed.

(** *** Concrete inputs *)

(** The theorem on [om_two], whose four slots hold two ids: the insertion of
    id 9 doubles the table. *)
Lemma X9_witness :
  om_reachable om_two abs_two /\
  9 <> 0 /\
  abs_two !! 9 = None /\
  (exists m', OrderMap.put om_two 9 (Some 12) = Some m' /\
      OrderMap.find m' 9 = Some (Some 12) /\
      (forall k, k <> 9 -> OrderMap.find m' k = OrderMap.find om_two k) /\
      om_reachable m' (<[9:=(Some 12)]> abs_two)).
Proof.
  split; [apply om_two_reachable|]. split; [done|]. split; [done|].
  apply (X9_put_then_find om_two abs_two 9 (Some 12)); [apply om_two_reachable|done|done].
Defined.

Example put_grows_scenario :
  OrderMap.capacity_ om_two = 4 /\
  OrderMap.capacity_ <$> OrderMap.put om_two 9 (Some 12) = Some 8 /\
  (m ← OrderMap.put om_two 9 (Some 12);
   r1 ← OrderMap.find m 1; r5 ← OrderMap.find m 5; r9 ← OrderMap.find m 9;
   Some (r1, r5, r9)) = Some (Some 10, Some 11, Some 12).
Proof. repeat split; vm_compute; reflexivity. Qed.

(** The theorem on [om_two]. *)
Lemma X10_witness :
  om_reachable om_two abs_two /\
  ((exists k, 1 <= k /\ OrderMap.capacity_ om_two = 2 ^ k) /\
    OrderMap.mask_ om_two = OrderMap.capacity_ om_two - 1 /\
    Z.of_nat (length (OrderMap.entries_ om_two)) = OrderMap.capacity_ om_two /\
    occ_count (OrderMap.entries_ om_two) <= OrderMap.load_ om_two /\
    2 * OrderMap.load_ om_two <= OrderMap.capacity_ om_two /\
    (forall i, abs_two !! i = None -> OrderMap.find om_two i = Some None)).
Proof.
  split; [apply om_two_reachable|].
  apply (X10_table_shape om_two abs_two). apply om_two_reachable.
Defined.

(** The theorem on [om_two]. *)
Lemma X11_witness :
  om_reachable om_two abs_two /\
  (exists m', OrderMap.put om_two 0 (Some 12) = Some m' /\
      OrderMap.find m' 0 = Some None /\
      (forall k, OrderMap.find m' k = OrderMap.find om_two k)).
Proof.
  split; [apply om_two_reachable|].
  apply (X11_zero_id_is_lost om_two abs_two (Some 12)). apply om_two_reachable.
Defined.

(** The theorem on [om_two]. *)
Lemma X12_witness :
  om_reachable om_two abs_two /\
  (OrderMap.new_with (OrderMap.capacity_ om_two) = Some (OrderMap.clear om_two) /\
    (forall i, OrderMap.find (OrderMap.clear om_two) i = Some None) /\
    om_reachable (OrderMap.clear om_two) ∅).
Proof.
  split; [apply om_two_reachable|].
  apply (X12_clear_is_new om_two abs_two). apply om_two_reachable.
Defined.

(** The theorem on the first [acquire] of a new pool, which hands out slot
    4095. *)
Lemma X13_witness :
  pool_ok ObjectPool.new /\
  ObjectPool.acquire ObjectPool.new = (4095, pool_acquired) /\
  (pool_ok pool_acquired /\
    0 <= 4095 < ObjectPool.capacity pool_acquired /\
    (4095 ∉ ObjectPool.free_list_ pool_acquired) /\
    (ObjectPool.available ObjectPool.new = 0 ->
       ObjectPool.capacity pool_acquired = ObjectPool.capacity ObjectPool.new +
           ObjectPool.BlockSize /\
       ObjectPool.available pool_acquired = ObjectPool.BlockSize - 1) /\
    (0 < ObjectPool.available ObjectPool.new ->
       ObjectPool.capacity pool_acquired = ObjectPool.capacity ObjectPool.new /\
       ObjectPool.available pool_acquired = ObjectPool.available ObjectPool.new - 1 /\
       head (ObjectPool.free_list_ ObjectPool.new) = Some 4095) /\
    (forall q pool2, ObjectPool.acquire pool_acquired = (q, pool2) -> q <> 4095) /\
    ObjectPool.acquire (ObjectPool.release pool_acquired 4095) = (4095, pool_acquired) /\
    0 <= ObjectPool.available pool_acquired <= ObjectPool.capacity pool_acquired).
Proof.
  split; [apply pool_new_ok|]. split; [reflexivity|].
  apply (X13_pool_discipline ObjectPool.new pool_acquired 4095);
    [apply pool_new_ok|reflexivity].
Defined.

(** ** Adding and deleting one order *)

(** X14: [add_order] of a new order. On a well-formed book, for an id
    other than 0 that is not in the book, [add_order] returns a pointer to
    a record with the given fields; [get_order] finds it under its id; it
    is linked behind the orders already resting at its price on its side
    (time priority), in a level created if there was none; nothing else in
    the book or in the pool's records changes, the order count grows by
    one, the cached BBO is the best level of each side and the book is
    well-formed again. *)
Theorem X14_add_order_fresh (b : OrderBook.t) (pool : ObjectPool.t)
        (id : Z) (side : Side) (price qty ts : Z) :
  book_ok b pool -> 0 <= qty < 2 ^ 32 -> id <> 0 ->
  OrderBook.get_order b id = Some None ->
  let sd := is_buy side in
  let l0 := default (PriceLevel.new price) (PriceMap.find price (levels b sd)) in
  exists p b' pool',
    OrderBook.add_order b pool id side price qty ts = Some (Some p, b', pool') /\
    ObjectPool.deref pool' p = Order.mk id price qty qty (OrderBook.stock_locate b) side ts /\
    (forall q, q <> p -> ObjectPool.deref pool' q = ObjectPool.deref pool q) /\
    OrderBook.get_order b' id = Some (Some p) /\
    (forall i, i <> id -> OrderBook.get_order b' i = OrderBook.get_order b i) /\
    PriceMap.find price (levels b' sd) =
      Some (PriceLevel.mk price (PriceLevel.chain l0 ++ [p])
              (wrap32 (PriceLevel.total_quantity l0 + qty))
              (PriceLevel.order_count l0 + 1)) /\
    (forall sd' k, ~ (sd' = sd /\ k = price) ->
       PriceMap.find k (levels b' sd') = PriceMap.find k (levels b sd')) /\
    OrderBook.order_count b' = OrderBook.order_count b + 1 /\
    (forall sd', bbo_side_ok b' sd') /\
    book_ok b' pool'.
Proof.
  intros Hok Hq Hid Hnone sd l0.
  destruct (bk_index _ _ Hok) as [abs Hix].
  assert (Hfresh : abs !! id = None) by (by apply (get_order_None b pool abs)).
  destruct (ObjectPool.acquire pool) as [p pool1] eqn:Hacq.
  destruct (add_order_fresh_spec b pool pool1 abs id side price qty ts p Hok Hix Hq Hfresh Hacq)
    as (b' & Hrun & Hok' & Hix' & Hfind & Hcnt & _ & _).
  cbv zeta in Hrun, Hok', Hix', Hfind. rewrite decide_False in Hix' by done.
  destruct (acquire_spec pool pool1 p (bk_pool _ _ Hok) Hacq) as (_ & Hslots & _).
  eexists p, b', _. split; [exact Hrun|].
  split; [apply deref_store_eq|]. split.
  { intros q Hne. rewrite deref_store_ne by done. by apply deref_slots. }
  split. { by rewrite (get_order_spec b' _ _ id Hix'), lookup_insert_eq. }
  split.
  { intros i Hne. rewrite (get_order_spec b' _ _ i Hix'), (get_order_spec b pool abs i Hix).
    by rewrite lookup_insert_ne. }
  split.
  { rewrite Hfind, decide_True by done. f_equal.
    unfold PriceLevel.add_order. rewrite deref_store_eq. cbn [new_order Order.quantity].
    f_equal. fold sd. fold l0. unfold l0.
    destruct (PriceMap.find price (levels b sd)) as [l|] eqn:E; [|done].
    by destruct (bk_levels _ _ Hok sd price l E). }
  split. { intros sd' k Hne. by rewrite Hfind, decide_False. }
  split; [done|]. split; [apply (bk_bbo _ _ Hok')|done].
Qed.

(** X15: [delete_order]. On a well-formed book, [delete_order] of an id
    that is not in the book returns false and changes nothing. For an id in
    the book it returns true: the order is unlinked from the level of its
    price and side, which disappears if it held no other order and
    otherwise keeps its other orders in their sequence; [get_order] no
    longer finds the id; the slot is released to the pool; the order count
    drops by one; everything else is as before and the book is well-formed
    again. *)
Theorem X15_delete_order (b : OrderBook.t) (pool : ObjectPool.t) (id : Z) :
  book_ok b pool ->
  exists found, OrderBook.get_order b id = Some found /\
  match found with
  | None => OrderBook.delete_order b pool id = Some (false, b, pool)
  | Some p =>
      let o := ObjectPool.deref pool p in
      let sd := is_buy (Order.side o) in
      exists l b',
        PriceMap.find (Order.price o) (levels b sd) = Some l /\
        p ∈ PriceLevel.chain l /\
        OrderBook.delete_order b pool id = Some (true, b', ObjectPool.release pool p) /\
        OrderBook.get_order b' id = Some None /\
        (forall i, i <> id -> OrderBook.get_order b' i = OrderBook.get_order b i) /\
        PriceMap.find (Order.price o) (levels b' sd) =
          (if decide (PriceLevel.chain l = [p]) then None
           else Some (PriceLevel.mk (Order.price o)
                        (filter (fun q => q <> p) (PriceLevel.chain l))
                        (wrap32 (PriceLevel.total_quantity l - Order.quantity o))
                        (PriceLevel.order_count l - 1))) /\
        (forall sd' k, ~ (sd' = sd /\ k = Order.price o) ->
           PriceMap.find k (levels b' sd') = PriceMap.find k (levels b sd')) /\
        OrderBook.order_count b' = OrderBook.order_count b - 1 /\
        (forall sd', bbo_side_ok b' sd') /\
        book_ok b' (ObjectPool.release pool p)
  end.
Proof.
  intros Hok. destruct (bk_index _ _ Hok) as [abs Hix].
  exists (default None (abs !! id)). split; [by apply (get_order_spec b pool abs)|].
  destruct (abs !! id) as [op|] eqn:E; cbn [default].
  2: { apply delete_order_absent. by apply (get_order_None b pool abs). }
  destruct (ix_sound _ _ _ Hix _ _ E) as (p & -> & _).
  destruct (resting_level b pool abs id p Hok Hix E) as (l & Hl & Hin).
  destruct (delete_present b pool abs id p l Hok Hix E Hl)
    as (orders' & _ & Hrun & Hok' & Hix' & Hfind).
  cbv zeta in Hrun, Hok', Hix', Hfind. cbv zeta.
  pose proof (bk_levels _ _ Hok _ _ l Hl) as [Hlp Hne Hlc _ Hnd _].
  eexists l, _. split; [exact Hl|]. split; [exact Hin|]. split; [exact Hrun|].
  split. { by rewrite (get_order_spec _ _ _ id Hix'), lookup_delete_eq. }
  split.
  { intros i Hi. rewrite (get_order_spec _ _ _ i Hix'), (get_order_spec b pool abs i Hix).
    by rewrite lookup_delete_ne. }
  split.
  { rewrite Hfind, decide_True by done.
    unfold PriceLevel.empty, PriceLevel.remove_order. cbn [PriceLevel.order_count_].
    rewrite Hlc. destruct (decide (PriceLevel.chain l = [p])) as [Hone|Hmore].
    - rewrite Hone. simpl. done.
    - destruct (Z.eqb_spec (Z.of_nat (length (PriceLevel.chain l)) - 1) 0) as [Hz|Hnz].
      + exfalso. apply Hmore.
        destruct (PriceLevel.chain l) as [|x [|y c]] eqn:Ec; simpl in Hz; [done| |lia].
        apply list_elem_of_singleton in Hin. by subst.
      + unfold PriceLevel.total_quantity, PriceLevel.order_count. by rewrite Hlp, Hlc. }
  split. { intros sd' k Hne'. by rewrite Hfind, decide_False. }
  split.
  { unfold OrderBook.order_count, with_orders. cbn [OrderBook.order_count_]. f_equal.
    by destruct (side_update_misc b (is_buy (Order.side (ObjectPool.deref pool p)))
      (OrderBook.level_remove (levels b (is_buy (Order.side (ObjectPool.deref pool p))))
         (Order.price (ObjectPool.deref pool p)) pool p) (OrderBook.orders_ b)) as [_ ->]. }
  split; [apply (bk_bbo _ _ Hok')|done].
Qed.

(** ** Conservation of orders *)

Lemma counts_assign (k : Z) (v l : PriceLevel.t) (m : PriceMap.t) :
  PriceMap.find k m = Some l ->
  level_counts (PriceMap.assign k v m) =
  level_counts m - PriceLevel.order_count_ l + PriceLevel.order_count_ v.
Proof.
  induction m as [|[k' v'] m IH]; simpl; [done|].
  destruct (Z.eqb_spec k' k) as [->|Hne].
  - intros [= ->]. simpl. lia.
  - intros Hf. simpl. rewrite IH by done. lia.
Qed.

Lemma counts_erase (k : Z) (l : PriceLevel.t) (m : PriceMap.t) :
  PriceMap.find k m = Some l ->
  level_counts (PriceMap.erase k m) = level_counts m - PriceLevel.order_count_ l.
Proof.
  induction m as [|[k' v'] m IH]; simpl; [done|].
  destruct (Z.eqb_spec k' k) as [->|Hne].
  - intros [= ->]. lia.
  - intros Hf. simpl. rewrite IH by done. lia.
Qed.

Lemma counts_emplace (comp : Z -> Z -> bool) (k : Z) (v : PriceLevel.t) (m : PriceMap.t) :
  comp_ok comp -> PriceMap.find k m = None ->
  level_counts (PriceMap.emplace comp k v m) = level_counts m + PriceLevel.order_count_ v.
Proof.
  intros Hc. induction m as [|[k' v'] m IH]; simpl; [lia|].
  destruct (Z.eqb_spec k' k) as [->|Hne]; [done|]. intros Hf.
  destruct (comp k k') eqn:E1; simpl; [lia|].
  destruct (comp k' k) eqn:E2; simpl.
  - rewrite IH by done. lia.
  - exfalso. apply Hne. symmetry. by apply (comp_total _ Hc).
Qed.

(** A sorted map whose lookups differ from those of another at one key. *)
Lemma counts_update (comp : Z -> Z -> bool) (m m' : PriceMap.t) (price : Z)
      (X : option PriceLevel.t) :
  comp_ok comp -> sorted comp m -> sorted comp m' ->
  (forall k, PriceMap.find k m' = if decide (k = price) then X else PriceMap.find k m) ->
  level_counts m' = level_counts m - count_of (PriceMap.find price m) + count_of X.
Proof.
  intros Hc Hs Hs' Hf.
  destruct X as [v|]; destruct (PriceMap.find price m) as [l|] eqn:E; cbn [count_of].
  - rewrite (sorted_ext comp Hc m' (PriceMap.assign price v m) Hs'
               (sorted_assign comp price v m Hs)).
    + by apply counts_assign.
    + intros k. rewrite Hf. destruct (decide (k = price)) as [->|Hne].
      * by rewrite find_assign_eq, E.
      * by rewrite find_assign_ne.
  - rewrite (sorted_ext comp Hc m' (PriceMap.emplace comp price v m) Hs'
               (sorted_emplace comp Hc price v m Hs)).
    + rewrite counts_emplace by done. lia.
    + intros k. rewrite Hf. destruct (decide (k = price)) as [->|Hne].
      * by rewrite (find_emplace_eq comp Hc).
      * by rewrite (find_emplace_ne comp).
  - rewrite (sorted_ext comp Hc m' (PriceMap.erase price m) Hs'
               (sorted_erase comp price m Hs)).
    + rewrite (counts_erase price l) by done. lia.
    + intros k. rewrite Hf. destruct (decide (k = price)) as [->|Hne].
      * by rewrite (find_erase_eq comp Hc).
      * by rewrite find_erase_ne.
  - rewrite (sorted_ext comp Hc m' m Hs' Hs); [lia|].
    intros k. rewrite Hf. destruct (decide (k = price)) as [->|Hne]; done.
Qed.

Lemma book_counts_update (b b' : OrderBook.t) (pool pool' : ObjectPool.t) (sd : bool)
      (price : Z) (X : option PriceLevel.t) :
  book_ok b pool -> book_ok b' pool' ->
  (forall sd' k, PriceMap.find k (levels b' sd') =
     if decide (sd' = sd /\ k = price) then X else PriceMap.find k (levels b sd')) ->
  level_counts (OrderBook.bids_ b') + level_counts (OrderBook.asks_ b') =
  level_counts (OrderBook.bids_ b) + level_counts (OrderBook.asks_ b)
  - count_of (PriceMap.find price (levels b sd)) + count_of X.
Proof.
  intros Hok Hok' Hf.
  assert (Hsame : levels b' (negb sd) = levels b (negb sd)).
  { apply (sorted_ext (comp_of (negb sd)) (comp_of_ok _));
      [apply (bk_sorted _ _ Hok')|apply (bk_sorted _ _ Hok)|].
    intros k. rewrite Hf, decide_False; [done|]. intros [? _]. by destruct sd. }
  assert (Hupd : level_counts (levels b' sd) =
                 level_counts (levels b sd) - count_of (PriceMap.find price (levels b sd))
                 + count_of X).
  { apply (counts_update (comp_of sd));
      [apply comp_of_ok|apply (bk_sorted _ _ Hok)|apply (bk_sorted _ _ Hok')|].
    intros k. rewrite Hf. destruct (decide (k = price)) as [->|Hne].
    - by rewrite decide_True.
    - rewrite decide_False; [done|]. by intros [_ ?]. }
  destruct sd; simpl in *; rewrite Hsame, Hupd; lia.
Qed.

(** [acquire] takes one slot out of the free ones. *)
Lemma acquire_accounting (pool pool1 : ObjectPool.t) (p : ptr) :
  ObjectPool.acquire pool = (p, pool1) ->
  ObjectPool.capacity pool1 - ObjectPool.available pool1 =
  ObjectPool.capacity pool - ObjectPool.available pool + 1.
Proof.
  unfold ObjectPool.acquire, ObjectPool.capacity, ObjectPool.available.
  destruct (ObjectPool.free_list_ pool) as [|x l] eqn:E.
  - cbn [ObjectPool.allocate_block ObjectPool.free_list_ ObjectPool.blocks_].
    rewrite E, app_nil_r.
    destruct (reverse (seqZ (ObjectPool.blocks_ pool * ObjectPool.BlockSize)
                            ObjectPool.BlockSize)) as [|y r] eqn:Er.
    { apply (f_equal length) in Er. rewrite length_reverse, length_seqZ in Er.
      simpl in Er. pose proof BlockSize_pos. lia. }
    intros [= <- <-]. cbn [ObjectPool.blocks_ ObjectPool.free_list_].
    apply (f_equal length) in Er. rewrite length_reverse, length_seqZ in Er.
    cbn [length] in *. unfold ObjectPool.BlockSize in *. unfold ptr in *. lia.
  - rewrite E. intros [= <- <-]. cbn [ObjectPool.blocks_ ObjectPool.free_list_ length].
    unfold ptr in *. lia.
Qed.

Lemma add_order_conserved (b : OrderBook.t) (pool : ObjectPool.t)
      (id : Z) (side : Side) (price qty ts : Z) :
  book_ok b pool -> conserved b pool -> 0 <= qty < 2 ^ 32 ->
  exists r b' pool', OrderBook.add_order b pool id side price qty ts = Some (r, b', pool') /\
                     book_ok b' pool' /\ conserved b' pool'.
Proof.
  intros Hok [Hc Hp] Hq. destruct (bk_index _ _ Hok) as [abs Hix].
  destruct (abs !! id) as [op|] eqn:E.
  - destruct (ix_sound _ _ _ Hix _ _ E) as (p & -> & _).
    exists None, b, pool. split; [|done].
    apply (add_order_duplicate _ _ _ _ _ _ _ p). by apply (get_order_Some b pool abs).
  - destruct (ObjectPool.acquire pool) as [p pool1] eqn:Hacq.
    destruct (add_order_fresh_spec b pool pool1 abs id side price qty ts p Hok Hix Hq E Hacq)
      as (b' & Hrun & Hok' & _ & Hfind & Hcnt & _ & _).
    cbv zeta in Hrun, Hok', Hfind.
    eexists _, b', _. split; [exact Hrun|]. split; [exact Hok'|].
    pose proof (book_counts_update b b' _ _ _ _ _ Hok Hok' Hfind) as Hbc.
    pose proof (acquire_accounting _ _ _ Hacq) as Hacc.
    split.
    + rewrite Hcnt, Hbc, Hc.
      destruct (PriceMap.find price (levels b (is_buy side))); simpl; lia.
    + rewrite Hcnt. unfold ObjectPool.capacity, ObjectPool.available in *.
      cbn [ObjectPool.store ObjectPool.blocks_ ObjectPool.free_list_]. lia.
Qed.

Ltac name_result Hok' b' pool' :=
  match type of Hok' with book_ok ?bb ?pp => set (b' := bb) in *; set (pool' := pp) in * end.

Ltac same_count :=
  match goal with
  | |- context [OrderBook.order_count_ (side_update ?b0 ?s ?m ?o)] =>
      rewrite (proj2 (side_update_misc b0 s m o))
  end.

Lemma execute_order_conserved (b : OrderBook.t) (pool : ObjectPool.t) (id qty : Z) :
  book_ok b pool -> conserved b pool -> 0 <= qty ->
  exists r b' pool', OrderBook.execute_order b pool id qty = Some (r, b', pool') /\
                     book_ok b' pool' /\ conserved b' pool'.
Proof.
  intros Hok [Hc Hp] Hq. destruct (bk_index _ _ Hok) as [abs Hix].
  destruct (abs !! id) as [op|] eqn:E.
  - destruct (ix_sound _ _ _ Hix _ _ E) as (p & -> & _).
    destruct (resting_level b pool abs id p Hok Hix E) as (l & Hl & _).
    destruct (decide (Z.min qty (Order.quantity (ObjectPool.deref pool p)) =
                      Order.quantity (ObjectPool.deref pool p))) as [Heq|Hne].
    + destruct (execute_full b pool abs id qty p l Hok Hix E Hq Hl Heq)
        as (orders' & _ & Hrun & Hok' & _ & Hfind).
      cbv zeta in Hrun, Hok', Hfind. name_result Hok' b' pool'.
      exists (Z.min qty (Order.quantity (ObjectPool.deref pool p))), b', pool'.
      split; [exact Hrun|]. split; [exact Hok'|].
      pose proof (book_counts_update b b' _ _ _ _ _ Hok Hok' Hfind) as Hbc.
      rewrite Hl in Hbc. cbn [count_of] in Hbc.
      assert (Hcnt : OrderBook.order_count_ b' = OrderBook.order_count_ b - 1).
      { unfold b', with_orders. cbn [OrderBook.order_count_]. by same_count. }
      assert (Hav : ObjectPool.capacity pool' - ObjectPool.available pool' =
                    ObjectPool.capacity pool - ObjectPool.available pool - 1).
      { unfold pool', ObjectPool.capacity, ObjectPool.available.
        cbn [ObjectPool.release ObjectPool.store ObjectPool.blocks_ ObjectPool.free_list_
             length]. unfold ptr in *. lia. }
      split; [|lia]. rewrite Hcnt, Hbc, Hc. unfold PriceLevel.empty.
      cbn [PriceLevel.order_count_].
      destruct (_ =? 0) eqn:Ez; cbn [count_of PriceLevel.order_count_]; lia.
    + destruct (execute_partial b pool abs id qty p l Hok Hix E Hq Hl Hne)
        as (Hrun & Hok' & _ & Hfind).
      name_result Hok' b' pool'.
      exists (Z.min qty (Order.quantity (ObjectPool.deref pool p))), b', pool'.
      split; [exact Hrun|]. split; [exact Hok'|].
      pose proof (book_counts_update b b' _ _ _ _ _ Hok Hok' Hfind) as Hbc.
      rewrite Hl in Hbc. cbn [count_of PriceLevel.order_count_] in Hbc.
      assert (Hcnt : OrderBook.order_count_ b' = OrderBook.order_count_ b).
      { unfold b'. by same_count. }
      assert (Hav : ObjectPool.capacity pool' - ObjectPool.available pool' =
                    ObjectPool.capacity pool - ObjectPool.available pool).
      { unfold pool', ObjectPool.capacity, ObjectPool.available.
        by cbn [ObjectPool.store ObjectPool.blocks_ ObjectPool.free_list_]. }
      split; lia.
  - exists 0, b, pool. split; [|done].
    apply execute_order_absent. by apply (get_order_None b pool abs).
Qed.

Lemma delete_order_conserved (b : OrderBook.t) (pool : ObjectPool.t) (id : Z) :
  book_ok b pool -> conserved b pool ->
  exists r b' pool', OrderBook.delete_order b pool id = Some (r, b', pool') /\
                     book_ok b' pool' /\ conserved b' pool'.
Proof.
  intros Hok [Hc Hp]. destruct (bk_index _ _ Hok) as [abs Hix].
  destruct (abs !! id) as [op|] eqn:E.
  - destruct (ix_sound _ _ _ Hix _ _ E) as (p & -> & _).
    destruct (resting_level b pool abs id p Hok Hix E) as (l & Hl & _).
    destruct (delete_present b pool abs id p l Hok Hix E Hl)
      as (orders' & _ & Hrun & Hok' & _ & Hfind).
    cbv zeta in Hrun, Hok', Hfind. name_result Hok' b' pool'.
    exists true, b', pool'. split; [exact Hrun|]. split; [exact Hok'|].
    pose proof (book_counts_update b b' _ _ _ _ _ Hok Hok' Hfind) as Hbc.
    rewrite Hl in Hbc. cbn [count_of] in Hbc.
    assert (Hcnt : OrderBook.order_count_ b' = OrderBook.order_count_ b - 1).
    { unfold b', with_orders. cbn [OrderBook.order_count_]. by same_count. }
    assert (Hav : ObjectPool.capacity pool' - ObjectPool.available pool' =
                  ObjectPool.capacity pool - ObjectPool.available pool - 1).
    { unfold pool', ObjectPool.capacity, ObjectPool.available.
      cbn [ObjectPool.release ObjectPool.blocks_ ObjectPool.free_list_ length].
      unfold ptr in *. lia. }
    split; [|lia]. rewrite Hcnt, Hbc, Hc. unfold PriceLevel.empty, PriceLevel.remove_order.
    cbn [PriceLevel.order_count_].
    destruct (_ =? 0) eqn:Ez; cbn [count_of PriceLevel.order_count_]; lia.
  - exists false, b, pool. split; [|done].
    apply delete_order_absent. by apply (get_order_None b pool abs).
Qed.

Lemma replace_order_conserved (b : OrderBook.t) (pool : ObjectPool.t)
      (old_id new_id new_qty new_price ts : Z) :
  book_ok b pool -> conserved b pool -> 0 <= new_qty < 2 ^ 32 ->
  exists r b' pool',
    OrderBook.replace_order b pool old_id new_id new_qty new_price ts = Some (r, b', pool') /\
    book_ok b' pool' /\ conserved b' pool'.
Proof.
  intros Hok Hcons Hq. destruct (bk_index _ _ Hok) as [abs Hix].
  unfold OrderBook.replace_order.
  change (OrderMap.find (OrderBook.orders_ b) old_id) with (OrderBook.get_order b old_id).
  rewrite (get_order_spec b pool abs) by done. simpl.
  destruct (abs !! old_id) as [op|] eqn:E; simpl.
  - destruct (ix_sound _ _ _ Hix _ _ E) as (p & -> & _).
    destruct (delete_order_conserved b pool old_id Hok Hcons)
      as (r1 & b1 & pool1 & -> & Hok1 & Hcons1).
    simpl. by apply add_order_conserved.
  - by exists None, b, pool.
Qed.

Lemma run_ops_conserved (ops : list book_op) :
  Forall op_typed ops -> forall b pool, book_ok b pool -> conserved b pool ->
  exists b' pool', run_ops ops (b, pool) = Some (b', pool') /\
                   book_ok b' pool' /\ conserved b' pool'.
Proof.
  induction ops as [|op ops IH]; intros Ht b pool Hok Hc; simpl; [eauto|].
  apply Forall_cons in Ht as [Hop Ht].
  assert (Hstep : exists b1 pool1, run_op op (b, pool) = Some (b1, pool1) /\
                    book_ok b1 pool1 /\ conserved b1 pool1).
  { destruct op; simpl in *.
    - destruct (add_order_conserved b pool order_id side price quantity timestamp Hok Hc Hop)
        as (r & b' & pool' & -> & ? & ?). eauto.
    - destruct (execute_order_conserved b pool order_id quantity Hok Hc ltac:(lia))
        as (r & b' & pool' & -> & ? & ?). eauto.
    - unfold OrderBook.cancel_order.
      destruct (execute_order_conserved b pool order_id quantity Hok Hc ltac:(lia))
        as (r & b' & pool' & -> & ? & ?). eauto.
    - destruct (delete_order_conserved b pool order_id Hok Hc)
        as (r & b' & pool' & -> & ? & ?). eauto.
    - destruct (replace_order_conserved b pool old_order_id new_order_id new_quantity
                  new_price timestamp Hok Hc Hop) as (r & b' & pool' & -> & ? & ?). eauto. }
  destruct Hstep as (b1 & pool1 & -> & Hok1 & Hc1). by apply IH.
Qed.

Lemma elem_of_chains (m : PriceMap.t) (p : ptr) :
  p ∈ chains m <-> exists k l, (k, l) ∈ m /\ p ∈ PriceLevel.chain l.
Proof.
  induction m as [|[k0 l0] m IH].
  - split; [intros Hp; by apply elem_of_nil in Hp|].
    intros (k & l & Hin & _). by apply elem_of_nil in Hin.
  - change (chains ((k0, l0) :: m)) with (PriceLevel.chain l0 ++ chains m).
    rewrite elem_of_app, IH. split.
    + intros [Hp|(k & l & Hin & Hp)].
      * exists k0, l0. split; [left|done].
      * exists k, l. split; [by right|done].
    + intros (k & l & Hin & Hp). apply elem_of_cons in Hin as [[= -> ->]|Hin]; [by left|].
      right. eauto.
Qed.

Lemma counts_chains (m : PriceMap.t) :
  (forall k l, (k, l) ∈ m ->
     PriceLevel.order_count_ l = Z.of_nat (length (PriceLevel.chain l))) ->
  level_counts m = Z.of_nat (length (chains m)).
Proof.
  induction m as [|[k l] m IH]; intros Hall; [done|].
  change (chains ((k, l) :: m)) with (PriceLevel.chain l ++ chains m).
  change (level_counts ((k, l) :: m)) with (PriceLevel.order_count_ l + level_counts m).
  rewrite length_app, (Hall k l) by left.
  rewrite IH; [lia|]. intros k' l' Hin. apply (Hall k'). by right.
Qed.

Lemma chains_nodup (comp : Z -> Z -> bool) (key : ptr -> Z) (m : PriceMap.t) :
  comp_ok comp -> sorted comp m ->
  (forall k l, (k, l) ∈ m ->
     NoDup (PriceLevel.chain l) /\ forall p, p ∈ PriceLevel.chain l -> key p = k) ->
  NoDup (chains m).
Proof.
  intros Hc. induction m as [|[k l] m IH]; intros Hs Hall; [constructor|].
  destruct Hs as [Hhd Htl].
  change (chains ((k, l) :: m)) with (PriceLevel.chain l ++ chains m).
  apply NoDup_app. split; [apply (Hall k l); left|]. split.
  - intros p Hp Hin. apply elem_of_chains in Hin as (k' & l' & Hin & Hp').
    destruct (Hall k l ltac:(left)) as [_ Hk].
    destruct (Hall k' l' ltac:(by right)) as [_ Hk'].
    rewrite Forall_forall in Hhd. specialize (Hhd _ Hin). simpl in Hhd.
    rewrite <- (Hk p Hp), (Hk' p Hp'), (comp_irrefl _ Hc) in Hhd. done.
  - apply IH; [done|]. intros k' l' Hin. apply Hall. by right.
Qed.

Lemma resting_facts (b : OrderBook.t) (pool : ObjectPool.t) :
  book_ok b pool ->
  level_counts (OrderBook.bids_ b) + level_counts (OrderBook.asks_ b) =
    Z.of_nat (length (resting_orders b)) /\
  NoDup (resting_orders b) /\
  (forall p, p ∈ resting_orders b ->
     in_book b p /\ (p ∉ ObjectPool.free_list_ pool) /\
     0 <= p < ObjectPool.blocks_ pool * ObjectPool.BlockSize).
Proof.
  intros Hok.
  assert (Hlv : forall sd k l, (k, l) ∈ levels b sd -> level_ok pool sd k l).
  { intros sd k l Hin. apply (bk_levels _ _ Hok).
    apply (elem_find (comp_of sd) (comp_of_ok sd)); [apply (bk_sorted _ _ Hok)|done]. }
  assert (Hnd : forall sd, NoDup (chains (levels b sd))).
  { intros sd.
    apply (chains_nodup (comp_of sd) (fun p => Order.price (ObjectPool.deref pool p)));
      [apply comp_of_ok|apply (bk_sorted _ _ Hok)|].
    intros k l Hin. destruct (Hlv sd k l Hin) as [_ _ _ _ Hn Ho]. split; [done|].
    intros p Hp. by destruct (Ho p Hp). }
  assert (Hin : forall sd p, p ∈ chains (levels b sd) ->
            in_book b p /\ is_buy (Order.side (ObjectPool.deref pool p)) = sd /\
            (p ∉ ObjectPool.free_list_ pool) /\
            0 <= p < ObjectPool.blocks_ pool * ObjectPool.BlockSize).
  { intros sd p Hp. apply elem_of_chains in Hp as (k & l & Hkl & Hp).
    destruct (Hlv sd k l Hkl) as [_ _ _ _ _ Ho]. destruct (Ho p Hp) as [_ Hs _ Hlive Hrg].
    split; [|done]. exists sd, k, l. split; [|done].
    apply (elem_find (comp_of sd) (comp_of_ok sd)); [apply (bk_sorted _ _ Hok)|done]. }
  unfold resting_orders. split; [|split].
  - rewrite length_app, (counts_chains (OrderBook.bids_ b)),
      (counts_chains (OrderBook.asks_ b)); [lia| |].
    + intros k l Hkl. by destruct (Hlv false k l Hkl).
    + intros k l Hkl. by destruct (Hlv true k l Hkl).
  - apply NoDup_app. split; [apply (Hnd true)|]. split; [|apply (Hnd false)].
    intros p Hb Ha. destruct (Hin true p Hb) as (_ & H1 & _).
    destruct (Hin false p Ha) as (_ & H2 & _). congruence.
  - intros p Hp. apply elem_of_app in Hp as [Hp|Hp].
    + destruct (Hin true p Hp) as (? & _ & ? & ?). done.
    + destruct (Hin false p Hp) as (? & _ & ? & ?). done.
Qed.

Lemma initial_conserved (stock_locate : Z) :
  exists b, initial_state stock_locate = Some (b, ObjectPool.new) /\
            book_ok b ObjectPool.new /\ conserved b ObjectPool.new.
Proof.
  unfold initial_state.
  destruct (new_book_ok stock_locate ObjectPool.new pool_new_ok)
    as (b & -> & Hok & _ & _ & Hb & Ha & _ & Hc).
  exists b. split; [done|]. split; [done|]. unfold conserved. rewrite Hb, Ha, Hc.
  split; [done|]. vm_compute. reflexivity.
Qed.

(** X16: conservation of orders. After every sequence of operations with
    32-bit quantities on a new book with a new pool, [order_count()] is the
    number of orders linked in the price levels, no order is linked twice,
    no linked order is in the free list, and the slots the pool has handed
    out ([capacity() - available()]) are as many as [order_count()]: no
    slot leaks and none is owned twice. *)
Theorem X16_order_conservation (stock_locate : Z) (ops : list book_op) :
  Forall op_typed ops ->
  exists b pool,
    (st ← initial_state stock_locate; run_ops ops st) = Some (b, pool) /\
    OrderBook.order_count b = Z.of_nat (length (resting_orders b)) /\
    NoDup (resting_orders b) /\
    (forall p, p ∈ resting_orders b -> p ∉ ObjectPool.free_list_ pool) /\
    ObjectPool.capacity pool - ObjectPool.available pool = OrderBook.order_count b.
Proof.
  intros Ht. destruct (initial_conserved stock_locate) as (b0 & -> & Hok0 & Hc0).
  cbn [mbind option_bind].
  destruct (run_ops_conserved ops Ht b0 ObjectPool.new Hok0 Hc0)
    as (b & pool & -> & Hok & [Hc Hp]).
  destruct (resting_facts b pool Hok) as (Hlen & Hnd & Hin).
  exists b, pool. split; [done|]. split; [unfold OrderBook.order_count; lia|].
  split; [done|]. split; [|done]. intros q Hq. by apply Hin.
Qed.

(** ** Depth snapshots *)



(** ** Clearing a book *)

Lemma clear_repr (m : OrderMap.t) (abs : gmap Z (option ptr)) :
  om_repr m abs -> om_repr (OrderMap.clear m) ∅.
Proof.
  intros [(k & Hk & Hcap & Hmask & Hok & Hocc & Hld) _].
  pose proof (t_len _ _ Hok) as Hlen. pose proof (cap_ge2 _ k Hk Hcap) as Hc2.
  assert (He : replicate (length (OrderMap.entries_ m)) OrderMap.empty_entry =
               replicate (Z.to_nat (OrderMap.capacity_ m)) OrderMap.empty_entry)
    by (f_equal; lia).
  split.
  - exists k. unfold OrderMap.clear.
    cbn [OrderMap.capacity_ OrderMap.mask_ OrderMap.entries_ OrderMap.load_].
    rewrite He, occ_count_replicate.
    do 3 (split; [done|]). split; [apply table_ok_replicate; lia|lia].
  - intros i o. rewrite lookup_empty. split; [|done].
    intros [Hi (p & Hp & Hat)]. unfold OrderMap.clear in Hat.
    cbn [OrderMap.capacity_ OrderMap.entries_] in Hat. rewrite He, at_replicate in Hat.
    inversion Hat. congruence.
Qed.

Lemma release_chain (pool : ObjectPool.t) (c : list ptr) :
  foldl ObjectPool.release pool c =
  ObjectPool.mk (ObjectPool.blocks_ pool) (reverse c ++ ObjectPool.free_list_ pool)
                (ObjectPool.slots pool).
Proof.
  revert pool. induction c as [|p c IH]; intros pool; simpl; [by destruct pool|].
  rewrite IH. unfold ObjectPool.release. cbn [ObjectPool.blocks_ ObjectPool.free_list_
    ObjectPool.slots]. by rewrite reverse_cons, <- app_assoc.
Qed.

Lemma release_levels_eq (pool : ObjectPool.t) (m : PriceMap.t) :
  OrderBook.release_levels pool m =
  ObjectPool.mk (ObjectPool.blocks_ pool) (reverse (chains m) ++ ObjectPool.free_list_ pool)
                (ObjectPool.slots pool).
Proof.
  unfold OrderBook.release_levels.
  revert pool. induction m as [|[k l] m IH]; intros pool; simpl; [by destruct pool|].
  rewrite IH, release_chain. cbn [ObjectPool.blocks_ ObjectPool.free_list_ ObjectPool.slots].
  change (chains ((k, l) :: m)) with (PriceLevel.chain l ++ chains m).
  by rewrite reverse_app, <- app_assoc.
Qed.

(** X18: [clear] empties a book into the pool. On a well-formed book
    [clear] leaves no level, the initial BBO, an order count of 0 and an
    index in which no id is found, and keeps the locate; every order that
    was linked in the book is released, the bids before the asks and each
    chain from its front, so that the free slots grow by the number of
    linked orders; the cleared book is well-formed with the resulting
    pool. *)
Theorem X18_clear_book (b : OrderBook.t) (pool : ObjectPool.t) :
  book_ok b pool ->
  let b' := (OrderBook.clear b pool).1 in
  let pool' := (OrderBook.clear b pool).2 in
  OrderBook.bids_ b' = [] /\ OrderBook.asks_ b' = [] /\
  OrderBook.bbo b' = BBO.init /\ OrderBook.order_count b' = 0 /\
  OrderBook.stock_locate b' = OrderBook.stock_locate b /\
  (forall i, OrderBook.get_order b' i = Some None) /\
  ObjectPool.free_list_ pool' = reverse (resting_orders b) ++ ObjectPool.free_list_ pool /\
  ObjectPool.capacity pool' = ObjectPool.capacity pool /\
  ObjectPool.available pool' =
    ObjectPool.available pool + Z.of_nat (length (resting_orders b)) /\
  (forall p, ObjectPool.deref pool' p = ObjectPool.deref pool p) /\
  book_ok b' pool'.
Proof.
  intros Hok b' pool'.
  destruct (bk_index _ _ Hok) as [abs Hix].
  destruct (resting_facts b pool Hok) as (_ & Hnd & Hin).
  pose proof (bk_pool _ _ Hok) as [Hb Hfnd Hfr].
  assert (Hp' : pool' = ObjectPool.mk (ObjectPool.blocks_ pool)
                  (reverse (resting_orders b) ++ ObjectPool.free_list_ pool)
                  (ObjectPool.slots pool)).
  { unfold pool', OrderBook.clear. cbn [snd]. rewrite !release_levels_eq.
    cbn [ObjectPool.blocks_ ObjectPool.free_list_ ObjectPool.slots].
    unfold resting_orders. by rewrite reverse_app, <- app_assoc. }
  assert (Hrepr : om_repr (OrderBook.orders_ b') ∅).
  { unfold b', OrderBook.clear. cbn [fst OrderBook.orders_].
    apply (clear_repr _ abs), (ix_repr _ _ _ Hix). }
  assert (Hix' : index_ok b' pool' ∅).
  { split; [done| |].
    - intros i op. by rewrite lookup_empty.
    - intros q (sd & k & l & Hf & _). by destruct sd. }
  do 5 (split; [done|]).
  split. { intros i. by rewrite (get_order_spec b' pool' ∅ i Hix'), lookup_empty. }
  rewrite Hp'. cbn [ObjectPool.free_list_]. split; [done|]. split; [done|].
  split.
  { unfold ObjectPool.available. cbn [ObjectPool.free_list_].
    rewrite length_app, length_reverse. unfold ptr in *. lia. }
  split; [done|].
  split.
  - intros []; done.
  - intros [] k l; done.
  - split; cbn [ObjectPool.blocks_ ObjectPool.free_list_]; [done| |].
    + apply NoDup_app. split; [by rewrite reverse_Permutation|]. split; [|done].
      intros q Hq. rewrite elem_of_reverse in Hq. by apply Hin.
    + intros q Hq. apply elem_of_app in Hq as [Hq|Hq]; [|by apply Hfr].
      rewrite elem_of_reverse in Hq. by apply Hin.
  - exists ∅. by rewrite <- Hp'.
  - intros []; done.
Qed.

(** ** Spread and midpoint *)

(** [wrap_int64] leaves the values of the type alone. *)
Lemma wrap_int64_small (x : Z) : PRICE_MIN <= x <= PRICE_MAX -> wrap_int64 x = x.
Proof.
  unfold PRICE_MIN, PRICE_MAX, wrap_int64. intros Hx.
  rewrite Z.mod_small by lia. lia.
Qed.

Lemma wrap_int64_range (x : Z) : PRICE_MIN <= wrap_int64 x <= PRICE_MAX.
Proof.
  unfold PRICE_MIN, PRICE_MAX, wrap_int64.
  pose proof (Z.mod_pos_bound (x + 2 ^ 63) (2 ^ 64) ltac:(lia)). lia.
Qed.

(** X19: [spread] and [midpoint] of the cached BBO. On a well-formed book
    both are 0 as soon as one side has no level, and both are values of
    the 64-bit [Price]. When both sides show a quantity, the bid price is
    the highest bid level and the ask price the lowest ask level; [spread]
    is their difference when that difference fits [Price], and [midpoint]
    is their mean rounded towards zero, which lies between them, when their
    sum fits [Price]. Both conditions hold for prices of 32 bits, as the
    messages carry them. *)
Theorem X19_spread_midpoint (b : OrderBook.t) (pool : ObjectPool.t) :
  book_ok b pool ->
  let q := OrderBook.bbo b in
  (OrderBook.bids_ b = [] \/ OrderBook.asks_ b = [] ->
     BBO.spread q = 0 /\ BBO.midpoint q = 0) /\
  PRICE_MIN <= BBO.spread q <= PRICE_MAX /\
  PRICE_MIN <= BBO.midpoint q <= PRICE_MAX /\
  (BBO.has_bid q = true -> BBO.has_ask q = true ->
     extreme_price Z.le (OrderBook.bids_ b) (BBO.bid_price q) /\
     extreme_price Z.ge (OrderBook.asks_ b) (BBO.ask_price q) /\
     (PRICE_MIN <= BBO.ask_price q - BBO.bid_price q <= PRICE_MAX ->
        BBO.spread q = BBO.ask_price q - BBO.bid_price q) /\
     (PRICE_MIN <= BBO.bid_price q + BBO.ask_price q <= PRICE_MAX ->
        Z.min (BBO.bid_price q) (BBO.ask_price q) <= BBO.midpoint q
          <= Z.max (BBO.bid_price q) (BBO.ask_price q) /\
        Z.abs (BBO.bid_price q + BBO.ask_price q - 2 * BBO.midpoint q) <= 1) /\
     (0 <= BBO.bid_price q < 2 ^ 32 -> 0 <= BBO.ask_price q < 2 ^ 32 ->
        BBO.spread q = BBO.ask_price q - BBO.bid_price q /\
        Z.min (BBO.bid_price q) (BBO.ask_price q) <= BBO.midpoint q
          <= Z.max (BBO.bid_price q) (BBO.ask_price q))).
Proof.
  intros Hok q. unfold q, OrderBook.bbo. clear q.
  assert (Hmid : forall x y, PRICE_MIN <= x + y <= PRICE_MAX ->
            Z.min x y <= Z.quot (wrap_int64 (x + y)) 2 <= Z.max x y /\
            Z.abs (x + y - 2 * Z.quot (wrap_int64 (x + y)) 2) <= 1).
  { intros x y Hs. rewrite (wrap_int64_small _ Hs).
    pose proof (Z.quot_rem' (x + y) 2) as Hqr.
    pose proof (Z.rem_bound_abs (x + y) 2 ltac:(lia)) as Hrb.
    pose proof (Z.rem_sign_nz (x + y) 2 ltac:(lia)) as Hsg.
    destruct (Z.eq_dec (Z.rem (x + y) 2) 0) as [Hz|Hnz]; [lia|].
    specialize (Hsg Hnz). lia. }
  split; [|split; [|split]].
  - intros Hnone. unfold BBO.spread, BBO.midpoint, BBO.has_bid, BBO.has_ask.
    destruct Hnone as [He|He].
    + pose proof (best_price_none b pool true Hok He) as [= _ Hq]. rewrite Hq. done.
    + pose proof (best_price_none b pool false Hok He) as [= _ Hq]. rewrite Hq.
      simpl. by rewrite orb_true_r.
  - unfold BBO.spread. destruct (_ || _); [unfold PRICE_MIN, PRICE_MAX; lia|].
    apply wrap_int64_range.
  - unfold BBO.midpoint. destruct (_ || _); [unfold PRICE_MIN, PRICE_MAX; lia|].
    pose proof (wrap_int64_range (BBO.bid_price (OrderBook.bbo_ b) +
                                  BBO.ask_price (OrderBook.bbo_ b))) as Hr.
    revert Hr. unfold PRICE_MIN, PRICE_MAX. generalize (wrap_int64
      (BBO.bid_price (OrderBook.bbo_ b) + BBO.ask_price (OrderBook.bbo_ b))).
    intros w Hw. pose proof (Z.quot_rem' w 2) as Hqr.
    pose proof (Z.rem_bound_abs w 2 ltac:(lia)) as Hrb. lia.
  - intros Hb Ha.
    assert (Hbn : OrderBook.bids_ b <> []).
    { intros He. pose proof (best_price_none b pool true Hok He) as [= _ Hq].
      unfold BBO.has_bid in Hb. rewrite Hq in Hb. done. }
    assert (Han : OrderBook.asks_ b <> []).
    { intros He. pose proof (best_price_none b pool false Hok He) as [= _ Hq].
      unfold BBO.has_ask in Ha. rewrite Hq in Ha. done. }
    split; [apply (best_price_extreme b pool true Hok Hbn)|].
    split; [apply (best_price_extreme b pool false Hok Han)|].
    unfold BBO.spread, BBO.midpoint. rewrite Hb, Ha. cbn [negb orb].
    split; [apply wrap_int64_small|]. split; [apply Hmid|].
    intros Hx Hy. split.
    + apply wrap_int64_small. unfold PRICE_MIN, PRICE_MAX. lia.
    + apply Hmid. unfold PRICE_MIN, PRICE_MAX. lia.
Qed.

(** Outside these conditions the results are those of the 64-bit
    arithmetic: a midpoint below both prices, a negative spread of a bid
    below the ask. *)
Example price_overflow_scenario :
  BBO.midpoint (BBO.mk (2 ^ 62) (2 ^ 62 + 2) 1 1) = -4611686018427387903 /\
  BBO.spread (BBO.mk PRICE_MIN 1 1 1) = -9223372036854775807 /\
  BBO.midpoint (BBO.mk 1500000 1500100 500 300) = 1500050 /\
  BBO.spread (BBO.mk 1500000 1500100 500 300) = 100.
Proof. repeat split; vm_compute; reflexivity. Qed.

(** ** Orders with reference number 0 *)

(** X20: an order added under id 0 cannot be reached again. On a
    well-formed book [add_order] with id 0 links a new order into its level
    and counts it, but the index does not record it: [get_order] returns
    what it returned before for every id and null for 0, so
    [execute_order], [cancel_order], [delete_order] and [replace_order] of
    id 0 change nothing, and a further [add_order] with id 0 is not taken
    for a duplicate. *)
Theorem X20_zero_reference_order (b : OrderBook.t) (pool : ObjectPool.t)
        (side : Side) (price qty ts : Z) :
  book_ok b pool -> 0 <= qty < 2 ^ 32 ->
  exists p b' pool',
    OrderBook.add_order b pool 0 side price qty ts = Some (Some p, b', pool') /\
    in_book b' p /\
    OrderBook.order_count b' = OrderBook.order_count b + 1 /\
    (forall i, OrderBook.get_order b' i = OrderBook.get_order b i) /\
    OrderBook.get_order b' 0 = Some None /\
    (forall q, OrderBook.execute_order b' pool' 0 q = Some (0, b', pool')) /\
    (forall q, OrderBook.cancel_order b' pool' 0 q = Some (0, b', pool')) /\
    OrderBook.delete_order b' pool' 0 = Some (false, b', pool') /\
    (forall new_id new_qty new_price ts',
       OrderBook.replace_order b' pool' 0 new_id new_qty new_price ts' =
         Some (None, b', pool')) /\
    (exists p2 b2 pool2,
       OrderBook.add_order b' pool' 0 side price qty ts = Some (Some p2, b2, pool2) /\
       p2 <> p /\ OrderBook.order_count b2 = OrderBook.order_count b + 2) /\
    book_ok b' pool'.
Proof.
  intros Hok Hq. destruct (bk_index _ _ Hok) as [abs Hix].
  pose proof (om_repr_zero _ _ (ix_repr _ _ _ Hix)) as Hz.
  destruct (ObjectPool.acquire pool) as [p pool1] eqn:Hacq.
  destruct (add_order_fresh_spec b pool pool1 abs 0 side price qty ts p Hok Hix Hq Hz Hacq)
    as (b' & Hrun & Hok' & Hix' & Hfind & Hcnt & _ & _).
  cbv zeta in Hrun, Hok', Hix', Hfind. rewrite decide_True in Hix' by done.
  match type of Hok' with book_ok _ ?pp => set (pool' := pp) in * end.
  assert (Hnone : OrderBook.get_order b' 0 = Some None)
    by (by rewrite (get_order_spec b' pool' abs 0 Hix'), Hz).
  exists p, b', pool'. split; [exact Hrun|]. split.
  { exists (is_buy side), price. eexists. split; [by rewrite Hfind, decide_True|].
    cbn [PriceLevel.add_order PriceLevel.chain]. apply elem_of_app. right. by left. }
  split; [done|]. split.
  { intros i. by rewrite (get_order_spec b' pool' abs i Hix'), (get_order_spec b pool abs i Hix). }
  split; [done|].
  split; [intros q; by apply execute_order_absent|].
  split; [intros q; by apply execute_order_absent|].
  split; [by apply delete_order_absent|].
  split.
  { intros new_id new_qty new_price ts'. unfold OrderBook.replace_order.
    change (OrderMap.find (OrderBook.orders_ b') 0) with (OrderBook.get_order b' 0).
    by rewrite Hnone. }
  split; [|exact Hok'].
  destruct (ObjectPool.acquire pool') as [p2 pool2] eqn:Hacq2.
  destruct (add_order_fresh_spec b' pool' pool2 abs 0 side price qty ts p2 Hok' Hix' Hq Hz
              Hacq2) as (b2 & Hrun2 & _ & _ & _ & Hcnt2 & _ & _).
  cbv zeta in Hrun2. eexists p2, b2, _. split; [exact Hrun2|]. split.
  - destruct (acquire_spec pool' pool2 p2 (bk_pool _ _ Hok') Hacq2)
      as (_ & _ & _ & _ & _ & Hp2 & _).
    destruct (acquire_spec pool pool1 p (bk_pool _ _ Hok) Hacq)
      as (_ & _ & Hbl & Hnf & Hr & _ & _).
    intros ->. destruct Hp2 as [Hfree|Hnew].
    + unfold pool' in Hfree. by cbn [ObjectPool.store ObjectPool.free_list_] in Hfree.
    + unfold pool' in Hnew. cbn [ObjectPool.store ObjectPool.blocks_] in Hnew. lia.
  - unfold OrderBook.order_count. rewrite Hcnt2, Hcnt. lia.
Qed.

(** ** Instances of the book theorems *)

Lemma ops_both_typed : Forall op_typed ops_both.
Proof. repeat constructor; simpl; lia. Qed.

Lemma book_both_ok : book_ok book_both pool_both.
Proof. apply state_after_run, ops_both_typed. Qed.

Example book_both_view :
  (OrderBook.bbo book_both, OrderBook.order_count book_both,
   OrderBook.bid_depth book_both 5, OrderBook.ask_depth book_both 5,
   BBO.spread (OrderBook.bbo book_both), BBO.midpoint (OrderBook.bbo book_both)) =
  (BBO.mk 1500000 1500100 500 300, 2, [(1500000, 500, 1)], [(1500100, 300, 1)],
   100, 1500050).
Proof. vm_compute. reflexivity. Qed.

(** The theorem on [book_one] for a second buy order at the price of the
    first. *)
Lemma X14_witness :
  book_ok book_one pool_one /\
  0 <= 100 < 2 ^ 32 /\
  1002 <> 0 /\
  OrderBook.get_order book_one 1002 = Some None /\
  (let sd := is_buy Side_Buy in
    let l0 := default (PriceLevel.new 1500000) (PriceMap.find 1500000 (levels book_one sd)) in
    exists p b' pool',
      OrderBook.add_order book_one pool_one 1002 Side_Buy 1500000 100 1 = Some (Some p, b',
          pool') /\
      ObjectPool.deref pool' p = Order.mk 1002 1500000 100 100 (OrderBook.stock_locate
          book_one) Side_Buy 1 /\
      (forall q, q <> p -> ObjectPool.deref pool' q = ObjectPool.deref pool_one q) /\
      OrderBook.get_order b' 1002 = Some (Some p) /\
      (forall i, i <> 1002 -> OrderBook.get_order b' i = OrderBook.get_order book_one i) /\
      PriceMap.find 1500000 (levels b' sd) =
        Some (PriceLevel.mk 1500000 (PriceLevel.chain l0 ++ [p])
                (wrap32 (PriceLevel.total_quantity l0 + 100))
                (PriceLevel.order_count l0 + 1)) /\
      (forall sd' k, ~ (sd' = sd /\ k = 1500000) ->
         PriceMap.find k (levels b' sd') = PriceMap.find k (levels book_one sd')) /\
      OrderBook.order_count b' = OrderBook.order_count book_one + 1 /\
      (forall sd', bbo_side_ok b' sd') /\
      book_ok b' pool').
Proof.
  assert (Hfresh : OrderBook.get_order book_one 1002 = Some None)
    by (vm_compute; reflexivity).
  split; [apply book_one_ok|]. split; [lia|]. split; [done|]. split; [exact Hfresh|].
  apply (X14_add_order_fresh book_one pool_one 1002 Side_Buy 1500000 100 1);
    [apply book_one_ok|lia|done|exact Hfresh].
Defined.

(** The theorem on [book_one] for the id of its order. *)
Lemma X15_witness :
  book_ok book_one pool_one /\
  (exists found, OrderBook.get_order book_one 1001 = Some found /\
    match found with
    | None => OrderBook.delete_order book_one pool_one 1001 = Some (false, book_one, pool_one)
    | Some p =>
        let o := ObjectPool.deref pool_one p in
        let sd := is_buy (Order.side o) in
        exists l b',
          PriceMap.find (Order.price o) (levels book_one sd) = Some l /\
          p ∈ PriceLevel.chain l /\
          OrderBook.delete_order book_one pool_one 1001 = Some (true, b', ObjectPool.release
              pool_one p) /\
          OrderBook.get_order b' 1001 = Some None /\
          (forall i, i <> 1001 -> OrderBook.get_order b' i = OrderBook.get_order book_one i) /\
          PriceMap.find (Order.price o) (levels b' sd) =
            (if decide (PriceLevel.chain l = [p]) then None
             else Some (PriceLevel.mk (Order.price o)
                          (filter (fun q => q <> p) (PriceLevel.chain l))
                          (wrap32 (PriceLevel.total_quantity l - Order.quantity o))
                          (PriceLevel.order_count l - 1))) /\
          (forall sd' k, ~ (sd' = sd /\ k = Order.price o) ->
             PriceMap.find k (levels b' sd') = PriceMap.find k (levels book_one sd')) /\
          OrderBook.order_count b' = OrderBook.order_count book_one - 1 /\
          (forall sd', bbo_side_ok b' sd') /\
          book_ok b' (ObjectPool.release pool_one p)
    end).
Proof.
  split; [apply book_one_ok|].
  apply (X15_delete_order book_one pool_one 1001), book_one_ok.
Defined.

(** The theorem on [ops_both]. *)
Lemma X16_witness :
  Forall op_typed ops_both /\
  (exists b pool,
      (st ← initial_state 1; run_ops ops_both st) = Some (b, pool) /\
      OrderBook.order_count b = Z.of_nat (length (resting_orders b)) /\
      NoDup (resting_orders b) /\
      (forall p, p ∈ resting_orders b -> p ∉ ObjectPool.free_list_ pool) /\
      ObjectPool.capacity pool - ObjectPool.available pool = OrderBook.order_count b).
Proof.
  split; [apply ops_both_typed|].
  apply (X16_order_conservation 1 ops_both), ops_both_typed.
Defined.


(** The theorem on [book_both]. *)
Lemma X18_witness :
  book_ok book_both pool_both /\
  (let b' := (OrderBook.clear book_both pool_both).1 in
    let pool' := (OrderBook.clear book_both pool_both).2 in
    OrderBook.bids_ b' = [] /\ OrderBook.asks_ b' = [] /\
    OrderBook.bbo b' = BBO.init /\ OrderBook.order_count b' = 0 /\
    OrderBook.stock_locate b' = OrderBook.stock_locate book_both /\
    (forall i, OrderBook.get_order b' i = Some None) /\
    ObjectPool.free_list_ pool' = reverse (resting_orders book_both) ++
        ObjectPool.free_list_ pool_both /\
    ObjectPool.capacity pool' = ObjectPool.capacity pool_both /\
    ObjectPool.available pool' =
      ObjectPool.available pool_both + Z.of_nat (length (resting_orders book_both)) /\
    (forall p, ObjectPool.deref pool' p = ObjectPool.deref pool_both p) /\
    book_ok b' pool').
Proof.
  split; [apply book_both_ok|].
  apply (X18_clear_book book_both pool_both), book_both_ok.
Defined.

(** The theorem on [book_both]. *)
Lemma X19_witness :
  book_ok book_both pool_both /\
  (let q := OrderBook.bbo book_both in
    (OrderBook.bids_ book_both = [] \/ OrderBook.asks_ book_both = [] ->
       BBO.spread q = 0 /\ BBO.midpoint q = 0) /\
    PRICE_MIN <= BBO.spread q <= PRICE_MAX /\
    PRICE_MIN <= BBO.midpoint q <= PRICE_MAX /\
    (BBO.has_bid q = true -> BBO.has_ask q = true ->
       extreme_price Z.le (OrderBook.bids_ book_both) (BBO.bid_price q) /\
       extreme_price Z.ge (OrderBook.asks_ book_both) (BBO.ask_price q) /\
       (PRICE_MIN <= BBO.ask_price q - BBO.bid_price q <= PRICE_MAX ->
          BBO.spread q = BBO.ask_price q - BBO.bid_price q) /\
       (PRICE_MIN <= BBO.bid_price q + BBO.ask_price q <= PRICE_MAX ->
          Z.min (BBO.bid_price q) (BBO.ask_price q) <= BBO.midpoint q
            <= Z.max (BBO.bid_price q) (BBO.ask_price q) /\
          Z.abs (BBO.bid_price q + BBO.ask_price q - 2 * BBO.midpoint q) <= 1) /\
       (0 <= BBO.bid_price q < 2 ^ 32 -> 0 <= BBO.ask_price q < 2 ^ 32 ->
          BBO.spread q = BBO.ask_price q - BBO.bid_price q /\
          Z.min (BBO.bid_price q) (BBO.ask_price q) <= BBO.midpoint q
            <= Z.max (BBO.bid_price q) (BBO.ask_price q)))).
Proof.
  split; [apply book_both_ok|].
  apply (X19_spread_midpoint book_both pool_both), book_both_ok.
Defined.

(** The theorem on [book_one] for a sell order with the reference 0. *)
Lemma X20_witness :
  book_ok book_one pool_one /\
  0 <= 30 < 2 ^ 32 /\
  (exists p b' pool',
      OrderBook.add_order book_one pool_one 0 Side_Sell 1600000 30 1 = Some (Some p, b',
          pool') /\
      in_book b' p /\
      OrderBook.order_count b' = OrderBook.order_count book_one + 1 /\
      (forall i, OrderBook.get_order b' i = OrderBook.get_order book_one i) /\
      OrderBook.get_order b' 0 = Some None /\
      (forall q, OrderBook.execute_order b' pool' 0 q = Some (0, b', pool')) /\
      (forall q, OrderBook.cancel_order b' pool' 0 q = Some (0, b', pool')) /\
      OrderBook.delete_order b' pool' 0 = Some (false, b', pool') /\
      (forall new_id new_qty new_price ts',
         OrderBook.replace_order b' pool' 0 new_id new_qty new_price ts' =
           Some (None, b', pool')) /\
      (exists p2 b2 pool2,
         OrderBook.add_order b' pool' 0 Side_Sell 1600000 30 1 = Some (Some p2, b2, pool2) /\
         p2 <> p /\ OrderBook.order_count b2 = OrderBook.order_count book_one + 2) /\
      book_ok b' pool').
Proof.
  split; [apply book_one_ok|]. split; [lia|].
  apply (X20_zero_reference_order book_one pool_one Side_Sell 1600000 30 1);
    [apply book_one_ok|lia].
Defined.

(** ** Books sharing the pool *)

Lemma in_book_live (b : OrderBook.t) (pool : ObjectPool.t) (p : ptr) :
  book_ok b pool -> in_book b p -> live pool p.
Proof.
  intros Hok (sd & k & l & Hf & Hin).
  destruct (lv_orders _ _ _ _ (bk_levels _ _ Hok sd k l Hf) p Hin) as [_ _ _ Hlive Hr].
  by split.
Qed.

(** The orders linked after the level of [price] on side [sd] became [X]. *)
Lemma in_book_update (b b' : OrderBook.t) (sd : bool) (price : Z)
      (X : option PriceLevel.t) (q : ptr) :
  (forall sd' k, PriceMap.find k (levels b' sd') =
     if decide (sd' = sd /\ k = price) then X else PriceMap.find k (levels b sd')) ->
  in_book b' q -> (exists l, X = Some l /\ q ∈ PriceLevel.chain l) \/ in_book b q.
Proof.
  intros Hf (sd' & k & l & Hl & Hin). rewrite Hf in Hl.
  destruct (decide (sd' = sd /\ k = price)); [left; eauto|].
  right. by exists sd', k, l.
Qed.

Lemma keeps_others_refl (b : OrderBook.t) (pool : ObjectPool.t) : keeps_others b pool b pool.
Proof. by intros q Hl Hn. Qed.

Lemma keeps_others_trans (b b1 b2 : OrderBook.t) (pool pool1 pool2 : ObjectPool.t) :
  keeps_others b pool b1 pool1 -> keeps_others b1 pool1 b2 pool2 ->
  keeps_others b pool b2 pool2.
Proof.
  intros H1 H2 q Hl Hn. destruct (H1 q Hl Hn) as (Hl1 & Hd1 & Hn1).
  destruct (H2 q Hl1 Hn1) as (Hl2 & Hd2 & Hn2). split; [done|]. split; [congruence|done].
Qed.

Lemma step_ok_refl (b : OrderBook.t) (pool : ObjectPool.t) :
  book_ok b pool -> step_ok b pool b pool.
Proof. intros Hok. split; [done|]. split; [apply keeps_others_refl|done]. Qed.

Lemma step_ok_trans (b b1 b2 : OrderBook.t) (pool pool1 pool2 : ObjectPool.t) :
  step_ok b pool b1 pool1 -> step_ok b1 pool1 b2 pool2 -> step_ok b pool b2 pool2.
Proof.
  intros (_ & Hk1 & Hs1 & Hc1) (Hok & Hk2 & Hs2 & Hc2). split; [done|].
  split; [by eapply keeps_others_trans|]. split; [congruence|auto].
Qed.

Lemma add_order_others (b : OrderBook.t) (pool : ObjectPool.t)
      (id : Z) (side : Side) (price qty ts : Z) :
  book_ok b pool -> 0 <= qty < 2 ^ 32 ->
  exists r b' pool', OrderBook.add_order b pool id side price qty ts = Some (r, b', pool') /\
                     step_ok b pool b' pool'.
Proof.
  intros Hok Hq. destruct (bk_index _ _ Hok) as [abs Hix].
  destruct (abs !! id) as [op|] eqn:E.
  - destruct (ix_sound _ _ _ Hix _ _ E) as (p & -> & _).
    exists None, b, pool. split; [|by apply step_ok_refl].
    apply (add_order_duplicate _ _ _ _ _ _ _ p). by apply (get_order_Some b pool abs).
  - destruct (ObjectPool.acquire pool) as [p pool1] eqn:Hacq.
    destruct (add_order_fresh_spec b pool pool1 abs id side price qty ts p Hok Hix Hq E Hacq)
      as (b' & Hrun & Hok' & _ & Hfind & Hcnt & Hloc & _).
    cbv zeta in Hrun, Hok', Hfind.
    destruct (acquire_spec pool pool1 p (bk_pool _ _ Hok) Hacq)
      as (_ & Hslots & Hbl & _ & _ & Hp & Hfl).
    eexists _, b', _. split; [exact Hrun|]. split; [exact Hok'|].
    split; [|split; [exact Hloc|]]; cycle 1.
    { unfold count_ok. intros Hc.
      pose proof (book_counts_update b b' _ _ _ _ _ Hok Hok' Hfind) as Hbc.
      rewrite Hcnt, Hbc, Hc.
      destruct (PriceMap.find price (levels b (is_buy side))); simpl; lia. }
    intros q [Hr Hnf] Hnb.
    assert (Hne : q <> p) by (intros ->; destruct Hp; [done|lia]).
    split; [|split].
    + split; cbn [ObjectPool.store ObjectPool.blocks_ ObjectPool.free_list_].
      * unfold ObjectPool.BlockSize in *. lia.
      * intros Hin. destruct (Hfl q Hin); [done|lia].
    + rewrite deref_store_ne by done. by apply deref_slots.
    + intros Hin. destruct (in_book_update _ _ _ _ _ _ Hfind Hin) as [(l & [= <-] & Hl)|?];
        [|done].
      cbn [PriceLevel.add_order PriceLevel.chain] in Hl.
      apply elem_of_app in Hl as [Hl|Hl]; [|apply list_elem_of_singleton in Hl; done].
      destruct (PriceMap.find price (levels b (is_buy side))) as [l0|] eqn:El;
        cbn [default PriceLevel.new PriceLevel.chain] in Hl; [|by apply elem_of_nil in Hl].
      apply Hnb. by exists (is_buy side), price, l0.
Qed.

Lemma execute_order_others (b : OrderBook.t) (pool : ObjectPool.t) (id qty : Z) :
  book_ok b pool -> 0 <= qty ->
  exists r b' pool', OrderBook.execute_order b pool id qty = Some (r, b', pool') /\
                     step_ok b pool b' pool'.
Proof.
  intros Hok Hq. destruct (bk_index _ _ Hok) as [abs Hix].
  destruct (abs !! id) as [op|] eqn:E.
  - destruct (ix_sound _ _ _ Hix _ _ E) as (p & -> & Hpb & _).
    destruct (resting_level b pool abs id p Hok Hix E) as (l & Hl & _).
    destruct (decide (Z.min qty (Order.quantity (ObjectPool.deref pool p)) =
                      Order.quantity (ObjectPool.deref pool p))) as [Heq|Hne].
    + destruct (execute_full b pool abs id qty p l Hok Hix E Hq Hl Heq)
        as (orders' & _ & Hrun & Hok' & _ & Hfind).
      cbv zeta in Hrun, Hok', Hfind. name_result Hok' b' pool'.
      exists (Z.min qty (Order.quantity (ObjectPool.deref pool p))), b', pool'.
      split; [exact Hrun|]. split; [exact Hok'|]. split; [|split]; cycle 2.
      { unfold count_ok. intros Hc.
        pose proof (book_counts_update b b' _ _ _ _ _ Hok Hok' Hfind) as Hbc.
        rewrite Hl in Hbc. cbn [count_of] in Hbc.
        assert (Hcnt : OrderBook.order_count_ b' = OrderBook.order_count_ b - 1).
        { unfold b', with_orders. cbn [OrderBook.order_count_]. by same_count. }
        rewrite Hcnt, Hbc, Hc. unfold PriceLevel.empty. cbn [PriceLevel.order_count_].
        destruct (_ =? 0) eqn:Ez; cbn [count_of PriceLevel.order_count_]; lia. }
      * intros q [Hr Hnf] Hnb. assert (Hqp : q <> p) by (by intros ->).
        split; [|split].
        -- split; unfold pool'; cbn [ObjectPool.release ObjectPool.store ObjectPool.blocks_
                       ObjectPool.free_list_]; [done|].
           rewrite not_elem_of_cons. done.
        -- unfold pool', ObjectPool.deref.
           cbn [ObjectPool.release ObjectPool.store ObjectPool.slots].
           by rewrite lookup_insert_ne.
        -- intros Hin.
           destruct (in_book_update _ _ _ _ _ _ Hfind Hin) as [(l' & Hl' & Hc)|?]; [|done].
           destruct (PriceLevel.empty _); [done|]. injection Hl' as <-.
           cbn [PriceLevel.chain] in Hc. apply list_elem_of_filter in Hc as [_ Hc].
           apply Hnb. by exists (is_buy (Order.side (ObjectPool.deref pool p))),
                         (Order.price (ObjectPool.deref pool p)), l.
      * unfold b', with_orders. cbn [OrderBook.stock_locate_].
        apply (proj1 (side_update_misc _ _ _ _)).
    + destruct (execute_partial b pool abs id qty p l Hok Hix E Hq Hl Hne)
        as (Hrun & Hok' & _ & Hfind).
      name_result Hok' b' pool'.
      exists (Z.min qty (Order.quantity (ObjectPool.deref pool p))), b', pool'.
      split; [exact Hrun|]. split; [exact Hok'|]. split; [|split]; cycle 2.
      { unfold count_ok. intros Hc.
        pose proof (book_counts_update b b' _ _ _ _ _ Hok Hok' Hfind) as Hbc.
        rewrite Hl in Hbc. cbn [count_of PriceLevel.order_count_] in Hbc.
        assert (Hcnt : OrderBook.order_count_ b' = OrderBook.order_count_ b).
        { unfold b'. by same_count. }
        lia. }
      * intros q [Hr Hnf] Hnb. assert (Hqp : q <> p) by (by intros ->).
        split; [|split].
        -- by split.
        -- unfold pool'. by rewrite deref_store_ne.
        -- intros Hin.
           destruct (in_book_update _ _ _ _ _ _ Hfind Hin) as [(l' & [= <-] & Hc)|?];
             [|done].
           cbn [PriceLevel.chain] in Hc.
           apply Hnb. by exists (is_buy (Order.side (ObjectPool.deref pool p))),
                         (Order.price (ObjectPool.deref pool p)), l.
      * unfold b'. apply (proj1 (side_update_misc _ _ _ _)).
  - exists 0, b, pool. split; [|by apply step_ok_refl].
    apply execute_order_absent. by apply (get_order_None b pool abs).
Qed.

Lemma delete_order_others (b : OrderBook.t) (pool : ObjectPool.t) (id : Z) :
  book_ok b pool ->
  exists r b' pool', OrderBook.delete_order b pool id = Some (r, b', pool') /\
                     step_ok b pool b' pool'.
Proof.
  intros Hok. destruct (bk_index _ _ Hok) as [abs Hix].
  destruct (abs !! id) as [op|] eqn:E.
  - destruct (ix_sound _ _ _ Hix _ _ E) as (p & -> & Hpb & _).
    destruct (resting_level b pool abs id p Hok Hix E) as (l & Hl & _).
    destruct (delete_present b pool abs id p l Hok Hix E Hl)
      as (orders' & _ & Hrun & Hok' & _ & Hfind).
    cbv zeta in Hrun, Hok', Hfind. name_result Hok' b' pool'.
    exists true, b', pool'. split; [exact Hrun|]. split; [exact Hok'|].
    split; [|split]; cycle 2.
    { unfold count_ok. intros Hc.
      pose proof (book_counts_update b b' _ _ _ _ _ Hok Hok' Hfind) as Hbc.
      rewrite Hl in Hbc. cbn [count_of] in Hbc.
      assert (Hcnt : OrderBook.order_count_ b' = OrderBook.order_count_ b - 1).
      { unfold b', with_orders. cbn [OrderBook.order_count_]. by same_count. }
      rewrite Hcnt, Hbc, Hc. unfold PriceLevel.empty, PriceLevel.remove_order.
      cbn [PriceLevel.order_count_].
      destruct (_ =? 0) eqn:Ez; cbn [count_of PriceLevel.order_count_]; lia. }
    + intros q [Hr Hnf] Hnb. assert (Hqp : q <> p) by (by intros ->).
      split; [|split].
      * split; unfold pool';
          cbn [ObjectPool.release ObjectPool.blocks_ ObjectPool.free_list_]; [done|].
        rewrite not_elem_of_cons. done.
      * done.
      * intros Hin.
        destruct (in_book_update _ _ _ _ _ _ Hfind Hin) as [(l' & Hl' & Hc)|?]; [|done].
        destruct (PriceLevel.empty _); [done|]. injection Hl' as <-.
        cbn [PriceLevel.remove_order PriceLevel.chain] in Hc.
        apply list_elem_of_filter in Hc as [_ Hc].
        apply Hnb. by exists (is_buy (Order.side (ObjectPool.deref pool p))),
                      (Order.price (ObjectPool.deref pool p)), l.
    + unfold b', with_orders. cbn [OrderBook.stock_locate_].
      apply (proj1 (side_update_misc _ _ _ _)).
  - exists false, b, pool. split; [|by apply step_ok_refl].
    apply delete_order_absent. by apply (get_order_None b pool abs).
Qed.

Lemma replace_order_others (b : OrderBook.t) (pool : ObjectPool.t)
      (old_id new_id new_qty new_price ts : Z) :
  book_ok b pool -> 0 <= new_qty < 2 ^ 32 ->
  exists r b' pool',
    OrderBook.replace_order b pool old_id new_id new_qty new_price ts = Some (r, b', pool') /\
    step_ok b pool b' pool'.
Proof.
  intros Hok Hq. destruct (bk_index _ _ Hok) as [abs Hix].
  unfold OrderBook.replace_order.
  change (OrderMap.find (OrderBook.orders_ b) old_id) with (OrderBook.get_order b old_id).
  rewrite (get_order_spec b pool abs) by done. simpl.
  destruct (abs !! old_id) as [op|] eqn:E; simpl.
  - destruct (ix_sound _ _ _ Hix _ _ E) as (p & -> & _).
    destruct (delete_order_others b pool old_id Hok) as (r1 & b1 & pool1 & -> & Hs1).
    simpl.
    destruct (add_order_others b1 pool1 new_id (Order.side (ObjectPool.deref pool p))
                new_price new_qty ts (proj1 Hs1) Hq) as (r2 & b2 & pool2 & -> & Hs2).
    exists r2, b2, pool2. split; [done|]. by eapply step_ok_trans.
  - exists None, b, pool. split; [done|]. by apply step_ok_refl.
Qed.

Lemma run_op_others (op : book_op) (b : OrderBook.t) (pool : ObjectPool.t) :
  op_typed op -> book_ok b pool ->
  exists b' pool', run_op op (b, pool) = Some (b', pool') /\ step_ok b pool b' pool'.
Proof.
  intros Ht Hok. destruct op; simpl in *.
  - destruct (add_order_others b pool order_id side price quantity timestamp Hok Ht)
      as (r & b' & pool' & -> & ?). eauto.
  - destruct (execute_order_others b pool order_id quantity Hok ltac:(lia))
      as (r & b' & pool' & -> & ?). eauto.
  - unfold OrderBook.cancel_order.
    destruct (execute_order_others b pool order_id quantity Hok ltac:(lia))
      as (r & b' & pool' & -> & ?). eauto.
  - destruct (delete_order_others b pool order_id Hok) as (r & b' & pool' & -> & ?). eauto.
  - destruct (replace_order_others b pool old_order_id new_order_id new_quantity new_price
                timestamp Hok Ht) as (r & b' & pool' & -> & ?). eauto.
Qed.

(** A book is well-formed over every pool that keeps its orders. *)
Lemma book_ok_frame (b : OrderBook.t) (pool pool' : ObjectPool.t) :
  book_ok b pool -> pool_ok pool' ->
  (forall p, in_book b p ->
     live pool' p /\ ObjectPool.deref pool' p = ObjectPool.deref pool p) ->
  book_ok b pool'.
Proof.
  intros Hok Hp Hsame. split.
  - apply (bk_sorted _ _ Hok).
  - intros sd k l Hf. apply (level_ok_transfer pool); [by apply (bk_levels _ _ Hok)|].
    intros p Hin. destruct (Hsame p) as ([Hr Hnf] & Hd); [by exists sd, k, l|]. done.
  - done.
  - destruct (bk_index _ _ Hok) as [abs [Hr Hs Hc]]. exists abs. split; [done| |].
    + intros i op Hi. destruct (Hs i op Hi) as (p & -> & Hin & Hid).
      exists p. split; [done|]. split; [done|]. by rewrite (proj2 (Hsame p Hin)).
    + intros p Hin. rewrite (proj2 (Hsame p Hin)). by apply Hc.
  - apply (bk_bbo _ _ Hok).
Qed.

Lemma manager_new_wf : mgr_wf mgr_new.
Proof.
  pose proof manager_new_some as Hn.
  destruct manager_new_eq as (b & Hb & _ & Heq). rewrite Hn in Heq.
  apply (inj Some) in Heq.
  destruct (new_book_ok 0 ObjectPool.new pool_new_ok) as (b0 & Hb0 & Hok & _ & _ & Hbids &
    Hasks & _ & Hcount).
  assert (b0 = b) as -> by congruence.
  assert (Hnone : forall p, ~ in_book b p).
  { intros p (sd & k & l & Hf & _). destruct sd; simpl in Hf; rewrite ?Hbids, ?Hasks in Hf;
      done. }
  split.
  - by apply new_mgr_ok.
  - rewrite Heq. apply pool_new_ok.
  - rewrite Heq. cbn [OrderBookManager.books_ OrderBookManager.order_pool_].
    intros L b1 Hl. by apply lookup_replicate in Hl as [-> _].
  - rewrite Heq. cbn [OrderBookManager.books_].
    intros L1 L2 b1 b2 p _ Hl1 _. apply lookup_replicate in Hl1 as [-> _].
    intros Hin. by destruct (Hnone p).
  - rewrite Heq. cbn [OrderBookManager.books_]. intros L b1 Hl.
    apply lookup_replicate in Hl as [-> _]. unfold count_ok. by rewrite Hbids, Hasks, Hcount.
Qed.

(** [get_book] on a manager of well-formed books: the book of the locate
    is there, new if it carried locate 0; the other books and the pool are
    as before. *)
Lemma get_book_shared (m : OrderBookManager.t) (L : Z) :
  mgr_wf m -> 0 <= L < OrderBookManager.MAX_SYMBOLS ->
  exists m1 b,
    OrderBookManager.get_book m L = Some m1 /\
    OrderBookManager.books_ m1 !! Z.to_nat L = Some b /\
    mgr_wf m1 /\
    OrderBookManager.order_pool_ m1 = OrderBookManager.order_pool_ m /\
    (forall L2 : nat, L2 <> Z.to_nat L ->
       OrderBookManager.books_ m1 !! L2 = OrderBookManager.books_ m !! L2).
Proof.
  intros Hwf HL. pose proof Hwf as [Hmo Hpool Hbooks Hapart Hcounts].
  destruct (mgr_lookup m L Hmo HL) as (b0 & Hb0 & _).
  destruct (get_book_eq m L b0 Hb0) as (nb & Hnb & Hloc & Hg).
  destruct (OrderBook.stock_locate b0 =? 0) eqn:Ez.
  - eexists _, nb. split; [exact Hg|]. cbn [OrderBookManager.books_ OrderBookManager.order_pool_].
    assert (Hlt : (Z.to_nat L < length (OrderBookManager.books_ m))%nat)
      by (by eapply lookup_lt_Some).
    split; [by rewrite list_lookup_insert_eq|].
    destruct (new_book_ok L (OrderBookManager.order_pool_ m) Hpool)
      as (nb' & Hnb' & Hok & _ & _ & Hbids & Hasks & _ & Hcount).
    assert (nb' = nb) as -> by congruence.
    assert (Hnone : forall p, ~ in_book nb p).
    { intros p (sd & k & l & Hf & _).
      destruct sd; simpl in Hf; rewrite ?Hbids, ?Hasks in Hf; done. }
    split; [|split; [done|]].
    + split; cbn [OrderBookManager.books_ OrderBookManager.order_pool_].
      * apply (get_book_ok m _ L Hmo (proj1 HL) Hg).
      * done.
      * intros L2 b2 Hl. destruct (decide (L2 = Z.to_nat L)) as [->|Hne].
        -- rewrite list_lookup_insert_eq in Hl by done. by injection Hl as <-.
        -- rewrite list_lookup_insert_ne in Hl by done. by eapply Hbooks.
      * intros L1 L2 b1 b2 p Hne Hl1 Hl2 Hin1 Hin2.
        destruct (decide (L1 = Z.to_nat L)) as [->|Hne1].
        { rewrite list_lookup_insert_eq in Hl1 by done. injection Hl1 as <-.
          by destruct (Hnone p). }
        destruct (decide (L2 = Z.to_nat L)) as [->|Hne2].
        { rewrite list_lookup_insert_eq in Hl2 by done. injection Hl2 as <-.
          by destruct (Hnone p). }
        rewrite list_lookup_insert_ne in Hl1 by done.
        rewrite list_lookup_insert_ne in Hl2 by done.
        by apply (Hapart L1 L2 b1 b2 p).
      * intros L2 b2 Hl. destruct (decide (L2 = Z.to_nat L)) as [->|Hne].
        -- rewrite list_lookup_insert_eq in Hl by done. injection Hl as <-.
           unfold count_ok. by rewrite Hbids, Hasks, Hcount.
        -- rewrite list_lookup_insert_ne in Hl by done. by eapply Hcounts.
    + intros L2 Hne. by rewrite list_lookup_insert_ne.
  - exists m, b0. split; [exact Hg|]. done.
Qed.

(** Writing back the outcome of an operation on the book of [L]. *)
Lemma commit_shared (m : OrderBookManager.t) (L : Z) (b b' : OrderBook.t)
      (pool' : ObjectPool.t) :
  mgr_wf m -> OrderBookManager.books_ m !! Z.to_nat L = Some b ->
  step_ok b (OrderBookManager.order_pool_ m) b' pool' ->
  mgr_wf (FeedHandler.commit m L b' pool') /\
  forall (L2 : nat) (b2 : OrderBook.t),
    L2 <> Z.to_nat L -> OrderBookManager.books_ m !! L2 = Some b2 ->
    OrderBookManager.books_ (FeedHandler.commit m L b' pool') !! L2 = Some b2 /\
    forall p, in_book b2 p ->
      live pool' p /\
      ObjectPool.deref pool' p = ObjectPool.deref (OrderBookManager.order_pool_ m) p /\
      ~ in_book b' p.
Proof.
  intros [Hmo Hpool Hbooks Hapart Hcounts] Hb (Hok' & Hkeep & Hloc & Hcount).
  assert (Hlt : (Z.to_nat L < length (OrderBookManager.books_ m))%nat)
    by (by eapply lookup_lt_Some).
  assert (Hother : forall (L2 : nat) (b2 : OrderBook.t),
    L2 <> Z.to_nat L -> OrderBookManager.books_ m !! L2 = Some b2 ->
    forall p, in_book b2 p ->
      live pool' p /\
      ObjectPool.deref pool' p = ObjectPool.deref (OrderBookManager.order_pool_ m) p /\
      ~ in_book b' p).
  { intros L2 b2 Hne Hl2 p Hin. apply Hkeep.
    - apply (in_book_live b2); [by eapply Hbooks|done].
    - by apply (Hapart L2 (Z.to_nat L) b2 b p). }
  split.
  - split; cbn [FeedHandler.commit OrderBookManager.books_ OrderBookManager.order_pool_].
    + by eapply commit_ok.
    + apply (bk_pool _ _ Hok').
    + intros L2 b2 Hl. destruct (decide (L2 = Z.to_nat L)) as [->|Hne].
      * rewrite list_lookup_insert_eq in Hl by done. by injection Hl as <-.
      * rewrite list_lookup_insert_ne in Hl by done.
        apply (book_ok_frame b2 (OrderBookManager.order_pool_ m));
          [by eapply Hbooks|apply (bk_pool _ _ Hok')|].
        intros p Hin. destruct (Hother L2 b2 Hne Hl p Hin) as (? & ? & _). done.
    + intros L1 L2 b1 b2 p Hne Hl1 Hl2 Hin1 Hin2.
      destruct (decide (L1 = Z.to_nat L)) as [->|Hne1].
      { rewrite list_lookup_insert_eq in Hl1 by done. injection Hl1 as <-.
        rewrite list_lookup_insert_ne in Hl2 by done.
        by destruct (Hother L2 b2 ltac:(done) Hl2 p Hin2) as (_ & _ & ?). }
      rewrite list_lookup_insert_ne in Hl1 by done.
      destruct (decide (L2 = Z.to_nat L)) as [->|Hne2].
      { rewrite list_lookup_insert_eq in Hl2 by done. injection Hl2 as <-.
        by destruct (Hother L1 b1 Hne1 Hl1 p Hin1) as (_ & _ & ?). }
      rewrite list_lookup_insert_ne in Hl2 by done.
      by apply (Hapart L1 L2 b1 b2 p).
    + intros L2 b2 Hl. destruct (decide (L2 = Z.to_nat L)) as [->|Hne].
      * rewrite list_lookup_insert_eq in Hl by done. injection Hl as <-.
        by eapply Hcount, Hcounts.
      * rewrite list_lookup_insert_ne in Hl by done. by eapply Hcounts.
  - intros L2 b2 Hne Hl2. split; [|by apply (Hother L2 b2)].
    cbn [FeedHandler.commit OrderBookManager.books_]. by rewrite list_lookup_insert_ne.
Qed.

(** One operation through the manager. *)
Lemma mgr_step_shared (m : OrderBookManager.t) (L : Z) (op : book_op) :
  mgr_wf m -> 0 <= L < OrderBookManager.MAX_SYMBOLS -> op_typed op ->
  exists m', mgr_step m L op = Some m' /\ mgr_wf m' /\
    forall (L2 : nat) (b2 : OrderBook.t),
      L2 <> Z.to_nat L -> OrderBookManager.books_ m !! L2 = Some b2 ->
      OrderBookManager.books_ m' !! L2 = Some b2 /\
      forall p, in_book b2 p ->
        live (OrderBookManager.order_pool_ m') p /\
        ObjectPool.deref (OrderBookManager.order_pool_ m') p =
        ObjectPool.deref (OrderBookManager.order_pool_ m) p.
Proof.
  intros Hwf HL Ht.
  destruct (get_book_shared m L Hwf HL) as (m1 & b & Hg & Hb & Hwf1 & Hpool & Hsame).
  destruct (run_op_others op b (OrderBookManager.order_pool_ m1) Ht
              (mw_books _ Hwf1 _ _ Hb)) as (b' & pool' & Hrun & Hstep).
  destruct (commit_shared m1 L b b' pool' Hwf1 Hb Hstep) as (Hwf' & Hothers).
  exists (FeedHandler.commit m1 L b' pool'). split; [|split; [done|]].
  - unfold mgr_step. rewrite Hg. cbn [mbind option_bind]. rewrite Hb.
    cbn [mbind option_bind]. unfold OrderBookManager.order_pool. rewrite Hrun. done.
  - intros L2 b2 Hne Hl2. rewrite <- Hsame in Hl2 by done.
    destruct (Hothers L2 b2 Hne Hl2) as (Hl' & Hp). split; [done|].
    intros p Hin. destruct (Hp p Hin) as (Hlive & Hd & _).
    cbn [FeedHandler.commit OrderBookManager.order_pool_]. rewrite <- Hpool. done.
Qed.

Lemma mgr_run_shared (steps : list (Z * book_op)) :
  Forall (fun s => 0 <= s.1 < OrderBookManager.MAX_SYMBOLS /\ op_typed s.2) steps ->
  forall m, mgr_wf m -> exists m', mgr_run steps m = Some m' /\ mgr_wf m'.
Proof.
  induction 1 as [|[L op] steps [HL Ht] _ IH]; intros m Hwf; simpl; [eauto|].
  destruct (mgr_step_shared m L op Hwf HL Ht) as (m1 & -> & Hwf1 & _). by apply IH.
Qed.

(** X21: the books of a manager. After every sequence of operations with
    32-bit quantities on books of locates below [MAX_SYMBOLS], each run as
    [get_book(L).op(.., order_pool())] from a new manager, the array has
    [MAX_SYMBOLS] books, every book is well-formed over the shared pool,
    carries its own locate or 0 and counts the orders linked in its
    levels, and no order is linked by two books. *)
Theorem X21_manager_books (steps : list (Z * book_op)) :
  Forall (fun s => 0 <= s.1 < OrderBookManager.MAX_SYMBOLS /\ op_typed s.2) steps ->
  exists m,
    (m0 ← OrderBookManager.new; mgr_run steps m0) = Some m /\
    length (OrderBookManager.books_ m) = Z.to_nat OrderBookManager.MAX_SYMBOLS /\
    (forall (L : nat) (b : OrderBook.t), OrderBookManager.books_ m !! L = Some b ->
       book_ok b (OrderBookManager.order_pool m) /\
       (OrderBook.stock_locate b = 0 \/ OrderBook.stock_locate b = Z.of_nat L) /\
       OrderBook.order_count b = Z.of_nat (length (resting_orders b))) /\
    (forall (L1 L2 : nat) (b1 b2 : OrderBook.t) (p : ptr),
       L1 <> L2 -> OrderBookManager.books_ m !! L1 = Some b1 ->
       OrderBookManager.books_ m !! L2 = Some b2 -> in_book b1 p -> ~ in_book b2 p).
Proof.
  intros Hs. rewrite manager_new_some. cbn [mbind option_bind].
  destruct (mgr_run_shared steps Hs mgr_new manager_new_wf) as (m & Hrun & Hwf).
  exists m. split; [done|]. destruct Hwf as [[Hlen Hloc] Hpool Hbooks Hapart Hcounts].
  split; [done|]. split; [|done]. intros L b Hl. split; [by eapply Hbooks|].
  split; [by apply Hloc|]. unfold OrderBook.order_count. rewrite (Hcounts L b Hl).
  apply (resting_facts b (OrderBookManager.order_pool_ m)). by eapply Hbooks.
Qed.


(** ** Clearing the books of the manager *)










(** ** Instances of the manager theorems *)

Lemma steps_two_typed :
  Forall (fun s => 0 <= s.1 < OrderBookManager.MAX_SYMBOLS /\ op_typed s.2) steps_two.
Proof.
  unfold steps_two, OrderBookManager.MAX_SYMBOLS.
  repeat (apply Forall_cons; split; [cbn [fst snd op_typed]; lia|]). constructor.
Qed.

(** The theorem on [steps_two]. *)
Lemma X21_witness :
  Forall (fun s => 0 <= s.1 < OrderBookManager.MAX_SYMBOLS /\ op_typed s.2) steps_two /\
  (exists m,
      (m0 ← OrderBookManager.new; mgr_run steps_two m0) = Some m /\
      length (OrderBookManager.books_ m) = Z.to_nat OrderBookManager.MAX_SYMBOLS /\
      (forall (L : nat) (b : OrderBook.t), OrderBookManager.books_ m !! L = Some b ->
         book_ok b (OrderBookManager.order_pool m) /\
         (OrderBook.stock_locate b = 0 \/ OrderBook.stock_locate b = Z.of_nat L) /\
         OrderBook.order_count b = Z.of_nat (length (resting_orders b))) /\
      (forall (L1 L2 : nat) (b1 b2 : OrderBook.t) (p : ptr),
         L1 <> L2 -> OrderBookManager.books_ m !! L1 = Some b1 ->
         OrderBookManager.books_ m !! L2 = Some b2 -> in_book b1 p -> ~ in_book b2 p)).
Proof.
  split; [apply steps_two_typed|].
  apply (X21_manager_books steps_two), steps_two_typed.
Defined.



(** ** Order messages on the books of the orchestrator *)

Lemma land_mask_range (a m n : Z) : 0 <= n -> 0 <= m < 2 ^ n -> 0 <= Z.land a m < 2 ^ n.
Proof.
  intros Hn Hm. assert (H0 : 0 <= Z.land a m) by (apply Z.land_nonneg; lia).
  apply Z.bounded_iff_bits_nonneg'; [done|done|]. intros l Hl.
  rewrite Z.land_spec. rewrite (proj1 (Z.bounded_iff_bits_nonneg' n m Hn ltac:(lia)) Hm l Hl).
  apply andb_false_r.
Qed.

Lemma lor_range (a b n : Z) :
  0 <= n -> 0 <= a < 2 ^ n -> 0 <= b < 2 ^ n -> 0 <= Z.lor a b < 2 ^ n.
Proof.
  intros Hn Ha Hb. assert (H0 : 0 <= Z.lor a b) by (apply Z.lor_nonneg; lia).
  apply Z.bounded_iff_bits_nonneg'; [done|done|]. intros l Hl.
  rewrite Z.lor_spec.
  rewrite (proj1 (Z.bounded_iff_bits_nonneg' n a Hn ltac:(lia)) Ha l Hl).
  by rewrite (proj1 (Z.bounded_iff_bits_nonneg' n b Hn ltac:(lia)) Hb l Hl).
Qed.

(** [be32_to_host] returns a 32-bit value on every argument. *)
Lemma be32_range (v : Z) : 0 <= endian.be32_to_host v < 2 ^ 32.
Proof.
  unfold endian.be32_to_host.
  repeat apply lor_range; try apply land_mask_range; lia.
Qed.

Lemma msg_op_typed (msg : OrderMessage) (ts : Z) : op_typed (msg_op msg ts).
Proof. destruct msg; simpl; try apply be32_range; done. Qed.

(** *** One message *)

(** The handler of an order message that passes the filter runs the
    operation of the message on the book that [get_book] designates, with
    the pool of the manager, and ends in the closing block. *)
Lemma handle_spec (fh : FeedHandler.t) (msg : OrderMessage) (ts : Z)
      (m : OrderBookManager.t) (book : OrderBook.t) :
  FeedHandler.filtered_out fh (msg_locate msg) = false ->
  OrderBookManager.get_book (FeedHandler.book_manager_ fh) (msg_locate msg) = Some m ->
  OrderBookManager.books_ m !! Z.to_nat (msg_locate msg) = Some book ->
  book_ok book (OrderBookManager.order_pool_ m) ->
  exists book' pool',
    run_op (msg_op msg ts) (book, OrderBookManager.order_pool m) = Some (book', pool') /\
    step_ok book (OrderBookManager.order_pool_ m) book' pool' /\
    handle fh msg ts =
    Some (FeedHandler.notify_bbo
            (FeedHandler.with_state fh (FeedHandler.commit m (msg_locate msg) book' pool')
               (msg_count fh msg)
               ((fun calls => calls ++ (on_trade_event <$>
                                          msg_trades msg ts book
                                            (OrderBookManager.order_pool m)))
                  <$> FeedHandler.event_handler_ fh))
            (msg_locate msg) (FeedHandler.snapshot fh book) (OrderBook.bbo book') ts).
Proof.
  intros Hf Hg Hbook Hok. pose proof (msg_op_typed msg ts) as Ht.
  destruct (run_op_others (msg_op msg ts) book (OrderBookManager.order_pool_ m) Ht Hok)
    as (book' & pool' & Hrun & Hstep).
  exists book', pool'. split; [exact Hrun|]. split; [exact Hstep|].
  unfold OrderBookManager.order_pool in *.
  destruct msg as [a|a|a|a|a|a|a]; unfold msg_locate in *;
    cbn [handle msg_op run_op fst snd msg_count msg_trades executed_id] in *.
  - unfold FeedHandler.on_add_order. cbv zeta. rewrite Hf, Hg. cbn [mbind option_bind].
    rewrite Hbook. cbn [mbind option_bind]. unfold OrderBookManager.order_pool.
    destruct (OrderBook.add_order _ _ _ _ _ _ _) as [[[r b1] p1]|]; [|done].
    injection Hrun as <- <-. cbn [mbind option_bind]. by rewrite fmap_app_nil.
  - unfold FeedHandler.on_add_order_mpid. cbv zeta. rewrite Hf, Hg. cbn [mbind option_bind].
    rewrite Hbook. cbn [mbind option_bind]. unfold OrderBookManager.order_pool.
    destruct (OrderBook.add_order _ _ _ _ _ _ _) as [[[r b1] p1]|]; [|done].
    injection Hrun as <- <-. cbn [mbind option_bind]. by rewrite fmap_app_nil.
  - unfold FeedHandler.on_order_executed, FeedHandler.executed.
    rewrite Hf, Hg. cbn [mbind option_bind]. rewrite Hbook. cbn [mbind option_bind].
    unfold OrderBookManager.order_pool.
    destruct (bk_index _ _ Hok) as [abs Hix].
    rewrite !(get_order_spec book (OrderBookManager.order_pool_ m) abs) by done.
    cbn [mbind option_bind].
    destruct (abs !! _) as [op|] eqn:E; cbn [default].
    + destruct (ix_sound _ _ _ Hix _ _ E) as (p & -> & _).
      destruct (OrderBook.execute_order _ _ _ _) as [[[r b1] p1]|]; [|done].
      injection Hrun as <- <-. cbn [mbind option_bind execution_of].
      by destruct (FeedHandler.event_handler_ fh).
    + rewrite execute_order_absent in Hrun by (by apply (get_order_None book (OrderBookManager.order_pool_ m) abs)).
      injection Hrun as <- <-. cbn [mbind option_bind]. by rewrite fmap_app_nil.
  - unfold FeedHandler.on_order_executed_price, FeedHandler.executed.
    rewrite Hf, Hg. cbn [mbind option_bind]. rewrite Hbook. cbn [mbind option_bind].
    unfold OrderBookManager.order_pool.
    destruct (bk_index _ _ Hok) as [abs Hix].
    rewrite !(get_order_spec book (OrderBookManager.order_pool_ m) abs) by done.
    cbn [mbind option_bind].
    destruct (abs !! _) as [op|] eqn:E; cbn [default].
    + destruct (ix_sound _ _ _ Hix _ _ E) as (p & -> & _).
      destruct (OrderBook.execute_order _ _ _ _) as [[[r b1] p1]|]; [|done].
      injection Hrun as <- <-. cbn [mbind option_bind execution_of].
      by destruct (FeedHandler.event_handler_ fh).
    + rewrite execute_order_absent in Hrun by (by apply (get_order_None book (OrderBookManager.order_pool_ m) abs)).
      injection Hrun as <- <-. cbn [mbind option_bind]. by rewrite fmap_app_nil.
  - unfold FeedHandler.on_order_cancel. cbv zeta. rewrite Hf, Hg. cbn [mbind option_bind].
    rewrite Hbook. cbn [mbind option_bind]. unfold OrderBookManager.order_pool.
    destruct (OrderBook.cancel_order _ _ _ _) as [[[r b1] p1]|]; [|done].
    injection Hrun as <- <-. cbn [mbind option_bind]. by rewrite fmap_app_nil.
  - unfold FeedHandler.on_order_delete. cbv zeta. rewrite Hf, Hg. cbn [mbind option_bind].
    rewrite Hbook. cbn [mbind option_bind]. unfold OrderBookManager.order_pool.
    destruct (OrderBook.delete_order _ _ _) as [[[r b1] p1]|]; [|done].
    injection Hrun as <- <-. cbn [mbind option_bind]. by rewrite fmap_app_nil.
  - unfold FeedHandler.on_order_replace. cbv zeta. rewrite Hf, Hg. cbn [mbind option_bind].
    rewrite Hbook. cbn [mbind option_bind]. unfold OrderBookManager.order_pool.
    destruct (OrderBook.replace_order _ _ _ _ _ _ _) as [[[r b1] p1]|]; [|done].
    injection Hrun as <- <-. cbn [mbind option_bind]. by rewrite fmap_app_nil.
Qed.

(** The closing block changes neither the books nor the configuration. *)
Lemma notify_bbo_config (fh : FeedHandler.t) (L : Z) (old_bbo new_bbo : BBO.t) (ts : Z) :
  let fh' := FeedHandler.notify_bbo fh L old_bbo new_bbo ts in
  FeedHandler.symbol_filter_ fh' = FeedHandler.symbol_filter_ fh /\
  FeedHandler.use_filter_ fh' = FeedHandler.use_filter_ fh /\
  FeedHandler.collect_metrics_ fh' = FeedHandler.collect_metrics_ fh /\
  (FeedHandler.event_handler_ fh = None -> fh' = fh).
Proof.
  cbv zeta. unfold FeedHandler.notify_bbo.
  destruct (FeedHandler.event_handler_ fh); [|done].
  by destruct (FeedHandler.bbo_changed old_bbo new_bbo).
Qed.

(** An order message that passes the filter, for a locate below
    [MAX_SYMBOLS], on books that are well-formed and share no order. *)
Lemma handle_shared (fh : FeedHandler.t) (msg : OrderMessage) (ts : Z) :
  mgr_wf (FeedHandler.book_manager_ fh) ->
  FeedHandler.filtered_out fh (msg_locate msg) = false ->
  msg_locate msg < OrderBookManager.MAX_SYMBOLS ->
  exists m book book' pool',
    OrderBookManager.get_book (FeedHandler.book_manager_ fh) (msg_locate msg) = Some m /\
    OrderBookManager.books_ m !! Z.to_nat (msg_locate msg) = Some book /\
    book_ok book (OrderBookManager.order_pool_ m) /\
    run_op (msg_op msg ts) (book, OrderBookManager.order_pool m) = Some (book', pool') /\
    mgr_step (FeedHandler.book_manager_ fh) (msg_locate msg) (msg_op msg ts) =
      Some (FeedHandler.commit m (msg_locate msg) book' pool') /\
    mgr_wf (FeedHandler.commit m (msg_locate msg) book' pool') /\
    handle fh msg ts =
    Some (FeedHandler.notify_bbo
            (FeedHandler.with_state fh (FeedHandler.commit m (msg_locate msg) book' pool')
               (msg_count fh msg)
               ((fun calls => calls ++ (on_trade_event <$>
                                          msg_trades msg ts book
                                            (OrderBookManager.order_pool m)))
                  <$> FeedHandler.event_handler_ fh))
            (msg_locate msg) (FeedHandler.snapshot fh book) (OrderBook.bbo book') ts).
Proof.
  intros Hwf Hf HL. pose proof (msg_locate_range msg) as Hr.
  destruct (get_book_shared _ (msg_locate msg) Hwf ltac:(lia))
    as (m & book & Hg & Hbook & Hwf1 & _ & _).
  pose proof (mw_books _ Hwf1 _ _ Hbook) as Hok.
  destruct (handle_spec fh msg ts m book Hf Hg Hbook Hok)
    as (book' & pool' & Hrun & Hstep & Hh).
  exists m, book, book', pool'. do 4 (split; [done|]). split; [|split; [|done]].
  - unfold mgr_step. rewrite Hg. cbn [mbind option_bind]. rewrite Hbook.
    cbn [mbind option_bind]. by rewrite Hrun.
  - by apply (commit_shared m (msg_locate msg) book book' pool' Hwf1 Hbook Hstep).
Qed.

Lemma feed_steps_config (fh fh' : FeedHandler.t) (msgs : list (OrderMessage * Z)) :
  FeedHandler.symbol_filter_ fh' = FeedHandler.symbol_filter_ fh ->
  FeedHandler.use_filter_ fh' = FeedHandler.use_filter_ fh ->
  feed_steps fh' msgs = feed_steps fh msgs.
Proof.
  intros Hs Hu. unfold feed_steps, FeedHandler.filtered_out. by rewrite Hs, Hu.
Qed.

(** One order message that is filtered out or carries a locate below
    [MAX_SYMBOLS]. *)
Lemma handle_step (fh : FeedHandler.t) (msg : OrderMessage) (ts : Z) :
  mgr_wf (FeedHandler.book_manager_ fh) ->
  FeedHandler.filtered_out fh (msg_locate msg) = true \/
    msg_locate msg < OrderBookManager.MAX_SYMBOLS ->
  exists fh1,
    handle fh msg ts = Some fh1 /\
    mgr_run (feed_steps fh [(msg, ts)]) (FeedHandler.book_manager_ fh) =
      Some (FeedHandler.book_manager_ fh1) /\
    mgr_wf (FeedHandler.book_manager_ fh1) /\
    FeedHandler.symbol_filter_ fh1 = FeedHandler.symbol_filter_ fh /\
    FeedHandler.use_filter_ fh1 = FeedHandler.use_filter_ fh /\
    FeedHandler.collect_metrics_ fh1 = FeedHandler.collect_metrics_ fh /\
    (FeedHandler.event_handler_ fh = None -> FeedHandler.event_handler_ fh1 = None).
Proof.
  intros Hwf Hm. destruct (FeedHandler.filtered_out fh (msg_locate msg)) eqn:Hf.
  - exists fh. split; [by apply handle_filtered|].
    split; [|done]. unfold feed_steps. cbn [omap list_omap fst snd]. by rewrite Hf.
  - destruct Hm as [?|HL]; [done|].
    destruct (handle_shared fh msg ts Hwf Hf HL)
      as (m & book & book' & pool' & _ & _ & _ & _ & Hms & Hwf' & Hh).
    eexists. split; [exact Hh|].
    destruct (notify_bbo_config
      (FeedHandler.with_state fh (FeedHandler.commit m (msg_locate msg) book' pool')
         (msg_count fh msg)
         ((fun calls => calls ++ (on_trade_event <$>
                                    msg_trades msg ts book (OrderBookManager.order_pool m)))
            <$> FeedHandler.event_handler_ fh))
      (msg_locate msg) (FeedHandler.snapshot fh book) (OrderBook.bbo book') ts)
      as (Hs & Hu & Hc & Hn).
    rewrite notify_bbo_manager.
    cbn [FeedHandler.with_state FeedHandler.book_manager_ FeedHandler.symbol_filter_
         FeedHandler.use_filter_ FeedHandler.collect_metrics_
         FeedHandler.event_handler_] in *.
    split; [|split; [done|split; [done|split; [done|split; [done|]]]]].
    + unfold feed_steps. cbn [omap list_omap fst snd]. rewrite Hf. cbn [mgr_run].
      by rewrite Hms.
    + intros Hnone. rewrite Hnone in Hn |- *.
      cbn [fmap option_fmap option_map] in Hn |- *. by rewrite (Hn eq_refl).
Qed.

(** X24: order messages on the books of the orchestrator. On books that
    are well-formed and share no order (as the constructor leaves them),
    every sequence of order messages in which each message is filtered out
    or carries a locate below [MAX_SYMBOLS] is handled to the end; the
    books are then those that the operations of the unfiltered messages,
    run as [get_book(L).op(.., order_pool())] with the decoded fields,
    leave; they are again well-formed and share no order; the filter and
    the metrics switch are unchanged, and a handler that is not attached
    stays so. *)
Theorem X24_feed_books (fh : FeedHandler.t) (msgs : list (OrderMessage * Z)) :
  mgr_wf (FeedHandler.book_manager_ fh) ->
  Forall (fun mt => FeedHandler.filtered_out fh (msg_locate mt.1) = true \/
                    msg_locate mt.1 < OrderBookManager.MAX_SYMBOLS) msgs ->
  exists fh',
    run_feed msgs fh = Some fh' /\
    mgr_run (feed_steps fh msgs) (FeedHandler.book_manager_ fh) =
      Some (FeedHandler.book_manager_ fh') /\
    mgr_wf (FeedHandler.book_manager_ fh') /\
    FeedHandler.symbol_filter_ fh' = FeedHandler.symbol_filter_ fh /\
    FeedHandler.use_filter_ fh' = FeedHandler.use_filter_ fh /\
    FeedHandler.collect_metrics_ fh' = FeedHandler.collect_metrics_ fh /\
    (FeedHandler.event_handler_ fh = None -> FeedHandler.event_handler_ fh' = None).
Proof.
  intros Hwf Hall. revert fh Hwf Hall.
  induction msgs as [|[msg ts] msgs IH]; intros fh Hwf Hall.
  { exists fh. split; [done|]. split; [done|]. split; [done|]. done. }
  apply Forall_cons in Hall as [Hm Hall]. cbn [fst] in Hm.
  destruct (handle_step fh msg ts Hwf Hm) as (fh1 & Hh & Hone & Hwf1 & Hs & Hu & Hc & Hn).
  destruct (IH fh1 Hwf1) as (fh' & Hrun & Hmgr & Hwf' & Hs' & Hu' & Hc' & Hn').
  { eapply Forall_impl; [exact Hall|]. intros [msg2 ts2] H2. cbn [fst] in *.
    unfold FeedHandler.filtered_out in *. by rewrite Hs, Hu. }
  exists fh'. cbn [run_feed]. rewrite Hh. split; [done|].
  split.
  { rewrite (feed_steps_config fh fh1) in Hmgr by done. rewrite <- Hmgr.
    unfold feed_steps in *. cbn [omap list_omap fst snd] in *.
    destruct (FeedHandler.filtered_out fh (msg_locate msg)).
    - cbn [mgr_run] in Hone. by injection Hone as ->.
    - cbn [mgr_run] in Hone |- *.
      destruct (mgr_step _ _ _) as [m1|]; [|done]. by injection Hone as ->. }
  split; [done|]. split; [congruence|]. split; [congruence|]. split; [congruence|].
  auto.
Qed.

(** *** The symbol filter *)

Lemma notify_with_filter (fh : FeedHandler.t) (locates : gset Z) (use : bool)
      (L : Z) (old_bbo new_bbo : BBO.t) (ts : Z) :
  FeedHandler.notify_bbo (with_filter fh locates use) L old_bbo new_bbo ts =
  with_filter (FeedHandler.notify_bbo fh L old_bbo new_bbo ts) locates use.
Proof.
  unfold FeedHandler.notify_bbo, with_filter. cbn [FeedHandler.event_handler_].
  destruct (FeedHandler.event_handler_ fh) eqn:E; [|by rewrite E].
  destruct (FeedHandler.bbo_changed old_bbo new_bbo); [done|by rewrite E].
Qed.

(** The handlers read the filter only in their first test. *)
Lemma handle_with_filter (fh : FeedHandler.t) (locates : gset Z) (use : bool)
      (msg : OrderMessage) (ts : Z) :
  FeedHandler.filtered_out fh (msg_locate msg) = false ->
  FeedHandler.filtered_out (with_filter fh locates use) (msg_locate msg) = false ->
  handle (with_filter fh locates use) msg ts =
  (fun r => with_filter r locates use) <$> handle fh msg ts.
Proof.
  intros Hf Hf'.
  assert (Hn : forall m mt h L old_bbo new_bbo,
    FeedHandler.notify_bbo
      (FeedHandler.with_state (with_filter fh locates use) m mt h) L old_bbo new_bbo ts =
    with_filter (FeedHandler.notify_bbo (FeedHandler.with_state fh m mt h)
                   L old_bbo new_bbo ts) locates use).
  { intros. by rewrite <- notify_with_filter. }
  destruct msg as [a|a|a|a|a|a|a]; unfold msg_locate in *; cbn [handle];
    unfold FeedHandler.on_add_order, FeedHandler.on_add_order_mpid,
      FeedHandler.on_order_executed, FeedHandler.on_order_executed_price,
      FeedHandler.executed, FeedHandler.on_order_cancel, FeedHandler.on_order_delete,
      FeedHandler.on_order_replace; cbv zeta; rewrite Hf, Hf';
    unfold FeedHandler.snapshot;
    change (FeedHandler.book_manager_ (with_filter fh locates use))
      with (FeedHandler.book_manager_ fh);
    change (FeedHandler.metrics_ (with_filter fh locates use))
      with (FeedHandler.metrics_ fh);
    change (FeedHandler.event_handler_ (with_filter fh locates use))
      with (FeedHandler.event_handler_ fh);
    change (FeedHandler.collect_metrics_ (with_filter fh locates use))
      with (FeedHandler.collect_metrics_ fh);
    destruct (OrderBookManager.get_book _ _) as [m|]; cbn [mbind option_bind]; try done;
    destruct (OrderBookManager.books_ m !! _) as [book|]; cbn [mbind option_bind];
      try done.
  - destruct (OrderBook.add_order _ _ _ _ _ _ _) as [[[r b1] p1]|];
      cbn [mbind option_bind fmap option_fmap option_map]; [|done]. by rewrite Hn.
  - destruct (OrderBook.add_order _ _ _ _ _ _ _) as [[[r b1] p1]|];
      cbn [mbind option_bind fmap option_fmap option_map]; [|done]. by rewrite Hn.
  - destruct (OrderBook.get_order _ _) as [[p|]|]; cbn [mbind option_bind]; [| |done].
    + destruct (OrderBook.execute_order _ _ _ _) as [[[r b1] p1]|];
        cbn [mbind option_bind fmap option_fmap option_map]; [|done]. by rewrite Hn.
    + cbn [fmap option_fmap option_map]. by rewrite Hn.
  - destruct (OrderBook.get_order _ _) as [[p|]|]; cbn [mbind option_bind]; [| |done].
    + destruct (OrderBook.execute_order _ _ _ _) as [[[r b1] p1]|];
        cbn [mbind option_bind fmap option_fmap option_map]; [|done]. by rewrite Hn.
    + cbn [fmap option_fmap option_map]. by rewrite Hn.
  - destruct (OrderBook.cancel_order _ _ _ _) as [[[r b1] p1]|];
      cbn [mbind option_bind fmap option_fmap option_map]; [|done]. by rewrite Hn.
  - destruct (OrderBook.delete_order _ _ _) as [[[r b1] p1]|];
      cbn [mbind option_bind fmap option_fmap option_map]; [|done]. by rewrite Hn.
  - destruct (OrderBook.replace_order _ _ _ _ _ _ _) as [[[r b1] p1]|];
      cbn [mbind option_bind fmap option_fmap option_map]; [|done]. by rewrite Hn.
Qed.

Lemma filtered_out_set (fh : FeedHandler.t) (locates : gset Z) (L : Z) :
  FeedHandler.filtered_out (FeedHandler.set_symbol_filter fh locates) L =
  bool_decide (locates <> ∅ /\ L ∉ locates).
Proof.
  unfold FeedHandler.filtered_out, FeedHandler.set_symbol_filter.
  cbn [FeedHandler.use_filter_ FeedHandler.symbol_filter_].
  destruct (decide (locates = ∅)) as [->|Hne].
  - rewrite bool_decide_eq_true_2 by done. cbn [negb andb]. symmetry.
    apply bool_decide_eq_false_2. by intros [? _].
  - rewrite (bool_decide_eq_false_2 (locates = ∅)) by done. cbn [negb andb].
    destruct (decide (L ∈ locates)) as [Hin|Hnin].
    + rewrite (bool_decide_eq_true_2 _ Hin). cbn [negb]. symmetry.
      apply bool_decide_eq_false_2. by intros [_ ?].
    + rewrite (bool_decide_eq_false_2 _ Hnin). cbn [negb]. symmetry.
      by apply bool_decide_eq_true_2.
Qed.

(** X25: the symbol filter. After [set_symbol_filter(S)] an order message
    whose locate is not in a non-empty [S] changes nothing at all: no
    book is looked up, nothing is counted, no event is reported. Every
    other message, and every message when [S] is empty, is handled exactly
    as without a filter. The same holds for trade and cross-trade
    messages, and [clear_symbol_filter] undoes [set_symbol_filter]. *)
Theorem X25_symbol_filter (fh : FeedHandler.t) (locates : gset Z) :
  let fh1 := FeedHandler.set_symbol_filter fh locates in
  let restore := fun r => FeedHandler.set_symbol_filter r locates in
  let dropped := fun L : Z => locates <> ∅ /\ L ∉ locates in
  (forall msg ts,
     handle fh1 msg ts =
     if decide (dropped (msg_locate msg)) then Some fh1
     else restore <$> handle (FeedHandler.clear_symbol_filter fh) msg ts) /\
  (forall msg ts,
     FeedHandler.on_trade fh1 msg ts =
     if decide (dropped (endian.be16_to_host (TradeMessage.stock_locate msg))) then fh1
     else restore (FeedHandler.on_trade (FeedHandler.clear_symbol_filter fh) msg ts)) /\
  (forall msg ts,
     FeedHandler.on_cross_trade fh1 msg ts =
     if decide (dropped (endian.be16_to_host (CrossTradeMessage.stock_locate msg))) then fh1
     else restore (FeedHandler.on_cross_trade (FeedHandler.clear_symbol_filter fh) msg ts)) /\
  FeedHandler.clear_symbol_filter fh1 = FeedHandler.clear_symbol_filter fh.
Proof.
  intros fh1 restore dropped.
  assert (Hclear : forall L,
    FeedHandler.filtered_out (FeedHandler.clear_symbol_filter fh) L = false) by done.
  assert (Hfh1 : fh1 = with_filter (FeedHandler.clear_symbol_filter fh) locates
                         (negb (bool_decide (locates = ∅)))) by done.
  split; [|split; [|split; [|done]]].
  - intros msg ts. pose proof (filtered_out_set fh locates (msg_locate msg)) as Hset.
    fold fh1 in Hset. unfold dropped. destruct (decide _) as [Hd|Hd].
    + apply handle_filtered. by rewrite Hset, bool_decide_eq_true_2.
    + rewrite bool_decide_eq_false_2 in Hset by done. rewrite Hfh1 in Hset |- *.
      rewrite handle_with_filter by done.
      destruct (handle (FeedHandler.clear_symbol_filter fh) msg ts); done.
  - intros msg ts.
    pose proof (filtered_out_set fh locates
                  (endian.be16_to_host (TradeMessage.stock_locate msg))) as Hset.
    fold fh1 in Hset. unfold dropped, FeedHandler.on_trade. cbv zeta.
    rewrite Hset, Hclear. destruct (decide _) as [Hd|Hd].
    + by rewrite bool_decide_eq_true_2.
    + by rewrite bool_decide_eq_false_2.
  - intros msg ts.
    pose proof (filtered_out_set fh locates
                  (endian.be16_to_host (CrossTradeMessage.stock_locate msg))) as Hset.
    fold fh1 in Hset. unfold dropped, FeedHandler.on_cross_trade. cbv zeta.
    rewrite Hset, Hclear. destruct (decide _) as [Hd|Hd].
    + by rewrite bool_decide_eq_true_2.
    + by rewrite bool_decide_eq_false_2.
Qed.

(** *** Counters and trade reports *)



(** What [execute_order] returns for an order of the book. *)
Lemma execute_order_result (b : OrderBook.t) (pool : ObjectPool.t) (id qty : Z) (p : ptr) :
  book_ok b pool -> OrderBook.get_order b id = Some (Some p) -> 0 <= qty ->
  exists b' pool',
    OrderBook.execute_order b pool id qty =
    Some (Z.min qty (Order.quantity (ObjectPool.deref pool p)), b', pool').
Proof.
  intros Hok Hg Hq. destruct (bk_index _ _ Hok) as [abs Hix].
  apply (get_order_Some b pool abs) in Hg; [|done].
  destruct (resting_level b pool abs id p Hok Hix Hg) as (l & Hl & _).
  destruct (decide (Z.min qty (Order.quantity (ObjectPool.deref pool p)) =
                    Order.quantity (ObjectPool.deref pool p))) as [Heq|Hne].
  - destruct (execute_full b pool abs id qty p l Hok Hix Hg Hq Hl Heq)
      as (orders' & _ & Hrun & _). cbv zeta in Hrun. eauto.
  - destruct (execute_partial b pool abs id qty p l Hok Hix Hg Hq Hl Hne) as (Hrun & _).
    eauto.
Qed.

(** X27: the trade reports of the order handlers. On books that are
    well-formed and share no order, with a subscriber attached, the handler
    of an order message that passes the filter, for a locate below
    [MAX_SYMBOLS], returns and reports at most one trade, before the BBO
    update if there is one, and only for an execution message whose order
    is in the book. The trade carries the locate, id, match number and
    executed shares of the message and the side of the order, with the
    price of the resting order (Order Executed) or the execution price of
    the message (Order Executed With Price); the executed shares are
    reported as the message states them, also when the book executes less
    because the order holds less. *)
Theorem X27_execution_trades (fh : FeedHandler.t) (msg : OrderMessage) (ts : Z)
        (calls : list FeedEvent) :
  mgr_wf (FeedHandler.book_manager_ fh) ->
  FeedHandler.event_handler_ fh = Some calls ->
  FeedHandler.filtered_out fh (msg_locate msg) = false ->
  msg_locate msg < OrderBookManager.MAX_SYMBOLS ->
  exists fh' m book book' pool' trades,
    handle fh msg ts = Some fh' /\
    OrderBookManager.get_book (FeedHandler.book_manager_ fh) (msg_locate msg) = Some m /\
    OrderBookManager.books_ m !! Z.to_nat (msg_locate msg) = Some book /\
    run_op (msg_op msg ts) (book, OrderBookManager.order_pool m) = Some (book', pool') /\
    calls_of fh' =
      calls ++ (on_trade_event <$> trades) ++
      (if FeedHandler.bbo_changed (OrderBook.bbo book) (OrderBook.bbo book')
       then [on_bbo_update_event
               (BBOEvent.mk (msg_locate msg) (OrderBook.bbo book) (OrderBook.bbo book') ts)]
       else []) /\
    (executed_id msg = None -> trades = []) /\
    (forall id, executed_id msg = Some id -> OrderBook.get_order book id = Some None ->
       trades = [] /\ book' = book /\ pool' = OrderBookManager.order_pool m) /\
    (forall id p, executed_id msg = Some id ->
       OrderBook.get_order book id = Some (Some p) ->
       let o := ObjectPool.deref (OrderBookManager.order_pool m) p in
       trades = execution_of msg ts o /\
       exists e q,
         trades = [e] /\ msg_op msg ts = op_execute id q /\
         TradeEvent.stock_locate e = msg_locate msg /\
         TradeEvent.order_ref e = id /\
         TradeEvent.quantity e = q /\
         TradeEvent.side e = Order.side o /\
         TradeEvent.timestamp e = ts /\
         OrderBook.execute_order book (OrderBookManager.order_pool m) id q =
           Some (Z.min q (Order.quantity o), book', pool')).
Proof.
  intros Hwf Hcalls Hf HL.
  destruct (handle_shared fh msg ts Hwf Hf HL)
    as (m & book & book' & pool' & Hg & Hbook & Hok & Hrun & _ & _ & Hh).
  exists (FeedHandler.notify_bbo
            (FeedHandler.with_state fh (FeedHandler.commit m (msg_locate msg) book' pool')
               (msg_count fh msg)
               ((fun calls => calls ++ (on_trade_event <$>
                                          msg_trades msg ts book
                                            (OrderBookManager.order_pool m)))
                  <$> FeedHandler.event_handler_ fh))
            (msg_locate msg) (FeedHandler.snapshot fh book) (OrderBook.bbo book') ts),
    m, book, book', pool', (msg_trades msg ts book (OrderBookManager.order_pool m)).
  do 4 (split; [done|]). split; [|split; [|split]].
  - rewrite Hcalls. cbn [fmap option_fmap option_map].
    assert (Hsnap : FeedHandler.snapshot fh book = OrderBook.bbo book)
      by (unfold FeedHandler.snapshot; by rewrite Hcalls).
    rewrite Hsnap.
    destruct (notify_bbo_attached fh (FeedHandler.commit m (msg_locate msg) book' pool')
                (msg_count fh msg)
                (calls ++ (on_trade_event <$>
                             msg_trades msg ts book (OrderBookManager.order_pool m)))
                (msg_locate msg) (OrderBook.bbo book) (OrderBook.bbo book') ts)
      as (_ & Hc & _).
    rewrite Hc. by rewrite <- app_assoc.
  - intros Hnone. unfold msg_trades. by rewrite Hnone.
  - intros id Hid Hnf. unfold msg_trades. rewrite Hid, Hnf. split; [done|].
    unfold OrderBookManager.order_pool in *.
    destruct msg; try discriminate Hid; cbn [executed_id] in Hid; injection Hid as <-;
      cbn [msg_op run_op fst snd] in Hrun;
      rewrite execute_order_absent in Hrun by done; by injection Hrun as <- <-.
  - intros id p Hid Hfound. cbv zeta. unfold msg_trades. rewrite Hid, Hfound.
    split; [done|]. unfold OrderBookManager.order_pool in *.
    destruct msg as [a|a|a|a|a|a|a]; try discriminate Hid; cbn [executed_id] in Hid;
      injection Hid as <-; cbn [msg_op run_op fst snd execution_of msg_locate] in *.
    + destruct (execute_order_result book (OrderBookManager.order_pool_ m) _
                  (endian.be32_to_host (OrderExecutedMessage.executed_shares a)) p
                  Hok Hfound ltac:(pose proof (be32_range
                     (OrderExecutedMessage.executed_shares a)); lia))
        as (b1 & p1 & He).
      rewrite He in Hrun. injection Hrun as <- <-.
      eexists _, _. split; [done|]. split; [done|]. by repeat split.
    + destruct (execute_order_result book (OrderBookManager.order_pool_ m) _
                  (endian.be32_to_host (OrderExecutedPriceMessage.executed_shares a)) p
                  Hok Hfound ltac:(pose proof (be32_range
                     (OrderExecutedPriceMessage.executed_shares a)); lia))
        as (b1 & p1 & He).
      rewrite He in Hrun. injection Hrun as <- <-.
      eexists _, _. split; [done|]. split; [done|]. by repeat split.
Qed.

(** ** Instances of the orchestrator theorems *)

Lemma fh_attached_wf : mgr_wf (FeedHandler.book_manager_ fh_attached).
Proof.
  assert (Hm : FeedHandler.book_manager_ fh_attached = mgr_new).
  { pose proof feed_new_some as Hn. unfold FeedHandler.new in Hn.
    rewrite manager_new_some in Hn. cbn [mbind option_bind] in Hn.
    apply (inj Some) in Hn. unfold fh_attached, FeedHandler.set_event_handler.
    cbn [FeedHandler.book_manager_]. by rewrite <- Hn. }
  rewrite Hm. apply manager_new_wf.
Qed.

Lemma fh_resting_wf : mgr_wf (FeedHandler.book_manager_ fh_resting).
Proof.
  destruct (handle_shared fh_attached (add_msg 1 7 1001 Side_Buy 500 1500000) 7
              fh_attached_wf) as (m & book & book' & pool' & _ & _ & _ & _ & _ & Hwf & Hh);
    [by vm_compute|by vm_compute|].
  unfold fh_resting. rewrite Hh. cbv [default from_option id]. by rewrite notify_bbo_manager.
Qed.

Lemma feed_four_in_range :
  Forall (fun mt => FeedHandler.filtered_out fh_attached (msg_locate mt.1) = true \/
                    msg_locate mt.1 < OrderBookManager.MAX_SYMBOLS) feed_four.
Proof. unfold feed_four. repeat (apply Forall_cons; split; [by right|]). constructor. Qed.

(** An execution of 200 of the 500 shares, and one of 700 shares: both are
    reported as the message states them. *)
Example execution_scenario :
  (fh' ← run_feed [(executed_msg 1 8 1001 200 77, 8); (executed_msg 1 9 1001 700 78, 9)]
                  fh_resting;
   b ← OrderBookManager.books_ (FeedHandler.book_manager_ fh') !! 1%nat;
   Some ((fun e => (TradeEvent.price e, TradeEvent.quantity e, TradeEvent.match_number e))
           <$> trade_events (calls_of fh'),
         OrderBook.order_count b, OrderBook.bbo b)) =
  Some ([(1500000, 200, 77); (1500000, 700, 78)], 0, BBO.init).
Proof. vm_compute. reflexivity. Qed.

(** The theorem on [fh_attached] and [feed_four]. *)
Lemma X24_witness :
  mgr_wf (FeedHandler.book_manager_ fh_attached) /\
  Forall (fun mt => FeedHandler.filtered_out fh_attached (msg_locate mt.1) = true \/
                      msg_locate mt.1 < OrderBookManager.MAX_SYMBOLS) feed_four /\
  (exists fh',
      run_feed feed_four fh_attached = Some fh' /\
      mgr_run (feed_steps fh_attached feed_four) (FeedHandler.book_manager_ fh_attached) =
        Some (FeedHandler.book_manager_ fh') /\
      mgr_wf (FeedHandler.book_manager_ fh') /\
      FeedHandler.symbol_filter_ fh' = FeedHandler.symbol_filter_ fh_attached /\
      FeedHandler.use_filter_ fh' = FeedHandler.use_filter_ fh_attached /\
      FeedHandler.collect_metrics_ fh' = FeedHandler.collect_metrics_ fh_attached /\
      (FeedHandler.event_handler_ fh_attached = None -> FeedHandler.event_handler_ fh' = None)).
Proof.
  split; [apply fh_attached_wf|]. split; [apply feed_four_in_range|].
  apply (X24_feed_books fh_attached feed_four);
    [apply fh_attached_wf|apply feed_four_in_range].
Defined.


(** The theorem on [fh_resting] for an execution of 200 shares of its order.
    *)
Lemma X27_witness :
  mgr_wf (FeedHandler.book_manager_ fh_resting) /\
  FeedHandler.event_handler_ fh_resting = Some (calls_of fh_resting) /\
  FeedHandler.filtered_out fh_resting (msg_locate (executed_msg 1 8 1001 200 77)) = false /\
  msg_locate (executed_msg 1 8 1001 200 77) < OrderBookManager.MAX_SYMBOLS /\
  (exists fh' m book book' pool' trades,
      handle fh_resting (executed_msg 1 8 1001 200 77) 8 = Some fh' /\
      OrderBookManager.get_book (FeedHandler.book_manager_ fh_resting) (msg_locate
          (executed_msg 1 8 1001 200 77)) = Some m /\
      OrderBookManager.books_ m !! Z.to_nat (msg_locate (executed_msg 1 8 1001 200 77)) =
          Some book /\
      run_op (msg_op (executed_msg 1 8 1001 200 77) 8) (book, OrderBookManager.order_pool m)
          = Some (book', pool') /\
      calls_of fh' =
        (calls_of fh_resting) ++ (on_trade_event <$> trades) ++
        (if FeedHandler.bbo_changed (OrderBook.bbo book) (OrderBook.bbo book')
         then [on_bbo_update_event
                 (BBOEvent.mk (msg_locate (executed_msg 1 8 1001 200 77)) (OrderBook.bbo
                     book) (OrderBook.bbo book') 8)]
         else []) /\
      (executed_id (executed_msg 1 8 1001 200 77) = None -> trades = []) /\
      (forall id, executed_id (executed_msg 1 8 1001 200 77) = Some id ->
          OrderBook.get_order book id = Some None ->
         trades = [] /\ book' = book /\ pool' = OrderBookManager.order_pool m) /\
      (forall id p, executed_id (executed_msg 1 8 1001 200 77) = Some id ->
         OrderBook.get_order book id = Some (Some p) ->
         let o := ObjectPool.deref (OrderBookManager.order_pool m) p in
         trades = execution_of (executed_msg 1 8 1001 200 77) 8 o /\
         exists e q,
           trades = [e] /\ msg_op (executed_msg 1 8 1001 200 77) 8 = op_execute id q /\
           TradeEvent.stock_locate e = msg_locate (executed_msg 1 8 1001 200 77) /\
           TradeEvent.order_ref e = id /\
           TradeEvent.quantity e = q /\
           TradeEvent.side e = Order.side o /\
           TradeEvent.timestamp e = 8 /\
           OrderBook.execute_order book (OrderBookManager.order_pool m) id q =
             Some (Z.min q (Order.quantity o), book', pool'))).
Proof.
  assert (Hc : FeedHandler.event_handler_ fh_resting = Some (calls_of fh_resting))
    by (vm_compute; reflexivity).
  assert (Hf : FeedHandler.filtered_out fh_resting
                 (msg_locate (executed_msg 1 8 1001 200 77)) = false)
    by (vm_compute; reflexivity).
  assert (HL : msg_locate (executed_msg 1 8 1001 200 77) < OrderBookManager.MAX_SYMBOLS)
    by (vm_compute; reflexivity).
  split; [apply fh_resting_wf|]. split; [exact Hc|]. split; [exact Hf|]. split; [exact HL|].
  apply (X27_execution_trades fh_resting (executed_msg 1 8 1001 200 77) 8
           (calls_of fh_resting)); [apply fh_resting_wf|exact Hc|exact Hf|exact HL].
Defined.

(** ** Buffers through the orchestrator *)

(** What the callbacks keep, the loops of [TemplateParser] keep. *)
Section HandlerInvariant.
Context {H : Type} `{!MessageHandler H}.
Variable P : H -> Prop.
Hypothesis on_message_keeps : forall v data ts h, P h -> P (on_message v data ts h).

Lemma template_parse_message_keeps (q : @TemplateParser.t H) (data : list Z) (max_len : Z) :
  P (TemplateParser.handler_ q) ->
  P (TemplateParser.handler_ (TemplateParser.parse_message q data max_len).2).
Proof.
  intros Hq. unfold TemplateParser.parse_message.
  destruct (max_len =? 0); [done|]. cbv zeta.
  destruct (_ || _); [done|]. cbn [snd TemplateParser.handler_].
  unfold TemplateParser.dispatch. destruct (message_type_of _); [|done].
  by apply on_message_keeps.
Qed.

Lemma template_parse_loop_keeps (data : list Z) (len : Z) (fuel : nat) :
  forall (offset r : Z) (q q' : @TemplateParser.t H),
    P (TemplateParser.handler_ q) ->
    TemplateParser.parse_loop fuel q data len offset = Some (r, q') ->
    P (TemplateParser.handler_ q').
Proof.
  induction fuel as [|fuel IH]; intros offset r q q' Hq Hrun; [done|].
  cbn [TemplateParser.parse_loop] in Hrun.
  destruct (offset <? len); [|by injection Hrun as _ <-].
  pose proof (template_parse_message_keeps q (drop (Z.to_nat offset) data) (len - offset)
                Hq) as Hk.
  destruct (TemplateParser.parse_message q _ _) as [c q1]. cbn [snd] in Hk.
  destruct (c =? 0); [by injection Hrun as _ <-|]. by eapply IH.
Qed.

Lemma template_mold_loop_keeps (data : list Z) (len : Z) (remaining : nat) :
  forall (offset n : Z) (q : @TemplateParser.t H),
    P (TemplateParser.handler_ q) ->
    P (TemplateParser.handler_
         (TemplateParser.moldudp64_loop remaining q data len offset n).2).
Proof.
  induction remaining as [|k IH]; intros offset n q Hq; [done|].
  cbn [TemplateParser.moldudp64_loop].
  destruct (_ <=? _); [|done]. cbv zeta. destruct (_ <? _); [done|].
  match goal with |- context [TemplateParser.parse_message q ?d ?m] =>
    pose proof (template_parse_message_keeps q d m Hq) as Hk;
    destruct (TemplateParser.parse_message q d m) as [c q1] end.
  cbn [snd] in Hk. by apply IH.
Qed.
End HandlerInvariant.

(** The handlers that touch no book. *)
Lemma on_trade_inv (fh : FeedHandler.t) (msg : TradeMessage.t) (ts : Z) :
  FeedHandler.book_manager_ (FeedHandler.on_trade fh msg ts) = FeedHandler.book_manager_ fh /\
  FeedHandler.symbol_filter_ (FeedHandler.on_trade fh msg ts) =
    FeedHandler.symbol_filter_ fh /\
  FeedHandler.use_filter_ (FeedHandler.on_trade fh msg ts) = FeedHandler.use_filter_ fh.
Proof. unfold FeedHandler.on_trade. cbv zeta. by destruct (FeedHandler.filtered_out _ _). Qed.

Lemma on_cross_trade_inv (fh : FeedHandler.t) (msg : CrossTradeMessage.t) (ts : Z) :
  FeedHandler.book_manager_ (FeedHandler.on_cross_trade fh msg ts) =
    FeedHandler.book_manager_ fh /\
  FeedHandler.symbol_filter_ (FeedHandler.on_cross_trade fh msg ts) =
    FeedHandler.symbol_filter_ fh /\
  FeedHandler.use_filter_ (FeedHandler.on_cross_trade fh msg ts) = FeedHandler.use_filter_ fh.
Proof.
  unfold FeedHandler.on_cross_trade. cbv zeta. by destruct (FeedHandler.filtered_out _ _).
Qed.

(** Every callback of the parser returns and keeps the invariant. *)
Lemma on_variant_inv (fh : FeedHandler.t) (v : MessageType) (data : list Z) (ts : Z)
      (f : FeedHandler.full) :
  filter_in_range fh -> feed_inv fh f ->
  exists f', FeedHandler.on_variant v data ts f = Some f' /\ feed_inv fh f'.
Proof.
  intros Hrange (Hwf & Hs & Hu).
  assert (Horder : forall msg,
    exists fh1, handle (FeedHandler.state_ f) msg ts = Some fh1 /\
      feed_inv fh (FeedHandler.mkFull fh1 (FeedHandler.symbol_directory_ f)
                     (FeedHandler.symbols_added_ f))).
  { intros msg. pose proof (msg_locate_range msg) as Hr.
    destruct (handle_step (FeedHandler.state_ f) msg ts Hwf) as (fh1 & Hh & _ & Hwf1 & Hs1 &
      Hu1 & _).
    { destruct (FeedHandler.filtered_out (FeedHandler.state_ f) (msg_locate msg)) eqn:Hf;
        [by left|right].
      apply Hrange; [done|]. unfold FeedHandler.filtered_out in *. by rewrite <- Hs, <- Hu. }
    exists fh1. split; [done|]. split; [done|]. cbn [FeedHandler.state_].
    split; congruence. }
  assert (Hkeep : forall fh1,
    FeedHandler.book_manager_ fh1 = FeedHandler.book_manager_ (FeedHandler.state_ f) /\
    FeedHandler.symbol_filter_ fh1 = FeedHandler.symbol_filter_ (FeedHandler.state_ f) /\
    FeedHandler.use_filter_ fh1 = FeedHandler.use_filter_ (FeedHandler.state_ f) ->
    forall d a, feed_inv fh (FeedHandler.mkFull fh1 d a)).
  { intros fh1 (Hm1 & Hs1 & Hu1) d a. unfold feed_inv. cbn [FeedHandler.state_].
    rewrite Hm1, Hs1, Hu1. done. }
  destruct v; cbn [FeedHandler.on_variant]; cbv beta zeta;
    try (eexists; split; [reflexivity|]; apply Hkeep; done).
  - destruct (Horder (msg_add (AddOrderMessage.view data))) as (fh1 & Hh & Hinv).
    cbn [handle] in Hh. rewrite Hh. eauto.
  - destruct (Horder (msg_add_mpid (AddOrderMPIDMessage.view data))) as (fh1 & Hh & Hinv).
    cbn [handle] in Hh. rewrite Hh. eauto.
  - destruct (Horder (msg_executed (OrderExecutedMessage.view data))) as (fh1 & Hh & Hinv).
    cbn [handle] in Hh. rewrite Hh. eauto.
  - destruct (Horder (msg_executed_price (OrderExecutedPriceMessage.view data)))
      as (fh1 & Hh & Hinv).
    cbn [handle] in Hh. rewrite Hh. eauto.
  - destruct (Horder (msg_cancel (OrderCancelMessage.view data))) as (fh1 & Hh & Hinv).
    cbn [handle] in Hh. rewrite Hh. eauto.
  - destruct (Horder (msg_delete (OrderDeleteMessage.view data))) as (fh1 & Hh & Hinv).
    cbn [handle] in Hh. rewrite Hh. eauto.
  - destruct (Horder (msg_replace (OrderReplaceMessage.view data))) as (fh1 & Hh & Hinv).
    cbn [handle] in Hh. rewrite Hh. eauto.
  - eexists. split; [reflexivity|]. apply Hkeep, on_trade_inv.
  - eexists. split; [reflexivity|]. apply Hkeep, on_cross_trade_inv.
Qed.

Lemma on_message_safe (fh : FeedHandler.t) :
  filter_in_range fh ->
  forall v data ts h,
    safe fh h -> safe fh (@on_message _ FeedHandler.handler v data ts h).
Proof.
  intros Hrange v data ts h (f & -> & Hinv). cbn [on_message FeedHandler.handler].
  cbn [mbind option_bind]. destruct (on_variant_inv fh v data ts f Hrange Hinv)
    as (f' & -> & Hinv'). by exists f'.
Qed.

(** X30: buffers through the orchestrator. On books that are well-formed
    and share no order, with a symbol filter that lets pass only locates
    below [MAX_SYMBOLS], [process] returns on every buffer, whatever its
    bytes: no callback indexes the array of books outside its bounds, the
    result is an offset inside the buffer at which the buffer ends or no
    complete message of a known type stands, and the books are again
    well-formed under the same filter. [process_moldudp64] returns under
    the same conditions, with a count of at most the announced
    messages. *)
Theorem X30_process_safe (f : FeedHandler.full) (data : list Z) (len : Z) :
  mgr_wf (FeedHandler.book_manager_ (FeedHandler.state_ f)) ->
  filter_in_range (FeedHandler.state_ f) ->
  0 <= len ->
  (exists r f',
     FeedHandler.process f data len = Some (r, Some f') /\
     0 <= r <= len /\
     (r < len ->
        message_type_of (endian.byte_at data r) = None \/
        exists v, message_type_of (endian.byte_at data r) = Some v /\
                  len - r < sizeof_message v) /\
     feed_inv (FeedHandler.state_ f) f') /\
  (exists n f',
     FeedHandler.process_moldudp64 f data len = (n, Some f') /\
     0 <= n <= endian.be16_to_host (endian.load16 data 18) /\
     feed_inv (FeedHandler.state_ f) f').
Proof.
  intros Hwf Hrange Hlen. set (fh := FeedHandler.state_ f).
  assert (Hsafe : safe fh (Some f)) by (by exists f).
  pose proof (on_message_safe fh Hrange) as Hkeeps.
  split.
  - unfold FeedHandler.process, TemplateParser.parse.
    destruct (@template_parse_loop_spec _ FeedHandler.handler data len (S (Z.to_nat len)) 0
                (TemplateParser.mk (Some f) ParserStats.init) ltac:(lia) ltac:(lia))
      as (r & q' & Hrun & Hr & _ & Hstop).
    pose proof (@template_parse_loop_keeps _ FeedHandler.handler (safe fh) Hkeeps data len
                  (S (Z.to_nat len)) 0 r (TemplateParser.mk (Some f) ParserStats.init) q'
                  Hsafe Hrun) as (f' & Hf' & Hinv).
    rewrite Hrun. cbn [mbind option_bind]. exists r, f'. rewrite Hf'.
    split; [done|]. split; [lia|]. split; [exact Hstop|exact Hinv].
  - unfold FeedHandler.process_moldudp64, TemplateParser.parse_moldudp64,
      TemplateParser.MOLDUDP64_HEADER_SIZE.
    pose proof (be16_range (endian.load16 data 18)) as Hann.
    destruct (len <? 20).
    + exists 0, f. split; [done|]. split; [lia|]. done.
    + cbv zeta.
      pose proof (@template_mold_loop_bound _ FeedHandler.handler
                    (Z.to_nat (endian.be16_to_host (endian.load16 data 18))) data len
                    (TemplateParser.mk (Some f) ParserStats.init) 20 0) as [Hn _].
      pose proof (@template_mold_loop_keeps _ FeedHandler.handler (safe fh) Hkeeps data len
                    (Z.to_nat (endian.be16_to_host (endian.load16 data 18))) 20 0
                    (TemplateParser.mk (Some f) ParserStats.init) Hsafe)
        as (f' & Hf' & Hinv).
      destruct (TemplateParser.moldudp64_loop _ _ _ _ _ _) as [n q'].
      cbn [fst snd] in *. exists n, f'. rewrite Hf'. split; [done|]. split; [lia|done].
Qed.

(** ** Instances of the buffer theorem *)

Lemma feed_filtered_in_range : filter_in_range (FeedHandler.state_ feed_filtered).
Proof.
  intros L _ Hf. unfold feed_filtered in Hf. cbn [FeedHandler.state_] in Hf.
  rewrite filtered_out_set in Hf. apply bool_decide_eq_false in Hf.
  destruct (decide (L = 1)) as [->|Hne]; [done|]. exfalso. apply Hf.
  split; [|by rewrite elem_of_singleton].
  intros He. assert (H1 : (1 : Z) ∈ ({[1]} : gset Z)) by (by apply elem_of_singleton).
  rewrite He in H1. by apply not_elem_of_empty in H1.
Qed.

(** With the filter the second message is dropped; without it, its
    handler indexes the array of books at 9000. *)
Example process_scenario :
  ('(r, h) ← FeedHandler.process feed_filtered buffer_two 73;
   f ← h;
   b ← OrderBookManager.books_ (FeedHandler.book_manager_ (FeedHandler.state_ f)) !! 1%nat;
   Some (r, OrderBook.order_count b, OrderBook.bbo b)) =
    Some (72, 1, BBO.mk 1500000 PRICE_MAX 500 0) /\
  ('(r, h) ← FeedHandler.process feed_open buffer_two 73;
   Some (r, match h with Some _ => true | None => false end)) = Some (72, false).
Proof. split; vm_compute; reflexivity. Qed.

(** The theorem on [feed_filtered] and [buffer_two]. *)
Lemma X30_witness :
  mgr_wf (FeedHandler.book_manager_ (FeedHandler.state_ feed_filtered)) /\
  filter_in_range (FeedHandler.state_ feed_filtered) /\
  0 <= 73 /\
  ((exists r f',
       FeedHandler.process feed_filtered buffer_two 73 = Some (r, Some f') /\
       0 <= r <= 73 /\
       (r < 73 ->
          message_type_of (endian.byte_at buffer_two r) = None \/
          exists v, message_type_of (endian.byte_at buffer_two r) = Some v /\
                    73 - r < sizeof_message v) /\
       feed_inv (FeedHandler.state_ feed_filtered) f') /\
    (exists n f',
       FeedHandler.process_moldudp64 feed_filtered buffer_two 73 = (n, Some f') /\
       0 <= n <= endian.be16_to_host (endian.load16 buffer_two 18) /\
       feed_inv (FeedHandler.state_ feed_filtered) f')).
Proof.
  split; [apply fh_attached_wf|]. split; [apply feed_filtered_in_range|]. split; [lia|].
  apply (X30_process_safe feed_filtered buffer_two 73);
    [apply fh_attached_wf|apply feed_filtered_in_range|lia].
Defined.

(** ** The symbol directory *)

Lemma count_active_shift (a : Z) (l : list SymbolDirectory.SymbolInfo) :
  count_active a l = a + count_active 0 l.
Proof.
  revert a. induction l as [|x l IH]; intros a; unfold count_active in *; simpl; [lia|].
  rewrite (IH (if SymbolDirectory.is_active x then a + 1 else a)),
          (IH (if SymbolDirectory.is_active x then 0 + 1 else 0)).
  destruct (SymbolDirectory.is_active x); lia.
Qed.

Lemma count_active_cons (x : SymbolDirectory.SymbolInfo)
      (l : list SymbolDirectory.SymbolInfo) :
  count_active 0 (x :: l) =
  (if SymbolDirectory.is_active x then 1 else 0) + count_active 0 l.
Proof.
  change (count_active 0 (x :: l))
    with (count_active (if SymbolDirectory.is_active x then 0 + 1 else 0) l).
  rewrite count_active_shift. by destruct (SymbolDirectory.is_active x).
Qed.

Lemma count_active_app (l1 l2 : list SymbolDirectory.SymbolInfo) :
  count_active 0 (l1 ++ l2) = count_active 0 l1 + count_active 0 l2.
Proof.
  induction l1 as [|x l1 IH]; [done|]. simpl app. rewrite !count_active_cons, IH. lia.
Qed.

Lemma count_active_blank (n : nat) :
  count_active 0 (replicate n SymbolDirectory.blank) = 0.
Proof. induction n as [|n IH]; [done|]. simpl replicate. by rewrite count_active_cons, IH. Qed.

Lemma count_active_insert (l : list SymbolDirectory.SymbolInfo) (i : nat)
      (x y : SymbolDirectory.SymbolInfo) :
  l !! i = Some y ->
  count_active 0 (<[i:=x]> l) =
  count_active 0 l - (if SymbolDirectory.is_active y then 1 else 0)
  + (if SymbolDirectory.is_active x then 1 else 0).
Proof.
  revert i. induction l as [|z l IH]; intros i Hl; [done|].
  destruct i as [|i]; cbn [lookup list_lookup] in Hl.
  - injection Hl as ->. change (<[0%nat:=x]> (y :: l)) with (x :: l).
    rewrite !count_active_cons. lia.
  - change (<[S i:=x]> (z :: l)) with (z :: <[i:=x]> l).
    rewrite !count_active_cons, (IH i Hl). lia.
Qed.

Lemma resized_length (d : SymbolDirectory.t) (L : Z) :
  0 <= L -> (Z.to_nat L < length (resized d L))%nat /\
            (length (SymbolDirectory.symbols_ d) <= length (resized d L))%nat.
Proof.
  intros HL. unfold resized. destruct (Z.leb_spec (Z.of_nat (length (SymbolDirectory.symbols_ d))) L).
  - rewrite length_app, length_replicate. lia.
  - lia.
Qed.

(** Looking up a slot of the resized vector: a slot of the old vector, or
    a value-initialised one. *)
Lemma resized_lookup (d : SymbolDirectory.t) (L : Z) (i : nat) :
  0 <= L ->
  resized d L !! i =
  match SymbolDirectory.symbols_ d !! i with
  | Some x => Some x
  | None => if decide (i < length (resized d L))%nat then Some SymbolDirectory.blank else None
  end.
Proof.
  intros HL. unfold resized.
  destruct (Z.leb_spec (Z.of_nat (length (SymbolDirectory.symbols_ d))) L) as [Hle|Hgt].
  - destruct (SymbolDirectory.symbols_ d !! i) as [x|] eqn:E.
    + by rewrite lookup_app_l, E by (by eapply lookup_lt_Some).
    + apply lookup_ge_None in E. rewrite lookup_app_r by done.
      rewrite length_app, length_replicate.
      destruct (decide _) as [Hlt|Hge].
      * apply lookup_replicate_2. lia.
      * apply lookup_ge_None. rewrite length_replicate. lia.
  - destruct (SymbolDirectory.symbols_ d !! i) as [x|] eqn:E; [done|].
    apply lookup_ge_None in E. rewrite decide_False by lia. done.
Qed.

Lemma get_info_resized (d : SymbolDirectory.t) (L L' : Z) :
  0 <= L -> 0 <= L' ->
  SymbolDirectory.get_info (SymbolDirectory.mk (resized d L) (SymbolDirectory.symbol_to_locate_ d))
    L' = SymbolDirectory.get_info d L'.
Proof.
  intros HL HL'. unfold SymbolDirectory.get_info. cbn [SymbolDirectory.symbols_].
  rewrite (resized_lookup d L) by done. pose proof (resized_length d L HL) as [_ Hlen].
  destruct (SymbolDirectory.symbols_ d !! Z.to_nat L') as [x|] eqn:E.
  - pose proof (lookup_lt_Some _ _ _ E) as Hlt.
    destruct (Z.leb_spec (Z.of_nat (length (resized d L))) L'); [lia|].
    destruct (Z.leb_spec (Z.of_nat (length (SymbolDirectory.symbols_ d))) L'); [lia|done].
  - apply lookup_ge_None in E.
    destruct (Z.leb_spec (Z.of_nat (length (SymbolDirectory.symbols_ d))) L'); [|lia].
    destruct (Z.leb_spec (Z.of_nat (length (resized d L))) L'); [done|].
    by rewrite decide_True by lia.
Qed.

(** X28: the symbol directory. After [add_symbol(L, s, ..)] [get_info(L)]
    returns the new entry, active, and [get_locate(s)] returns [L]; the
    entries of the other locates and the locates of the other symbols are
    as before, also when the vector had to grow; [symbol_count()] grows by
    one exactly when [L] had no active entry. The map is never cleaned: when
    [L] is added again under another symbol, [get_locate] of the first
    symbol still returns [L]. *)
Theorem X28_symbol_directory (d : SymbolDirectory.t) (L : Z) (s : Symbol.t) (mc fs : Z) :
  0 <= L ->
  let d' := SymbolDirectory.add_symbol d L s mc fs in
  SymbolDirectory.get_info d' L = Some (SymbolDirectory.mkInfo s mc fs true) /\
  (forall L', 0 <= L' -> L' <> L ->
     SymbolDirectory.get_info d' L' = SymbolDirectory.get_info d L') /\
  SymbolDirectory.get_locate d' s = Some L /\
  (forall s', s' <> s -> SymbolDirectory.get_locate d' s' = SymbolDirectory.get_locate d s') /\
  SymbolDirectory.symbol_count d' =
    SymbolDirectory.symbol_count d +
    match SymbolDirectory.get_info d L with Some _ => 0 | None => 1 end /\
  (forall s2 mc2 fs2, s2 <> s ->
     let d2 := SymbolDirectory.add_symbol d' L s2 mc2 fs2 in
     SymbolDirectory.get_locate d2 s = Some L /\
     SymbolDirectory.get_info d2 L = Some (SymbolDirectory.mkInfo s2 mc2 fs2 true)).
Proof.
  intros HL d'.
  assert (Hinfo : forall d0 x,
    SymbolDirectory.get_info
      (SymbolDirectory.add_symbol d0 L (SymbolDirectory.symbol x)
         (SymbolDirectory.market_category x) (SymbolDirectory.financial_status x)) L =
    Some (SymbolDirectory.mkInfo (SymbolDirectory.symbol x)
            (SymbolDirectory.market_category x) (SymbolDirectory.financial_status x) true)).
  { intros d0 x. unfold SymbolDirectory.add_symbol, SymbolDirectory.get_info. cbv zeta.
    cbn [SymbolDirectory.symbols_]. fold (resized d0 L).
    pose proof (resized_length d0 L HL) as [Hlt _].
    rewrite length_insert.
    destruct (Z.leb_spec (Z.of_nat (length (resized d0 L))) L); [lia|].
    by rewrite list_lookup_insert_eq. }
  assert (Hd' : d' = SymbolDirectory.mk
                       (<[Z.to_nat L := SymbolDirectory.mkInfo s mc fs true]> (resized d L))
                       (<[s := L]> (SymbolDirectory.symbol_to_locate_ d))) by done.
  split; [exact (Hinfo d (SymbolDirectory.mkInfo s mc fs true))|].
  split; [|split; [|split; [|split]]].
  - intros L' HL' Hne. rewrite <- (get_info_resized d L L') by done.
    rewrite Hd'. unfold SymbolDirectory.get_info. cbn [SymbolDirectory.symbols_].
    rewrite length_insert, list_lookup_insert_ne by lia. done.
  - rewrite Hd'. unfold SymbolDirectory.get_locate. cbn [SymbolDirectory.symbol_to_locate_].
    apply lookup_insert_eq.
  - intros s' Hne. rewrite Hd'. unfold SymbolDirectory.get_locate.
    cbn [SymbolDirectory.symbol_to_locate_]. by apply lookup_insert_ne.
  - rewrite Hd'. unfold SymbolDirectory.symbol_count. cbn [SymbolDirectory.symbols_].
    fold (count_active 0 (<[Z.to_nat L:=SymbolDirectory.mkInfo s mc fs true]> (resized d L))).
    fold (count_active 0 (SymbolDirectory.symbols_ d)).
    pose proof (resized_length d L HL) as [Hlt _].
    destruct (lookup_lt_is_Some_2 _ _ Hlt) as [y Hy].
    rewrite (count_active_insert _ _ _ y Hy). cbn [SymbolDirectory.is_active].
    assert (Hcount : count_active 0 (resized d L) = count_active 0 (SymbolDirectory.symbols_ d)).
    { unfold resized. destruct (_ <=? _); [|done].
      rewrite count_active_app, count_active_blank. lia. }
    rewrite Hcount. rewrite <- (get_info_resized d L L) by done.
    unfold SymbolDirectory.get_info. cbn [SymbolDirectory.symbols_]. rewrite Hy.
    destruct (Z.leb_spec (Z.of_nat (length (resized d L))) L); [lia|].
    destruct (SymbolDirectory.is_active y); lia.
  - intros s2 mc2 fs2 Hne d2. split.
    + unfold d2, SymbolDirectory.add_symbol, SymbolDirectory.get_locate. cbv zeta.
      cbn [SymbolDirectory.symbol_to_locate_ SymbolDirectory.symbol].
      rewrite lookup_insert_ne by done. rewrite Hd'.
      cbn [SymbolDirectory.symbol_to_locate_]. apply lookup_insert_eq.
    + exact (Hinfo d' (SymbolDirectory.mkInfo s2 mc2 fs2 true)).
Qed.

(** ** The latency histogram *)

Lemma bucket_of_range (l : Z) : 0 <= l -> 0 <= bucket_of l < 100.
Proof.
  intros Hl. unfold bucket_of, LatencyHistogram.BUCKET_SIZE_NS, LatencyHistogram.NUM_BUCKETS.
  assert (0 <= l / 100) by (apply Z.div_pos; lia). lia.
Qed.

Lemma in_bucket_length (i : nat) (ls : list Z) : (length (in_bucket i ls) <= length ls)%nat.
Proof. apply length_filter. Qed.

Lemma foldr_min_comm (x a : Z) (ls : list Z) :
  foldr Z.min a (ls ++ [x]) = Z.min (foldr Z.min a ls) x.
Proof. induction ls as [|y ls IH]; simpl; [lia|]. rewrite IH. lia. Qed.

Lemma foldr_max_comm (x a : Z) (ls : list Z) :
  foldr Z.max a (ls ++ [x]) = Z.max (foldr Z.max a ls) x.
Proof. induction ls as [|y ls IH]; simpl; [lia|]. rewrite IH. lia. Qed.

Lemma foldr_add_comm (x : Z) (ls : list Z) :
  foldr Z.add 0 (ls ++ [x]) = foldr Z.add 0 ls + x.
Proof. induction ls as [|y ls IH]; simpl; [lia|]. rewrite IH. lia. Qed.

Lemma init_summarises : summarises LatencyHistogram.init [].
Proof.
  split; try done. intros i Hi. unfold LatencyHistogram.init.
  cbn [LatencyHistogram.buckets_]. by apply lookup_replicate_2.
Qed.

Lemma record_summarises (h : LatencyHistogram.t) (ls : list Z) (l : Z) :
  summarises h ls -> 0 <= l -> Z.of_nat (length ls) + 1 < 2 ^ 64 ->
  summarises (LatencyHistogram.record h l) (ls ++ [l]).
Proof.
  intros [Hc Hlen Hb Ht Hmin Hmax] Hl Hn. pose proof (bucket_of_range l Hl) as Hr.
  unfold LatencyHistogram.record. cbv zeta. fold (bucket_of l).
  split; cbn [LatencyHistogram.count_ LatencyHistogram.buckets_ LatencyHistogram.total_
              LatencyHistogram.min_ LatencyHistogram.max_].
  - rewrite Hc, length_app. simpl length. unfold wrap64. rewrite Z.mod_small; lia.
  - by rewrite length_insert.
  - intros i Hi. pose proof (in_bucket_length i ls) as Hle. specialize (Hb i Hi).
    unfold in_bucket in *. rewrite filter_app, length_app.
    set (k := length (filter (fun l0 => bucket_of l0 = Z.of_nat i) ls)) in *.
    clearbody k.
    destruct (decide (i = Z.to_nat (bucket_of l))) as [->|Hne].
    + rewrite list_lookup_insert_eq by (by rewrite Hlen). rewrite Hb.
      cbv [default from_option id].
      rewrite filter_cons_True by (cbv beta; lia). cbn [filter list_filter length].
      unfold wrap64. rewrite Z.mod_small by lia. f_equal. lia.
    + rewrite list_lookup_insert_ne by done. rewrite Hb.
      rewrite filter_cons_False by (cbv beta; lia). cbn [filter list_filter length]. f_equal. lia.
  - rewrite Ht, foldr_add_comm. unfold wrap64. by rewrite Zplus_mod_idemp_l.
  - by rewrite Hmin, foldr_min_comm.
  - by rewrite Hmax, foldr_max_comm.
Qed.

Lemma recorded_summarises (ls : list Z) :
  Forall (fun l => 0 <= l) ls -> Z.of_nat (length ls) < 2 ^ 64 ->
  summarises (foldl LatencyHistogram.record LatencyHistogram.init ls) ls.
Proof.
  induction ls as [|l ls IH] using rev_ind; intros Hall Hn; [apply init_summarises|].
  apply Forall_app in Hall as [Hall Hl]. apply Forall_inv in Hl.
  rewrite length_app in Hn. simpl in Hn. rewrite foldl_app. simpl.
  apply record_summarises; [apply IH; [done|lia]|exact Hl|lia].
Qed.

Lemma filter_ext_in (P Q : Z -> Prop) `{!forall x, Decision (P x)}
      `{!forall x, Decision (Q x)} (ls : list Z) :
  (forall l, l ∈ ls -> P l <-> Q l) -> filter P ls = filter Q ls.
Proof.
  induction ls as [|x ls IH]; intros Hpq; [done|].
  assert (Hx : P x <-> Q x) by (apply Hpq; left).
  assert (Hls : filter P ls = filter Q ls)
    by (apply IH; intros l Hl; apply Hpq; by right).
  destruct (decide (P x)) as [Hp|Hp].
  - rewrite !filter_cons_True by tauto. by rewrite Hls.
  - rewrite !filter_cons_False by tauto. done.
Qed.

(** X29: the latency histogram. After [record] of fewer than 2^64
    samples, starting from a new or reset histogram, [count()] is the
    number of samples, bucket [i] holds the number of samples whose
    latency divided by 100 is [i], the last of the 100 buckets taking
    every sample from 9900 ns on, so that no write leaves the array;
    [min()] and [max()] are the least and the greatest sample (the
    greatest 64-bit value and 0 when there is none), and [total_] is the
    sum of the samples as a 64-bit counter. *)
Theorem X29_latency_histogram (h0 : LatencyHistogram.t) (ls : list Z) :
  Forall (fun l => 0 <= l < 2 ^ 64) ls -> Z.of_nat (length ls) < 2 ^ 64 ->
  let h := foldl LatencyHistogram.record (LatencyHistogram.reset h0) ls in
  LatencyHistogram.reset h0 = LatencyHistogram.init /\
  LatencyHistogram.count h = Z.of_nat (length ls) /\
  length (LatencyHistogram.buckets_ h) = Z.to_nat LatencyHistogram.NUM_BUCKETS /\
  (forall i : nat, (i < 99)%nat ->
     LatencyHistogram.buckets_ h !! i =
     Some (Z.of_nat (length (filter (fun l => l / 100 = Z.of_nat i) ls)))) /\
  LatencyHistogram.buckets_ h !! 99%nat =
    Some (Z.of_nat (length (filter (fun l => 9900 <= l) ls))) /\
  (forall l, l ∈ ls -> LatencyHistogram.min h <= l <= LatencyHistogram.max h) /\
  (ls <> [] -> LatencyHistogram.min h ∈ ls /\ LatencyHistogram.max h ∈ ls) /\
  (ls = [] -> LatencyHistogram.min h = LatencyHistogram.UINT64_MAX /\
              LatencyHistogram.max h = 0) /\
  LatencyHistogram.total_ h = wrap64 (foldr Z.add 0 ls).
Proof.
  intros Hall Hn h.
  assert (Hpos : Forall (fun l => 0 <= l) ls)
    by (eapply Forall_impl; [exact Hall|]; simpl; intros; lia).
  destruct (recorded_summarises ls Hpos Hn) as [Hc Hlen Hb Ht Hmin Hmax].
  change (foldl LatencyHistogram.record LatencyHistogram.init ls) with h in *.
  split; [done|]. split; [done|]. split; [done|].
  assert (Hfilter : forall (P Q : Z -> Prop) `{!forall x, Decision (P x)}
                      `{!forall x, Decision (Q x)},
            (forall l, l ∈ ls -> P l <-> Q l) -> length (filter P ls) = length (filter Q ls)).
  { intros P Q ? ? Hpq. f_equal. by apply filter_ext_in. }
  split; [|split; [|split; [|split; [|split]]]].
  - intros i Hi. rewrite (Hb i ltac:(lia)). f_equal. f_equal. unfold in_bucket.
    apply Hfilter. intros l Hin. rewrite Forall_forall in Hpos. specialize (Hpos l Hin).
    unfold bucket_of, LatencyHistogram.BUCKET_SIZE_NS, LatencyHistogram.NUM_BUCKETS. lia.
  - rewrite (Hb 99%nat ltac:(lia)). f_equal. f_equal. unfold in_bucket.
    apply Hfilter. intros l Hin. rewrite Forall_forall in Hpos. specialize (Hpos l Hin).
    unfold bucket_of, LatencyHistogram.BUCKET_SIZE_NS, LatencyHistogram.NUM_BUCKETS.
    split; intros Hq; Z.div_mod_to_equations; lia.
  - intros l Hin. unfold LatencyHistogram.min, LatencyHistogram.max. rewrite Hmin, Hmax.
    clear -Hin. induction ls as [|x ls IH]; [by apply elem_of_nil in Hin|].
    simpl. apply elem_of_cons in Hin as [->|Hin]; [lia|]. specialize (IH Hin). lia.
  - intros Hne. unfold LatencyHistogram.min, LatencyHistogram.max. rewrite Hmin, Hmax.
    clear -Hne Hall. induction ls as [|x ls IH]; [done|].
    apply Forall_cons in Hall as [Hx Hall]. simpl. destruct ls as [|y ls].
    + simpl. unfold LatencyHistogram.UINT64_MAX.
      rewrite Z.min_l, Z.max_l by lia. split; apply list_elem_of_here.
    + destruct (IH Hall ltac:(done)) as [Hmn Hmx]. split.
      * destruct (Z.min_spec x (foldr Z.min LatencyHistogram.UINT64_MAX (y :: ls)))
          as [[_ ->]|[_ ->]]; [apply list_elem_of_here|by apply list_elem_of_further].
      * destruct (Z.max_spec x (foldr Z.max 0 (y :: ls)))
          as [[_ ->]|[_ ->]]; [by apply list_elem_of_further|apply list_elem_of_here].
  - intros ->. done.
  - done.
Qed.

(** ** Instances of the directory and histogram theorems *)

Lemma samples_three_typed : Forall (fun l => 0 <= l < 2 ^ 64) samples_three.
Proof. unfold samples_three. repeat (apply Forall_cons; split; [lia|]). constructor. Qed.

Example histogram_scenario :
  let h := foldl LatencyHistogram.record LatencyHistogram.init samples_three in
  (LatencyHistogram.count h, LatencyHistogram.min h, LatencyHistogram.max h,
   LatencyHistogram.buckets_ h !! 0%nat, LatencyHistogram.buckets_ h !! 1%nat,
   LatencyHistogram.buckets_ h !! 99%nat) = (3, 50, 12000, Some 1, Some 1, Some 1).
Proof. vm_compute. reflexivity. Qed.

(** The theorem on the empty directory for AAPL under locate 3. *)
Lemma X28_witness :
  0 <= 3 /\
  (let d' := SymbolDirectory.add_symbol SymbolDirectory.empty 3 symbol_aapl 81 78 in
    SymbolDirectory.get_info d' 3 = Some (SymbolDirectory.mkInfo symbol_aapl 81 78 true) /\
    (forall L', 0 <= L' -> L' <> 3 ->
       SymbolDirectory.get_info d' L' = SymbolDirectory.get_info SymbolDirectory.empty L') /\
    SymbolDirectory.get_locate d' symbol_aapl = Some 3 /\
    (forall s', s' <> symbol_aapl -> SymbolDirectory.get_locate d' s' =
        SymbolDirectory.get_locate SymbolDirectory.empty s') /\
    SymbolDirectory.symbol_count d' =
      SymbolDirectory.symbol_count SymbolDirectory.empty +
      match SymbolDirectory.get_info SymbolDirectory.empty 3 with Some _ => 0 | None => 1 end /\
    (forall s2 mc2 fs2, s2 <> symbol_aapl ->
       let d2 := SymbolDirectory.add_symbol d' 3 s2 mc2 fs2 in
       SymbolDirectory.get_locate d2 symbol_aapl = Some 3 /\
       SymbolDirectory.get_info d2 3 = Some (SymbolDirectory.mkInfo s2 mc2 fs2 true))).
Proof.
  split; [lia|]. apply (X28_symbol_directory SymbolDirectory.empty 3 symbol_aapl 81 78). lia.
Defined.

(** The theorem on [samples_three]. *)
Lemma X29_witness :
  Forall (fun l => 0 <= l < 2 ^ 64) samples_three /\
  Z.of_nat (length samples_three) < 2 ^ 64 /\
  (let h := foldl LatencyHistogram.record (LatencyHistogram.reset LatencyHistogram.init)
      samples_three in
    LatencyHistogram.reset LatencyHistogram.init = LatencyHistogram.init /\
    LatencyHistogram.count h = Z.of_nat (length samples_three) /\
    length (LatencyHistogram.buckets_ h) = Z.to_nat LatencyHistogram.NUM_BUCKETS /\
    (forall i : nat, (i < 99)%nat ->
       LatencyHistogram.buckets_ h !! i =
       Some (Z.of_nat (length (filter (fun l => l / 100 = Z.of_nat i) samples_three)))) /\
    LatencyHistogram.buckets_ h !! 99%nat =
      Some (Z.of_nat (length (filter (fun l => 9900 <= l) samples_three))) /\
    (forall l, l ∈ samples_three -> LatencyHistogram.min h <= l <= LatencyHistogram.max h) /\
    (samples_three <> [] -> LatencyHistogram.min h ∈ samples_three /\ LatencyHistogram.max h
        ∈ samples_three) /\
    (samples_three = [] -> LatencyHistogram.min h = LatencyHistogram.UINT64_MAX /\
                LatencyHistogram.max h = 0) /\
    LatencyHistogram.total_ h = wrap64 (foldr Z.add 0 samples_three)).
Proof.
  assert (Hn : Z.of_nat (length samples_three) < 2 ^ 64) by (simpl; lia).
  split; [apply samples_three_typed|]. split; [exact Hn|].
  apply (X29_latency_histogram LatencyHistogram.init samples_three);
    [apply samples_three_typed|exact Hn].
Defined.
